(* ===== verification/_CoqProject ===== *)
-Q . S2P
Prelude.v
KvRpc.v
KvServer.v
Models.v
KvClerk.v
Lock.v
LeaderLock.v
KvTest.v
KvPutTest.v
KvSpread.v
Fnv.v
ShardCfg.v
GoStrings.v
GoUnicode.v
MrCoordinator.v
MrWorker.v
MrShuffle.v
MrJob.v
MrCluster.v
MrMain.v
MrSequential.v
MrApps.v
MrPrograms.v
MrTiming.v
OldMains.v
Labgob.v
Labrpc.v
KvNet.v
Rand.v
Tester.v
KvPartition.v
Config.v
KvHistory.v
KvSystem.v
Rsm.v
RaftTest.v
RaftOne.v
ShardKv.v
KvSetup.v
KvSpawn.v
ShardPartition.v
