(* ===== verification/Prelude.v ===== *)
(** * Verification of the 6.5840 labs

    The repository ([src/src]) holds the labs of a distributed systems course in Go: a MapReduce
    system, a versioned key/value server with a retrying clerk and locks on top of it, shard
    configurations, the simulated network and the test harness all labs run on, and the
    skeletons of Raft, of the replicated state machine and of the replicated and sharded key/value
    services on top of it.  This development models the code that is written and proves what
    makes it correct; where the code does less than it means to, a theorem says exactly what
    happens.

    ** Conventions

    A Go call returns, exits through [log.Fatalf] or panics: the type [go] of this file, with the
    notation [let!].  Shared objects under a mutex are explicit state: a handler is a function
    from state and request to state and reply.  What runs concurrently is a step relation, with
    invariants by induction on runs ([rtc], [nsteps]).  Machine integers are [Z] with the
    wrap-around written out ([u64], [u32], [i32], [i64]); [int] values that stay far below 2^63
    (lengths, indices, task counts) are left unbounded.  The order in which Go visits a map is
    an argument, so results hold for every order.  Maps are [gmap], strings are byte strings.
    Code of libraries is a parameter: application functions of MapReduce, JSON and gob encodings,
    clocks, random numbers, the Unicode table of letters beyond ASCII.  White space is that of Unicode.

    ** Files

    - [Prelude]: results, integers, slices, loops ([fold_go]), runs, counting and grouping
      lemmas, the doubling pauses of the tests, tactics and hints used by all files.
    - [KvRpc], [KvServer]: [kvsrv1/rpc/rpc.go] and [kvsrv1/server.go]: the map of values and
      versions, [Get] and [Put].
    - [Models]: [models1/kv.go], the sequential specification the tests check histories with;
      the server refines it.
    - [KvClerk]: [kvsrv1/client.go]: the retry loops, [Put] as a machine against the server over
      a network that loses and delays messages, the interface [IKVClerk] of clerks as a class
      with its laws, and the proof that this clerk implements it.
    - [Lock], [LeaderLock]: [kvsrv1/lock/lock.go] and [shardkv1/shardctrler/lock/lock.go]:
      programs over [IKVClerk] and any number of clients running them.
    - [KvTest], [KvPutTest]: [kvtest1]: the append and the put workloads over [IKVClerk], the
      checks of their results.
    - [KvSpread]: the sequential workloads [SpreadPuts] and [PutAtLeastOnceJson] of [kvtest1].
    - [Fnv], [ShardCfg]: [shardkv1/shardcfg/shardcfg.go]: the hash of keys, joining, leaving and
      rebalancing configurations.
    - [GoStrings], [GoUnicode]: the functions of [strings], [path/filepath], [os], [unicode] and
      [unicode/utf8] the sources use, over a flat directory of files.
    - [MrCoordinator]: [mr/coordinator.go] and [mr/rpc.go]: every handler, and the system of a
      coordinator with workers that register, take tasks, report, crash and time out.
    - [MrWorker]: [mr/worker.go]: the map and the reduce task and their file formats.
    - [MrShuffle]: what the map tasks of a job leave for each reducer, shared by the next two.
    - [MrJob]: the loop of [Worker] in [mr/worker.go] against the coordinator, with the polls of
      [main/mrcoordinator.go] in between: a whole job.
    - [MrCluster]: the coordinator with any number of workers, interleaved at single RPCs and file
      operations, with crashes, slow workers and timeouts; it refines the system of [MrCoordinator].
    - [MrMain]: [main/mrcoordinator.go], the heartbeats and the RPC wrappers of [mr/worker.go]:
      how the processes of a job end; how the messages of [mr/rpc.go] are printed.
    - [MrSequential]: [main/mrsequential.go], the reference program.
    - [MrApps]: the plugins of [mrapps]; the distributed job against the sequential program.
    - [MrPrograms]: the main functions of [main/mrcoordinator.go], [main/mrworker.go] and
      [main/mrsequential.go] with [loadPlugin]; the programs against each other.
    - [MrTiming]: [mrapps/mtiming.go] and [mrapps/rtiming.go]: [nparallel] run by any number of
      processes over a shared directory.
    - [Labgob]: [labgob/labgob.go]: its checks of types and of values decoded into.
    - [Labrpc]: [labrpc/labrpc.go]: the network, services, dispatch, and [processReq] with its
      goroutines.
    - [KvNet]: the clerk of [KvClerk] over [Labrpc] against the handlers of [KvServer], with restarts
      of the server, which lose its store.
    - [Rand]: the random strings and shuffles of [tester1/config.go] and [kvtest1/kvtest.go].
    - [Tester]: [tester1]: persisters, servers, groups, partitions and clients over [Labrpc].
    - [KvPartition]: [Partitioner] of [kvtest1/kvtest.go] over [Tester].
    - [Config]: [tester1/config.go] and the registry of groups of [tester1/group.go].
    - [KvHistory]: [kvtest1/porcupine.go]: the recording of concurrent calls and [CheckPorcupine].
    - [KvSystem]: any number of clerks of [KvClerk] over a lossy network against one server, with
      the recording of [KvHistory] on top.
    - [Rsm]: [raft1/raft.go], [kvraft1/rsm/rsm.go] (skeletons), the counter server and the test
      loops of [kvraft1/rsm], over any servers.
    - [RaftTest]: [raft1/server.go] and [raft1/test.go]: what the tests check of Raft's output.
    - [RaftOne]: the loops [one] and [wait] and the set-up of [raft1/test.go], over any Raft.
    - [ShardKv]: the skeletons of [kvraft1] and [shardkv1] with the types they register, and the
      set-up of [shardkv1/test.go] over the interface [Controller] of shard controllers.
    - [KvSetup]: the set-up of the tests of [kvsrv1], [kvraft1] and [kvraft1/rsm] and the makers of
      their clerks, over [Config].
    - [KvSpawn]: [SpawnClientsAndWait] and [runClient] of [kvtest1/kvtest.go]: goroutines and their
      channels.
    - [ShardPartition]: [checkShutdownSharding] and [partitionCtrler] of [shardkv1/test.go], over any
      controllers.
    - [OldMains]: the commands of older labs in [main], with the option parser of [main/diskvd.go].

    ** What is proved

    - Key/value store: [Put] is a compare-and-swap, versions count successful puts, and the
      server refines the model of the tests (except for the missing [ErrNoKey] case).  A [Put] of
      the clerk takes effect at most once, and its result says what happened; it is linearizable, with
      the exception of [ErrNoKey] answers when requests may outlive their calls.  The clerk over the
      simulated network refines this machine as long as the server is not restarted; a restart loses
      the store, and then a [Put] takes effect at most once per life of the server.
    - Locks: mutual exclusion over every clerk that satisfies the interface, release frees the
      lock; whenever a [Put] that took the lock is answered [ErrMaybe], the lock stays taken by nobody
      for ever.  Of the controllers that share a leadership lock at most one is the leader and a
      deposed one finds out, provided that their ids differ and are not empty, which [MakeLock]
      leaves to be filled in: two locks as it makes them both lead.
    - Test workloads: appends of any number of clients pass [CheckAppends], puts of any number of
      clients pass [CheckPutConcurrent] on every key that exists, on every clerk.  The history that
      concurrent callers record is linearizable in the model of the tests, provided that no [Put] is
      answered [ErrNoKey], so that [CheckPorcupine] accepts it with
      any checker that rejects only histories that are not; a reference checker that tries all
      orders decides this.  The same holds of the histories of any number of clerks that retry
      over a network that loses requests and replies, each call at single messages, when no request
      outlives its call.
    - Shards: [Rebalance] terminates with balanced loads, every reachable configuration passes
      [CheckConfig], every key has servers, results do not depend on the order of maps.
    - MapReduce (in a directory with the inputs and none of the job's own files, with pairs that are
      clean of the separators of the intermediate files): reduce tasks start only after every input is mapped, a task is with one worker
      at a time, [Done] is sound, files are partitioned among reduce tasks, the line format is a
      round trip, the sequential program reduces every key once, a job run by one worker that needs
      at most ten seconds per task ends with every key reduced on all its values and writes the lines of the sequential program,
      and then both processes end; word count counts words.  A job of any number of workers that
      interleave, crash and are slow ends, when [Done] answers true and no reduce task has timed
      out, with every key reduced on exactly its values; no report of a worker fails, and the
      programs [mrcoordinator] and [mrworker] write the lines that [mrsequential] writes.
      [nparallel] counts the calls in progress.  Failed renames and workers
      that disappear block the job, and a reduce task that is run twice doubles its output.
    - Network: requests run at most once, replies are true, deleted servers and disabled ends
      never answer, a healthy call is never lost; a server dispatches exactly to the suitable
      methods of its receivers.  [labgob] warns once about each fault.
    - Harness: partitions separate exactly, restarts restore the last persisted state, clients
      reach what they may reach, groups stay up and fully connected, random orders are
      permutations and random strings have their length and alphabet; connecting a server
      reaches servers that are cut off, and [Partitioner] partitions only on values that no
      caller sends.  The Raft checks accept exactly what agreement needs: they enforce agreement
      and order, accept every correct Raft, and snapshots carry the log.  The loops of the
      tests of replicated state machines wait long enough: [checkCounter] passes whenever enough
      servers have the value in time, [one] as soon as a leader answers.  The
      tester of the sharded service adds and removes groups with any controller, and its check
      rejects the skeleton.  On any Raft the loop [one] ends and returns only what the expected
      number of servers agree on, and it never fails on a Raft that commits in time; [wait] pauses
      for less than 31 seconds.  The clients of a workload can always be collected, one result each,
      and leave no clerk behind; clerks made for some servers reach exactly those.  The check that
      data is sharded passes when one of two groups is down and fails when all keys are served, and
      leaves the groups running; [partitionCtrler] tries one group only, and its verdict on a controller
      that is cut off is right when a change was in progress and wrong between two changes.
    - Commands: [diskvd] reads back the options a command line states, in any order.

    ** Bounds and fuel

    [Rebalance] runs its endless loop with fuel 145: a move lowers the sum of the squares of the
    loads of the 12 shards, at most 144, so the loop always ends before; the theorem states that
    it returns.  [reduce_runs] of the sequential program has one turn per pair.  The loop of a
    worker has a turn per task and one that finds none: its theorem holds for every fuel above
    the number of input files and reducers, and states that the end is reached.  [checkType] of
    [Labgob] follows a graph of types with fuel; a type is visited once, so that fuel above the
    number of types is enough, which is proved.  The loop [one] of [Rsm] and the retry
    loops of [KvClerk] take the list of the rounds that fit into the time limit or of the outcomes of
    their calls; [checkCounter] has its 30 turns.  [one] of [RaftOne] needs no fuel: its clock is part of the state, and its steps are
    bounded by 10000 (n + 4020) + 2, a step per server and pause in each of its 10000 milliseconds;
    [wait] has 30 turns.  The theorems on versions bound the number of steps of a run below 2^63 or
    2^64, the range of the versions.

    ** Not modelled

    The bodies that the course leaves to be written: Raft's election and log replication, the
    state machine and the handlers of [kvraft1] and [shardkv1]; the skeletons are modelled as they
    stand.  JSON ([String] and [FromString] of configurations); [net/rpc] between worker and
    coordinator (its calls are steps of the system); sleeping, where no clock is part of the state,
    and logging; the porcupine checker, the plugin loader and the packages of the older labs, which
    are parameters.  Only declarations without behaviour, imports, comments and log lines of the
    other files are left out.

    ** Plan

    Open: [Get] in [KvNet], as [Put] is there; jobs in which reduce tasks time out and are run again;
    the protocols themselves, once their bodies are written. *)

From Stdlib Require Export ZArith Lia.
From stdpp Require Export base tactics numbers list strings pretty gmap relations sorting.

(** ** Scope and notations of the development *)

Declare Scope go_scope.
Delimit Scope go_scope with go.

(** ** Go results

    A Go call returns, stops the process through [log.Fatalf], or panics at run time. *)

Inductive go (A : Type) : Type :=
| Ok (a : A)
| Fatal (msg : string)
| Panic (msg : string).
Arguments Ok {A} _.
Arguments Fatal {A} _.
Arguments Panic {A} _.

Definition go_bind {A B} (m : go A) (f : A -> go B) : go B :=
  match m with
  | Ok a => f a
  | Fatal s => Fatal s
  | Panic s => Panic s
  end.

Notation "'let!' x := m 'in' k" := (go_bind m (fun x => k))
  (at level 10, x pattern, m at level 100, k at level 200) : go_scope.
Open Scope go_scope.

(** [fold_go f l a] runs [f] over [l] from left to right and stops at the first failure, as a
    Go loop whose body may call [log.Fatalf] does. *)
Fixpoint fold_go {A B} (f : B -> A -> go B) (l : list A) (b : B) : go B :=
  match l with
  | [] => Ok b
  | x :: l => let! b' := f b x in fold_go f l b'
  end.

(** ** Machine integers *)

Definition u64 (z : Z) : Z := z mod 2 ^ 64.
Definition u32 (z : Z) : Z := z mod 2 ^ 32.
Definition i32 (z : Z) : Z := (z + 2 ^ 31) mod 2 ^ 32 - 2 ^ 31.
Definition i64 (z : Z) : Z := (z + 2 ^ 63) mod 2 ^ 64 - 2 ^ 63.

(** ** Slices: a read or a write out of range panics. *)

Definition slice_get {A} (l : list A) (i : Z) : go A :=
  if bool_decide (0 <= i)%Z then
    match l !! Z.to_nat i with
    | Some a => Ok a
    | None => Panic "index out of range"
    end
  else Panic "index out of range".

Definition slice_set {A} (l : list A) (i : Z) (a : A) : go (list A) :=
  if bool_decide (0 <= i < Z.of_nat (length l))%Z
  then Ok (<[Z.to_nat i := a]> l)
  else Panic "index out of range".

(** ** Tactics *)

(** Splits every [bool_decide], [decide] and [match] on an option in the goal. *)
Ltac go_case :=
  repeat (case_bool_decide || case_decide || case_match); simplify_eq/=.

(** Inverts the [Ok]s of a chain of [go_bind]s in the hypotheses. *)
Ltac go_inv :=
  repeat match goal with
  | H : go_bind ?m _ = Ok _ |- _ =>
      let E := fresh "E" in destruct m eqn:E; simpl in H; [|discriminate H..]
  | H : Ok _ = Ok _ |- _ => injection H as H; try subst
  end.

(** ** Machine integers: lemmas *)

Lemma u64_range z : (0 <= u64 z < 2 ^ 64)%Z.
Proof. unfold u64. apply Z.mod_pos_bound. lia. Qed.

Lemma u64_small z : (0 <= z < 2 ^ 64)%Z -> u64 z = z.
Proof. apply Z.mod_small. Qed.

Lemma u32_range z : (0 <= u32 z < 2 ^ 32)%Z.
Proof. unfold u32. apply Z.mod_pos_bound. lia. Qed.

Lemma i32_range z : (- 2 ^ 31 <= i32 z < 2 ^ 31)%Z.
Proof. unfold i32. pose proof (Z.mod_pos_bound (z + 2 ^ 31) (2 ^ 32)). lia. Qed.

Lemma i32_add z k : i32 (i32 z + k) = i32 (z + k).
Proof.
  unfold i32. f_equal.
  replace ((z + 2 ^ 31) mod 2 ^ 32 - 2 ^ 31 + k + 2 ^ 31)%Z with ((z + 2 ^ 31) mod 2 ^ 32 + k)%Z by lia.
  rewrite Zplus_mod_idemp_l. f_equal. lia.
Qed.

Lemma i64_add z k : i64 (i64 z + k) = i64 (z + k).
Proof.
  unfold i64. f_equal.
  replace ((z + 2 ^ 63) mod 2 ^ 64 - 2 ^ 63 + k + 2 ^ 63)%Z with ((z + 2 ^ 63) mod 2 ^ 64 + k)%Z by lia.
  rewrite Zplus_mod_idemp_l. f_equal. lia.
Qed.

Create HintDb go.
#[export] Hint Resolve u64_range u32_range : go.

(** ** Slices: lemmas *)

Lemma slice_get_Ok {A} (l : list A) i a :
  slice_get l i = Ok a <-> (0 <= i)%Z /\ l !! Z.to_nat i = Some a.
Proof.
  unfold slice_get. case_bool_decide; [|naive_solver].
  destruct (l !! Z.to_nat i); naive_solver.
Qed.

Lemma slice_get_lookup {A} (l : list A) (i : nat) a :
  l !! i = Some a -> slice_get l (Z.of_nat i) = Ok a.
Proof. intros H. apply slice_get_Ok. rewrite Nat2Z.id. split; [lia|done]. Qed.

Lemma slice_set_Ok {A} (l l' : list A) i a :
  slice_set l i a = Ok l' <->
  (0 <= i < Z.of_nat (length l))%Z /\ l' = <[Z.to_nat i := a]> l.
Proof. unfold slice_set. case_bool_decide; naive_solver. Qed.

(** ** Folds that may fail: lemmas *)

Lemma fold_go_app {A B} (f : B -> A -> go B) l1 l2 b :
  fold_go f (l1 ++ l2) b = let! b' := fold_go f l1 b in fold_go f l2 b'.
Proof.
  revert b. induction l1 as [|x l1 IH]; intros b; simpl; [done|].
  destruct (f b x); simpl; auto.
Qed.

(** An invariant of the body is an invariant of the loop. *)
Lemma fold_go_invariant {A B} (f : B -> A -> go B) (P : B -> Prop) l b b' :
  (forall b x b', x ∈ l -> P b -> f b x = Ok b' -> P b') ->
  P b -> fold_go f l b = Ok b' -> P b'.
Proof.
  revert b. induction l as [|x l IH]; intros b Hf HP H; simpl in H; [naive_solver|].
  destruct (f b x) eqn:E; try discriminate H. simpl in H.
  eapply IH; [|eapply Hf; [left|exact HP|exact E]|exact H].
  intros; eapply Hf; [by right|done..].
Qed.

Lemma fold_go_ext {A B} (f f' : B -> A -> go B) l b :
  (forall b x, x ∈ l -> f b x = f' b x) -> fold_go f l b = fold_go f' l b.
Proof.
  revert b. induction l as [|x l IH]; intros b Hf; simpl; [done|].
  rewrite Hf by left. destruct (f' b x); simpl; [|done..]. apply IH. intros; apply Hf. by right.
Qed.

(** Collecting the results of turns that do not depend on each other. *)
Lemma fold_go_collect {A B} (f : A -> go B) (r : A -> B) l acc :
  (forall x, x ∈ l -> f x = Ok (r x)) ->
  fold_go (fun bs x => let! b := f x in Ok (bs ++ [b])) l acc = Ok (acc ++ (r <$> l)).
Proof.
  revert acc. induction l as [|x l IH]; intros acc Hf; simpl; [by rewrite app_nil_r|].
  rewrite Hf by left. simpl. rewrite IH by (intros; apply Hf; by right).
  by rewrite <- (assoc_L (++)).
Qed.

(** A counted loop: every turn succeeds and takes the invariant one further. *)
Lemma fold_go_seq {B} (f : B -> nat -> go B) (P : nat -> B -> Prop) n b :
  (forall i b, i < n -> P i b -> exists b', f b i = Ok b' /\ P (S i) b') ->
  P 0 b -> exists b', fold_go f (seq 0 n) b = Ok b' /\ P n b'.
Proof.
  intros Hf. assert (forall m k b, k + m = n -> P k b ->
    exists b', fold_go f (seq k m) b = Ok b' /\ P n b') as Hgen; [|by apply Hgen].
  intros m. induction m as [|m IH]; intros k b0 Hk HP; simpl.
  - exists b0. by replace n with k by lia.
  - destruct (Hf k b0) as (b1 & -> & HP1); [lia|done|]. simpl. apply (IH (S k)); [lia|done].
Qed.

(** ** Runs of a step relation *)

(** A property that holds initially and is kept by every step holds in every reachable state. *)
Lemma rtc_invariant {A} (R : relation A) (P : A -> Prop) x y :
  (forall a b, P a -> R a b -> P b) -> P x -> rtc R x y -> P y.
Proof. intros HR HP H. induction H; eauto. Qed.

(** The same for runs of a known length, where the step may use a bound on the number of steps
    made so far. *)
Lemma nsteps_invariant {A} (R : relation A) (P : nat -> A -> Prop) n x y :
  (forall k a b, k < n -> P k a -> R a b -> P (S k) b) -> P 0 x -> nsteps R n x y -> P n y.
Proof.
  intros HR HP Hxy.
  assert (forall j a, nsteps R j a y -> forall i, i + j = n -> P i a -> P n y) as Hgen.
  { intros j a Hay. induction Hay as [a|j a b c Hab Hbc IH]; intros i Hij Hi.
    - by replace n with i by lia.
    - apply (IH Hxy (S i)); [lia|]. eapply HR; [lia|done..]. }
  by apply (Hgen n x Hxy 0).
Qed.

(** ** Lists *)

(** Number of elements that satisfy a boolean test. *)
Definition countb {A} (f : A -> bool) (l : list A) : nat :=
  length (List.filter f l).

Lemma countb_app {A} (f : A -> bool) l1 l2 :
  countb f (l1 ++ l2) = countb f l1 + countb f l2.
Proof. unfold countb. by rewrite List.filter_app, length_app. Qed.

Lemma countb_cons {A} (f : A -> bool) x l :
  countb f (x :: l) = (if f x then 1 else 0) + countb f l.
Proof. unfold countb. simpl. by destruct (f x). Qed.

(** Replacing one element changes the count by the difference of the two tests. *)
Lemma countb_insert {A} (f : A -> bool) (l : list A) i x y :
  l !! i = Some x ->
  countb f (<[i := y]> l) + (if f x then 1 else 0) = countb f l + (if f y then 1 else 0).
Proof.
  revert i. induction l as [|z l IH]; intros [|i] H; simplify_eq/=.
  - rewrite !countb_cons. destruct (f x), (f y); lia.
  - rewrite !countb_cons. specialize (IH i H). lia.
Qed.

Lemma countb_le_length {A} (f : A -> bool) l : countb f l <= length l.
Proof. apply List.filter_length_le. Qed.

Lemma countb_sublist {A} (f : A -> bool) l1 l2 : sublist l1 l2 -> countb f l1 <= countb f l2.
Proof. induction 1; rewrite ?countb_cons; lia. Qed.

Lemma countb_all {A} (f : A -> bool) l : Forall (fun x => f x = true) l -> countb f l = length l.
Proof. induction 1 as [|x l Hx _ IH]; [done|]. rewrite countb_cons, Hx, IH. done. Qed.

Lemma countb_zero {A} (f : A -> bool) l :
  countb f l = 0 <-> (forall x, x ∈ l -> f x = false).
Proof.
  induction l as [|x l IH].
  { split; [|done]. intros _ y Hy. by apply not_elem_of_nil in Hy. }
  rewrite countb_cons. split.
  - intros H y [->|Hy]%elem_of_cons.
    + destruct (f x); [lia|done].
    + apply IH; [destruct (f x); lia|done].
  - intros H. rewrite (H x) by left. apply IH. intros y Hy. apply H. by right.
Qed.

Lemma countb_ext {A} (f g : A -> bool) l :
  (forall x, x ∈ l -> f x = g x) -> countb f l = countb g l.
Proof.
  induction l as [|x l IH]; intros H; [done|].
  rewrite !countb_cons, IH, (H x); [done|left|]. intros y Hy. apply H. by right.
Qed.

(** Lists with the same number of each element. *)
Lemma countb_perm {A} `{Heq : EqDecision A} (l1 l2 : list A) :
  (forall x, countb (fun y => bool_decide (y = x)) l1 = countb (fun y => bool_decide (y = x)) l2) ->
  l1 ≡ₚ l2.
Proof.
  assert (forall l x, count_occ Heq l x = countb (fun y : A => bool_decide (y = x)) l) as E.
  { intros l x. induction l as [|y l IH]; [done|]. rewrite countb_cons. simpl. rewrite IH.
    by destruct (Heq y x); case_bool_decide. }
  intros H. apply (Permutation_count_occ Heq). intros x. by rewrite !E.
Qed.

(** A test that holds at one position at most is counted at most once. *)
Lemma countb_unique {A} (f : A -> bool) (l : list A) :
  (forall i j x y, l !! i = Some x -> l !! j = Some y -> f x = true -> f y = true -> i = j) ->
  countb f l <= 1.
Proof.
  induction l as [|x l IH]; intros H; [unfold countb; simpl; lia|].
  rewrite countb_cons. destruct (f x) eqn:E.
  - replace (countb f l) with 0; [lia|]. symmetry. apply countb_zero.
    intros y [j Hj]%list_elem_of_lookup. destruct (f y) eqn:Ey; [|done].
    discriminate (H 0 (S j) x y eq_refl Hj E Ey).
  - apply IH. intros i j y z Hi Hj Hy Hz.
    pose proof (H (S i) (S j) y z Hi Hj Hy Hz) as Heq. by injection Heq.
Qed.

(** ** Filters that keep all or nothing *)

Lemma list_filter_all {A} (P : A -> Prop) `{!forall x, Decision (P x)} (l : list A) :
  (forall x, x ∈ l -> P x) -> filter P l = l.
Proof.
  induction l as [|x l IH]; intros Hl; [done|].
  rewrite filter_cons_True by (apply Hl; left). rewrite IH; [done|]. intros y Hy. apply Hl. by right.
Qed.

Lemma list_filter_none {A} (P : A -> Prop) `{!forall x, Decision (P x)} (l : list A) :
  (forall x, x ∈ l -> ~ P x) -> filter P l = [].
Proof.
  induction l as [|x l IH]; intros Hl; [done|].
  rewrite filter_cons_False by (apply Hl; left). apply IH. intros y Hy. apply Hl. by right.
Qed.

(** ** Sums *)

(** Moving one unit between two summands of a sum over distinct indices. *)
Lemma sum_list_two {A} `{EqDecision A} (f f' : A -> nat) (l : list A) a b :
  NoDup l -> a ∈ l -> b ∈ l -> a ≠ b -> (forall x, x ≠ a -> x ≠ b -> f' x = f x) ->
  sum_list_with f' l + f a + f b = sum_list_with f l + f' a + f' b.
Proof.
  intros Hnd Ha Hb Hab Hf.
  apply elem_of_Permutation in Ha as [l1 H1]. rewrite H1 in Hnd, Hb. rewrite H1. clear H1.
  apply elem_of_cons in Hb as [->|Hb]; [done|].
  apply elem_of_Permutation in Hb as [l2 H2]. rewrite H2 in Hnd. rewrite H2. clear H2.
  apply NoDup_cons in Hnd as [Ha Hnd]. apply NoDup_cons in Hnd as [Hb _].
  assert (sum_list_with f' l2 = sum_list_with f l2) as Hs; [|simpl; lia].
  assert (forall x, x ∈ l2 -> f' x = f x) as Hl2.
  { intros x Hx. apply Hf; [|intros ->; done]. intros ->. apply Ha. by right. }
  clear Ha Hb Hf. induction l2 as [|x l2 IH]; simpl; [done|].
  rewrite Hl2 by left. rewrite IH; [done|]. intros y Hy. apply Hl2. by right.
Qed.

Lemma sum_squares_le {A} (f : A -> nat) (l : list A) :
  sum_list_with (fun x => f x * f x) l <= sum_list_with f l * sum_list_with f l.
Proof. induction l as [|x l IH]; simpl; nia. Qed.

(** ** Maps of slices

    [m[k] = append(m[k], v)], the grouping idiom of the sources. *)

Definition map_append {V} (m : gmap string (list V)) (k : string) (v : V) : gmap string (list V) :=
  <[k := default [] (m !! k) ++ [v]]> m.

(** [group_by key val l m]: the loop that appends [val x] at [key x] for every [x] of [l]. *)
Definition group_by {A V} (key : A -> string) (val : A -> V) (l : list A)
    (m : gmap string (list V)) : gmap string (list V) :=
  foldl (fun m x => map_append m (key x) (val x)) m l.

(** [sort.Strings]: byte-wise lexicographic order. *)
Definition sort_Strings (l : list string) : list string := merge_sort String.le l.

Lemma sort_Strings_perm l : sort_Strings l ≡ₚ l.
Proof. apply merge_sort_Permutation. Qed.

(** Sorting forgets the order of its input: what makes a loop over a Go map deterministic. *)
Lemma sort_Strings_unique l1 l2 : l1 ≡ₚ l2 -> sort_Strings l1 = sort_Strings l2.
Proof.
  intros H. apply (Sorted_unique String.le); try apply Sorted_merge_sort; try apply _.
  by rewrite !sort_Strings_perm.
Qed.

Lemma group_by_default {A V} (key : A -> string) (val : A -> V) l m k :
  default [] (group_by key val l m !! k) =
  default [] (m !! k) ++ (val <$> filter (fun x => key x = k) l).
Proof.
  revert m. induction l as [|x l IH]; intros m; simpl; [by rewrite app_nil_r|].
  unfold group_by in *. simpl. rewrite IH. unfold map_append.
  rewrite filter_cons. destruct (decide (key x = k)) as [<-|Hk].
  - rewrite lookup_insert_eq. simpl. by rewrite <- app_assoc.
  - by rewrite lookup_insert_ne.
Qed.

Lemma group_by_dom {A V} (key : A -> string) (val : A -> V) l m :
  dom (group_by key val l m) = dom m ∪ list_to_set (key <$> l).
Proof.
  revert m. induction l as [|x l IH]; intros m; simpl; [set_solver|].
  unfold group_by in *. simpl. rewrite IH. unfold map_append. rewrite dom_insert_L. set_solver.
Qed.

(** Every group is the sub-list of its key, in the original order, and no group is empty. *)
Lemma group_by_lookup {A V} (key : A -> string) (val : A -> V) l k vs :
  group_by key val l ∅ !! k = Some vs <->
  vs = val <$> filter (fun x => key x = k) l /\ k ∈ key <$> l.
Proof.
  pose proof (group_by_default key val l ∅ k) as Hd. rewrite lookup_empty in Hd. simpl in Hd.
  assert (is_Some (group_by key val l ∅ !! k) <-> k ∈ key <$> l) as Hdom.
  { rewrite <- elem_of_dom, group_by_dom, dom_empty_L. set_solver. }
  split.
  - intros E. split; [by rewrite E in Hd|]. apply Hdom. by rewrite E.
  - intros [-> [vs' E]%Hdom]. rewrite E in *. simpl in Hd. by rewrite Hd.
Qed.

(** Splitting a list by a duplicate-free set of keys that covers it loses and adds nothing. *)
Lemma concat_filter_perm {A} (key : A -> string) (ks : list string) (l : list A) :
  NoDup ks -> (forall v, v ∈ l -> key v ∈ ks) ->
  concat ((fun k => filter (fun v => key v = k) l) <$> ks) ≡ₚ l.
Proof.
  intros Hnd. revert l. induction Hnd as [|k ks Hk Hnd IH]; intros l Hl; simpl.
  - destruct l as [|v l]; [done|]. destruct (not_elem_of_nil (key v)). apply Hl. left.
  - etrans; [|apply (filter_app_complement (fun v => key v = k) l)]. f_equiv.
    rewrite <- (IH (filter (fun v => ¬ key v = k) l)).
    + apply reflexive_eq. f_equal. apply list_fmap_ext. intros i k' Hk'.
      symmetry. apply list_filter_filter_l. intros v <- Hv. apply Hk. rewrite <- Hv.
      by eapply list_elem_of_lookup_2.
    + intros v [Hv Hin]%list_elem_of_filter. apply Hl in Hin. set_solver.
Qed.

Lemma filter_fmap_snd {A B} (P : A * B -> Prop) (Q : B -> Prop)
    `{forall x, Decision (P x), forall y, Decision (Q y)} (T : list (A * B)) :
  (forall t, t ∈ T -> P t <-> Q t.2) -> (filter P T).*2 = filter Q T.*2.
Proof.
  intros HT. induction T as [|t T IH]; [done|]. rewrite fmap_cons, !filter_cons.
  rewrite <- IH by (intros u Hu; apply HT; by right). pose proof (HT t) as Ht.
  destruct (decide (P t)), (decide (Q t.2)); set_solver.
Qed.

Lemma fmap_concat {A B} (f : A -> B) (ls : list (list A)) :
  fmap (M := list) f (concat ls) = concat (fmap (M := list) (fmap (M := list) f) ls).
Proof. induction ls as [|l ls IH]; [done|]. simpl. by rewrite fmap_app, IH. Qed.

Lemma elem_of_concat {A} (x : A) (ls : list (list A)) :
  x ∈ concat ls <-> exists l, l ∈ ls /\ x ∈ l.
Proof.
  induction ls as [|l ls IH]; simpl.
  - split; [by intros ?%not_elem_of_nil|]. by intros (l & ?%not_elem_of_nil & _).
  - rewrite elem_of_app, IH. setoid_rewrite elem_of_cons. naive_solver.
Qed.

(** ** Pauses

    The pauses, in milliseconds, of a test loop that looks [todo] times and doubles its pause as long as that is
    below a second. *)
Fixpoint backoff (todo : nat) (to : Z) : list Z :=
  match todo with
  | 0 => []
  | S todo => to :: backoff todo (if bool_decide (to < 1000)%Z then (to * 2)%Z else to)
  end.

Lemma backoff_pos todo to : (0 < to)%Z -> Forall (fun t => (0 <= t)%Z) (backoff todo to).
Proof.
  revert to. induction todo as [|todo IH]; intros to Hto; simpl; [constructor|].
  constructor; [lia|]. apply IH. case_bool_decide; lia.
Qed.

Lemma prefix_sum (l1 l2 : list Z) :
  l1 `prefix_of` l2 -> Forall (fun t => (0 <= t)%Z) l2 -> (foldr Z.add 0 l1 <= foldr Z.add 0 l2)%Z.
Proof.
  intros [l ->]. induction l1 as [|x l1 IH]; simpl; intros H.
  - induction H as [|t l Ht _ IH]; simpl; lia.
  - apply Forall_cons in H as [_ H]. specialize (IH H). lia.
Qed.
