(* ===== verification/KvRpc.v ===== *)
(** * Key/value RPC types

    The types of [src/src/kvsrv1/rpc/rpc.go], shared by every key/value server and clerk:
    error strings, versions and the argument and reply structures of [Get] and [Put]. *)

From S2P Require Import Prelude.

(** [type Err string] with its constants. *)
Abbreviation Err := string (only parsing).

Definition OK : Err := "OK".
Definition ErrNoKey : Err := "ErrNoKey".
Definition ErrVersion : Err := "ErrVersion".
Definition ErrMaybe : Err := "ErrMaybe".
Definition ErrWrongLeader : Err := "ErrWrongLeader".
Definition ErrWrongGroup : Err := "ErrWrongGroup".

(** [type Tversion uint64]: a [Z] kept in range by [u64]. *)
Abbreviation Tversion := Z (only parsing).

Record PutArgs := mkPutArgs {
  PutArgs_Key : string;
  PutArgs_Value : string;
  PutArgs_Version : Tversion
}.

Record PutReply := mkPutReply {
  PutReply_Err : Err
}.

Record GetArgs := mkGetArgs {
  GetArgs_Key : string
}.

Record GetReply := mkGetReply {
  GetReply_Value : string;
  GetReply_Version : Tversion;
  GetReply_Err : Err
}.

(** The zero values of the reply structures, which is what a caller passes. *)
Definition PutReply_zero : PutReply := mkPutReply "".
Definition GetReply_zero : GetReply := mkGetReply "" 0 "".

(** Decides equations between the error constants. *)
Ltac err_eq :=
  unfold OK, ErrNoKey, ErrVersion, ErrMaybe, ErrWrongLeader, ErrWrongGroup in *;
  first [ done | discriminate | congruence | naive_solver ].
