(* ===== verification/KvServer.v ===== *)
(** * The versioned key/value server

    Model of [src/src/kvsrv1/server.go]: the map guarded by [kv.mu], with the handlers [Get]
    and [Put].  Every handler holds the mutex from its first to its last line, so a handler is
    one atomic function of the state.  The specification is a compare-and-swap register per
    key whose initial version is 0. *)

From S2P Require Import Prelude KvRpc.

(** [type value struct]. *)
Record value := mkvalue {
  value_value : string;
  value_version : Tversion
}.

(** [type KVServer struct] without its mutex. *)
Record KVServer := mkKVServer {
  m : gmap string value
}.

Definition MakeKVServer : KVServer := mkKVServer ∅.

(** [Get] writes into the reply structure it is given: on a missing key only [Err] is set. *)
Definition Get (kv : KVServer) (args : GetArgs) (reply : GetReply) : GetReply :=
  match m kv !! GetArgs_Key args with
  | None => mkGetReply (GetReply_Value reply) (GetReply_Version reply) ErrNoKey
  | Some v => mkGetReply (value_value v) (value_version v) OK
  end.

(** [v.version++] wraps at 64 bits. *)
Definition Put (kv : KVServer) (args : PutArgs) : KVServer * PutReply :=
  match m kv !! PutArgs_Key args with
  | Some v =>
      if bool_decide (PutArgs_Version args ≠ value_version v)
      then (kv, mkPutReply ErrVersion)
      else
        let v' := mkvalue (PutArgs_Value args) (u64 (value_version v + 1)) in
        (mkKVServer (<[PutArgs_Key args := v']> (m kv)), mkPutReply OK)
  | None =>
      if bool_decide (PutArgs_Version args ≠ 0%Z)
      then (kv, mkPutReply ErrNoKey)
      else
        (mkKVServer (<[PutArgs_Key args := mkvalue (PutArgs_Value args) 1]> (m kv)),
         mkPutReply OK)
  end.

(** ** Abstract view: a register per key *)

(** The version a [Put] has to name to take effect: 0 for a key that does not exist. *)
Definition cur_version (kv : KVServer) (k : string) : Tversion :=
  match m kv !! k with Some v => value_version v | None => 0%Z end.

(** The value stored at a key, the empty string for a key that does not exist. *)
Definition cur_value (kv : KVServer) (k : string) : string :=
  match m kv !! k with Some v => value_value v | None => "" end.

Definition has_key (kv : KVServer) (k : string) : bool :=
  bool_decide (is_Some (m kv !! k)).

(** Error a failing [Put] reports. *)
Definition put_error (kv : KVServer) (k : string) : Err :=
  if has_key kv k then ErrVersion else ErrNoKey.

(** A run of [Put] requests, with the replies. *)
Fixpoint run_puts (kv : KVServer) (l : list PutArgs) : KVServer * list (PutArgs * Err) :=
  match l with
  | [] => (kv, [])
  | args :: l =>
      let '(kv1, r) := Put kv args in
      let '(kv2, rs) := run_puts kv1 l in
      (kv2, (args, PutReply_Err r) :: rs)
  end.

(** Whether a logged request is a successful [Put] to key [k]. *)
Definition ok_put_to (k : string) (x : PutArgs * Err) : bool :=
  bool_decide (PutArgs_Key x.1 = k) && bool_decide (x.2 = OK).

(** Well-formedness: stored versions are 64-bit. *)
Definition wf (kv : KVServer) : Prop :=
  forall k v, m kv !! k = Some v -> (0 <= value_version v < 2 ^ 64)%Z.

(** ** Lemmas *)

Lemma cur_version_range kv k : wf kv -> (0 <= cur_version kv k < 2 ^ 64)%Z.
Proof.
  intros Hwf. unfold cur_version. destruct (m kv !! k) eqn:E; [by eapply Hwf|lia].
Qed.

Lemma wf_MakeKVServer : wf MakeKVServer.
Proof. intros k v H. unfold MakeKVServer in H. simpl in H. by rewrite lookup_empty in H. Qed.

(** The successful branch: the named version is the current one. *)
Lemma Put_success kv args :
  PutArgs_Version args = cur_version kv (PutArgs_Key args) ->
  Put kv args =
    (mkKVServer (<[PutArgs_Key args :=
        mkvalue (PutArgs_Value args) (u64 (cur_version kv (PutArgs_Key args) + 1))]> (m kv)),
     mkPutReply OK).
Proof.
  unfold Put, cur_version. destruct (m kv !! PutArgs_Key args); intros H;
    (rewrite bool_decide_eq_false_2 by (by intros ?)); done.
Qed.

(** The failing branch: state unchanged. *)
Lemma Put_failure kv args :
  PutArgs_Version args ≠ cur_version kv (PutArgs_Key args) ->
  Put kv args = (kv, mkPutReply (put_error kv (PutArgs_Key args))).
Proof.
  unfold Put, cur_version, put_error, has_key.
  destruct (m kv !! PutArgs_Key args) eqn:E; intros H;
    (rewrite bool_decide_eq_true_2 by done);
    [rewrite bool_decide_eq_true_2 by done
    |rewrite bool_decide_eq_false_2 by (by intros [? ?])]; done.
Qed.

Lemma put_error_not_OK kv k : put_error kv k ≠ OK.
Proof. unfold put_error. destruct (has_key kv k); err_eq. Qed.

Lemma put_error_not_ErrMaybe kv k : put_error kv k ≠ ErrMaybe.
Proof. unfold put_error. destruct (has_key kv k); err_eq. Qed.

(** Success is exactly the version match. *)
Lemma Put_OK_iff kv args :
  PutReply_Err (Put kv args).2 = OK <->
  PutArgs_Version args = cur_version kv (PutArgs_Key args).
Proof.
  destruct (decide (PutArgs_Version args = cur_version kv (PutArgs_Key args))) as [H|H].
  - rewrite Put_success by done. done.
  - rewrite Put_failure by done. simpl. split; [|done].
    intros E. by apply put_error_not_OK in E.
Qed.

Lemma Put_preserves_wf kv args : wf kv -> wf (Put kv args).1.
Proof.
  intros Hwf.
  destruct (decide (PutArgs_Version args = cur_version kv (PutArgs_Key args))) as [H|H].
  - rewrite Put_success by done. intros k v Hk. simpl in Hk.
    apply lookup_insert_Some in Hk as [[<- <-]|[_ Hk]]; [apply u64_range|eauto].
  - by rewrite Put_failure.
Qed.

Lemma Put_other_key kv args k :
  PutArgs_Key args ≠ k -> m (Put kv args).1 !! k = m kv !! k.
Proof.
  intros Hk.
  destruct (decide (PutArgs_Version args = cur_version kv (PutArgs_Key args))) as [H|H].
  - rewrite Put_success by done. simpl. by rewrite lookup_insert_ne.
  - by rewrite Put_failure.
Qed.

(** What a [Put] does to the version of any key. *)
Lemma Put_version kv args k :
  cur_version (Put kv args).1 k =
    if bool_decide (PutArgs_Key args = k) && bool_decide (PutReply_Err (Put kv args).2 = OK)
    then u64 (cur_version kv k + 1) else cur_version kv k.
Proof.
  destruct (decide (PutArgs_Version args = cur_version kv (PutArgs_Key args))) as [H|H].
  - rewrite Put_success by done. cbn [fst snd PutReply_Err].
    rewrite (bool_decide_eq_true_2 (OK = OK)) by done.
    rewrite andb_true_r. unfold cur_version at 1. simpl.
    case_bool_decide as Hk; [subst k; by rewrite lookup_insert_eq|].
    by rewrite lookup_insert_ne.
  - rewrite Put_failure by done. cbn [fst snd PutReply_Err].
    rewrite (bool_decide_eq_false_2 (put_error _ _ = OK)).
    + by rewrite andb_false_r.
    + apply put_error_not_OK.
Qed.

Lemma Put_value kv args k :
  cur_value (Put kv args).1 k =
    if bool_decide (PutArgs_Key args = k) && bool_decide (PutReply_Err (Put kv args).2 = OK)
    then PutArgs_Value args else cur_value kv k.
Proof.
  destruct (decide (PutArgs_Version args = cur_version kv (PutArgs_Key args))) as [H|H].
  - rewrite Put_success by done. cbn [fst snd PutReply_Err].
    rewrite (bool_decide_eq_true_2 (OK = OK)) by done.
    rewrite andb_true_r. unfold cur_value at 1. simpl.
    case_bool_decide as Hk; [subst k; by rewrite lookup_insert_eq|].
    by rewrite lookup_insert_ne.
  - rewrite Put_failure by done. cbn [fst snd PutReply_Err].
    rewrite (bool_decide_eq_false_2 (put_error _ _ = OK)).
    + by rewrite andb_false_r.
    + apply put_error_not_OK.
Qed.

Lemma run_puts_version kv l k :
  wf kv ->
  cur_version (run_puts kv l).1 k =
    u64 (cur_version kv k + Z.of_nat (countb (ok_put_to k) (run_puts kv l).2)).
Proof.
  revert kv. induction l as [|args l IH]; intros kv Hwf; simpl.
  - rewrite Z.add_0_r, u64_small; [done|by apply cur_version_range].
  - pose proof (Put_preserves_wf kv args Hwf) as Hwf1.
    pose proof (Put_version kv args k) as HV.
    destruct (Put kv args) as [kv1 r] eqn:EP. simpl in *.
    specialize (IH kv1 Hwf1). destruct (run_puts kv1 l) as [kv2 rs]. simpl in *.
    rewrite IH, HV, countb_cons. unfold ok_put_to at 2. simpl.
    destruct (_ && _); [|f_equal; lia].
    unfold u64. rewrite Zplus_mod_idemp_l. f_equal. lia.
Qed.

(** ** Properties *)

(** [Put] is a compare-and-swap on the version of its key.  It replies [OK] exactly when
    the version it names is the current one (0 for a missing key); then the key holds the new
    value at the next 64-bit version.  Otherwise the server is unchanged and the reply is
    [ErrVersion] for an existing key and [ErrNoKey] for a missing one.  No other key changes. *)
Theorem Put_compare_and_swap kv args :
  let k := PutArgs_Key args in
  let '(kv', reply) := Put kv args in
  (PutReply_Err reply = OK <-> PutArgs_Version args = cur_version kv k) /\
  (PutReply_Err reply = OK ->
     m kv' !! k = Some (mkvalue (PutArgs_Value args) (u64 (cur_version kv k + 1)))) /\
  (PutReply_Err reply ≠ OK ->
     kv' = kv /\ PutReply_Err reply = (if has_key kv k then ErrVersion else ErrNoKey)) /\
  (forall k', k' ≠ k -> m kv' !! k' = m kv !! k').
Proof.
  intros k. pose proof (Put_OK_iff kv args) as Hiff.
  pose proof (Put_other_key kv args) as Hother.
  destruct (decide (PutArgs_Version args = cur_version kv k)) as [H|H].
  - rewrite Put_success in * by done. simpl in *.
    split_and!; [done|intros _; apply lookup_insert_eq|done|].
    intros k' Hk'. by apply Hother.
  - rewrite Put_failure in * by done. simpl in *. split_and!; [done| |done|done].
    intros E. by apply put_error_not_OK in E.
Qed.

(** starting from an empty server, after any sequence of [Put]s the version of every key is
    the number of successful [Put]s to it, modulo 2^64. *)
Theorem version_counts_puts (l : list PutArgs) (k : string) :
  cur_version (run_puts MakeKVServer l).1 k =
    u64 (Z.of_nat (countb (ok_put_to k) (run_puts MakeKVServer l).2)).
Proof. rewrite run_puts_version by apply wf_MakeKVServer. done. Qed.
