(* ===== verification/Models.v ===== *)
(** * The linearizability model of the key/value service

    Model of [src/src/models1/kv.go]: the value [KvModel] that the test harness hands to the
    porcupine checker.  [porcupine.Operation] is a type of that package, of which the sources
    use the fields below.  The theorems relate the model to the key/value server: the server,
    seen at one key, is an instance of the model. *)

From S2P Require Import Prelude KvRpc KvServer.

Record KvInput := mkKvInput {
  KvInput_Op : Z;
  KvInput_Key : string;
  KvInput_Value : string;
  KvInput_Version : Z
}.

Record KvOutput := mkKvOutput {
  KvOutput_Value : string;
  KvOutput_Version : Z;
  KvOutput_Err : string
}.

Record KvState := mkKvState {
  KvState_Value : string;
  KvState_Version : Z
}.

(** The fields of [porcupine.Operation] the sources set. *)
Record Operation := mkOperation {
  Operation_ClientId : Z;
  Operation_Input : KvInput;
  Operation_Call : Z;
  Operation_Output : KvOutput;
  Operation_Return : Z
}.

(** Dynamic values of the model's [interface{}] states: a [KvState], or the string
    ["<invalid>"] that [Step] returns for an unknown operation. *)
Inductive state_any :=
| AnyState (st : KvState)
| AnyString (s : string).

Definition op_key (v : Operation) : string := KvInput_Key (Operation_Input v).

(** [Partition]: [order] is the order in which [for k := range m] visits the keys. *)
Definition Partition (order : list string) (history : list Operation) : list (list Operation) :=
  let mp := group_by op_key id history ∅ in
  let keys := sort_Strings order in
  (fun k => default [] (mp !! k)) <$> keys.

Definition Init : state_any := AnyState (mkKvState "" 0).

(** [Step]: the type assertion [state.(KvState)] panics on any other dynamic type. *)
Definition Step (state : state_any) (inp : KvInput) (out : KvOutput) : go (bool * state_any) :=
  match state with
  | AnyString _ => Panic "interface conversion"
  | AnyState st =>
      if bool_decide (KvInput_Op inp = 0%Z) then
        Ok (bool_decide (KvOutput_Value out = KvState_Value st), state)
      else if bool_decide (KvInput_Op inp = 1%Z) then
        if bool_decide (KvState_Version st = KvInput_Version inp) then
          Ok (bool_decide (KvOutput_Err out = "OK") || bool_decide (KvOutput_Err out = "ErrMaybe"),
              AnyState (mkKvState (KvInput_Value inp) (u64 (KvState_Version st + 1))))
        else
          Ok (bool_decide (KvOutput_Err out = "ErrVersion")
                || bool_decide (KvOutput_Err out = "ErrMaybe"),
              AnyState st)
      else Ok (false, AnyString "<invalid>")
  end.

Definition DescribeOperation (inp : KvInput) (out : KvOutput) : string :=
  if bool_decide (KvInput_Op inp = 0%Z) then
    "get('" +:+ KvInput_Key inp +:+ "') -> ('" +:+ KvOutput_Value out +:+ "', '"
      +:+ pretty (KvOutput_Version out) +:+ "', '" +:+ KvOutput_Err out +:+ "')"
  else if bool_decide (KvInput_Op inp = 1%Z) then
    "put('" +:+ KvInput_Key inp +:+ "', '" +:+ KvInput_Value inp +:+ "', '"
      +:+ pretty (KvInput_Version inp) +:+ "') -> ('" +:+ KvOutput_Err out +:+ "')"
  else "<invalid>".

(** ** Sequential acceptance *)

(** Runs a sequence of operations through [Step]; true when every step is accepted. *)
Fixpoint accepts (state : state_any) (ops : list Operation) : go bool :=
  match ops with
  | [] => Ok true
  | v :: ops =>
      let! (ok, state') := Step state (Operation_Input v) (Operation_Output v) in
      if ok : bool then accepts state' ops else Ok false
  end.

(** ** The server as a source of operations *)

(** Requests a client may issue. *)
Inductive request :=
| ReqGet (k : string)
| ReqPut (k v : string) (ver : Z).

(** One request at the server, logged as [kvtest1/porcupine.go] logs it. *)
Definition serve (kv : KVServer) (cli : Z) (r : request) : KVServer * Operation :=
  match r with
  | ReqGet k =>
      let rep := KvServer.Get kv (mkGetArgs k) GetReply_zero in
      (kv, mkOperation cli (mkKvInput 0 k "" 0) 0
             (mkKvOutput (GetReply_Value rep) (GetReply_Version rep) (GetReply_Err rep)) 0)
  | ReqPut k v ver =>
      let '(kv', rep) := KvServer.Put kv (mkPutArgs k v ver) in
      (kv', mkOperation cli (mkKvInput 1 k v ver) 0
              (mkKvOutput "" 0 (PutReply_Err rep)) 0)
  end.

Fixpoint serve_all (kv : KVServer) (l : list (Z * request)) : KVServer * list Operation :=
  match l with
  | [] => (kv, [])
  | (cli, r) :: l =>
      let '(kv1, v) := serve kv cli r in
      let '(kv2, vs) := serve_all kv1 l in
      (kv2, v :: vs)
  end.

(** The state of the model that a server state stands for, at one key. *)
Definition abs (kv : KVServer) (k : string) : state_any :=
  AnyState (mkKvState (cur_value kv k) (cur_version kv k)).

(** A [Put] answered by [ErrNoKey]: the only reply of the server the model has no case for. *)
Definition no_key_put (v : Operation) : bool :=
  bool_decide (KvInput_Op (Operation_Input v) = 1%Z)
  && bool_decide (KvOutput_Err (Operation_Output v) = ErrNoKey).

(** ** Lemmas *)

Lemma Partition_keys (order : list string) history :
  order ≡ₚ elements (dom (group_by op_key id history ∅)) ->
  NoDup (sort_Strings order) /\ forall k, k ∈ sort_Strings order <-> k ∈ op_key <$> history.
Proof.
  intros Ho. rewrite sort_Strings_perm, Ho. split; [apply NoDup_elements|].
  intros k. rewrite sort_Strings_perm, Ho, elem_of_elements, group_by_dom, dom_empty_L.
  set_solver.
Qed.

Lemma Partition_filter order history :
  Partition order history =
  (fun k => filter (fun v => op_key v = k) history) <$> sort_Strings order.
Proof.
  unfold Partition. apply list_fmap_ext. intros _ k _.
  rewrite group_by_default, lookup_empty. simpl. apply list_fmap_id.
Qed.

(** One request of the server is one accepted step of the model at its key, and no step at any
    other key. *)
Lemma serve_step kv cli r k :
  wf kv ->
  let '(kv', v) := serve kv cli r in
  no_key_put v = false ->
  wf kv' /\
  (if decide (op_key v = k)
   then Step (abs kv k) (Operation_Input v) (Operation_Output v) = Ok (true, abs kv' k)
   else abs kv' k = abs kv k).
Proof.
  intros Hwf. destruct r as [k'|k' w ver]; unfold serve.
  - intros _. split; [done|]. unfold op_key. simpl. case_decide as Hk; [|done]. subst k'.
    unfold Step, KvServer.Get, abs, cur_value. simpl.
    destruct (m kv !! k); simpl; [by rewrite bool_decide_eq_true_2|done].
  - set (args := mkPutArgs k' w ver).
    pose proof (Put_preserves_wf kv args Hwf) as Hwf'.
    destruct (decide (ver = cur_version kv k')) as [Hv|Hv].
    + pose proof (Put_version kv args k) as Hver. pose proof (Put_value kv args k) as Hval.
      rewrite Put_success in * by done. simpl in *. intros _. split; [done|].
      unfold abs. rewrite Hver, Hval. unfold op_key; simpl. 
      case_decide as Hk; [subst k'|by rewrite (bool_decide_eq_false_2 (k' = k)) by done].
      rewrite (bool_decide_eq_true_2 (k = k)) by done. unfold Step; simpl.
      by rewrite bool_decide_eq_true_2.
    + rewrite Put_failure in * by done. unfold no_key_put, put_error. simpl.
      destruct (has_key kv k') eqn:Ek; [|done]. intros _. split; [done|].
      unfold op_key. simpl. case_decide as Hk; [subst k'|done]. unfold Step, abs; simpl.
      by rewrite bool_decide_eq_false_2.
Qed.

(** A run of the server, cut down to one key, is accepted by the model from the state the
    server stands for. *)
Lemma serve_all_accepted kv l k :
  wf kv ->
  Forall (fun v => no_key_put v = false) (serve_all kv l).2 ->
  accepts (abs kv k) (filter (fun v => op_key v = k) (serve_all kv l).2) = Ok true.
Proof.
  revert kv. induction l as [|[cli r] l IH]; intros kv Hwf; simpl; [done|].
  pose proof (serve_step kv cli r k Hwf) as Hs.
  destruct (serve kv cli r) as [kv1 v]. specialize (IH kv1).
  destruct (serve_all kv1 l) as [kv2 vs]. simpl in *.
  intros [Hv Hvs]%Forall_cons. destruct (Hs Hv) as [Hwf1 Hstep]. specialize (IH Hwf1 Hvs).
  rewrite filter_cons. case_decide as Hk; simpl.
  - by rewrite Hstep.
  - by rewrite <- Hstep.
Qed.

(** ** Properties *)

(** [Partition] does not depend on the order in which the Go map is traversed; its groups
    are, in increasing order of key, the operations of each key in their original order, every
    operation appears in exactly one group, and no group is empty. *)
Theorem Partition_correct (order : list string) (history : list Operation)
    (Ho : order ≡ₚ elements (dom (group_by op_key id history ∅))) :
  exists keys,
    Partition order history = (fun k => filter (fun v => op_key v = k) history) <$> keys /\
    NoDup keys /\ StronglySorted String.le keys /\
    (forall k, k ∈ keys <-> exists v, v ∈ history /\ op_key v = k) /\
    concat (Partition order history) ≡ₚ history.
Proof.
  destruct (Partition_keys order history Ho) as [Hnd Hin].
  exists (sort_Strings order). rewrite !Partition_filter. split_and!; [done|done| | |].
  - unfold sort_Strings. apply (StronglySorted_merge_sort String.le).
  - intros k. rewrite Hin, list_elem_of_fmap. naive_solver.
  - apply concat_filter_perm; [done|]. intros v Hv. apply Hin, list_elem_of_fmap. eauto.
Qed.

Lemma Partition_correct_witness :
  let op k := mkOperation 0 (mkKvInput 0 k "" 0) 0 (mkKvOutput "" 0 "ErrNoKey") 0 in
  exists keys,
    Partition ["b"; "a"] [op "b"; op "a"; op "b"] =
      (fun k => filter (fun v => op_key v = k) [op "b"; op "a"; op "b"]) <$> keys /\
    NoDup keys /\ StronglySorted String.le keys /\
    (forall k, k ∈ keys <-> exists v, v ∈ [op "b"; op "a"; op "b"] /\ op_key v = k) /\
    concat (Partition ["b"; "a"] [op "b"; op "a"; op "b"]) ≡ₚ [op "b"; op "a"; op "b"].
Proof.
  intros op. apply Partition_correct.
  apply (bool_decide_unpack _). vm_compute. exact I.
Defined.

(** whatever clients ask of the server, the operations logged for every key form a history
    the model accepts from its initial state, provided no [Put] was answered by [ErrNoKey]. *)
Theorem server_refines_model (l : list (Z * request)) (k : string)
    (Hn : Forall (fun v => no_key_put v = false) (serve_all MakeKVServer l).2) :
  accepts Init (filter (fun v => op_key v = k) (serve_all MakeKVServer l).2) = Ok true.
Proof. apply (serve_all_accepted MakeKVServer l k wf_MakeKVServer Hn). Qed.

Lemma server_refines_model_witness :
  accepts Init (filter (fun v => op_key v = "x")
    (serve_all MakeKVServer
       [(0, ReqGet "x"); (1, ReqPut "x" "a" 0); (0, ReqPut "x" "b" 0); (1, ReqGet "x")]%Z).2)
  = Ok true.
Proof. apply server_refines_model. apply (bool_decide_unpack _). vm_compute. exact I. Defined.

(** the model has no case for [ErrNoKey]: a [Put] with a non-zero version to a missing key
    is answered by [ErrNoKey] at the server, and the model rejects that answer. *)
Theorem model_rejects_ErrNoKey (kv : KVServer) (cli : Z) (k v : string) (ver : Z)
    (Hmiss : m kv !! k = None) (Hver : ver ≠ 0%Z) :
  let '(kv', op) := serve kv cli (ReqPut k v ver) in
  kv' = kv /\ KvOutput_Err (Operation_Output op) = ErrNoKey /\
  Step (abs kv k) (Operation_Input op) (Operation_Output op) = Ok (false, abs kv k).
Proof.
  unfold serve. assert (cur_version kv k = 0%Z) as Hc by (unfold cur_version; by rewrite Hmiss).
  rewrite Put_failure by (simpl; congruence). unfold put_error, has_key. simpl.
  rewrite Hmiss, bool_decide_eq_false_2 by (by intros [? ?]).
  split_and!; [done|done|]. unfold Step, abs. simpl.
  by rewrite bool_decide_eq_false_2 by congruence.
Qed.

Lemma model_rejects_ErrNoKey_witness :
  let '(kv', op) := serve MakeKVServer 0 (ReqPut "x" "a" 3) in
  kv' = MakeKVServer /\ KvOutput_Err (Operation_Output op) = ErrNoKey /\
  Step (abs MakeKVServer "x") (Operation_Input op) (Operation_Output op)
    = Ok (false, abs MakeKVServer "x").
Proof. apply (model_rejects_ErrNoKey MakeKVServer 0 "x" "a" 3); [reflexivity|lia]. Defined.
