(* ===== verification/KvClerk.v ===== *)
(** * The key/value clerk and its interface

    Model of [src/src/kvsrv1/client.go] (the retry loops of [Clerk.Get] and [Clerk.Put]) and of
    the interface [IKVClerk] of [src/src/kvtest1/kvtest.go].

    - Section [RetryLoops]: the loops as functions of the results of [ck.clnt.Call].
    - Section [PutMachine]: one [Clerk.Put] in flight, interleaved with the server's handling
      of its requests and with arbitrary requests of other clients.  A request is executed at
      most once; a [Call] that returns [false] leaves its request lost before the server,
      executed with its reply lost, or (when [late] is allowed) still to be executed.
    - Class [IKVClerk]: what a clerk promises to its users, proved against by the lock. *)

From S2P Require Import Prelude KvRpc KvServer.

(** ** The retry loops *)

Section RetryLoops.

(** [GetReply] of the last [Call], turned into the results of [Clerk.Get]. *)
Definition Get_result (reply : GetReply) : string * Tversion * Err :=
  if bool_decide (GetReply_Err reply ≠ OK)
  then ("", 0%Z, GetReply_Err reply)
  else (GetReply_Value reply, GetReply_Version reply, OK).

(** [calls] are the results of the successive [Call]s: [None] for [false].  The function is
    [None] while the loop is still waiting. *)
Fixpoint Get (calls : list (option GetReply)) : option (string * Tversion * Err) :=
  match calls with
  | [] => None
  | Some reply :: _ => Some (Get_result reply)
  | None :: calls => Get calls
  end.

Definition Put_result (retried : bool) (reply : PutReply) : Err :=
  if bool_decide (PutReply_Err reply = ErrVersion) && retried
  then ErrMaybe
  else PutReply_Err reply.

Fixpoint Put (calls : list (option PutReply)) (retried : bool) : option Err :=
  match calls with
  | [] => None
  | Some reply :: _ => Some (Put_result retried reply)
  | None :: calls => Put calls true
  end.

End RetryLoops.

(** ** One [Clerk.Put] in flight *)

(** The current [Call]: its request is on its way, or the server has executed it. *)
Inductive attempt :=
| Pending
| Executed (reply : PutReply).

Record put_state := mkput_state {
  srv : KVServer;            (** the server *)
  cur : attempt;             (** the request of the current [Call] *)
  stale : nat;               (** requests of failed [Call]s the server has yet to execute *)
  retried : bool;            (** the variable of that name in [Clerk.Put] *)
  applied : nat;             (** how often the server applied a request of this operation *)
  result : option Err        (** what [Clerk.Put] returned *)
}.

(** 1 when the server applied the request. *)
Definition took_effect (reply : PutReply) : nat :=
  if bool_decide (PutReply_Err reply = OK) then 1 else 0.

Inductive put_step (late : bool) (args : PutArgs) : put_state -> put_state -> Prop :=
| step_other s a :
    (** another client's [Put] *)
    put_step late args s
      (mkput_state (KvServer.Put (srv s) a).1 (cur s) (stale s) (retried s) (applied s) (result s))
| step_exec s :
    (** the server executes the request of the current call *)
    result s = None -> cur s = Pending ->
    put_step late args s
      (mkput_state (KvServer.Put (srv s) args).1 (Executed (KvServer.Put (srv s) args).2)
         (stale s) (retried s)
         (applied s + took_effect (KvServer.Put (srv s) args).2) (result s))
| step_exec_stale s n :
    (** the server executes the request of an earlier, failed call *)
    stale s = S n ->
    put_step late args s
      (mkput_state (KvServer.Put (srv s) args).1 (cur s) n (retried s)
         (applied s + took_effect (KvServer.Put (srv s) args).2) (result s))
| step_lost s :
    (** [Call] returns false, its request or its reply is lost; the clerk resends *)
    result s = None ->
    put_step late args s (mkput_state (srv s) Pending (stale s) true (applied s) None)
| step_late s :
    (** [Call] returns false while its request is still to be executed; the clerk resends *)
    late = true -> result s = None -> cur s = Pending ->
    put_step late args s (mkput_state (srv s) Pending (S (stale s)) true (applied s) None)
| step_return s reply :
    (** [Call] returns true *)
    result s = None -> cur s = Executed reply ->
    put_step late args s
      (mkput_state (srv s) (cur s) (stale s) (retried s) (applied s)
         (Some (Put_result (retried s) reply))).

(** [Clerk.Put] has just sent its first request. *)
Definition put_start (kv : KVServer) : put_state := mkput_state kv Pending 0 false 0 None.

(** ** Invariant of the machine *)

Section PutMachine.
  Context (late : bool) (args : PutArgs) (kv0 : KVServer).

Record put_inv (n : nat) (s : put_state) : Prop := {
  inv_wf : wf (srv s);
  inv_bound : (cur_version (srv s) (PutArgs_Key args)
                 <= cur_version kv0 (PutArgs_Key args) + Z.of_nat n)%Z;
  inv_once : applied s <= 1;
  inv_passed : applied s = 1 ->
    (PutArgs_Version args < cur_version (srv s) (PutArgs_Key args))%Z
    /\ has_key (srv s) (PutArgs_Key args) = true;
  inv_ok : forall r, cur s = Executed r -> PutReply_Err r = OK -> applied s = 1;
  inv_err : forall r, cur s = Executed r -> PutReply_Err r ≠ OK ->
    PutReply_Err r = ErrVersion \/ PutReply_Err r = ErrNoKey;
  inv_first : retried s = false ->
    stale s = 0 /\ (forall r, cur s = Executed r -> PutReply_Err r ≠ OK -> applied s = 0)
    /\ (cur s = Pending -> applied s = 0);
  inv_late : late = false -> stale s = 0 /\
    (forall r, cur s = Executed r -> PutReply_Err r = ErrNoKey -> applied s = 0);
  inv_result : forall e, result s = Some e ->
    exists r, cur s = Executed r /\ e = Put_result (retried s) r
}.

Lemma result_step s s' e : put_step late args s s' -> result s = Some e -> result s' = Some e.
Proof. intros Hs Hr. destruct Hs; simpl in *; congruence. Qed.

Lemma result_stays k s s' e : nsteps (put_step late args) k s s' -> result s = Some e -> result s' = Some e.
Proof. induction 1; eauto using result_step. Qed.

(** The key of a server survives any [Put]. *)
Lemma has_key_Put kv a k : has_key kv k = true -> has_key (KvServer.Put kv a).1 k = true.
Proof.
  unfold has_key. rewrite !bool_decide_eq_true. intros Hk.
  destruct (decide (PutArgs_Key a = k)) as [<-|Hne]; [|by rewrite Put_other_key].
  destruct (decide (PutArgs_Version a = cur_version kv (PutArgs_Key a))).
  - rewrite Put_success by done. simpl. by rewrite lookup_insert_eq.
  - by rewrite Put_failure.
Qed.

(** Without wrap-around, a [Put] moves versions forward by at most one. *)
Lemma Put_version_step kv a k :
  wf kv -> (cur_version kv k < 2 ^ 64 - 1)%Z ->
  (cur_version kv k <= cur_version (KvServer.Put kv a).1 k <= cur_version kv k + 1)%Z.
Proof.
  intros Hwf Hb. pose proof (cur_version_range kv k Hwf). rewrite Put_version.
  destruct (_ && _); [|lia]. rewrite u64_small; lia.
Qed.

Lemma put_inv_start : wf kv0 -> put_inv 0 (put_start kv0).
Proof. intros Hwf. split; simpl; try naive_solver lia. Qed.

(** The effect of executing a request of the operation, whichever attempt it belongs to. *)
Lemma exec_effect n s :
  put_inv n s -> (cur_version kv0 (PutArgs_Key args) + Z.of_nat n < 2 ^ 64 - 1)%Z ->
  let kv' := (KvServer.Put (srv s) args).1 in
  let r := (KvServer.Put (srv s) args).2 in
  (PutReply_Err r = OK /\ took_effect r = 1 /\ applied s = 0
     /\ (PutArgs_Version args < cur_version kv' (PutArgs_Key args))%Z
     /\ has_key kv' (PutArgs_Key args) = true)
  \/ (PutReply_Err r ≠ OK /\ took_effect r = 0 /\ kv' = srv s
     /\ PutReply_Err r = put_error (srv s) (PutArgs_Key args)).
Proof.
  intros Hi Hb. cbv zeta. pose proof (inv_bound _ _ Hi) as Hbd.
  pose proof (cur_version_range _ (PutArgs_Key args) (inv_wf _ _ Hi)).
  destruct (decide (PutArgs_Version args = cur_version (srv s) (PutArgs_Key args))) as [E|E].
  - left. pose proof (Put_version (srv s) args (PutArgs_Key args)) as Hv.
    rewrite Put_success in * by done. simpl in *.
    rewrite (bool_decide_eq_true_2 (PutArgs_Key args = PutArgs_Key args)) in Hv by done.
    simpl in Hv. split_and!; [done|done| | |].
    + pose proof (inv_once _ _ Hi). pose proof (inv_passed _ _ Hi) as Hp.
      destruct (applied s) as [|[|?]]; [done| |lia]. destruct Hp; [done|lia].
    + rewrite Hv, u64_small; lia.
    + unfold has_key. simpl. by rewrite lookup_insert_eq.
  - right. rewrite Put_failure by done. simpl.
    pose proof (put_error_not_OK (srv s) (PutArgs_Key args)).
    unfold took_effect. simpl. rewrite bool_decide_eq_false_2 by done. done.
Qed.

Lemma put_error_cases kv k : put_error kv k = ErrVersion \/ put_error kv k = ErrNoKey.
Proof. unfold put_error. destruct (has_key kv k); auto. Qed.

Lemma put_error_no_key kv k : put_error kv k = ErrNoKey -> has_key kv k = false.
Proof. unfold put_error. destruct (has_key kv k); err_eq. Qed.

(** Facts about the server alone that any step keeps. *)
Lemma put_inv_server n s a :
  (cur_version kv0 (PutArgs_Key args) + Z.of_nat n < 2 ^ 64 - 1)%Z ->
  put_inv n s ->
  wf (KvServer.Put (srv s) a).1 /\
  (cur_version (KvServer.Put (srv s) a).1 (PutArgs_Key args)
     <= cur_version kv0 (PutArgs_Key args) + Z.of_nat (S n))%Z /\
  (applied s = 1 ->
    (PutArgs_Version args < cur_version (KvServer.Put (srv s) a).1 (PutArgs_Key args))%Z
    /\ has_key (KvServer.Put (srv s) a).1 (PutArgs_Key args) = true).
Proof.
  intros Hb [Hwf Hbd _ Hpass _ _ _ _ _].
  pose proof (Put_version_step (srv s) a (PutArgs_Key args) Hwf).
  split_and!; [by apply Put_preserves_wf|lia|].
  intros [? ?]%Hpass. split; [lia|by apply has_key_Put].
Qed.

Lemma put_inv_exec n s :
  (cur_version kv0 (PutArgs_Key args) + Z.of_nat n < 2 ^ 64 - 1)%Z ->
  put_inv n s -> result s = None -> cur s = Pending ->
  put_inv (S n)
    (mkput_state (KvServer.Put (srv s) args).1 (Executed (KvServer.Put (srv s) args).2)
       (stale s) (retried s) (applied s + took_effect (KvServer.Put (srv s) args).2) (result s)).
Proof.
  intros Hb Hi H1 H2. pose proof (put_inv_server n s args Hb Hi) as (Hw & Hv & Hp).
  pose proof (exec_effect n s Hi Hb) as He. cbv zeta in He.
  destruct Hi as [Hwf Hbd Honce Hpass Hok Herr Hfirst Hlate Hres].
  destruct He as [(Eok & Et & Ea & Hlt & Hk)|(Eno & Et & Ekv & Eerr)]; rewrite Et.
  - split; simpl; [done|done|lia|done|intros; lia| | | |intros e; congruence].
    + by intros r [= <-].
    + intros Hr. destruct (Hfirst Hr) as (? & ? & ?). split_and!; [done| |done].
      intros r [= <-]. done.
    + intros Hl. split; [by apply Hlate|]. intros r [= <-] Hn. err_eq.
  - rewrite Nat.add_0_r. split; simpl; [done|done|done|done| | | | |intros e; congruence].
    + by intros r [= <-].
    + intros r [= <-] _. rewrite Eerr. apply put_error_cases.
    + intros Hr. destruct (Hfirst Hr) as (? & ? & ?). naive_solver.
    + intros Hl. split; [by apply Hlate|]. intros r [= <-] Hn. rewrite Eerr in Hn.
      apply put_error_no_key in Hn. destruct (applied s) as [|[|?]]; [done| |lia].
      destruct Hpass as [_ Hk]; [done|]. congruence.
Qed.

Lemma put_inv_exec_stale n s n' :
  (cur_version kv0 (PutArgs_Key args) + Z.of_nat n < 2 ^ 64 - 1)%Z ->
  put_inv n s -> stale s = S n' ->
  put_inv (S n)
    (mkput_state (KvServer.Put (srv s) args).1 (cur s) n' (retried s)
       (applied s + took_effect (KvServer.Put (srv s) args).2) (result s)).
Proof.
  intros Hb Hi H1. pose proof (put_inv_server n s args Hb Hi) as (Hw & Hv & Hp).
  pose proof (exec_effect n s Hi Hb) as He. cbv zeta in He.
  destruct Hi as [Hwf Hbd Honce Hpass Hok Herr Hfirst Hlate Hres].
  assert (retried s = true) as Hr.
  { destruct (retried s); [done|]. destruct Hfirst as [? _]; [done|]. lia. }
  assert (late = true) as Hl.
  { destruct late; [done|]. destruct Hlate as [? _]; [done|]. lia. }
  destruct He as [(Eok & Et & Ea & Hlt & Hk)|(Eno & Et & Ekv & Eerr)]; rewrite Et.
  - split; simpl; try done; try lia; congruence.
  - rewrite Nat.add_0_r. split; simpl; try done; try congruence.
Qed.

Lemma put_inv_step n s s' :
  (cur_version kv0 (PutArgs_Key args) + Z.of_nat n < 2 ^ 64 - 1)%Z ->
  put_inv n s -> put_step late args s s' -> put_inv (S n) s'.
Proof.
  intros Hb Hi Hs.
  destruct Hs as [s a|s H1 H2|s n' H1|s H1|s H0 H1 H2|s r H1 H2].
  - destruct (put_inv_server n s a Hb Hi) as (Hw & Hv & Hp). destruct Hi. by split.
  - by apply put_inv_exec.
  - by apply put_inv_exec_stale.
  - destruct Hi as [Hwf Hbd Honce Hpass Hok Herr Hfirst Hlate Hres].
    split; simpl; try done; try lia. intros Hl. by destruct (Hlate Hl).
  - destruct Hi as [Hwf Hbd Honce Hpass Hok Herr Hfirst Hlate Hres].
    split; simpl; try done; try lia; congruence.
  - destruct Hi as [Hwf Hbd Honce Hpass Hok Herr Hfirst Hlate Hres].
    split; simpl; try done; try lia. intros e [= <-]. eauto.
Qed.

Lemma put_inv_run n s :
  wf kv0 -> (cur_version kv0 (PutArgs_Key args) + Z.of_nat n < 2 ^ 64)%Z ->
  nsteps (put_step late args) n (put_start kv0) s -> put_inv n s.
Proof.
  intros Hwf Hb. apply nsteps_invariant; [|by apply put_inv_start].
  intros k a b Hk Hi. eapply put_inv_step; [lia|done].
Qed.

End PutMachine.

(** ** Linearization of [Clerk.Put] *)

(** Another client's request at the server. *)
Definition other_put (kv kv' : KVServer) : Prop := exists a, kv' = (KvServer.Put kv a).1.

(** The atomic outcomes of [Clerk.Put]: the server's own reply, or [ErrMaybe] whether or not
    the request was applied. *)
Inductive clerk_put (kv : KVServer) (args : PutArgs) : Err -> KVServer -> Prop :=
| put_direct :
    clerk_put kv args (PutReply_Err (KvServer.Put kv args).2) (KvServer.Put kv args).1
| put_maybe_applied :
    PutReply_Err (KvServer.Put kv args).2 = OK ->
    clerk_put kv args ErrMaybe (KvServer.Put kv args).1
| put_maybe_not_applied :
    PutReply_Err (KvServer.Put kv args).2 ≠ OK -> clerk_put kv args ErrMaybe kv.

Section Linearization.
  Context (late : bool) (args : PutArgs) (kv0 : KVServer).

(** Where the operation took effect, or failed. *)
Record lin_inv (s : put_state) : Prop := {
  lin_none : applied s = 0 -> rtc other_put kv0 (srv s);
  lin_fail : forall r, applied s = 0 -> cur s = Executed r ->
    exists kv1, rtc other_put kv0 kv1 /\ (KvServer.Put kv1 args).2 = r
      /\ PutReply_Err r ≠ OK /\ rtc other_put kv1 (srv s);
  lin_done : applied s = 1 ->
    exists kv1, rtc other_put kv0 kv1 /\ PutReply_Err (KvServer.Put kv1 args).2 = OK
      /\ rtc other_put (KvServer.Put kv1 args).1 (srv s)
}.

Lemma lin_inv_start : lin_inv (put_start kv0).
Proof. by split; simpl. Qed.

Lemma lin_inv_step n s s' :
  (cur_version kv0 (PutArgs_Key args) + Z.of_nat n < 2 ^ 64 - 1)%Z ->
  put_inv late args kv0 n s -> lin_inv s -> put_step late args s s' -> lin_inv s'.
Proof.
  intros Hb Hi [Hnone Hfail Hdone] Hs.
  destruct Hs as [s a|s H1 H2|s n' H1|s H1|s H0 H1 H2|s r H1 H2].
  - assert (other_put (srv s) (KvServer.Put (srv s) a).1) as Ho by (by exists a).
    split; simpl.
    + intros Ha. eapply rtc_r; eauto.
    + intros r Ha Hc. destruct (Hfail r Ha Hc) as (kv1 & ? & ? & ? & ?).
      exists kv1. split_and!; try done. by eapply rtc_r.
    + intros Ha. destruct (Hdone Ha) as (kv1 & ? & ? & ?).
      exists kv1. split_and!; try done. by eapply rtc_r.
  - pose proof (exec_effect late args kv0 n s Hi Hb) as He. cbv zeta in He.
    destruct He as [(Eok & Et & Ea & _)|(Eno & Et & Ekv & Eerr)]; split; simpl; rewrite Et.
    + lia.
    + intros r Ha. lia.
    + intros _. exists (srv s). split_and!; [by apply Hnone|done|apply rtc_refl].
    + rewrite Nat.add_0_r, Ekv. done.
    + rewrite Nat.add_0_r, Ekv. intros r Ha [= <-]. exists (srv s).
      split_and!; [by apply Hnone|done|done|apply rtc_refl].
    + rewrite Nat.add_0_r, Ekv. done.
  - pose proof (exec_effect late args kv0 n s Hi Hb) as He. cbv zeta in He.
    destruct He as [(Eok & Et & Ea & _)|(Eno & Et & Ekv & Eerr)]; split; simpl; rewrite Et; try lia.
    + intros _. exists (srv s). split_and!; [by apply Hnone|done|apply rtc_refl].
    + by rewrite Nat.add_0_r, Ekv.
    + by rewrite Nat.add_0_r, Ekv.
    + by rewrite Nat.add_0_r, Ekv.
  - by split.
  - by split.
  - by split.
Qed.

Lemma lin_inv_run n s :
  wf kv0 -> (cur_version kv0 (PutArgs_Key args) + Z.of_nat n < 2 ^ 64)%Z ->
  nsteps (put_step late args) n (put_start kv0) s ->
  put_inv late args kv0 n s /\ lin_inv s.
Proof.
  intros Hwf Hb.
  apply (nsteps_invariant _ (fun n s => put_inv late args kv0 n s /\ lin_inv s)).
  - intros k a b Hk [Hi Hl] Hs. split; [eapply put_inv_step|eapply lin_inv_step]; try done; lia.
  - split; [by apply put_inv_start|apply lin_inv_start].
Qed.

(** A completed operation is one atomic step, in any state after its return. *)
Lemma lin_inv_result n s e :
  put_inv late args kv0 n s -> lin_inv s -> result s = Some e -> (late = true -> e ≠ ErrNoKey) ->
  exists kv1 kv2, rtc other_put kv0 kv1 /\ clerk_put kv1 args e kv2 /\ rtc other_put kv2 (srv s).
Proof.
  intros Hi [_ Hfail Hdone] Hres Hlate.
  destruct (inv_result _ _ _ _ _ Hi e Hres) as (r & Hc & ->). unfold Put_result in *.
  pose proof (inv_once _ _ _ _ _ Hi).
  destruct (decide (applied s = 0)) as [Ha|Ha].
  - destruct (Hfail r Ha Hc) as (kv1 & H1 & <- & Hne & H2). exists kv1, kv1.
    split_and!; try done. pose proof (put_direct kv1 args) as Hd. pose proof (put_maybe_not_applied kv1 args Hne).
    assert (KvServer.Put kv1 args = (kv1, (KvServer.Put kv1 args).2)) as E
      by (rewrite Put_failure by (rewrite <- Put_OK_iff; done); done).
    rewrite E in Hd at 2. simpl in Hd. case_bool_decide; [destruct (retried s)|]; done.
  - destruct Hdone as (kv1 & H1 & HOK & H2); [lia|]. exists kv1, (KvServer.Put kv1 args).1.
    split_and!; try done. destruct (decide (PutReply_Err r = OK)) as [E|E].
    + rewrite E. case_bool_decide; [err_eq|]. simpl. rewrite <- HOK. apply put_direct.
    + destruct (inv_err _ _ _ _ _ Hi r Hc E) as [E'|E'].
      * destruct (retried s) eqn:Hr.
        -- rewrite bool_decide_eq_true_2 by done. simpl. by apply put_maybe_applied.
        -- destruct (inv_first _ _ _ _ _ Hi Hr) as (_ & Hf & _). destruct Ha. by apply (Hf r).
      * assert (late = false) as Hl.
        { destruct late; [|done]. destruct (Hlate eq_refl). rewrite E'. by destruct (retried s). }
        destruct (inv_late _ _ _ _ _ Hi Hl) as [_ Hf]. destruct Ha. by apply (Hf r).
Qed.

(** No request of the operation can take effect any more. *)
Definition settled (s : put_state) : Prop := result s ≠ None /\ (stale s = 0 \/ applied s = 1).

Lemma settled_result n s e :
  put_inv late args kv0 n s -> result s = Some e -> (late = true -> e ≠ ErrNoKey) ->
  late = false \/ e ≠ ErrMaybe -> settled s.
Proof.
  intros Hi Hres Hn Hl. split; [congruence|]. destruct (decide (late = false)) as [E|E].
  { left. by apply (inv_late _ _ _ _ _ Hi). }
  destruct (inv_result _ _ _ _ _ Hi e Hres) as (r & Hc & ->). unfold Put_result in *.
  destruct (decide (PutReply_Err r = OK)) as [Eo|Eo]; [right; by apply (inv_ok _ _ _ _ _ Hi r)|].
  destruct (retried s) eqn:Hr; [exfalso|left; by apply (inv_first _ _ _ _ _ Hi)].
  destruct (inv_err _ _ _ _ _ Hi r Hc Eo) as [Er|Er]; rewrite Er in *; [by destruct Hl|].
  apply Hn; by destruct late.
Qed.

Lemma settled_step n s s' :
  (cur_version kv0 (PutArgs_Key args) + Z.of_nat n < 2 ^ 64 - 1)%Z ->
  put_inv late args kv0 n s -> settled s -> put_step late args s s' ->
  settled s' /\ rtc other_put (srv s) (srv s').
Proof.
  intros Hb Hi [Hr Hq] Hs. destruct Hs as [s a|s H1 H2|s n' H1|s H1|s H0 H1 H2|s r H1 H2]; try done.
  - split; [done|]. apply rtc_once. by exists a.
  - destruct Hq as [Hq|Hq]; [congruence|].
    destruct (exec_effect late args kv0 n s Hi Hb) as [(_ & _ & Ea & _)|(_ & Et & Ekv & _)]; [lia|].
    split; [split; [done|simpl; right; lia]|]. simpl. by rewrite Ekv.
Qed.

Lemma settled_run n k s s' :
  (cur_version kv0 (PutArgs_Key args) + Z.of_nat (n + k) < 2 ^ 64)%Z ->
  put_inv late args kv0 n s -> settled s -> nsteps (put_step late args) k s s' ->
  rtc other_put (srv s) (srv s').
Proof.
  intros Hb Hi Hq Hrun. revert n Hb Hi Hq. induction Hrun as [s|k s s1 s' H1 _ IH]; intros n Hb Hi Hq; [done|].
  destruct (settled_step n s s1 ltac:(lia) Hi Hq H1) as [Hq1 Ho].
  etrans; [exact Ho|]. apply (IH (S n)); [lia| |done]. eapply put_inv_step; [lia|done|done].
Qed.

End Linearization.

(** ** The interface of clerks *)

(** [IKVClerk], with what its users rely on.  [ck_view s k] is the value and version of key
    [k]; calls are relations because a [Put] over a lossy network has several outcomes. *)
Class IKVClerk (St : Type) := {
  ck_view : St -> string -> option (string * Tversion);
  ck_get : St -> string -> string * Tversion * Err -> St -> Prop;
  ck_put : St -> string -> string -> Tversion -> Err -> St -> Prop;
  ck_get_view : forall s k r s', ck_get s k r s' -> forall k', ck_view s' k' = ck_view s k';
  ck_get_ok : forall s k v ver e s', ck_get s k (v, ver, e) s' -> e = OK ->
    ck_view s k = Some (v, ver);
  ck_get_err : forall s k v ver e s', ck_get s k (v, ver, e) s' -> e ≠ OK ->
    e = ErrNoKey /\ ck_view s k = None;
  (** a [Put] either takes effect, at the version it names, or changes nothing *)
  ck_put_spec : forall s k v ver e s', ck_put s k v ver e s' ->
    (forall k', k' ≠ k -> ck_view s' k' = ck_view s k') /\
    ((ver = default 0%Z (snd <$> ck_view s k) /\ ck_view s' k = Some (v, u64 (ver + 1))
        /\ (e = OK \/ e = ErrMaybe))
     \/ (ver ≠ default 0%Z (snd <$> ck_view s k) /\ ck_view s' k = ck_view s k /\ e ≠ OK))
}.

(** Programs that use a clerk: the calls they make, in order. *)
Inductive prog (A : Type) : Type :=
| Ret (a : A)
| DoGet (k : string) (cont : string * Tversion * Err -> prog A)
| DoPut (k v : string) (ver : Tversion) (cont : Err -> prog A).
Arguments Ret {A} _.
Arguments DoGet {A} _ _.
Arguments DoPut {A} _ _ _ _.

(** Execution of one call of a program. *)
Inductive prog_step {St} `{!IKVClerk St} {A} : St * prog A -> St * prog A -> Prop :=
| prog_get s k cont r s' : ck_get s k r s' -> prog_step (s, DoGet k cont) (s', cont r)
| prog_put s k v ver cont e s' :
    ck_put s k v ver e s' -> prog_step (s, DoPut k v ver cont) (s', cont e).

Lemma prog_step_get {St} `{!IKVClerk St} {A} s k (cont : _ -> prog A) s' p' :
  prog_step (s, DoGet k cont) (s', p') -> exists r, ck_get s k r s' /\ p' = cont r.
Proof. intros H. inversion H; subst. eauto. Qed.

Lemma prog_step_put {St} `{!IKVClerk St} {A} s k v ver (cont : _ -> prog A) s' p' :
  prog_step (s, DoPut k v ver cont) (s', p') -> exists e, ck_put s k v ver e s' /\ p' = cont e.
Proof. intros H. inversion H; subst. eauto. Qed.

Lemma prog_put_to {St} `{!IKVClerk St} {A} s k v ver (cont : _ -> prog A) e s' p' :
  ck_put s k v ver e s' -> p' = cont e -> prog_step (s, DoPut k v ver cont) (s', p').
Proof. intros H ->. by constructor. Qed.

Lemma prog_step_ret {St} `{!IKVClerk St} {A} s (a : A) x : ~ prog_step (s, Ret a) x.
Proof. intros H. inversion H. Qed.

(** ** The clerk of this package implements the interface *)

Definition kv_view (kv : KVServer) (k : string) : option (string * Tversion) :=
  (fun v => (value_value v, value_version v)) <$> (m kv !! k).

Lemma kv_get_spec kv k :
  Get_result (KvServer.Get kv (mkGetArgs k) GetReply_zero) =
  match kv_view kv k with Some (v, ver) => (v, ver, OK) | None => ("", 0%Z, ErrNoKey) end.
Proof. unfold Get_result, KvServer.Get, kv_view. simpl. by destruct (m kv !! k). Qed.

#[export] Program Instance kvsrv_clerk : IKVClerk KVServer := {|
  ck_view := kv_view;
  ck_get kv k r kv' := kv' = kv /\ r = Get_result (KvServer.Get kv (mkGetArgs k) GetReply_zero);
  ck_put kv k v ver e kv' := clerk_put kv (mkPutArgs k v ver) e kv'
|}.
Next Obligation. by intros kv k r kv' [-> _]. Qed.
Next Obligation.
  intros kv k v ver e kv' [_ H] ->. rewrite kv_get_spec in H.
  destruct (kv_view kv k) as [[? ?]|]; simplify_eq/=; done.
Qed.
Next Obligation.
  intros kv k v ver e kv' [_ H] He. rewrite kv_get_spec in H.
  destruct (kv_view kv k) as [[? ?]|]; simplify_eq/=; done.
Qed.
Next Obligation.
  intros kv k v ver e kv' H.
  assert (default 0%Z (snd <$> kv_view kv k) = cur_version kv k) as Hd.
  { unfold kv_view, cur_version. by destruct (m kv !! k). }
  rewrite Hd. clear Hd.
  destruct (decide (ver = cur_version kv k)) as [E|E].
  - assert (KvServer.Put kv (mkPutArgs k v ver) =
      (mkKVServer (<[k := mkvalue v (u64 (ver + 1))]> (m kv)), mkPutReply OK)) as HP.
    { rewrite Put_success by done. simpl. by rewrite <- E. }
    destruct H as [|_|Hno]; [..|by rewrite HP in Hno]; rewrite HP; simpl.
    all: split; [intros k' Hk'; unfold kv_view; simpl; by rewrite lookup_insert_ne|].
    all: left; unfold kv_view; simpl; rewrite lookup_insert_eq; auto.
  - pose proof (put_error_not_OK kv k) as Hne.
    assert (KvServer.Put kv (mkPutArgs k v ver) = (kv, mkPutReply (put_error kv k))) as HP
      by (by rewrite Put_failure).
    destruct H as [|Hok|_]; [|by rewrite HP in Hok|]; rewrite ?HP; simpl.
    all: split; [done|]; right; split; [done|split; [done|]].
    + done.
    + err_eq.
Qed.

(** ** Properties *)

Lemma Put_first_success_gen j reply rest b :
  Put (replicate j None ++ Some reply :: rest) b =
  Some (Put_result (b || bool_decide (0 < j)) reply).
Proof.
  revert b. induction j as [|j IH]; intros b; simpl; [by rewrite orb_false_r|].
  rewrite IH. by rewrite orb_true_r.
Qed.

(** the retry loop of [Clerk.Put] ends with the first [Call] that succeeds, however many
    failed before it, and returns the server's error, except that [ErrVersion] after a retry
    becomes [ErrMaybe]. *)
Theorem Put_first_success (j : nat) (reply : PutReply) (rest : list (option PutReply)) :
  Put (replicate j None ++ Some reply :: rest) false =
  Some (if bool_decide (PutReply_Err reply = ErrVersion) && bool_decide (0 < j)
        then ErrMaybe else PutReply_Err reply).
Proof. apply Put_first_success_gen. Qed.

(** What the invariant says of a run of [Clerk.Put]. *)
Lemma exactly_once_run (late : bool) (args : PutArgs) (kv : KVServer) (n : nat) (s : put_state)
    (Hwf : wf kv)
    (Hb : (cur_version kv (PutArgs_Key args) + Z.of_nat n < 2 ^ 64)%Z)
    (Hrun : nsteps (put_step late args) n (put_start kv) s) :
  applied s <= 1 /\
  (result s = Some OK -> applied s = 1) /\
  (result s = Some ErrVersion -> applied s = 0) /\
  (late = false -> result s = Some ErrNoKey -> applied s = 0) /\
  (result s = Some ErrMaybe -> retried s = true) /\
  (forall e, result s = Some e -> e ∈ [OK; ErrVersion; ErrNoKey; ErrMaybe]).
Proof.
  destruct (put_inv_run late args kv n s Hwf Hb Hrun)
    as [_ _ Honce _ Hok Herr Hfirst Hlate Hres].
  assert (forall r, cur s = Executed r ->
    PutReply_Err r = OK \/ PutReply_Err r = ErrVersion \/ PutReply_Err r = ErrNoKey) as Hr.
  { intros r Hc. destruct (decide (PutReply_Err r = OK)); [auto|right; by apply Herr]. }
  split_and!; [done| | | | |].
  - intros (r & Hc & He)%Hres. unfold Put_result in He. apply (Hok r Hc).
    destruct (Hr r Hc) as [E|[E|E]], (retried s); rewrite E in *; revert He; by vm_compute.
  - intros (r & Hc & He)%Hres. unfold Put_result in He.
    destruct (Hr r Hc) as [E|[E|E]], (retried s) eqn:Hret; rewrite E in He; try by vm_compute in He.
    destruct (Hfirst eq_refl) as (_ & Hf & _). apply (Hf r Hc). rewrite E. err_eq.
  - intros Hl (r & Hc & He)%Hres. unfold Put_result in He.
    destruct (Hlate Hl) as [_ Hf]. apply (Hf r Hc).
    destruct (Hr r Hc) as [E|[E|E]], (retried s); rewrite E in *; revert He; by vm_compute.
  - intros (r & Hc & He)%Hres. unfold Put_result in He.
    destruct (Hr r Hc) as [E|[E|E]], (retried s); rewrite E in He; try done; by vm_compute in He.
  - intros e (r & Hc & ->)%Hres. unfold Put_result.
    destruct (Hr r Hc) as [E|[E|E]], (retried s); rewrite E; set_solver.
Qed.

(** [Clerk.Put] over a network that loses, duplicates by resending and delays requests,
    with other clients writing at the same time, is applied at most once; exactly once when it
    returns [OK], never when it returns [ErrVersion], and never when it returns [ErrNoKey] if
    no request outlives its [Call].  [ErrMaybe] is returned only after a resend.  The bound
    excludes a wrap-around of the 64-bit version during the run. *)
Theorem Put_exactly_once (late : bool) (args : PutArgs) (kv : KVServer) (n : nat) (s : put_state)
    (Hwf : wf kv)
    (Hb : (cur_version kv (PutArgs_Key args) + Z.of_nat n < 2 ^ 64)%Z)
    (Hrun : nsteps (put_step late args) n (put_start kv) s) :
  applied s <= 1 /\
  (result s = Some OK -> applied s = 1) /\
  (result s = Some ErrVersion -> applied s = 0) /\
  (late = false -> result s = Some ErrNoKey -> applied s = 0) /\
  (result s = Some ErrMaybe -> retried s = true) /\
  (forall e, result s = Some e -> e ∈ [OK; ErrVersion; ErrNoKey; ErrMaybe]).
Proof. by eapply exactly_once_run. Qed.

(** A concrete operation and its runs, used by the witnesses below. *)
Definition demo_args : PutArgs := mkPutArgs "k" "v" 0.

(** The request is executed, its reply lost, the resent request is executed and answered. *)
Definition demo_end : put_state :=
  mkput_state (KvServer.Put MakeKVServer demo_args).1 (Executed (mkPutReply ErrVersion)) 0 true 1
    (Some ErrMaybe).

Lemma demo_run late : nsteps (put_step late demo_args) 4 (put_start MakeKVServer) demo_end.
Proof.
  eapply nsteps_l; [by apply step_exec|].
  eapply nsteps_l; [by apply step_lost|].
  eapply nsteps_l; [by apply step_exec|].
  eapply nsteps_l; [by eapply step_return|].
  apply nsteps_O.
Qed.

Lemma Put_exactly_once_witness :
  applied demo_end <= 1 /\
  (result demo_end = Some OK -> applied demo_end = 1) /\
  (result demo_end = Some ErrVersion -> applied demo_end = 0) /\
  (false = false -> result demo_end = Some ErrNoKey -> applied demo_end = 0) /\
  (result demo_end = Some ErrMaybe -> retried demo_end = true) /\
  (forall e, result demo_end = Some e -> e ∈ [OK; ErrVersion; ErrNoKey; ErrMaybe]).
Proof.
  apply (Put_exactly_once false demo_args MakeKVServer 4);
    [apply wf_MakeKVServer|vm_compute; reflexivity|apply demo_run].
Defined.

(** C5: [Clerk.Put] is linearizable, over a network that loses and delays messages and with requests
    that outlive their [Call] ([late]).  In every state [s] after the return in [s1], the operation has
    behaved as one atomic step, with the requests of the other clients before and after it.  That step
    lies between call and return when no request outlives its [Call], and for every answer but
    [ErrMaybe]: after the return only requests of others change the store.  The answer [ErrNoKey] is
    covered when no request outlives its [Call] only; otherwise a late request can still be applied. *)
Theorem Put_linearizable (late : bool) (args : PutArgs) (kv : KVServer) (n k : nat) (s1 s : put_state) (e : Err)
    (Hwf : wf kv)
    (Hb : (cur_version kv (PutArgs_Key args) + Z.of_nat (n + k) < 2 ^ 64)%Z)
    (Hrun1 : nsteps (put_step late args) n (put_start kv) s1)
    (Hres : result s1 = Some e)
    (Hrun2 : nsteps (put_step late args) k s1 s)
    (Hlate : late = true -> e ≠ ErrNoKey) :
  (exists kv1 kv2, rtc other_put kv kv1 /\ clerk_put kv1 args e kv2 /\ rtc other_put kv2 (srv s)) /\
  (late = false \/ e ≠ ErrMaybe ->
    exists kv1 kv2, rtc other_put kv kv1 /\ clerk_put kv1 args e kv2 /\
      rtc other_put kv2 (srv s1) /\ rtc other_put (srv s1) (srv s)).
Proof.
  destruct (lin_inv_run late args kv n s1 Hwf ltac:(lia) Hrun1) as [Hi Hl].
  split.
  - destruct (lin_inv_run late args kv (n + k) s Hwf Hb (nsteps_trans _ _ _ _ _ Hrun1 Hrun2)) as [Hi' Hl'].
    eapply lin_inv_result; [done|done| |done]. by eapply result_stays.
  - intros Hq. destruct (lin_inv_result late args kv n s1 e Hi Hl Hres Hlate) as (kv1 & kv2 & H1 & H2 & H3).
    exists kv1, kv2. split_and!; [done|done|done|]. eapply settled_run; [done|done| |done]. by eapply settled_result.
Qed.

Lemma Put_linearizable_witness :
  exists kv1 kv2, rtc other_put MakeKVServer kv1 /\ clerk_put kv1 demo_args ErrMaybe kv2
    /\ rtc other_put kv2 (srv demo_end).
Proof.
  destruct (Put_linearizable true demo_args MakeKVServer 4 0 demo_end demo_end ErrMaybe) as [H _].
  - apply wf_MakeKVServer.
  - vm_compute. reflexivity.
  - apply demo_run.
  - reflexivity.
  - apply nsteps_O.
  - discriminate.
  - exact H.
Defined.

(** a request that outlives its [Call] can take effect after [Clerk.Put] has returned
    [ErrNoKey]: the first request is delayed, the resent one is answered by [ErrNoKey], another
    client creates the key, and then the delayed request finds its version. *)
Theorem late_request_applied_after_ErrNoKey :
  exists s, rtc (put_step true (mkPutArgs "k" "v" 1)) (put_start MakeKVServer) s /\
    result s = Some ErrNoKey /\ applied s = 1 /\ kv_view (srv s) "k" = Some ("v", 2%Z).
Proof.
  eexists. split; [|split; [|split]].
  - eapply rtc_l; [by apply step_late|].
    eapply rtc_l; [by apply step_exec|].
    eapply rtc_l; [by eapply step_return|].
    eapply rtc_l; [apply (step_other _ _ _ (mkPutArgs "k" "w" 0))|].
    eapply rtc_l; [by eapply step_exec_stale|].
    apply rtc_refl.
  - vm_compute. reflexivity.
  - vm_compute. reflexivity.
  - vm_compute. reflexivity.
Qed.
