(* ===== verification/Lock.v ===== *)
(** * The lock built on a key/value clerk

    Model of [src/src/kvsrv1/lock/lock.go].  The operations are programs over the interface
    [IKVClerk]: the calls they make and what they do with the answers.  The system is any
    number of clients running [MakeLock], [Acquire] and [Release] on the same key, interleaved
    at the granularity of clerk calls, over any clerk that implements the interface. *)

From S2P Require Import Prelude KvRpc KvServer KvClerk.

(** [type Lock struct] without the clerk. *)
Record Lock := mkLock {
  lockKey : string;
  version : Tversion
}.

(** The call of [MakeLock] after its [Get] found no key. *)
Definition MakeLock_put (l : string) : prog Lock :=
  DoPut l "0" 0 (fun err =>
    if bool_decide (err = OK) then Ret (mkLock l (u64 (0 + 1))) else Ret (mkLock l 0)).

Definition MakeLock (l : string) : prog Lock :=
  DoGet l (fun '(_, _, err) =>
    if bool_decide (err = ErrNoKey) then MakeLock_put l else Ret (mkLock l 0)).

(** The second half of [tryAcquire], after [lk.version = version]. *)
Definition tryAcquire_put (lk : Lock) : prog (Lock * bool) :=
  DoPut (lockKey lk) "1" (version lk) (fun err =>
    if bool_decide (err = OK) then Ret (mkLock (lockKey lk) (u64 (version lk + 1)), true)
    else if bool_decide (err = ErrVersion) then Ret (lk, false)
    else if bool_decide (err = ErrNoKey) then Ret (lk, false)
    else Ret (lk, false)).

Definition tryAcquire (lk : Lock) : prog (Lock * bool) :=
  DoGet (lockKey lk) (fun '(val, ver, err) =>
    if bool_decide (err ≠ OK) then Ret (lk, false)
    else if bool_decide (val = "1") then Ret (lk, false)
    else tryAcquire_put (mkLock (lockKey lk) ver)).

Definition Release (lk : Lock) : prog Lock :=
  DoPut (lockKey lk) "0" (version lk) (fun _ => Ret (mkLock (lockKey lk) (u64 (version lk + 1)))).

(** ** Clients and the system *)

(** What a client is executing; [Holding] is the critical section. *)
Inductive client :=
| Making (p : prog Lock)
| Idle (lk : Lock)
| Acquiring (p : prog (Lock * bool))
| Holding (lk : Lock)
| Releasing (p : prog Lock).

Section System.
  Context {St : Type} `{!IKVClerk St} (l : string).

(** One step of a client together with the store.  [Acquire] is the loop
    [for !lk.tryAcquire() { time.Sleep(...) }]. *)
Inductive client_step : St * client -> St * client -> Prop :=
| making_call s p s' p' : prog_step (s, p) (s', p') -> client_step (s, Making p) (s', Making p')
| made s lk : client_step (s, Making (Ret lk)) (s, Idle lk)
| acquire_start s lk : client_step (s, Idle lk) (s, Acquiring (tryAcquire lk))
| acquire_call s p s' p' :
    prog_step (s, p) (s', p') -> client_step (s, Acquiring p) (s', Acquiring p')
| acquire_again s lk : client_step (s, Acquiring (Ret (lk, false))) (s, Acquiring (tryAcquire lk))
| acquired s lk : client_step (s, Acquiring (Ret (lk, true))) (s, Holding lk)
| release_start s lk : client_step (s, Holding lk) (s, Releasing (Release lk))
| release_call s p s' p' :
    prog_step (s, p) (s', p') -> client_step (s, Releasing p) (s', Releasing p')
| released s lk : client_step (s, Releasing (Ret lk)) (s, Idle lk).

Inductive sys_step : St * list client -> St * list client -> Prop :=
| sys_client i s cs c s' c' :
    cs !! i = Some c -> client_step (s, c) (s', c') -> sys_step (s, cs) (s', <[i := c']> cs)
| sys_other s cs s' :
    (** activity on other keys *)
    ck_view s' l = ck_view s l -> sys_step (s, cs) (s', cs).

Definition sys_start (s : St) (n : nat) : St * list client :=
  (s, replicate n (Making (MakeLock l))).

(** ** Invariant *)

Definition cur_ver (s : St) : Tversion := default 0%Z (snd <$> ck_view s l).

(** The client has been told it has the lock and has not yet given it back. *)
Definition owner_version (c : client) : option Tversion :=
  match c with
  | Acquiring (Ret (lk, true)) => Some (version lk)
  | Holding lk => Some (version lk)
  | Releasing (DoPut _ _ ver _) => Some ver
  | _ => None
  end.

(** The programs a client can be in the middle of, and what it knows about the store. *)
Inductive client_ok (s : St) : client -> Prop :=
| ok_make : client_ok s (Making (MakeLock l))
| ok_make_put : client_ok s (Making (MakeLock_put l))
| ok_make_ret lk : lockKey lk = l -> client_ok s (Making (Ret lk))
| ok_idle lk : lockKey lk = l -> client_ok s (Idle lk)
| ok_try lk : lockKey lk = l -> client_ok s (Acquiring (tryAcquire lk))
| ok_try_put lk : lockKey lk = l -> (1 <= version lk <= cur_ver s)%Z ->
    (version lk = cur_ver s -> fst <$> ck_view s l ≠ Some "1") ->
    client_ok s (Acquiring (tryAcquire_put lk))
| ok_try_false lk : lockKey lk = l -> client_ok s (Acquiring (Ret (lk, false)))
| ok_try_true lk : lockKey lk = l -> ck_view s l = Some ("1", version lk) ->
    client_ok s (Acquiring (Ret (lk, true)))
| ok_hold lk : lockKey lk = l -> ck_view s l = Some ("1", version lk) ->
    client_ok s (Holding lk)
| ok_release lk : lockKey lk = l -> ck_view s l = Some ("1", version lk) ->
    client_ok s (Releasing (Release lk))
| ok_release_ret lk : lockKey lk = l -> client_ok s (Releasing (Ret lk)).

Record lock_inv (n : nat) (st : St * list client) : Prop := {
  li_bound : (0 <= cur_ver st.1 <= Z.of_nat n)%Z;
  li_exists : forall v ver, ck_view st.1 l = Some (v, ver) -> (1 <= ver)%Z;
  li_clients : forall i c, st.2 !! i = Some c -> client_ok st.1 c;
  li_unique : forall i j c d v w, st.2 !! i = Some c -> st.2 !! j = Some d ->
    owner_version c = Some v -> owner_version d = Some w -> i = j
}.

(** An owner sees the lock taken at its own version. *)
Lemma owner_view s c v : client_ok s c -> owner_version c = Some v -> ck_view s l = Some ("1", v).
Proof. intros Hc Ho. destruct Hc; simplify_eq/=; done. Qed.

(** What a client knows only depends on the store at the lock's key. *)
Lemma client_ok_view s s' c : ck_view s' l = ck_view s l -> client_ok s c -> client_ok s' c.
Proof.
  intros Hv Hc. assert (cur_ver s' = cur_ver s) as Hcv by (unfold cur_ver; by rewrite Hv).
  destruct Hc; constructor; rewrite ?Hcv, ?Hv; done.
Qed.

(** A client that owns nothing keeps its knowledge when the version moves forward. *)
Lemma client_ok_newer s s' c :
  (cur_ver s < cur_ver s')%Z -> owner_version c = None -> client_ok s c -> client_ok s' c.
Proof.
  intros Hlt Ho Hc. destruct Hc; simplify_eq/=; constructor; try done; try lia.
Qed.

(** ** The clerk calls of a client *)

(** Effect of one clerk call of client [i]: the store is unchanged at the lock's key, or the
    client was allowed to write, and the version moved forward by one. *)
Definition frame (s s' : St) : Prop :=
  ck_view s' l = ck_view s l \/ (cur_ver s' = cur_ver s + 1)%Z.

(** A put at the lock's key: applied at the current version, or without effect. *)
Lemma put_at_lock s v ver e s' :
  (0 <= cur_ver s < 2 ^ 64 - 1)%Z -> ck_put s l v ver e s' ->
  (ver = cur_ver s /\ ck_view s' l = Some (v, ver + 1)%Z /\ (e = OK \/ e = ErrMaybe)) \/
  (ver ≠ cur_ver s /\ ck_view s' l = ck_view s l /\ e ≠ OK).
Proof.
  intros Hb [_ [(E & Hv & He)|(E & Hv & He)]]%ck_put_spec; fold (cur_ver s) in E; [left|right; done].
  split_and!; [done| |done]. rewrite Hv, u64_small; [done|lia].
Qed.

(** What a step of one client does: it keeps its own knowledge right, and either leaves the
    store alone at the lock's key without becoming an owner, or moves the version forward by
    one, which it does only when the lock is not taken or when it is the owner. *)
Definition step_effect (s : St) (c : client) (s' : St) (c' : client) : Prop :=
  client_ok s' c' /\
  ((ck_view s' l = ck_view s l /\ (is_Some (owner_version c') -> is_Some (owner_version c)))
   \/ (exists v, ck_view s' l = Some (v, cur_ver s + 1)%Z /\
        (fst <$> ck_view s l ≠ Some "1" \/ is_Some (owner_version c)))).

Section Calls.
  Context (s s' : St) (Hb : (0 <= cur_ver s < 2 ^ 64 - 1)%Z)
  (Hex : forall v ver, ck_view s l = Some (v, ver) -> (1 <= ver)%Z).

(** Steps that leave the store alone. *)
Lemma effect_same c c' :
  ck_view s' l = ck_view s l -> client_ok s c' ->
  (is_Some (owner_version c') -> is_Some (owner_version c)) -> step_effect s c s' c'.
Proof. intros Hv Hc Ho. split; [by eapply client_ok_view|by left]. Qed.

Lemma make_effect p p' :
  client_ok s (Making p) -> prog_step (s, p) (s', p') ->
  step_effect s (Making p) s' (Making p').
Proof.
  intros Hc Hs. inversion Hc; subst.
  - apply prog_step_get in Hs as ([[v ver] err] & Hg & ->).
    apply effect_same; [by eapply ck_get_view| |by case_bool_decide; intros []].
    case_bool_decide; by constructor.
  - apply prog_step_put in Hs as (err & Hp & ->).
    try (rewrite Hk in Hp).
    destruct (put_at_lock s "0" 0 err s' Hb Hp) as [(E & Hv & _)|(E & Hv & He)].
    + split; [case_bool_decide; by constructor|]. right. exists "0".
      rewrite Hv, <- E. split; [done|left]. unfold cur_ver in E.
      destruct (ck_view s l) as [[v ver]|]; [|done]. specialize (Hex v ver eq_refl).
      simpl in E. lia.
    + apply effect_same; [done|case_bool_decide; by constructor|by case_bool_decide; intros []].
  - by apply prog_step_ret in Hs.
Qed.

Lemma acquire_effect p p' :
  client_ok s (Acquiring p) -> prog_step (s, p) (s', p') ->
  step_effect s (Acquiring p) s' (Acquiring p').
Proof.
  intros Hc Hs. inversion Hc as [| | | |lk Hk|lk Hk Hver Hval|lk Hk|lk Hk| | |]; subst.
  - apply prog_step_get in Hs as ([[v ver] err] & Hg & ->).
    apply effect_same; [by eapply ck_get_view| |repeat case_bool_decide; by intros []].
    case_bool_decide as He; [by constructor|]. case_bool_decide as H1; [by constructor|].
    pose proof (ck_get_ok _ _ _ _ _ _ Hg He) as Hview. rewrite Hk in Hview.
    constructor; simpl; [done| |]; unfold cur_ver; rewrite Hview; simpl; [|naive_solver].
    specialize (Hex _ _ Hview). lia.
  - apply prog_step_put in Hs as (err & Hp & ->).
    try (rewrite Hk in Hp).
    destruct (put_at_lock s "1" _ err s' Hb Hp) as [(E & Hv & He)|(E & Hv & He)].
    + split; [|right; exists "1"; rewrite Hv, <- E; auto].
      case_bool_decide; [|repeat case_bool_decide; by constructor].
      constructor; [done|]. rewrite Hv. simpl. rewrite u64_small by lia. done.
    + rewrite bool_decide_eq_false_2 by done.
      apply effect_same; [done|repeat case_bool_decide; by constructor|].
      repeat case_bool_decide; by intros [].
  - by apply prog_step_ret in Hs.
  - by apply prog_step_ret in Hs.
Qed.

Lemma release_effect p p' :
  client_ok s (Releasing p) -> prog_step (s, p) (s', p') ->
  step_effect s (Releasing p) s' (Releasing p') /\
  ck_view s' l = Some ("0", cur_ver s + 1)%Z.
Proof.
  intros Hc Hs. inversion Hc as [| | | | | | | | |lk Hk Hver|lk Hk]; subst.
  - apply prog_step_put in Hs as (err & Hp & ->).
    try (rewrite Hk in Hp).
    assert (cur_ver s = version lk) as Hcv by (unfold cur_ver; by rewrite Hver).
    destruct (put_at_lock s "0" _ err s' Hb Hp) as [(E & Hv & He)|(E & Hv & He)]; [|congruence].
    rewrite Hv, <- E. split; [|done]. split; [by constructor|].
    right. exists "0". rewrite Hv, <- E. split; [done|]. right. done.
  - by apply prog_step_ret in Hs.
Qed.

End Calls.

Lemma client_step_effect s s' c c' :
  (0 <= cur_ver s < 2 ^ 64 - 1)%Z ->
  (forall v ver, ck_view s l = Some (v, ver) -> (1 <= ver)%Z) ->
  client_ok s c -> client_step (s, c) (s', c') -> step_effect s c s' c'.
Proof.
  intros Hb Hex Hc Hs. inversion Hs; subst; clear Hs.
  1: by apply make_effect.
  3: by apply acquire_effect.
  6: by apply release_effect.
  all: inversion Hc; subst; apply effect_same; [done|by constructor|by first [done|intros []]].
Qed.

(** ** The system keeps the invariant *)

Lemma lock_inv_start s n : ck_view s l = None -> lock_inv 0 (sys_start s n).
Proof.
  intros Hv. assert (cur_ver s = 0%Z) as Hc by (unfold cur_ver; by rewrite Hv).
  split; simpl.
  - lia.
  - intros v ver. congruence.
  - intros i c [-> _]%lookup_replicate. constructor.
  - intros i j c d v w [-> _]%lookup_replicate. done.
Qed.

Lemma lock_inv_step n st st' :
  (Z.of_nat n < 2 ^ 64 - 1)%Z -> lock_inv n st -> sys_step st st' -> lock_inv (S n) st'.
Proof.
  intros Hn [Hb Hex Hok Huniq] Hs. destruct Hs as [i s cs c s' c' Hi Hs|s cs s' Hv]; simpl in *.
  2: { assert (cur_ver s' = cur_ver s) as Hcv by (unfold cur_ver; by rewrite Hv).
       split; simpl; [lia|by rewrite Hv| |done].
       intros i c Hi. by eapply client_ok_view; [done|eapply Hok]. }
  pose proof (lookup_lt_Some _ _ _ Hi) as Hlen.
  destruct (client_step_effect s s' c c') as [Hc' Heff]; [lia|done|by eapply Hok|done|].
  destruct Heff as [[Hv Hown]|(v & Hv & Hwhy)].
  - assert (cur_ver s' = cur_ver s) as Hcv by (unfold cur_ver; by rewrite Hv).
    split; simpl; [lia|by rewrite Hv| |].
    + intros j d [(-> & -> & _)|[Hne Hj]]%list_lookup_insert_Some; [done|].
      by eapply client_ok_view; [done|eapply Hok].
    + assert (forall j d u, <[i:=c']> cs !! j = Some d -> owner_version d = Some u ->
        exists d' u', cs !! j = Some d' /\ owner_version d' = Some u') as Hback.
      { intros j d u [(-> & -> & _)|[Hne Hj]]%list_lookup_insert_Some Hd; [|eauto].
        destruct Hown as [u' Hu']; eauto. }
      intros j k d e u w Hj Hk Hd He.
      destruct (Hback j d u Hj Hd) as (d' & u' & ? & ?).
      destruct (Hback k e w Hk He) as (e' & w' & ? & ?). eauto.
  - assert (cur_ver s' = cur_ver s + 1)%Z as Hcv by (unfold cur_ver at 1; by rewrite Hv).
    (* no other client owns the lock *)
    assert (forall j d, j ≠ i -> cs !! j = Some d -> owner_version d = None) as Hnone.
    { intros j d Hne Hj. destruct (owner_version d) as [u|] eqn:Ho; [exfalso|done].
      destruct Hwhy as [Hnot|[u' Hu']].
      - apply Hnot. by rewrite (owner_view s d u) by eauto.
      - apply Hne. eauto. }
    split; simpl; [lia| | |].
    + intros w ver Hw. rewrite Hv in Hw. simplify_eq. lia.
    + intros j d [(-> & -> & _)|[Hne Hj]]%list_lookup_insert_Some; [done|].
      apply (client_ok_newer s); [lia|by eapply Hnone|by eapply Hok].
    + intros j k d e u w Hj Hk Hd He.
      apply list_lookup_insert_Some in Hj as [(<- & _ & _)|[Hne Hj]];
        [|by rewrite (Hnone j d) in Hd].
      apply list_lookup_insert_Some in Hk as [(<- & _ & _)|[Hne Hk]];
        [done|by rewrite (Hnone k e) in He].
Qed.

Lemma lock_inv_run n k s st :
  (Z.of_nat n < 2 ^ 64)%Z -> ck_view s l = None ->
  nsteps sys_step n (sys_start s k) st -> lock_inv n st.
Proof.
  intros Hn Hv. apply nsteps_invariant; [|by apply lock_inv_start].
  intros i a b Hi Hinv. eapply lock_inv_step; [lia|done].
Qed.

(** ** An orphaned lock

    The store says the lock is taken while no client owns it. *)

Definition orphaned (st : St * list client) : Prop :=
  fst <$> ck_view st.1 l = Some "1" /\ (1 <= cur_ver st.1 < 2 ^ 64 - 1)%Z /\
  forall i c, st.2 !! i = Some c -> client_ok st.1 c /\ owner_version c = None.

Lemma orphaned_step st st' : orphaned st -> sys_step st st' -> orphaned st'.
Proof.
  intros (Hv & Hb & Hc) Hs. destruct Hs as [i s cs c s' c' Hi Hs|s cs s' Hv']; simpl in *.
  2: { unfold orphaned, cur_ver in *. simpl. rewrite Hv'. split_and!; [done|lia|lia|].
       intros i c Hi. destruct (Hc i c Hi). by split; [eapply client_ok_view|]. }
  destruct (Hc i c Hi) as [Hok Hno].
  destruct (client_step_effect s s' c c') as [Hc' [[Hv' Hown]|(v & _ & [Hnot|Ho])]];
    [lia| |done|done| |done|rewrite Hno in Ho; by destruct Ho].
  { intros v ver E. unfold cur_ver in Hb. rewrite E in Hb. simpl in Hb. lia. }
  unfold orphaned, cur_ver in *. simpl. rewrite Hv'. split_and!; [done|lia|lia|].
  intros j d [(-> & -> & _)|[Hne Hj]]%list_lookup_insert_Some.
  - split; [done|]. destruct (owner_version d) eqn:E; [|done].
    destruct Hown as [? Hx]; [done|]. congruence.
  - destruct (Hc j d Hj). by split; [eapply client_ok_view|].
Qed.

(** A [Put] of [tryAcquire] that takes effect and is answered [ErrMaybe]. *)
Lemma lost_put_orphans n st i lk s' :
  (Z.of_nat n < 2 ^ 64 - 2)%Z -> lock_inv n st -> st.2 !! i = Some (Acquiring (tryAcquire_put lk)) ->
  ck_put st.1 (lockKey lk) "1" (version lk) ErrMaybe s' -> ck_view s' l ≠ ck_view st.1 l ->
  orphaned (s', <[i := Acquiring (Ret (lk, false))]> st.2).
Proof.
  intros Hn [Hb Hex Hok _] Hi Hput Heff. pose proof (Hok i _ Hi) as Hc.
  assert (lockKey lk = l /\ (1 <= version lk <= cur_ver st.1)%Z /\
    (version lk = cur_ver st.1 -> fst <$> ck_view st.1 l ≠ Some "1")) as (Hk & Hver & Hval).
  { inversion Hc as [| | | | |lk' Hk' Hver' Hval'| | | | |]. destruct lk, lk'. by simplify_eq/=. }
  rewrite Hk in Hput.
  destruct (put_at_lock st.1 "1" (version lk) ErrMaybe s' ltac:(lia) Hput) as [(E & Hv & _)|(_ & ? & _)]; [|done].
  assert (cur_ver s' = cur_ver st.1 + 1)%Z as Hcv by (unfold cur_ver at 1; rewrite Hv; simpl; lia).
  split_and!; simpl; [by rewrite Hv|lia|lia|].
  intros j d [(<- & <- & _)|[Hne Hj]]%list_lookup_insert_Some; [split; [by constructor|done]|].
  assert (owner_version d = None) as Ho.
  { destruct (owner_version d) as [u|] eqn:Ho; [exfalso|done]. apply (Hval E).
    by rewrite (owner_view st.1 d u) by eauto. }
  split; [|done]. apply (client_ok_newer st.1); [lia|done|by eapply Hok].
Qed.

End System.

(** ** The operations over a reliable server *)

(** Runs a program whose every call is answered by the server at the first attempt. *)
Fixpoint run_reliable {A} (kv : KVServer) (p : prog A) : KVServer * A :=
  match p with
  | Ret a => (kv, a)
  | DoGet k cont =>
      run_reliable kv (cont (Get_result (KvServer.Get kv (mkGetArgs k) GetReply_zero)))
  | DoPut k v ver cont =>
      let '(kv', r) := KvServer.Put kv (mkPutArgs k v ver) in
      run_reliable kv' (cont (PutReply_Err r))
  end.

(** ** Properties *)

(** The client is in its critical section. *)
Definition is_holding (c : client) : bool :=
  match c with Holding _ => true | _ => false end.

(** C7: mutual exclusion.  Over any clerk that keeps the promises of the interface, whatever
    the interleaving, the lost replies and the [ErrMaybe]s, at most one client is in its
    critical section.  The bound excludes a wrap-around of the version. *)
Theorem mutual_exclusion {St : Type} `{!IKVClerk St} (l : string) (s : St) (nclients n : nat)
    (st : St * list client)
    (Hfresh : ck_view s l = None)
    (Hn : (Z.of_nat n < 2 ^ 64)%Z)
    (Hrun : nsteps (sys_step l) n (sys_start l s nclients) st) :
  countb is_holding st.2 <= 1.
Proof.
  destruct (lock_inv_run l n nclients s st Hn Hfresh Hrun) as [_ _ _ Huniq].
  apply countb_unique. intros i j [] [] Hi Hj ? ?; simplify_eq/=. by eapply Huniq.
Qed.

(** A run of one client up to its critical section. *)
Definition demo_made : KVServer := (KvServer.Put MakeKVServer (mkPutArgs "l" "0" 0)).1.
Definition demo_taken : KVServer := (KvServer.Put demo_made (mkPutArgs "l" "1" 1)).1.

(** A step of the only client. *)
Lemma one_client_step (s s' : KVServer) c c' :
  client_step (s, c) (s', c') -> sys_step "l" (s, [c]) (s', [c']).
Proof. intros H. by apply (sys_client "l" 0 s [c] c s' c'). Qed.

Lemma demo_until_put :
  nsteps (sys_step "l") 5 (sys_start "l" MakeKVServer 1)
    (demo_made, [Acquiring (tryAcquire_put (mkLock "l" 1))]).
Proof.
  eapply nsteps_l; [apply one_client_step, making_call, prog_get; by split|].
  eapply nsteps_l; [apply one_client_step, making_call, prog_put, put_direct|].
  eapply nsteps_l; [apply one_client_step, made|].
  eapply nsteps_l; [apply one_client_step, acquire_start|].
  eapply nsteps_l; [apply one_client_step, acquire_call, prog_get; by split|].
  apply nsteps_O.
Qed.

Lemma demo_holding :
  nsteps (sys_step "l") 7 (sys_start "l" MakeKVServer 1) (demo_taken, [Holding (mkLock "l" 2)]).
Proof.
  change 7 with (5 + 2). eapply nsteps_trans; [apply demo_until_put|].
  eapply nsteps_l; [apply one_client_step, acquire_call, prog_put, put_direct|].
  eapply nsteps_l; [apply one_client_step, acquired|]. apply nsteps_O.
Qed.

Lemma mutual_exclusion_witness : countb is_holding [Holding (mkLock "l" 2)] <= 1.
Proof.
  apply (mutual_exclusion "l" MakeKVServer 1 7 (demo_taken, [Holding (mkLock "l" 2)]));
    [reflexivity|reflexivity|apply demo_holding].
Defined.

(** [Release] gives the lock back.  When the clerk call of a client's [Release] completes,
    with whatever error, the lock's value is ["0"] at the next version: nobody can have
    interfered since the client acquired it. *)
Theorem Release_frees_lock {St : Type} `{!IKVClerk St} (l : string) (s : St) (nclients n : nat)
    (st : St * list client) (i : nat) (p p' : prog Lock) (s' : St)
    (Hfresh : ck_view s l = None)
    (Hn : (Z.of_nat n < 2 ^ 64 - 1)%Z)
    (Hrun : nsteps (sys_step l) n (sys_start l s nclients) st)
    (Hi : st.2 !! i = Some (Releasing p))
    (Hcall : prog_step (st.1, p) (s', p')) :
  ck_view st.1 l = Some ("1", cur_ver l st.1) /\
  ck_view s' l = Some ("0", cur_ver l st.1 + 1)%Z.
Proof.
  destruct (lock_inv_run l n nclients s st ltac:(lia) Hfresh Hrun) as [Hb _ Hok _].
  specialize (Hok i _ Hi).
  assert (0 <= cur_ver l st.1 < 2 ^ 64 - 1)%Z as Hb' by lia.
  destruct (release_effect l st.1 s' Hb' p p' Hok Hcall) as [_ Hv]. split; [|done].
  inversion Hok as [| | | | | | | | |lk Hk Hview|lk Hk]; subst; [|by apply prog_step_ret in Hcall].
  unfold cur_ver. by rewrite Hview.
Qed.

Lemma demo_releasing :
  nsteps (sys_step "l") 8 (sys_start "l" MakeKVServer 1)
    (demo_taken, [Releasing (Release (mkLock "l" 2))]).
Proof.
  change 8 with (7 + 1). eapply nsteps_trans; [apply demo_holding|].
  eapply nsteps_l; [apply one_client_step, release_start|]. apply nsteps_O.
Qed.

Lemma Release_frees_lock_witness :
  ck_view demo_taken "l" = Some ("1", cur_ver "l" demo_taken) /\
  ck_view (KvServer.Put demo_taken (mkPutArgs "l" "0" 2)).1 "l"
    = Some ("0", cur_ver "l" demo_taken + 1)%Z.
Proof.
  apply (Release_frees_lock "l" MakeKVServer 1 8
           (demo_taken, [Releasing (Release (mkLock "l" 2))]) 0
           (Release (mkLock "l" 2)) (Ret (mkLock "l" (u64 (2 + 1)))));
    [reflexivity|reflexivity|apply demo_releasing|reflexivity|].
  apply (prog_put demo_taken "l" "0" 2 (fun _ => Ret (mkLock "l" (u64 (2 + 1)))) OK).
  apply (put_direct demo_taken (mkPutArgs "l" "0" 2)).
Defined.

(** C39: [tryAcquire] treats [ErrMaybe] as a failure, and so loses a lock it has taken.  In any
    reachable state of any number of clients over any clerk, if the [Put] of a client's [tryAcquire]
    takes effect but is answered [ErrMaybe], then from there on, in every state that any continuation
    reaches, the lock's value is ["1"] while no client owns it, so that no client ever enters its
    critical section again.  The bound excludes a wrap-around of the version. *)
Theorem ErrMaybe_orphans_lock {St : Type} `{!IKVClerk St} (l : string) (s : St) (nclients n : nat)
    (st : St * list client) (i : nat) (lk : Lock) (s' : St)
    (Hfresh : ck_view s l = None)
    (Hn : (Z.of_nat n < 2 ^ 64 - 2)%Z)
    (Hrun : nsteps (sys_step l) n (sys_start l s nclients) st)
    (Hi : st.2 !! i = Some (Acquiring (tryAcquire_put lk)))
    (Hput : ck_put st.1 (lockKey lk) "1" (version lk) ErrMaybe s')
    (Heffect : ck_view s' l ≠ ck_view st.1 l) :
  let st1 := (s', <[i := Acquiring (Ret (lk, false))]> st.2) in
  sys_step l st st1 /\
  forall st', rtc (sys_step l) st1 st' ->
    fst <$> ck_view st'.1 l = Some "1" /\
    forall j c, st'.2 !! j = Some c -> owner_version c = None /\ is_holding c = false.
Proof.
  intros st1. assert (orphaned l st1) as Horph.
  { eapply lost_put_orphans; [done|by eapply lock_inv_run; [lia|..]|done..]. }
  split.
  - destruct st as [s0 cs]. apply (sys_client l i s0 cs _ s' _ Hi), acquire_call.
    by eapply prog_put_to.
  - intros st' Hrun'. assert (orphaned l st') as (Hv & _ & Hc).
    { eapply (rtc_invariant _ (orphaned l)); [apply orphaned_step|exact Horph|exact Hrun']. }
    split; [done|]. intros j c Hj. destruct (Hc j c Hj) as [_ Ho]. split; [done|]. by destruct c.
Qed.

Lemma ErrMaybe_orphans_lock_witness :
  sys_step "l" (demo_made, [Acquiring (tryAcquire_put (mkLock "l" 1))])
    (demo_taken, [Acquiring (Ret (mkLock "l" 1, false))]) /\
  forall st', rtc (sys_step "l") (demo_taken, [Acquiring (Ret (mkLock "l" 1, false))]) st' ->
    fst <$> ck_view st'.1 "l" = Some "1" /\
    forall j c, st'.2 !! j = Some c -> owner_version c = None /\ is_holding c = false.
Proof.
  apply (ErrMaybe_orphans_lock "l" MakeKVServer 1 5
    (demo_made, [Acquiring (tryAcquire_put (mkLock "l" 1))]) 0 (mkLock "l" 1) demo_taken).
  - reflexivity.
  - reflexivity.
  - apply demo_until_put.
  - reflexivity.
  - apply (put_maybe_applied demo_made (mkPutArgs "l" "1" 1)). reflexivity.
  - discriminate.
Defined.

(** without contention the lock works.  Over a reliable server that holds the lock free at
    some version, [tryAcquire] succeeds and leaves it taken, a second [tryAcquire] fails and
    changes nothing, and [Release] makes it free again, two versions later. *)
Theorem acquire_release_cycle (kv : KVServer) (lk other : Lock) (ver : Z)
    (Hkey : lockKey other = lockKey lk)
    (Hfree : kv_view kv (lockKey lk) = Some ("0", ver))
    (Hver : (0 <= ver < 2 ^ 64 - 2)%Z) :
  let '(kv1, (lk1, ok1)) := run_reliable kv (tryAcquire lk) in
  let '(kv2, (_, ok2)) := run_reliable kv1 (tryAcquire other) in
  let '(kv3, _) := run_reliable kv2 (Release lk1) in
  ok1 = true /\ kv_view kv1 (lockKey lk) = Some ("1", ver + 1)%Z /\ version lk1 = (ver + 1)%Z /\
  ok2 = false /\ kv2 = kv1 /\ kv_view kv3 (lockKey lk) = Some ("0", ver + 2)%Z.
Proof.
  assert (forall kv v w x, kv_view kv (lockKey lk) = Some (v, x) -> (0 <= x < 2 ^ 64 - 1)%Z ->
    exists kv', KvServer.Put kv (mkPutArgs (lockKey lk) w x) = (kv', mkPutReply OK) /\
      kv_view kv' (lockKey lk) = Some (w, x + 1)%Z) as Hput.
  { intros kv' v w x Hv Hx. eexists. rewrite Put_success.
    - split; [done|]. unfold kv_view. simpl. rewrite lookup_insert_eq. simpl.
      unfold kv_view in Hv. unfold cur_version. destruct (m kv' !! lockKey lk); simplify_eq/=.
      by rewrite u64_small by lia.
    - simpl. unfold kv_view in Hv. unfold cur_version.
      destruct (m kv' !! lockKey lk); by simplify_eq/=. }
  unfold tryAcquire at 1. simpl. rewrite kv_get_spec, Hfree.
  rewrite bool_decide_eq_false_2 by (by intros []).
  simpl. destruct (Hput kv "0" "1" ver Hfree ltac:(lia)) as (kv1 & Hp1 & Hv1). rewrite Hp1.
  simpl. rewrite Hkey, kv_get_spec, Hv1. simpl.
  rewrite u64_small by lia.
  destruct (Hput kv1 "1" "0" (ver + 1)%Z Hv1 ltac:(lia)) as (kv3 & Hp3 & Hv3). rewrite Hp3. simpl.
  split_and!; try done. rewrite Hv3. by rewrite <- Z.add_assoc.
Qed.

Lemma acquire_release_cycle_witness :
  let '(kv1, (lk1, ok1)) := run_reliable demo_made (tryAcquire (mkLock "l" 0)) in
  let '(kv2, (_, ok2)) := run_reliable kv1 (tryAcquire (mkLock "l" 7)) in
  let '(kv3, _) := run_reliable kv2 (Release lk1) in
  ok1 = true /\ kv_view kv1 "l" = Some ("1", 1 + 1)%Z /\ version lk1 = (1 + 1)%Z /\
  ok2 = false /\ kv2 = kv1 /\ kv_view kv3 "l" = Some ("0", 1 + 2)%Z.
Proof.
  apply (acquire_release_cycle demo_made (mkLock "l" 0) (mkLock "l" 7) 1);
    [reflexivity|reflexivity|lia].
Defined.
