(* ===== verification/LeaderLock.v ===== *)
(** * The leadership lock of shard controllers

    Model of [src/src/shardkv1/shardctrler/lock/lock.go].  A controller becomes the leader by
    putting its id at the lock's key; after an [ErrMaybe] it reads the key again to find out
    whether its put took effect.  [ReleaseLeadership] is called by the leader, or by another
    controller to depose a leader.  As in [Lock], operations are programs over [IKVClerk] and
    clients are interleaved at the granularity of clerk calls. *)

From S2P Require Import Prelude KvRpc KvServer KvClerk.

(** [type Lock struct] without the clerk. *)
Record Lock := mkLock {
  lk_l : string;
  lk_id : string;
  lk_ver : Tversion
}.

Definition set_ver (lk : Lock) (ver : Tversion) : Lock := mkLock (lk_l lk) (lk_id lk) ver.

(** As it stands, the name of the lock is not used and no id is chosen. *)
Definition MakeLock (l : string) : Lock := mkLock "" "" 0.

(** After an [ErrMaybe]: did the put succeed? *)
Definition acquire_check (lk : Lock) : prog (option Lock) :=
  DoGet (lk_l lk) (fun '(val, ver, err) =>
    if bool_decide (err = OK) then
      if bool_decide (val = lk_id lk) then Ret (Some (set_ver lk ver)) else Ret None
    else Ret None).

(** The put, when the lock is free at [ver]. *)
Definition acquire_put (lk : Lock) (ver : Tversion) : prog (option Lock) :=
  DoPut (lk_l lk) (lk_id lk) ver (fun err =>
    if bool_decide (err = OK) then Ret (Some (set_ver lk (u64 (ver + 1))))
    else if bool_decide (err = ErrMaybe) then acquire_check lk
    else Ret None).

(** One turn of the loop of [AcquireLeadership]; [None] goes round again. *)
Definition AcquireLeadership (lk : Lock) : prog (option Lock) :=
  DoGet (lk_l lk) (fun '(val, ver, err) =>
    if bool_decide (err = OK) then
      if bool_decide (val = "") then acquire_put lk ver else Ret None
    else Ret None).

Definition release_put (lk : Lock) (ver : Tversion) : prog Err :=
  DoPut (lk_l lk) "" ver (fun err =>
    Ret (if bool_decide (err = OK) || bool_decide (err = ErrMaybe) then OK else err)).

(** An error of the [Get] is only printed. *)
Definition ReleaseLeadership (lk : Lock) : prog Err :=
  DoGet (lk_l lk) (fun '(_, ver, _) => release_put lk ver).

(** ** Controllers and the system *)

(** What a controller is doing; [Leading] is the time it acts as the leader. *)
Inductive ctrler :=
| Idle (lk : Lock)
| Acquiring (lk : Lock) (p : prog (option Lock))
| Leading (lk : Lock)
| Releasing (lk : Lock) (p : prog Err).

Section System.
Context {St : Type} `{!IKVClerk St} (l : string).
(** Whether controllers may depose others: release a lock they do not hold. *)
Context (depose : bool).

Inductive ctrler_step : St * ctrler -> St * ctrler -> Prop :=
| acq_start s lk : ctrler_step (s, Idle lk) (s, Acquiring lk (AcquireLeadership lk))
| acq_call s lk p s' p' :
    prog_step (s, p) (s', p') -> ctrler_step (s, Acquiring lk p) (s', Acquiring lk p')
| acq_again s lk :
    ctrler_step (s, Acquiring lk (Ret None)) (s, Acquiring lk (AcquireLeadership lk))
| acq_done s lk lk' : ctrler_step (s, Acquiring lk (Ret (Some lk'))) (s, Leading lk')
| rel_start s lk : ctrler_step (s, Leading lk) (s, Releasing lk (ReleaseLeadership lk))
| rel_depose s lk :
    depose = true -> ctrler_step (s, Idle lk) (s, Releasing lk (ReleaseLeadership lk))
| rel_call s lk p s' p' :
    prog_step (s, p) (s', p') -> ctrler_step (s, Releasing lk p) (s', Releasing lk p')
| rel_done s lk e : ctrler_step (s, Releasing lk (Ret e)) (s, Idle lk).

Inductive ctrlers_step : St * list ctrler -> St * list ctrler -> Prop :=
| cs_ctrler i s cs c s' c' :
    cs !! i = Some c -> ctrler_step (s, c) (s', c') -> ctrlers_step (s, cs) (s', <[i := c']> cs)
| cs_other s cs s' :
    (** activity on other keys *)
    ck_view s' l = ck_view s l -> ctrlers_step (s, cs) (s', cs).

(** Controllers with ids [ids], before their first call.  [MakeLock] as it stands leaves the name and
    the id of a lock empty; these are locks in which both are filled in.  What happens with the locks
    that [MakeLock] does make is shown by [MakeLock_two_leaders]. *)
Definition ctrlers_start (s : St) (ids : list string) : St * list ctrler :=
  (s, (fun id => Idle (mkLock l id 0)) <$> ids).

(** ** Invariant *)

Definition lock_ver (s : St) : Tversion := default 0%Z (snd <$> ck_view s l).

(** The lock of a controller. *)
Definition own (id : string) (lk : Lock) : Prop := lk_l lk = l /\ lk_id lk = id.

(** A leader: its version is not ahead of the store; when nobody is deposed, or while its
    version is the current one, its id is in the store. *)
Definition leads (s : St) (lk : Lock) : Prop :=
  (lk_ver lk <= lock_ver s)%Z /\
  (depose = false \/ lk_ver lk = lock_ver s -> ck_view s l = Some (lk_id lk, lk_ver lk)).

(** When nobody is deposed, the id of a controller without the lock is not in the store. *)
Definition absent (s : St) (id : string) : Prop :=
  depose = false -> fst <$> ck_view s l ≠ Some id.

Inductive ctrler_ok (s : St) (id : string) : ctrler -> Prop :=
| co_idle lk : own id lk -> absent s id -> ctrler_ok s id (Idle lk)
| co_try lk : own id lk -> absent s id -> ctrler_ok s id (Acquiring lk (AcquireLeadership lk))
| co_put lk ver : own id lk -> absent s id -> (ver <= lock_ver s)%Z ->
    (ver = lock_ver s -> ck_view s l = Some ("", ver)) ->
    ctrler_ok s id (Acquiring lk (acquire_put lk ver))
| co_check lk : own id lk -> ctrler_ok s id (Acquiring lk (acquire_check lk))
| co_none lk : own id lk -> absent s id -> ctrler_ok s id (Acquiring lk (Ret None))
| co_some lk lk' : own id lk -> own id lk' -> leads s lk' ->
    ctrler_ok s id (Acquiring lk (Ret (Some lk')))
| co_lead lk : own id lk -> leads s lk -> ctrler_ok s id (Leading lk)
| co_release lk : own id lk -> (depose = false -> leads s lk) ->
    ctrler_ok s id (Releasing lk (ReleaseLeadership lk))
| co_release_put lk ver : own id lk -> (depose = false -> leads s lk /\ ver = lock_ver s) ->
    ctrler_ok s id (Releasing lk (release_put lk ver))
| co_released lk e : own id lk -> absent s id -> ctrler_ok s id (Releasing lk (Ret e)).

(** A controller that has the lock, or finds out with its next [Get] whether it has. *)
Inductive holder : ctrler -> Prop :=
| h_check lk : holder (Acquiring lk (acquire_check lk))
| h_some lk lk' : holder (Acquiring lk (Ret (Some lk')))
| h_lead lk : holder (Leading lk)
| h_release lk : holder (Releasing lk (ReleaseLeadership lk))
| h_release_put lk ver : holder (Releasing lk (release_put lk ver)).

Lemma absent_holder s id c :
  depose = false -> ctrler_ok s id c -> fst <$> ck_view s l = Some id -> holder c.
Proof. intros Hd Hc Hv. destruct Hc; try by constructor. all: by destruct (H0 Hd). Qed.

(** What a controller knows only depends on the store at the lock's key. *)
Lemma ctrler_ok_view s s' id c : ck_view s' l = ck_view s l -> ctrler_ok s id c -> ctrler_ok s' id c.
Proof.
  intros Hv Hc. assert (lock_ver s' = lock_ver s) as Hcv by (unfold lock_ver; by rewrite Hv).
  destruct Hc; constructor; unfold leads, absent in *; rewrite ?Hcv, ?Hv; done.
Qed.

(** The effect of a step of another controller on the store: none, or the version moves forward
    by one and the value is not [id]. *)
Definition forward (s s' : St) (id : string) : Prop :=
  exists v, v ≠ id /\ ck_view s' l = Some (v, lock_ver s + 1)%Z.

Lemma leads_forward s s' id lk :
  forward s s' id -> (depose = false -> ~ leads s lk) -> leads s lk -> leads s' lk.
Proof.
  intros (v & Hv & E) Hd [H1 H2]. assert (lock_ver s' = lock_ver s + 1)%Z as Hcv
    by (unfold lock_ver at 1; by rewrite E).
  split; [lia|]. intros [Hf|Hf]; [|lia]. by destruct (Hd Hf).
Qed.

Lemma ctrler_ok_forward s s' id c :
  forward s s' id -> (depose = false -> forall lk, own id lk -> ~ leads s lk) ->
  ctrler_ok s id c -> ctrler_ok s' id c.
Proof.
  intros Hf Hd Hc. pose proof Hf as (v & Hv & E).
  assert (lock_ver s' = lock_ver s + 1)%Z as Hcv by (unfold lock_ver at 1; by rewrite E).
  assert (absent s' id) as Ha by (intros _; rewrite E; simpl; congruence).
  destruct Hc as [lk Ho|lk Ho|lk ver Ho ? ? ?|lk Ho|lk Ho|lk lk' Ho Ho' Hl|lk Ho Hl|lk Ho Hl|lk ver Ho Hl|lk e Ho];
    constructor; try done; try lia.
  - eapply leads_forward; [done| |done]. intros Hx. by eapply Hd.
  - eapply leads_forward; [done| |done]. intros Hx. by eapply Hd.
  - intros Hx. by destruct (Hd Hx lk Ho (Hl Hx)).
  - intros Hx. by destruct (Hd Hx lk Ho (proj1 (Hl Hx))).
Qed.

(** ** The steps of one controller *)

(** A step keeps the controller's own knowledge right, and leaves the store alone or moves the
    version forward, writing its id or the empty string; it does so when the lock is free, when
    it has the lock, or when it deposes a leader. *)
Definition ctrler_effect (s : St) (id : string) (s' : St) (c' : ctrler) : Prop :=
  ctrler_ok s' id c' /\
  (ck_view s' l = ck_view s l \/
   exists v, (v = id \/ v = "") /\ ck_view s' l = Some (v, lock_ver s + 1)%Z /\
     (depose = true \/ (forall v', fst <$> ck_view s l = Some v' -> v' = "" \/ v' = id))).

Section Calls.
Context (s s' : St) (id : string) (Hid : id ≠ "").
Context (Hb : (0 <= lock_ver s < 2 ^ 64 - 1)%Z).

Lemma ctrler_same c' : ck_view s' l = ck_view s l -> ctrler_ok s id c' -> ctrler_effect s id s' c'.
Proof. intros Hv Hc. split; [by eapply ctrler_ok_view|by left]. Qed.

(** A put at the lock's key: applied at the current version, or without effect. *)
Lemma lead_put_cases v ver e :
  ck_put s l v ver e s' ->
  (ver = lock_ver s /\ ck_view s' l = Some (v, lock_ver s + 1)%Z /\ u64 (ver + 1) = (lock_ver s + 1)%Z
     /\ (e = OK \/ e = ErrMaybe)) \/
  (ver ≠ lock_ver s /\ ck_view s' l = ck_view s l /\ e ≠ OK).
Proof.
  intros [_ [(E & Hv & He)|(E & Hv & He)]]%ck_put_spec; fold (lock_ver s) in E; [left|by right].
  assert (u64 (ver + 1) = lock_ver s + 1)%Z as Hu by (rewrite u64_small; lia).
  rewrite Hv, Hu. done.
Qed.

Lemma acquire_put_effect lk ver p' :
  ctrler_ok s id (Acquiring lk (acquire_put lk ver)) -> own id lk -> absent s id ->
  (ver = lock_ver s -> ck_view s l = Some ("", ver)) ->
  prog_step (s, acquire_put lk ver) (s', p') -> ctrler_effect s id s' (Acquiring lk p').
Proof.
  intros Hc [Hl Hi] Ha Hfree Hs. apply prog_step_put in Hs as (err & Hp & ->).
  rewrite Hl in Hp. destruct (lead_put_cases _ _ _ Hp) as [(E & Hv & Hu & He)|(E & Hv & He)].
  - split.
    + destruct He as [->| ->].
      * rewrite bool_decide_eq_true_2 by done. constructor; [done|done|]. unfold leads. simpl.
        assert (lock_ver s' = lock_ver s + 1)%Z as Hcv by (unfold lock_ver at 1; by rewrite Hv).
        rewrite Hcv, Hu, Hv. split; [lia|done].
      * rewrite bool_decide_eq_false_2 by err_eq. rewrite bool_decide_eq_true_2 by done.
        by constructor.
    + right. exists (lk_id lk). split; [by left|]. split; [done|]. right.
      intros v' Hv'. rewrite Hfree in Hv' by done. left. by injection Hv'.
  - apply ctrler_same; [done|]. rewrite bool_decide_eq_false_2 by done.
    case_bool_decide; by constructor.
Qed.

Lemma lead_acquire_effect lk p p' :
  ctrler_ok s id (Acquiring lk p) -> prog_step (s, p) (s', p') ->
  ctrler_effect s id s' (Acquiring lk p').
Proof.
  intros Hc Hs. inversion Hc as [|lk0 Ho Ha|lk0 ver Ho Ha Hver Hfree|lk0 Ho|lk0 Ho Ha|lk0 lk' Ho Ho' Hl| | | |]; subst.
  - apply prog_step_get in Hs as ([[v ver] err] & Hg & ->). pose proof Ho as [Hl _]. rewrite Hl in Hg.
    apply ctrler_same; [by eapply ck_get_view|].
    case_bool_decide as He; [|by constructor]. case_bool_decide as Hv; [|by constructor].
    pose proof (ck_get_ok _ _ _ _ _ _ Hg He) as Hview. subst v.
    constructor; [done|done|..]; unfold lock_ver; rewrite Hview; simpl; [lia|done].
  - by eapply acquire_put_effect.
  - apply prog_step_get in Hs as ([[v ver] err] & Hg & ->). pose proof Ho as [Hl Hi]. rewrite Hl in Hg.
    apply ctrler_same; [by eapply ck_get_view|]. case_bool_decide as He.
    + pose proof (ck_get_ok _ _ _ _ _ _ Hg He) as Hview. case_bool_decide as Hv.
      * constructor; [done|done|]. unfold leads, lock_ver. simpl. rewrite Hview. simpl. subst v. by split.
      * constructor; [done|]. intros _. rewrite Hview. simpl. congruence.
    + destruct (ck_get_err _ _ _ _ _ _ Hg He) as [_ Hview].
      constructor; [done|]. intros _. by rewrite Hview.
  - by apply prog_step_ret in Hs.
  - by apply prog_step_ret in Hs.
Qed.

Lemma lead_release_effect lk p p' :
  ctrler_ok s id (Releasing lk p) -> prog_step (s, p) (s', p') ->
  ctrler_effect s id s' (Releasing lk p').
Proof.
  intros Hc Hs. inversion Hc as [| | | | | | |lk0 Ho Hl|lk0 ver Ho Hl|lk0 e Ho Ha]; subst.
  - apply prog_step_get in Hs as ([[v ver] err] & Hg & ->). pose proof Ho as [Hk _]. rewrite Hk in Hg.
    apply ctrler_same; [by eapply ck_get_view|]. constructor; [done|].
    intros Hd. split; [by apply Hl|]. destruct (Hl Hd) as [_ Hview]. specialize (Hview (or_introl Hd)).
    destruct (decide (err = OK)) as [He|He].
    + unfold lock_ver. by rewrite (ck_get_ok _ _ _ _ _ _ Hg He).
    + destruct (ck_get_err _ _ _ _ _ _ Hg He). congruence.
  - apply prog_step_put in Hs as (err & Hp & ->). pose proof Ho as [Hk Hi]. rewrite Hk in Hp.
    destruct (lead_put_cases _ _ _ Hp) as [(E & Hv & Hu & He)|(E & Hv & He)].
    + split; [constructor; [done|]; intros _; rewrite Hv; simpl; congruence|].
      right. exists "". split; [by right|]. split; [done|].
      destruct depose eqn:Hd; [by left|right]. destruct (Hl eq_refl) as [[_ Hview] _].
      rewrite Hview by by left. intros v' [= <-]. by right.
    + apply ctrler_same; [done|]. constructor; [done|]. intros Hd.
      by destruct (Hl Hd) as [_ ?].
  - by apply prog_step_ret in Hs.
Qed.

End Calls.

Lemma ctrler_step_effect s s' id c c' :
  id ≠ "" -> (0 <= lock_ver s < 2 ^ 64 - 1)%Z ->
  ctrler_ok s id c -> ctrler_step (s, c) (s', c') -> ctrler_effect s id s' c'.
Proof.
  intros Hid Hb Hc Hs. inversion Hs; subst; clear Hs.
  2: by eapply lead_acquire_effect.
  6: by eapply lead_release_effect.
  all: inversion Hc; subst; apply ctrler_same; [done|constructor; try done].
  intros; congruence.
Qed.
(** ** The system keeps the invariant *)

Context (ids : list string) (Hnd : NoDup ids) (Hne : "" ∉ ids).

Record ctrlers_inv (bound : Z) (st : St * list ctrler) : Prop := {
  ci_bound : (0 <= lock_ver st.1 <= bound)%Z;
  ci_len : length st.2 = length ids;
  ci_ctrlers : forall i c id, st.2 !! i = Some c -> ids !! i = Some id -> ctrler_ok st.1 id c;
  ci_value : forall v, fst <$> ck_view st.1 l = Some v -> v = "" \/ v ∈ ids
}.

Lemma ctrlers_inv_start s :
  (0 <= lock_ver s)%Z -> (forall v, fst <$> ck_view s l = Some v -> v = "") ->
  ctrlers_inv (lock_ver s) (ctrlers_start s ids).
Proof.
  intros Hb Hv. split; simpl; [lia|by rewrite length_fmap| |intros v H; left; by apply Hv].
  intros i c id Hc Hi. rewrite list_lookup_fmap, Hi in Hc. injection Hc as <-.
  constructor; [done|]. intros _ E. apply Hv in E. subst id. apply Hne.
  by eapply list_elem_of_lookup_2.
Qed.

Lemma ctrlers_inv_step b st st' :
  (b < 2 ^ 64 - 1)%Z -> ctrlers_inv b st -> ctrlers_step st st' -> ctrlers_inv (b + 1) st'.
Proof.
  intros Hb [Hbd Hlen Hok Hval] Hs. destruct Hs as [i s cs c s' c' Hi Hs|s cs s' Hv]; simpl in *.
  2: { assert (lock_ver s' = lock_ver s) as Hcv by (unfold lock_ver; by rewrite Hv).
       split; simpl; [lia|done| |by rewrite Hv].
       intros i c id Hi Hx. eapply ctrler_ok_view; [done|]. by eapply Hok. }
  destruct (lookup_lt_is_Some_2 ids i) as [id Hx];
    [rewrite <- Hlen; by eapply lookup_lt_Some|].
  assert (id ≠ "") as Hid by (intros ->; by apply Hne; eapply list_elem_of_lookup_2).
  destruct (ctrler_step_effect s s' id c c') as [Hc' Heff]; [done|lia|by eapply Hok|done|].
  split; simpl; [|by rewrite length_insert| |].
  - destruct Heff as [Hv|(v & _ & Hv & _)]; unfold lock_ver at 1 2; rewrite Hv; [|simpl; lia].
    fold (lock_ver s). lia.
  - intros j d jd [(-> & -> & _)|[Hij Hj]]%list_lookup_insert_Some Hjd; [by simplify_eq|].
    assert (jd ≠ id) as Hdiff by (intros ->; apply Hij; by eapply NoDup_lookup).
    assert (jd ≠ "") as Hjne by (intros ->; by apply Hne; eapply list_elem_of_lookup_2).
    destruct Heff as [Hv|(v & Hwho & Hv & Hwhy)]; [eapply ctrler_ok_view; [done|]; by eapply Hok|].
    eapply ctrler_ok_forward; [| |by eapply Hok].
    + exists v. split; [naive_solver|done].
    + intros Hd lk [_ Ho] [_ Hl]. specialize (Hl (or_introl Hd)). subst jd.
      destruct Hwhy as [?|Hwhy]; [congruence|]. destruct (Hwhy (lk_id lk)); [by rewrite Hl|done..].
  - intros v Hv. destruct Heff as [Hv'|(w & Hwho & Hv' & _)]; rewrite Hv' in Hv; [by apply Hval|].
    simplify_eq/=. destruct Hwho as [->| ->]; [|by left]. right. by eapply list_elem_of_lookup_2.
Qed.

Lemma ctrlers_inv_run n s st :
  (0 <= lock_ver s)%Z -> (lock_ver s + Z.of_nat n < 2 ^ 64)%Z ->
  (forall v, fst <$> ck_view s l = Some v -> v = "") ->
  nsteps ctrlers_step n (ctrlers_start s ids) st -> ctrlers_inv (lock_ver s + Z.of_nat n) st.
Proof.
  intros H0 Hn Hv.
  apply (nsteps_invariant ctrlers_step (fun k st => ctrlers_inv (lock_ver s + Z.of_nat k) st)).
  - intros k a b Hk Hinv Hs. replace (lock_ver s + Z.of_nat (S k))%Z
      with (lock_ver s + Z.of_nat k + 1)%Z by lia. eapply ctrlers_inv_step; [lia|done|done].
  - rewrite Z.add_0_r. by apply ctrlers_inv_start.
Qed.
End System.

(** ** Claims *)

Definition is_leading (c : ctrler) : bool := match c with Leading _ => true | _ => false end.

(** A lock that was never taken. *)
Definition free {St} `{!IKVClerk St} (s : St) (l : string) : Prop :=
  (0 <= lock_ver l s)%Z /\ forall v, fst <$> ck_view s l = Some v -> v = "".

(** C18: Leadership is exclusive and never lost.  Controllers with different, non-empty ids that only give
    up their own leadership, over any clerk that keeps the promises of the interface, whatever
    the interleaving, the lost replies and the [ErrMaybe]s: at most one is the leader, and
    whenever an id is in the store its controller has the lock or finds it out with its next
    call, so that no [ErrMaybe] leaves the lock taken by nobody. *)
Theorem leadership_exclusive {St : Type} `{!IKVClerk St} (l : string) (ids : list string) (s : St)
    (n : nat) (st : St * list ctrler) :
  NoDup ids -> "" ∉ ids -> free s l -> (lock_ver l s + Z.of_nat n < 2 ^ 64)%Z ->
  nsteps (ctrlers_step l false) n (ctrlers_start l s ids) st ->
  countb is_leading st.2 <= 1 /\
  forall v ver, ck_view st.1 l = Some (v, ver) -> v ≠ "" ->
    exists i c, ids !! i = Some v /\ st.2 !! i = Some c /\ holder c.
Proof.
  intros Hnd Hne [H0 Hf] Hn Hrun.
  destruct (ctrlers_inv_run l false ids Hnd Hne n s st H0 Hn Hf Hrun) as [Hb Hlen Hok Hval].
  assert (forall i lk, st.2 !! i = Some (Leading lk) ->
    exists id, ids !! i = Some id /\ ck_view st.1 l = Some (id, lk_ver lk)) as Hlead.
  { intros i lk Hi. destruct (lookup_lt_is_Some_2 ids i) as [id Hx];
      [rewrite <- Hlen; by eapply lookup_lt_Some|]. exists id. split; [done|].
    specialize (Hok i _ id Hi Hx). inversion Hok as [| | | | | |lk0 [_ <-] [_ Hl]| | |]; subst.
    apply Hl. by left. }
  split.
  - apply countb_unique. intros i j [] [] Hi Hj ? ?; simplify_eq/=.
    destruct (Hlead i _ Hi) as (a & Ha & Hva). destruct (Hlead j _ Hj) as (b & Hbj & Hvb).
    rewrite Hva in Hvb. simplify_eq. by eapply NoDup_lookup.
  - intros v ver Hv Hne'. destruct (Hval v) as [?|[i Hi]%list_elem_of_lookup_1]; [by rewrite Hv|done|].
    destruct (lookup_lt_is_Some_2 st.2 i) as [c Hc]; [rewrite Hlen; by eapply lookup_lt_Some|].
    exists i, c. split_and!; [done|done|]. eapply (absent_holder l false); [done|by eapply Hok|].
    by rewrite Hv.
Qed.

Definition demo_free : KVServer := (KvServer.Put MakeKVServer (mkPutArgs "l" "" 0)).1.
Definition demo_led : KVServer := (KvServer.Put demo_free (mkPutArgs "l" "a" 1)).1.

(** A step of the first of two controllers. *)
Lemma first_step l d (s s' : KVServer) c c' e :
  ctrler_step d (s, c) (s', c') -> ctrlers_step l d (s, [c; e]) (s', [c'; e]).
Proof. intros H. by apply (cs_ctrler l d 0 s [c; e] c s' c'). Qed.

(** The reply of the put is lost, and the second [Get] finds out that it took effect. *)
Lemma demo_leading d :
  nsteps (ctrlers_step "l" d) 5 (ctrlers_start "l" demo_free ["a"; "b"])
    (demo_led, [Leading (mkLock "l" "a" 2); Idle (mkLock "l" "b" 0)]).
Proof.
  eapply nsteps_l; [apply first_step, acq_start|].
  eapply nsteps_l; [apply first_step, acq_call, prog_get; by split|].
  eapply nsteps_l; [apply first_step, acq_call; eapply prog_put_to;
    [by apply put_maybe_applied|reflexivity]|].
  eapply nsteps_l; [apply first_step, acq_call, prog_get; by split|].
  eapply nsteps_l; [apply first_step, acq_done|]. apply nsteps_O.
Qed.

Lemma demo_ids : NoDup ["a"; "b"] /\ "" ∉ ["a"; "b"].
Proof. split; [apply (bool_decide_unpack _); by vm_compute|set_solver]. Qed.

Lemma leadership_exclusive_witness :
  countb is_leading [Leading (mkLock "l" "a" 2); Idle (mkLock "l" "b" 0)] <= 1.
Proof.
  eapply (leadership_exclusive "l" ["a"; "b"] demo_free 5
    (demo_led, [Leading (mkLock "l" "a" 2); Idle (mkLock "l" "b" 0)])).
  - exact (proj1 demo_ids).
  - exact (proj2 demo_ids).
  - split; [vm_compute; discriminate|intros v; vm_compute; by intros [= <-]].
  - reflexivity.
  - exact (demo_leading false).
Defined.

(** C30: The version fences off deposed leaders.  Of controllers whose locks have one name and
    distinct ids that are not empty, which [MakeLock] leaves to be filled in, even when they release locks
    they do not hold, at most one controller that takes itself for the leader has the version of the store,
    and its id is then the value of the store. *)
Theorem leadership_fenced {St : Type} `{!IKVClerk St} (l : string) (ids : list string) (s : St)
    (n : nat) (st : St * list ctrler) (i j : nat) (lk lk' : Lock) :
  NoDup ids -> "" ∉ ids -> free s l -> (lock_ver l s + Z.of_nat n < 2 ^ 64)%Z ->
  nsteps (ctrlers_step l true) n (ctrlers_start l s ids) st ->
  st.2 !! i = Some (Leading lk) -> lk_ver lk = lock_ver l st.1 ->
  ck_view st.1 l = Some (lk_id lk, lk_ver lk) /\
  (st.2 !! j = Some (Leading lk') -> i ≠ j -> (lk_ver lk' < lk_ver lk)%Z).
Proof.
  intros Hnd Hne [H0 Hf] Hn Hrun Hi Hver.
  destruct (ctrlers_inv_run l true ids Hnd Hne n s st H0 Hn Hf Hrun) as [Hb Hlen Hok Hval].
  assert (forall i lk, st.2 !! i = Some (Leading lk) ->
    ids !! i = Some (lk_id lk) /\ leads l true st.1 lk) as Hlead.
  { clear i lk Hi Hver. intros i lk Hi. destruct (lookup_lt_is_Some_2 ids i) as [id Hx];
      [rewrite <- Hlen; by eapply lookup_lt_Some|].
    specialize (Hok i _ id Hi Hx). by inversion Hok as [| | | | | |lk0 [_ <-] Hl| | |]; subst. }
  destruct (Hlead i lk Hi) as [Hidi [_ Hvi]]. specialize (Hvi (or_intror Hver)). split; [done|].
  intros Hj Hij. destruct (Hlead j lk' Hj) as [Hidj [Hle Hvj]].
  destruct (decide (lk_ver lk' = lock_ver l st.1)) as [E|E]; [|lia].
  specialize (Hvj (or_intror E)). rewrite Hvi in Hvj. injection Hvj as Hids _. destruct Hij.
  rewrite <- Hids in Hidj. by eapply NoDup_lookup.
Qed.

Lemma leadership_fenced_witness : ck_view demo_led "l" = Some ("a", 2%Z).
Proof.
  eapply (leadership_fenced "l" ["a"; "b"] demo_free 5
    (demo_led, [Leading (mkLock "l" "a" 2); Idle (mkLock "l" "b" 0)]) 0 1 (mkLock "l" "a" 2)
    (mkLock "l" "b" 0)).
  - exact (proj1 demo_ids).
  - exact (proj2 demo_ids).
  - split; [vm_compute; discriminate|intros v; vm_compute; by intros [= <-]].
  - reflexivity.
  - exact (demo_leading true).
  - reflexivity.
  - reflexivity.
Defined.

(** [MakeLock] as it stands gives every controller the empty id, which is also the value of
    the free lock: two controllers can be the leader at the same time, and both use the empty
    key instead of the name they were given. *)
Theorem MakeLock_two_leaders (l : string) :
  exists st, rtc (ctrlers_step "" false)
      ((KvServer.Put MakeKVServer (mkPutArgs "" "" 0)).1, [Idle (MakeLock l); Idle (MakeLock l)]) st /\
    countb is_leading st.2 = 2.
Proof.
  exists ((KvServer.Put (KvServer.Put (KvServer.Put MakeKVServer (mkPutArgs "" "" 0)).1
     (mkPutArgs "" "" 1)).1 (mkPutArgs "" "" 2)).1, [Leading (mkLock "" "" 2); Leading (mkLock "" "" 3)]).
  split; [|reflexivity].
  eapply rtc_l; [apply first_step, acq_start|].
  eapply rtc_l; [apply first_step, acq_call, prog_get; by split|].
  eapply rtc_l; [apply first_step, acq_call, prog_put, put_direct|].
  eapply rtc_l; [apply first_step, acq_done|].
  eapply rtc_l; [by eapply (cs_ctrler _ _ 1); [reflexivity|apply acq_start]|].
  eapply rtc_l; [eapply (cs_ctrler _ _ 1); [reflexivity|apply acq_call, prog_get; by split]|].
  eapply rtc_l; [eapply (cs_ctrler _ _ 1); [reflexivity|apply acq_call, prog_put, put_direct]|].
  eapply rtc_l; [eapply (cs_ctrler _ _ 1); [reflexivity|apply acq_done]|].
  apply rtc_refl.
Qed.
