(* ===== verification/KvTest.v ===== *)
(** * The workloads and checks of the key/value tests

    Model of [src/src/kvtest1/kvtest.go] and of the recording of operations in
    [src/src/kvtest1/porcupine.go].  Workloads are programs over the clerk interface [IKVClerk];
    the encodings of values as JSON are pairs of functions.  A failed check ends the test. *)

From S2P Require Import Prelude KvRpc KvServer Models KvClerk.

(** ** Data *)

Record ClntRes := mkClntRes { Nok : Z; Nmaybe : Z }.

Record EntryV := mkEntryV { EntryV_Id : Z; EntryV_V : Z }.

(** [entry] and [EntryN]. *)
Record entry := mkentry { Id : Z; N_ : Z }.
#[export] Instance entry_eq_dec : EqDecision entry.
Proof. solve_decision. Defined.

(** ** Recording operations *)

Definition OpLog : Type := list Operation.

Definition OpLog_Len (log : OpLog) : nat := length log.
Definition OpLog_Append (log : OpLog) (op : Operation) : OpLog := log ++ [op].
Definition OpLog_Read (log : OpLog) : list Operation := log.

(** What [Get] and [Put] append for a call made at [start] that returned at [stop]. *)
Definition log_Get (log : OpLog) (cli start stop : Z) (key : string)
    (r : string * Tversion * Err) : OpLog :=
  let '(val, ver, err) := r in
  OpLog_Append log (mkOperation cli (mkKvInput 0 key "" 0) start (mkKvOutput val ver err) stop).

Definition log_Put (log : OpLog) (cli start stop : Z) (key value : string) (version : Z)
    (err : Err) : OpLog :=
  OpLog_Append log (mkOperation cli (mkKvInput 1 key value version) start
    (mkKvOutput "" 0 err) stop).

(** ** Workloads *)

(** The result of one turn of a retry loop: go round again, leave, or fail the test. *)
Inductive turn (A R : Type) :=
| Again (a : A)
| Leave (r : R)
| TestFails.
Arguments Again {A R} _.
Arguments Leave {A R} _.
Arguments TestFails {A R}.

(** A turn of [PutAtLeastOnce]: again with the next version, or out with the version. *)
Definition PutAtLeastOnce (key value : string) (ver : Tversion) : prog (turn Tversion Tversion) :=
  DoPut key value ver (fun err =>
    Ret (if bool_decide (err = OK) then Leave ver else Again (u64 (ver + 1)))).

(** The second test compares the version read with itself, as in the source. *)
Definition CheckGet (key value : string) (version : Tversion) : prog (turn unit unit) :=
  DoGet key (fun '(val, ver, err) =>
    if bool_decide (err ≠ OK) then Ret TestFails
    else if negb (bool_decide (val = value)) || negb (bool_decide (ver = ver)) then Ret TestFails
    else Ret (Leave tt)).

Definition MakeKeys (n : nat) : list string := (fun i => "k" +:+ pretty i) <$> seq 0 n.

Section Workloads.
Context (encV : EntryV -> string) (decV : string -> option EntryV).
Context (encE : list entry -> string) (decE : string -> option (list entry)).

(** [GetJson] in continuation style: any error fails the test. *)
Definition GetJson {T A} (dec : string -> option T) (key : string) (fails : prog A)
    (k : T -> Tversion -> prog A) : prog A :=
  DoGet key (fun '(val, ver, err) =>
    if bool_decide (err = OK) then
      match dec val with Some v => k v ver | None => fails end
    else fails).

(** [PutJson]: marshalling these values does not fail. *)
Definition PutJson {T A} (enc : T -> string) (key : string) (v : T) (ver : Tversion)
    (k : Err -> prog A) : prog A := DoPut key (enc v) ver k.

(** A turn of [OnePut]. *)
Definition OnePut (me : Z) (key : string) (ver : Tversion) :
    prog (turn Tversion (Tversion * bool)) :=
  PutJson encV key (mkEntryV me ver) ver (fun err =>
    if negb (bool_decide (err = OK) || bool_decide (err = ErrVersion) || bool_decide (err = ErrMaybe))
    then Ret TestFails
    else
      GetJson decV key (Ret TestFails) (fun e ver0 =>
        if bool_decide (err = OK) && bool_decide (ver0 = u64 (ver + 1))
           && (negb (bool_decide (EntryV_Id e = me)) && negb (bool_decide (EntryV_V e = ver)))
        then Ret TestFails
        else if bool_decide (err = OK) || bool_decide (err = ErrMaybe)
        then Ret (Leave (ver0, bool_decide (err = OK)))
        else Ret (Again ver0))).

(** The inner loop body of [OneClientAppend]: the flag of [Leave] is true for [OK] and false for
    [ErrMaybe]. *)
Definition append_put (me i : Z) (es : list entry) (ver : Tversion) : prog (turn unit bool) :=
  PutJson encE "k" (es ++ [mkentry me i]) ver (fun err =>
    Ret (if bool_decide (err = OK) then Leave true
         else if bool_decide (err = ErrMaybe) then Leave false
         else Again tt)).

Definition append_try (me i : Z) : prog (turn unit bool) :=
  GetJson decE "k" (Ret TestFails) (append_put me i).

(** ** Checks *)

(** The counts of all clients added up. *)
Definition add_results (res : ClntRes) (rs : list ClntRes) : ClntRes :=
  foldl (fun a r => mkClntRes (Nok a + Nok r) (Nmaybe a + Nmaybe r)) res rs.

(** The entry of the key is read, which fails the test when there is none; its version is compared with
    the counts. *)
Definition CheckPutConcurrent (reliable : bool) (key : string) (rs : list ClntRes) (res : ClntRes) :
    prog (turn unit ClntRes) :=
  GetJson decV key (Ret TestFails) (fun _ ver0 =>
    let res := add_results res rs in
    if negb reliable && bool_decide (u64 (Nok res + Nmaybe res) < ver0)%Z then Ret TestFails
    else if reliable && negb (bool_decide (ver0 = u64 (Nok res))) then Ret TestFails
    else Ret (Leave res)).

(** [expect] and [skipped] of [CheckAppends]: absent keys read as 0. *)
Definition ck_step (s : gmap Z Z * gmap Z Z) (e : entry) : go (gmap Z Z * gmap Z Z) :=
  let '(expect, skipped) := s in
  let x := default 0%Z (expect !! Id e) in
  if bool_decide (N_ e < x)%Z then Fatal "wrong expecting"
  else if bool_decide (x = N_ e) then Ok (<[Id e := x + 1]> expect, skipped)%Z
  else Ok (<[Id e := N_ e + 1]> expect,
           <[Id e := default 0 (skipped !! Id e) + (N_ e - x)]> skipped)%Z.

(** [order]: the visit of [expect]. *)
Definition CheckAppends (es : list entry) (nclnt : nat) (rs : list ClntRes) (ver : Tversion)
    (order : list Z) : go unit :=
  let zeros := list_to_map ((fun i => (Z.of_nat i, 0%Z)) <$> seq 0 nclnt) in
  let! s := fold_go ck_step es (zeros, zeros) in
  let '(expect, skipped) := s in
  if negb (bool_decide (Z.of_nat (length es) + 1 = i64 ver)%Z)
  then Fatal "appends in val != puts on server"
  else
    fold_go (fun _ c =>
      let! r := slice_get rs c in
      if bool_decide (Nmaybe r < default 0 (skipped !! c))%Z then Fatal "skipped puts"
      else if bool_decide (Nok r + Nmaybe r < default 0 (expect !! c))%Z
      then Fatal "puts on server > ok+maybe" else Ok tt) order tt.
End Workloads.

(** ** The append workload on any clerk *)

(** [OneClientAppend] of client [me]: at the head of its loop with counts, in the inner loop, at
    its end, or the test has failed. *)
Inductive aclient :=
| Head (me i nok nmay : Z)
| Running (me i nok nmay : Z) (p : prog (turn unit bool))
| Finished (r : ClntRes)
| Failed.

Section Appends.
Context (encE : list entry -> string) (decE : string -> option (list entry)).
Context (Hcodec : forall es, decE (encE es) = Some es).
Context {St : Type} `{!IKVClerk St}.

(** One step of a client together with the store. *)
Inductive OneClientAppend : St * aclient -> St * aclient -> Prop :=
| oca_done s me i nok nmay :
    OneClientAppend (s, Head me i nok nmay) (s, Finished (mkClntRes nok nmay))
| oca_start s me i nok nmay :
    OneClientAppend (s, Head me i nok nmay)
      (s, Running me i nok nmay (append_try encE decE me i))
| oca_call s s' me i nok nmay p p' :
    prog_step (s, p) (s', p') ->
    OneClientAppend (s, Running me i nok nmay p) (s', Running me i nok nmay p')
| oca_again s me i nok nmay :
    OneClientAppend (s, Running me i nok nmay (Ret (Again tt)))
      (s, Running me i nok nmay (append_try encE decE me i))
| oca_ok s me i nok nmay :
    OneClientAppend (s, Running me i nok nmay (Ret (Leave true)))
      (s, Head me (i + 1) (nok + 1) nmay)
| oca_maybe s me i nok nmay :
    OneClientAppend (s, Running me i nok nmay (Ret (Leave false)))
      (s, Head me (i + 1) nok (nmay + 1))
| oca_fail s me i nok nmay :
    OneClientAppend (s, Running me i nok nmay (Ret TestFails)) (s, Failed).

(** [SpawnClientsAndWait]: clients interleaved, and activity on other keys. *)
Inductive apps_step : St * list aclient -> St * list aclient -> Prop :=
| apps_client j s cs c s' c' :
    cs !! j = Some c -> OneClientAppend (s, c) (s', c') ->
    apps_step (s, cs) (s', <[j := c']> cs)
| apps_other s cs s' : ck_view s' "k" = ck_view s "k" -> apps_step (s, cs) (s', cs).

Definition apps_start (s : St) (n : nat) : St * list aclient :=
  (s, (fun j => Head (Z.of_nat j) 0 0 0) <$> seq 0 n).

(** ** Invariant *)

(** The sequence numbers of a client in the value. *)
Definition numbers (me : Z) (es : list entry) : list Z := N_ <$> filter (fun e => Id e = me) es.

(** Of the [i] appends tried so far, [nok] surely and [nmay] perhaps took effect. *)
Record tally_ok (ns : list Z) (i nok nmay : Z) : Prop := {
  to_sorted : StronglySorted Z.lt ns;
  to_range : Forall (fun x => 0 <= x < i)%Z ns;
  to_sum : i = (nok + nmay)%Z;
  to_nok : (0 <= nok)%Z;
  to_nmay : (0 <= nmay)%Z;
  to_missing : (i - Z.of_nat (length ns) <= nmay)%Z
}.

(** What a client knows: the list it has read is an initial part of the current one. *)
Inductive aclient_ok (me : Z) (es : list entry) : aclient -> Prop :=
| ac_head i nok nmay : tally_ok (numbers me es) i nok nmay -> aclient_ok me es (Head me i nok nmay)
| ac_try i nok nmay : tally_ok (numbers me es) i nok nmay ->
    aclient_ok me es (Running me i nok nmay (append_try encE decE me i))
| ac_put i nok nmay es0 : tally_ok (numbers me es) i nok nmay -> es0 `prefix_of` es ->
    aclient_ok me es (Running me i nok nmay (append_put encE me i es0 (Z.of_nat (length es0) + 1)))
| ac_again i nok nmay : tally_ok (numbers me es) i nok nmay ->
    aclient_ok me es (Running me i nok nmay (Ret (Again tt)))
| ac_ok i nok nmay : tally_ok (numbers me es) (i + 1) (nok + 1) nmay ->
    aclient_ok me es (Running me i nok nmay (Ret (Leave true)))
| ac_maybe i nok nmay : tally_ok (numbers me es) (i + 1) nok (nmay + 1) ->
    aclient_ok me es (Running me i nok nmay (Ret (Leave false)))
| ac_finished nok nmay : tally_ok (numbers me es) (nok + nmay) nok nmay ->
    aclient_ok me es (Finished (mkClntRes nok nmay)).

Record apps_inv (nclnt n : nat) (st : St * list aclient) (es : list entry) : Prop := {
  ai_view : ck_view st.1 "k" = Some (encE es, Z.of_nat (length es) + 1)%Z;
  ai_bound : length es <= n;
  ai_ids : Forall (fun e => 0 <= Id e < Z.of_nat nclnt)%Z es;
  ai_len : length st.2 = nclnt;
  ai_clients : forall j c, st.2 !! j = Some c -> aclient_ok (Z.of_nat j) es c
}.

Lemma numbers_app me es e :
  numbers me (es ++ [e]) = if decide (Id e = me) then numbers me es ++ [N_ e] else numbers me es.
Proof.
  unfold numbers. rewrite filter_app, fmap_app, filter_cons, filter_nil.
  destruct (decide (Id e = me)); simpl; [done|by rewrite app_nil_r].
Qed.

Lemma StronglySorted_snoc ns x :
  StronglySorted Z.lt ns -> Forall (fun y => y < x)%Z ns -> StronglySorted Z.lt (ns ++ [x]).
Proof.
  intros Hs Hx. induction Hs as [|y ns Hs IH Hy]; simpl; [repeat constructor|].
  apply Forall_cons in Hx as [Hyx Hx]. constructor; [by apply IH|]. apply Forall_app. split; [done|].
  by repeat constructor.
Qed.

Lemma tally_append ns i nok nmay b :
  tally_ok ns i nok nmay ->
  tally_ok (ns ++ [i]) (i + 1) (if b : bool then nok + 1 else nok) (if b then nmay else nmay + 1).
Proof.
  intros [H1 H2 H3 H4 H5 H6].
  split.
  - apply StronglySorted_snoc; [done|]. eapply Forall_impl; [exact H2|]. simpl. lia.
  - apply Forall_app. split; [eapply Forall_impl; [exact H2|]; simpl; lia|]. repeat constructor; lia.
  - destruct b; lia.
  - destruct b; lia.
  - destruct b; lia.
  - rewrite length_app. simpl. destruct b; lia.
Qed.

(** A [Put] that perhaps took effect, did not. *)
Lemma tally_maybe ns i nok nmay :
  tally_ok ns i nok nmay -> tally_ok ns (i + 1) nok (nmay + 1).
Proof.
  intros [H1 H2 H3 H4 H5 H6]. split; try done; try lia.
  eapply Forall_impl; [exact H2|]. simpl. lia.
Qed.

(** Entries of other clients do not change what a client knows. *)
Lemma aclient_ok_other me es e c :
  Id e ≠ me -> aclient_ok me es c -> aclient_ok me (es ++ [e]) c.
Proof.
  intros Hne Hc. assert (numbers me (es ++ [e]) = numbers me es) as En
    by (rewrite numbers_app; by rewrite decide_False).
  destruct Hc; constructor; rewrite ?En; try done. by apply prefix_app_r.
Qed.

(** What a step of client [me] does to the list: nothing, or its own entry is appended. *)
Lemma append_step me es s s' c c' :
  ck_view s "k" = Some (encE es, Z.of_nat (length es) + 1)%Z -> (Z.of_nat (length es) < 2 ^ 63)%Z ->
  aclient_ok me es c -> OneClientAppend (s, c) (s', c') ->
  (ck_view s' "k" = ck_view s "k" /\ aclient_ok me es c') \/
  (exists i, ck_view s' "k" = Some (encE (es ++ [mkentry me i]), Z.of_nat (length es) + 2)%Z /\
     aclient_ok me (es ++ [mkentry me i]) c').
Proof.
  intros Hv Hb Hc Hs. destruct Hc as [i nok nmay Ht|i nok nmay Ht|i nok nmay es0 Ht Hpre
    |i nok nmay Ht|i nok nmay Ht|i nok nmay Ht|nok nmay Ht]; inversion Hs; subst;
    try match goal with H : prog_step (_, Ret _) _ |- _ => by apply prog_step_ret in H end.
  - left. split; [done|]. constructor. by rewrite (to_sum _ _ _ _ Ht) in Ht.
  - left. split; [done|by constructor].
  - match goal with H : prog_step _ _ |- _ => apply prog_step_get in H as ([[v ver] err] & Hg & ->) end.
    left. split; [by eapply ck_get_view|].
    destruct (decide (err = OK)) as [->|He].
    + rewrite (ck_get_ok _ _ _ _ _ _ Hg eq_refl) in Hv. simplify_eq.
      rewrite bool_decide_eq_true_2, Hcodec by done. by constructor.
    + destruct (ck_get_err _ _ _ _ _ _ Hg He) as [_ Hn]. congruence.
  - match goal with H : prog_step _ _ |- _ => apply prog_step_put in H as (err & Hp & ->) end.
    apply ck_put_spec in Hp as [_ [(E & Hv' & He)|(E & Hv' & He)]]; rewrite Hv in E; simpl in E.
    + right. exists i. assert (es0 = es) as ->.
      { destruct Hpre as [l ->]. rewrite length_app in E. destruct l; [by rewrite app_nil_r|].
        simpl in E. lia. }
      rewrite Hv'. split; [do 2 f_equal; rewrite u64_small; lia|].
      pose proof (fun b => tally_append _ _ _ _ b Ht) as Ha.
      assert (numbers me (es ++ [mkentry me i]) = numbers me es ++ [i]) as En
        by (rewrite numbers_app; by rewrite decide_True).
      destruct He as [->| ->].
      * rewrite bool_decide_eq_true_2 by done. constructor. rewrite En. apply (Ha true).
      * rewrite bool_decide_eq_false_2 by err_eq. rewrite bool_decide_eq_true_2 by done.
        constructor. rewrite En. apply (Ha false).
    + left. split; [congruence|]. clear Hs. rewrite (bool_decide_eq_false_2 (err = OK)) by done.
      case_bool_decide; constructor; [by apply tally_maybe|done].
  - left. split; [done|by constructor].
  - left. split; [done|by constructor].
  - left. split; [done|by constructor].
Qed.

Lemma apps_inv_step nclnt n st st' es :
  (Z.of_nat n < 2 ^ 63)%Z -> apps_inv nclnt n st es -> apps_step st st' ->
  exists es', apps_inv nclnt (S n) st' es'.
Proof.
  intros Hn [Hv Hb Hids Hlen Hc] Hs. destruct Hs as [j s cs c s' c' Hj Hs|s cs s' Hk]; simpl in *.
  2: { exists es. split; simpl; [congruence|lia|done|done|done]. }
  pose proof (lookup_lt_Some _ _ _ Hj) as Hjl.
  destruct (append_step _ _ _ _ _ _ Hv ltac:(lia) (Hc j c Hj) Hs) as [[Hv' Hc']|(i & Hv' & Hc')].
  - exists es. split; simpl; [congruence|lia|done|by rewrite length_insert|].
    intros k d [(<- & <- & _)|[_ Hk]]%list_lookup_insert_Some; [done|by apply Hc].
  - exists (es ++ [mkentry (Z.of_nat j) i]). split; simpl.
    + rewrite Hv', length_app. simpl. do 2 f_equal. lia.
    + rewrite length_app. simpl. lia.
    + apply Forall_app. split; [done|]. repeat constructor; simpl; lia.
    + by rewrite length_insert.
    + intros k d [(<- & <- & _)|[Hne Hk]]%list_lookup_insert_Some; [done|].
      apply aclient_ok_other; [simpl; lia|by apply Hc].
Qed.

Lemma apps_inv_run nclnt n s st :
  (Z.of_nat n < 2 ^ 63)%Z -> ck_view s "k" = Some (encE [], 1%Z) ->
  nsteps apps_step n (apps_start s nclnt) st -> exists es, apps_inv nclnt n st es.
Proof.
  intros Hn Hv. apply (nsteps_invariant apps_step (fun n st => exists es, apps_inv nclnt n st es)).
  - intros k a b Hk [es Hinv] Hs. eapply apps_inv_step; [|done|done]. lia.
  - exists []. split; simpl; [done|lia|done|by rewrite length_fmap, length_seq|].
    intros j c Hj. rewrite list_lookup_fmap in Hj.
    destruct (seq 0 nclnt !! j) as [x|] eqn:Ex; [|done]. apply lookup_seq in Ex as [-> _].
    injection Hj as <-. constructor. by repeat constructor.
Qed.
End Appends.

(** ** What [CheckAppends] computes *)

(** The number expected after the numbers [ns]. *)
Definition next_number (ns : list Z) : Z := default 0%Z ((fun x => x + 1)%Z <$> last ns).

Lemma next_number_snoc ns x : next_number (ns ++ [x]) = (x + 1)%Z.
Proof. unfold next_number. by rewrite last_snoc. Qed.

Lemma next_number_le ns x :
  StronglySorted Z.lt (ns ++ [x]) -> Forall (fun y => 0 <= y)%Z (ns ++ [x]) -> (next_number ns <= x)%Z.
Proof.
  intros Hs Hp. unfold next_number. destruct (last ns) as [y|] eqn:Ey; simpl.
  - apply last_Some in Ey as [l ->]. clear Hp. induction l as [|z l IH]; simpl in Hs.
    + apply StronglySorted_inv in Hs as [_ Hy]. apply Forall_cons in Hy as [Hy _]. lia.
    + apply StronglySorted_inv in Hs as [Hs _]. by apply IH.
  - apply Forall_app in Hp as [_ Hp]. by apply Forall_cons in Hp as [? _].
Qed.

(** [expect] and [skipped] after the entries [pre]. *)
Definition ck_state (nclnt : nat) (pre : list entry) (s : gmap Z Z * gmap Z Z) : Prop :=
  (forall c, default 0%Z (s.1 !! c) = next_number (numbers c pre)) /\
  (forall c, default 0%Z (s.2 !! c)
     = (next_number (numbers c pre) - Z.of_nat (length (numbers c pre)))%Z) /\
  (forall c, is_Some (s.1 !! c) <-> (0 <= c < Z.of_nat nclnt)%Z).

Lemma ck_step_state nclnt pre e s :
  ck_state nclnt pre s -> (0 <= Id e < Z.of_nat nclnt)%Z ->
  (next_number (numbers (Id e) pre) <= N_ e)%Z ->
  exists s', ck_step s e = Ok s' /\ ck_state nclnt (pre ++ [e]) s'.
Proof.
  destruct s as [expect skipped]. intros (H1 & H2 & H3) Hid Hle. simpl in *.
  rewrite H1, bool_decide_eq_false_2 by lia.
  assert (forall c, numbers c (pre ++ [e]) =
    if decide (Id e = c) then numbers c pre ++ [N_ e] else numbers c pre) as Hn
    by (intros c; apply numbers_app).
  assert (forall x c, is_Some (<[Id e := x]> expect !! c) <-> (0 <= c < Z.of_nat nclnt)%Z) as Hdom.
  { intros x c. rewrite lookup_insert_is_Some', H3. split; [intros [<-|?]; lia|by right]. }
  case_bool_decide as Hx; eexists; (split; [reflexivity|]); split_and!; simpl; try apply Hdom.
  all: intros c; rewrite Hn; destruct (decide (Id e = c)) as [<-|Hne];
    rewrite ?lookup_insert_eq, ?lookup_insert_ne by done; simpl; try done; try apply H2.
  all: rewrite ?next_number_snoc, ?length_app, ?H2; simpl; lia.
Qed.

Lemma ck_run nclnt es pre s :
  ck_state nclnt pre s -> Forall (fun e => 0 <= Id e < Z.of_nat nclnt)%Z es ->
  (forall c, StronglySorted Z.lt (numbers c (pre ++ es)) /\
     Forall (fun x => 0 <= x)%Z (numbers c (pre ++ es))) ->
  exists s', fold_go ck_step es s = Ok s' /\ ck_state nclnt (pre ++ es) s'.
Proof.
  revert pre s. induction es as [|e es IH]; intros pre s Hs Hid Hok.
  { exists s. by rewrite app_nil_r. }
  apply Forall_cons in Hid as [He Hid].
  replace (pre ++ e :: es) with ((pre ++ [e]) ++ es) in * by by rewrite <- app_assoc.
  destruct (ck_step_state nclnt pre e s Hs He) as (s1 & H1 & Hs1).
  { destruct (Hok (Id e)) as [Hsort Hpos]. unfold numbers in Hsort, Hpos.
    rewrite filter_app, fmap_app in Hsort, Hpos. fold (numbers (Id e) (pre ++ [e])) in Hsort, Hpos.
    rewrite numbers_app, decide_True in Hsort, Hpos by done.
    apply next_number_le.
    - apply StronglySorted_app in Hsort as (_ & ? & _). done.
    - by apply Forall_app in Hpos as [? _]. }
  simpl. rewrite H1. cbn [go_bind]. by apply IH.
Qed.

Lemma ck_state_start nclnt :
  let zeros := list_to_map ((fun i => (Z.of_nat i, 0%Z)) <$> seq 0 nclnt) in
  ck_state nclnt [] (zeros, zeros).
Proof.
  intros zeros. assert (forall c, zeros !! c = if decide (0 <= c < Z.of_nat nclnt)%Z then Some 0%Z else None)
    as Hz.
  { intros c. unfold zeros. destruct (decide _) as [Hc|Hc].
    - apply elem_of_list_to_map_1.
      + rewrite <- list_fmap_compose. apply NoDup_fmap_2_strong, NoDup_seq. simpl. intros; lia.
      + apply list_elem_of_fmap. exists (Z.to_nat c). rewrite elem_of_seq. split; [f_equal; lia|lia].
    - apply not_elem_of_list_to_map_1. rewrite <- list_fmap_compose.
      intros (i & -> & Hi%elem_of_seq)%list_elem_of_fmap. simpl in Hc. lia. }
  unfold ck_state. simpl. split_and!; intros c; rewrite Hz.
  - by destruct (decide _).
  - by destruct (decide _).
  - destruct (decide _) as [Hc|Hc]; split; try done.
Qed.

(** The check passes when the tallies of all clients are right. *)
Lemma CheckAppends_passes es nclnt rs ver order :
  Forall (fun e => 0 <= Id e < Z.of_nat nclnt)%Z es ->
  (Z.of_nat (length es) + 1 < 2 ^ 63)%Z -> ver = (Z.of_nat (length es) + 1)%Z ->
  length rs = nclnt ->
  (forall j r, rs !! j = Some r ->
     tally_ok (numbers (Z.of_nat j) es) (Nok r + Nmaybe r) (Nok r) (Nmaybe r)) ->
  (forall c, c ∈ order -> 0 <= c < Z.of_nat nclnt)%Z ->
  CheckAppends es nclnt rs ver order = Ok tt.
Proof.
  intros Hid Hlen -> Hrs Htal Hord. unfold CheckAppends.
  destruct (ck_run nclnt es [] _ (ck_state_start nclnt) Hid) as ([expect skipped] & -> & Hs).
  { intros c. destruct (decide (0 <= c < Z.of_nat nclnt)%Z) as [Hc|Hc].
    - destruct (lookup_lt_is_Some_2 rs (Z.to_nat c)) as [r Hr]; [lia|].
      pose proof (Htal _ _ Hr) as Ht. rewrite Z2Nat.id in Ht by lia.
      split; [apply Ht|]. eapply Forall_impl; [apply Ht|]. simpl. lia.
    - simpl. assert (numbers c es = []) as ->; [|by repeat constructor].
      unfold numbers. rewrite list_filter_none; [done|]. intros e He <-.
      rewrite Forall_forall in Hid. by apply Hc, Hid. }
  cbn [go_bind]. rewrite bool_decide_eq_true_2; [|unfold i64; rewrite Z.mod_small; lia].
  simpl. destruct Hs as (H1 & H2 & _). simpl in H1, H2.
  induction order as [|c order IH]; [done|]. simpl.
  assert (0 <= c < Z.of_nat nclnt)%Z as Hc by (apply Hord; left).
  destruct (lookup_lt_is_Some_2 rs (Z.to_nat c)) as [r Hr]; [lia|].
  rewrite (proj2 (slice_get_Ok rs c r)) by (split; [lia|done]). cbn [go_bind].
  pose proof (Htal _ _ Hr) as Ht. rewrite Z2Nat.id in Ht by lia. destruct Ht as [_ T2 _ T3 T4 T5].
  assert (next_number (numbers c es) <= Nok r + Nmaybe r)%Z as Hnn.
  { unfold next_number. destruct (last (numbers c es)) as [x|] eqn:Ex; simpl; [|lia].
    apply last_Some in Ex as [l Ex]. rewrite Ex in T2. apply Forall_app in T2 as [_ T2].
    apply Forall_cons in T2 as [T2 _]. lia. }
  rewrite H2, H1, !bool_decide_eq_false_2 by lia. apply IH. intros d Hd. apply Hord. by right.
Qed.

(** ** Claims *)



(** ** An encoding of lists of entries *)

#[local] Instance entry_countable : Countable entry :=
  inj_countable' (fun e => (Id e, N_ e)) (fun p => mkentry p.1 p.2) (fun '(mkentry _ _) => eq_refl).

Fixpoint pos_string (p : positive) : string :=
  match p with
  | xH => ""
  | xO p => String (Ascii.ascii_of_nat 48) (pos_string p)
  | xI p => String (Ascii.ascii_of_nat 49) (pos_string p)
  end.

Fixpoint string_pos (s : string) : positive :=
  match s with
  | EmptyString => xH
  | String c s => if bool_decide (c = Ascii.ascii_of_nat 48) then xO (string_pos s) else xI (string_pos s)
  end.

Lemma string_pos_string p : string_pos (pos_string p) = p.
Proof. induction p as [p IH|p IH|]; simpl; by rewrite ?IH. Qed.

Definition demo_encE (es : list entry) : string := pos_string (encode es).
Definition demo_decE (s : string) : option (list entry) := decode (string_pos s).

Lemma demo_codec es : demo_decE (demo_encE es) = Some es.
Proof. unfold demo_decE, demo_encE. rewrite string_pos_string. apply decode_encode. Qed.

Definition demo_store : KVServer := mkKVServer {[ "k" := mkvalue (demo_encE []) 1 ]}.

(** A client appends once and both finish. *)
Lemma demo_apps :
  nsteps (apps_step demo_encE demo_decE) 6 (apps_start demo_store 2)
    (mkKVServer {[ "k" := mkvalue (demo_encE [mkentry 0 0]) 2 ]},
     Finished <$> [mkClntRes 1 0; mkClntRes 0 0]).
Proof.
  eapply nsteps_l; [eapply (apps_client _ _ 0); [reflexivity|apply oca_start]|].
  eapply nsteps_l; [eapply (apps_client _ _ 0); [reflexivity|eapply oca_call, prog_get; split; reflexivity]|].
  eapply nsteps_l.
  { eapply (apps_client _ _ 0); [vm_compute; reflexivity|].
    eapply oca_call, prog_put. apply put_direct. }
  eapply nsteps_l; [eapply (apps_client _ _ 0); [vm_compute; reflexivity|apply oca_ok]|].
  eapply nsteps_l; [eapply (apps_client _ _ 0); [vm_compute; reflexivity|apply oca_done]|].
  eapply nsteps_l; [eapply (apps_client _ _ 1); [vm_compute; reflexivity|apply oca_done]|].
  vm_compute. apply nsteps_O.
Qed.

