(* ===== verification/KvPutTest.v ===== *)
(** * The put workload of the key/value tests

    [OnePut], [OneClientPut] and [CheckPutConcurrent] of [src/src/kvtest1/kvtest.go]: clients that
    keep putting to one or several keys at the version they last read, counting the puts that
    surely and those that perhaps took effect, and the comparison of these counts with the
    version on the server.  Clients are interleaved at the granularity of clerk calls, over any
    clerk that implements [IKVClerk]. *)

From S2P Require Import Prelude KvRpc KvServer Models KvClerk KvTest.

(** ** Clients *)

(** [OneClientPut] of client [me]: at the head of its loop with [verm] and its counts, in
    [OnePut] on key [k], at its end, or the test has failed. *)
Inductive pclient :=
| PHead (me : Z) (verm : gmap string Tversion) (nok nmay : Z)
| PRunning (me : Z) (verm : gmap string Tversion) (nok nmay : Z) (k : string)
    (p : prog (turn Tversion (Tversion * bool)))
| PFinished (r : ClntRes)
| PFailed.

(** [verm[k]]: 0 when absent. *)
Definition verm_get (verm : gmap string Tversion) (k : string) : Tversion := default 0%Z (verm !! k).

Section Puts.
Context (encV : EntryV -> string) (decV : string -> option EntryV).
Context (Hcodec : forall e, decV (encV e) = Some e).
Context {St : Type} `{!IKVClerk St}.
(** A put to a key that exists, or at version 0, is not answered with another error. *)
Context (Herr : forall s k v ver e s', ck_put s k v ver e s' -> is_Some (ck_view s k) \/ ver = 0%Z ->
  e = OK \/ e = ErrVersion \/ e = ErrMaybe).
(** The keys; with [randomkeys] any of them is taken, otherwise the first. *)
Context (ka : list string) (Hka : NoDup ka) (randomkeys : bool).

Definition may_take (k : string) : Prop :=
  if randomkeys then k ∈ ka else head ka = Some k.

Inductive OneClientPut : St * pclient -> St * pclient -> Prop :=
| ocp_done s me verm nok nmay :
    OneClientPut (s, PHead me verm nok nmay) (s, PFinished (mkClntRes nok nmay))
| ocp_start s me verm nok nmay k :
    may_take k ->
    OneClientPut (s, PHead me verm nok nmay)
      (s, PRunning me verm nok nmay k (OnePut encV decV me k (verm_get verm k)))
| ocp_call s s' me verm nok nmay k p p' :
    prog_step (s, p) (s', p') ->
    OneClientPut (s, PRunning me verm nok nmay k p) (s', PRunning me verm nok nmay k p')
| ocp_again s me verm nok nmay k ver0 :
    OneClientPut (s, PRunning me verm nok nmay k (Ret (Again ver0)))
      (s, PRunning me verm nok nmay k (OnePut encV decV me k ver0))
| ocp_leave s me verm nok nmay k ver0 ok :
    OneClientPut (s, PRunning me verm nok nmay k (Ret (Leave (ver0, ok))))
      (s, PHead me (<[k := ver0]> verm) (if ok then nok + 1 else nok)%Z
                (if ok then nmay else nmay + 1)%Z)
| ocp_fail s me verm nok nmay k :
    OneClientPut (s, PRunning me verm nok nmay k (Ret TestFails)) (s, PFailed).

(** [SpawnClientsAndWait]: clients interleaved, and activity on other keys. *)
Inductive puts_step : St * list pclient -> St * list pclient -> Prop :=
| puts_client j s cs c s' c' :
    cs !! j = Some c -> OneClientPut (s, c) (s', c') -> puts_step (s, cs) (s', <[j := c']> cs)
| puts_other s cs s' :
    (forall k, k ∈ ka -> ck_view s' k = ck_view s k) -> puts_step (s, cs) (s', cs).

Definition puts_start (s : St) (n : nat) : St * list pclient :=
  (s, (fun j => PHead (Z.of_nat j) ∅ 0 0) <$> seq 0 n).

(** The second half of [OnePut], after the put was answered. *)
Definition OnePut_get (me : Z) (key : string) (ver : Tversion) (err : Err) :
    prog (turn Tversion (Tversion * bool)) :=
  GetJson decV key (Ret TestFails) (fun e ver0 =>
    if bool_decide (err = OK) && bool_decide (ver0 = u64 (ver + 1))
       && (negb (bool_decide (EntryV_Id e = me)) && negb (bool_decide (EntryV_V e = ver)))
    then Ret TestFails
    else if bool_decide (err = OK) || bool_decide (err = ErrMaybe)
    then Ret (Leave (ver0, bool_decide (err = OK)))
    else Ret (Again ver0)).

(** ** What clients know *)

Definition key_ver (s : St) (k : string) : Tversion := default 0%Z (snd <$> ck_view s k).

(** The stores a run goes through: keys stay, versions grow, and a version has one value. *)
Definition later (s s' : St) : Prop := forall k, k ∈ ka ->
  (is_Some (ck_view s k) -> is_Some (ck_view s' k)) /\ (key_ver s k <= key_ver s' k)%Z /\
  (key_ver s' k = key_ver s k -> ck_view s' k = ck_view s k).

(** The puts of a client that surely and perhaps took effect, the one being made included. *)
Record tally := mktally { sure : Z; perhaps : Z }.

(** After an [OK] at [ver], the next version holds the client's entry. *)
Definition put_done (s : St) (me : Z) (k : string) (ver : Tversion) : Prop :=
  (ver + 1 <= key_ver s k)%Z /\ (0 <= ver)%Z /\
  (key_ver s k = (ver + 1)%Z -> fst <$> ck_view s k = Some (encV (mkEntryV me ver))).

(** A version to put at: of a key that exists, or 0. *)
Definition known (s : St) (k : string) (ver : Tversion) : Prop := is_Some (ck_view s k) \/ ver = 0%Z.

Definition verm_ok (s : St) (verm : gmap string Tversion) : Prop :=
  forall k, k ∈ ka -> known s k (verm_get verm k).

Inductive pclient_ok (s : St) : pclient -> tally -> Prop :=
| pc_head me verm nok nmay : verm_ok s verm ->
    pclient_ok s (PHead me verm nok nmay) (mktally nok nmay)
| pc_put me verm nok nmay k ver : verm_ok s verm -> k ∈ ka -> known s k ver ->
    pclient_ok s (PRunning me verm nok nmay k (OnePut encV decV me k ver)) (mktally nok nmay)
| pc_get me verm nok nmay k ver err : verm_ok s verm -> k ∈ ka -> is_Some (ck_view s k) ->
    (err = OK -> put_done s me k ver) -> (err = OK \/ err = ErrVersion \/ err = ErrMaybe) ->
    pclient_ok s (PRunning me verm nok nmay k (OnePut_get me k ver err))
      (mktally (if bool_decide (err = OK) then nok + 1 else nok)
               (if bool_decide (err = ErrMaybe) then nmay + 1 else nmay))
| pc_again me verm nok nmay k ver0 : verm_ok s verm -> k ∈ ka -> is_Some (ck_view s k) ->
    pclient_ok s (PRunning me verm nok nmay k (Ret (Again ver0))) (mktally nok nmay)
| pc_leave me verm nok nmay k ver0 ok : verm_ok s verm -> k ∈ ka -> is_Some (ck_view s k) ->
    pclient_ok s (PRunning me verm nok nmay k (Ret (Leave (ver0, ok))))
      (mktally (if ok : bool then nok + 1 else nok) (if ok then nmay else nmay + 1))
| pc_finished nok nmay : pclient_ok s (PFinished (mkClntRes nok nmay)) (mktally nok nmay).

Lemma verm_ok_later s s' verm : later s s' -> verm_ok s verm -> verm_ok s' verm.
Proof.
  intros Hl Hv k Hk. destruct (Hv k Hk) as [?|?]; [left; by apply Hl|by right].
Qed.

Lemma pclient_ok_later s s' c t : later s s' -> pclient_ok s c t -> pclient_ok s' c t.
Proof.
  intros Hl Hc. assert (forall k, k ∈ ka -> is_Some (ck_view s k) -> is_Some (ck_view s' k)) as Hs
    by (intros k Hk; by apply Hl).
  pose proof (verm_ok_later s s') as Hv. destruct Hc; constructor; eauto.
  - destruct H1; [left; by apply Hs|by right].
  - intros He. destruct (H2 He) as (H4 & H5 & H6). destruct (Hl k H0) as (_ & Hle & Hsame).
    split; [lia|]. split; [done|]. intros E. assert (key_ver s k = ver + 1)%Z as E' by lia.
    rewrite Hsame by lia. by apply H6.
Qed.

(** ** The store *)

Definition sum_ver (l : list string) (s : St) : Z := foldr (fun k z => key_ver s k + z)%Z 0%Z l.
Definition total_ver (s : St) : Z := sum_ver ka s.

Lemma sum_ver_same l s s' :
  (forall k, k ∈ l -> key_ver s' k = key_ver s k) -> sum_ver l s' = sum_ver l s.
Proof.
  unfold sum_ver. induction l as [|k l IH]; intros H; [done|]. simpl.
  rewrite H by left. rewrite IH; [done|]. intros; apply H. by right.
Qed.

Lemma sum_ver_put l s s' k :
  NoDup l -> k ∈ l -> key_ver s' k = (key_ver s k + 1)%Z ->
  (forall k', k' ≠ k -> key_ver s' k' = key_ver s k') -> sum_ver l s' = (sum_ver l s + 1)%Z.
Proof.
  intros Hnd Hk Hver Hoth. induction Hnd as [|x l Hx _ IH]; [by apply not_elem_of_nil in Hk|].
  simpl. apply elem_of_cons in Hk as [<-|Hk].
  - rewrite Hver. fold (sum_ver l s) (sum_ver l s'). rewrite (sum_ver_same l s s'); [lia|].
    intros y Hy. apply Hoth. by intros ->.
  - fold (sum_ver l s) (sum_ver l s'). rewrite IH by done. rewrite Hoth by (intros ->; done). lia.
Qed.

(** Versions start at 1, and values are entries. *)
Definition store_ok (s : St) : Prop :=
  forall k v ver, k ∈ ka -> ck_view s k = Some (v, ver) -> (1 <= ver)%Z /\ exists e, v = encV e.

Lemma key_ver_nonneg s k : store_ok s -> k ∈ ka -> (0 <= key_ver s k)%Z.
Proof.
  intros Hs Hk. unfold key_ver. destruct (ck_view s k) as [[v ver]|] eqn:E; simpl; [|lia].
  destruct (Hs k v ver Hk E). lia.
Qed.

Lemma key_ver_total s k : store_ok s -> k ∈ ka -> (key_ver s k <= total_ver s)%Z.
Proof.
  intros Hs. assert (forall x, x ∈ ka -> (0 <= key_ver s x)%Z) as Hp by (intros; by apply key_ver_nonneg).
  unfold total_ver, sum_ver. clear Hka Hs. induction ka as [|x l IH]; intros Hk;
    [by apply not_elem_of_nil in Hk|]. simpl. assert (forall y, y ∈ l -> (0 <= key_ver s y)%Z) as Hp'
    by (intros; apply Hp; by right).
  pose proof (Hp x ltac:(left)) as Hx. apply elem_of_cons in Hk as [->|Hk]; [|specialize (IH Hp' Hk); lia].
  clear IH. assert (0 <= foldr (fun k z => key_ver s k + z)%Z 0%Z l)%Z; [|lia].
  clear Hp Hx. induction l as [|y l IH]; simpl; [lia|].
  pose proof (Hp' y ltac:(left)). specialize (IH ltac:(intros; apply Hp'; by right)). lia.
Qed.

(** A store that did not change at the keys. *)
Lemma later_same s s' : (forall k, k ∈ ka -> ck_view s' k = ck_view s k) ->
  later s s' /\ total_ver s' = total_ver s /\ (store_ok s -> store_ok s').
Proof.
  intros H. assert (forall k, k ∈ ka -> key_ver s' k = key_ver s k) as Hv
    by (intros k Hk; unfold key_ver; by rewrite H). split_and!.
  - intros k Hk. rewrite H, Hv by done. split_and!; [done|lia|done].
  - by apply sum_ver_same.
  - intros Hs k v ver Hk. rewrite H by done. by apply Hs.
Qed.

(** A put of a client: without effect, or the next version of the key is its entry. *)
Lemma put_cases s k me ver e s' :
  store_ok s -> k ∈ ka -> (key_ver s k < 2 ^ 64 - 1)%Z ->
  ck_put s k (encV (mkEntryV me ver)) ver e s' ->
  later s s' /\ store_ok s' /\
  ((total_ver s' = (total_ver s + 1)%Z /\ (e = OK \/ e = ErrMaybe) /\ is_Some (ck_view s' k)
      /\ put_done s' me k ver) \/
   (total_ver s' = total_ver s /\ e ≠ OK /\ (known s k ver -> is_Some (ck_view s' k)))).
Proof.
  intros Hs Hk Hb [Hoth Hput]%ck_put_spec. pose proof (key_ver_nonneg s k Hs Hk) as Hnn.
  fold (key_ver s k) in Hput. destruct Hput as [(E & Hv & He)|(E & Hv & He)].
  - assert (u64 (ver + 1) = key_ver s k + 1)%Z as Hu by (rewrite u64_small; lia).
    rewrite Hu in Hv. assert (key_ver s' k = key_ver s k + 1)%Z as Hver
      by (unfold key_ver at 1; by rewrite Hv).
    assert (forall k', k' ≠ k -> key_ver s' k' = key_ver s k') as Hvo
      by (intros k' Hk'; unfold key_ver; by rewrite Hoth).
    split; [|split; [|left; split_and!]].
    + intros k' Hk'. destruct (decide (k' = k)) as [->|Hne].
      * rewrite Hv, Hver. split_and!; [done|lia|lia].
      * rewrite Hoth, Hvo by done. split_and!; [done|lia|done].
    + intros k' v x Hk' Hx. destruct (decide (k' = k)) as [->|Hne].
      * rewrite Hv in Hx. simplify_eq. split; [lia|eauto].
      * rewrite Hoth in Hx by done. by eapply Hs.
    + by eapply sum_ver_put.
    + done.
    + by rewrite Hv.
    + unfold put_done. rewrite Hver, Hv. split_and!; [lia|lia|done].
  - destruct (later_same s s') as (H1 & H2 & H3).
    { intros k' Hk'. destruct (decide (k' = k)) as [->|Hne]; [done|by apply Hoth]. }
    split; [done|]. split; [by apply H3|]. right. split_and!; [done|done|].
    intros [Hsome| ->]; [by rewrite Hv|]. rewrite Hv. unfold key_ver in E.
    by destruct (ck_view s k).
Qed.

(** ** The steps of one client *)

(** How the store and the tally of the client grow together. *)
Definition grows (s s' : St) (t t' : tally) : Prop :=
  later s s' /\ store_ok s' /\ (sure t <= sure t')%Z /\ (perhaps t <= perhaps t')%Z /\
  (sure t' - sure t <= total_ver s' - total_ver s
     <= (sure t' - sure t) + (perhaps t' - perhaps t))%Z /\ (total_ver s' <= total_ver s + 1)%Z /\
  (sure t' + perhaps t' <= sure t + perhaps t + 1)%Z.

Lemma grows_same s s' t :
  store_ok s -> (forall k, k ∈ ka -> ck_view s' k = ck_view s k) -> grows s s' t t.
Proof. intros Hs H. destruct (later_same s s' H) as (H1 & H2 & H3). split_and!; try done; lia || by apply H3. Qed.

Lemma OnePut_stages me k ver :
  OnePut encV decV me k ver = DoPut k (encV (mkEntryV me ver)) ver (fun err =>
    if negb (bool_decide (err = OK) || bool_decide (err = ErrVersion) || bool_decide (err = ErrMaybe))
    then Ret TestFails else OnePut_get me k ver err).
Proof. reflexivity. Qed.

Lemma put_grows s s' me verm nok nmay k ver p' :
  store_ok s -> (key_ver s k < 2 ^ 64 - 1)%Z -> verm_ok s verm -> k ∈ ka -> known s k ver ->
  prog_step (s, OnePut encV decV me k ver) (s', p') ->
  exists t', pclient_ok s' (PRunning me verm nok nmay k p') t' /\ grows s s' (mktally nok nmay) t' /\
    (perhaps t' = nmay \/ ck_put s k (encV (mkEntryV me ver)) ver ErrMaybe s').
Proof.
  intros Hs Hb Hverm Hk Hkn Hp. rewrite OnePut_stages in Hp.
  apply prog_step_put in Hp as (err & Hput & ->).
  pose proof (Herr _ _ _ _ _ _ Hput Hkn) as He.
  assert ((bool_decide (err = OK) || bool_decide (err = ErrVersion) || bool_decide (err = ErrMaybe))
    = true) as -> by (destruct He as [->|[->| ->]]; done).
  destruct (put_cases s k me ver err s' Hs Hk Hb Hput) as (Hl & Hs' & Hcase). simpl.
  eexists. split; [|split].
  - apply pc_get; [by eapply verm_ok_later|done| | |done].
    + destruct Hcase as [(_ & _ & ? & _)|(_ & _ & H)]; [done|by apply H].
    + intros ->. destruct Hcase as [(_ & _ & _ & ?)|(_ & H & _)]; done.
  - unfold grows. simpl. split; [done|]. split; [done|].
    destruct Hcase as [(Ht & He' & _)|(Ht & He' & _)]; rewrite Ht.
    + destruct He' as [->| ->]; [rewrite (bool_decide_eq_false_2 (OK = ErrMaybe)) by err_eq
        |rewrite (bool_decide_eq_false_2 (ErrMaybe = OK)) by err_eq];
      rewrite bool_decide_eq_true_2 by done; lia.
    + rewrite bool_decide_eq_false_2 by done. case_bool_decide; lia.
  - simpl. case_bool_decide as E; [subst; by right|by left].
Qed.

Lemma get_grows s s' me verm nok nmay k ver err p' t :
  store_ok s -> (key_ver s k < 2 ^ 64)%Z ->
  pclient_ok s (PRunning me verm nok nmay k (OnePut_get me k ver err)) t ->
  verm_ok s verm -> k ∈ ka -> is_Some (ck_view s k) -> (err = OK -> put_done s me k ver) ->
  (err = OK \/ err = ErrVersion \/ err = ErrMaybe) ->
  t = mktally (if bool_decide (err = OK) then nok + 1 else nok)%Z
              (if bool_decide (err = ErrMaybe) then nmay + 1 else nmay)%Z ->
  prog_step (s, OnePut_get me k ver err) (s', p') ->
  pclient_ok s' (PRunning me verm nok nmay k p') t /\ grows s s' t t.
Proof.
  intros Hs Hb _ Hverm Hk [[v x] Hv] Hdone He -> Hp.
  apply prog_step_get in Hp as ([[v' x'] err'] & Hg & ->).
  pose proof (fun k => ck_get_view _ _ _ _ Hg k) as Hsame.
  assert (err' = OK) as ->.
  { destruct (decide (err' = OK)); [done|]. destruct (ck_get_err _ _ _ _ _ _ Hg n). congruence. }
  pose proof (ck_get_ok _ _ _ _ _ _ Hg eq_refl) as Hv'. rewrite Hv in Hv'. simplify_eq.
  destruct (Hs k _ _ Hk Hv) as [Hx [e ->]]. rewrite bool_decide_eq_true_2, Hcodec by done.
  split; [|apply grows_same; [done|by intros]].
  assert (is_Some (ck_view s' k)) as Hsome by (rewrite Hsame, Hv; done).
  assert (verm_ok s' verm) as Hverm' by (eapply verm_ok_later; [apply later_same|done]; by intros).
  assert ((bool_decide (err = OK) && bool_decide (x' = u64 (ver + 1))
    && (negb (bool_decide (EntryV_Id e = me)) && negb (bool_decide (EntryV_V e = ver)))) = false) as ->.
  { case_bool_decide as Eo; [|done]. case_bool_decide as Ex; [|done]. simpl.
    destruct (Hdone Eo) as (Hle & H0 & Hval). unfold key_ver in *. rewrite Hv in *. simpl in *.
    rewrite u64_small in Ex by lia. specialize (Hval Ex). injection Hval as Hval.
    assert (Some e = Some (mkEntryV me ver)) as [= ->] by by rewrite <- !Hcodec, Hval.
    simpl. by rewrite !bool_decide_eq_true_2. }
  destruct He as [->|[->| ->]].
  - by apply (pc_leave s' me verm nok nmay k x' true).
  - by apply pc_again.
  - by apply (pc_leave s' me verm nok nmay k x' false).
Qed.

Lemma client_grows s s' c c' t :
  store_ok s -> (total_ver s < 2 ^ 64 - 1)%Z -> pclient_ok s c t -> OneClientPut (s, c) (s', c') ->
  exists t', pclient_ok s' c' t' /\ grows s s' t t' /\
    (perhaps t' = perhaps t \/ exists k v ver, ck_put s k v ver ErrMaybe s').
Proof.
  intros Hs Hb Hc Hstep.
  assert (forall k, k ∈ ka -> (key_ver s k < 2 ^ 64 - 1)%Z) as Hkb
    by (intros k Hk; pose proof (key_ver_total s k Hs Hk); lia).
  assert (forall t, grows s s t t) as Hsame by (intros t0; by apply grows_same).
  destruct Hc as [me verm nok nmay Hverm|me verm nok nmay k ver Hverm Hk Hkn
    |me verm nok nmay k ver err Hverm Hk Hsome Hdone He|me verm nok nmay k ver0 Hverm Hk Hsome
    |me verm nok nmay k ver0 ok Hverm Hk Hsome|nok nmay]; inversion Hstep; subst;
    try match goal with H : prog_step (_, Ret _) _ |- _ => by apply prog_step_ret in H end.
  - exists (mktally nok nmay). split; [constructor|]. split; [done|by left].
  - exists (mktally nok nmay). assert (k ∈ ka) as Hk.
    { match goal with H : may_take k |- _ => revert H end. unfold may_take.
      destruct randomkeys; [done|]. destruct ka as [|x l]; [done|]. intros [= ->]. left. }
    split; [|split; [done|by left]]. constructor; [done|done|]. by apply Hverm.
  - destruct (put_grows s s' me verm nok nmay k ver p') as (t' & H1 & H2 & H3); try done; [by apply Hkb|].
    exists t'. split; [done|]. split; [done|]. destruct H3; [by left|right; eauto].
  - eexists. edestruct (get_grows s s' me verm nok nmay k ver err p') as [H1 H2];
      [done|pose proof (Hkb k Hk); lia|by apply pc_get|done..|].
    split; [exact H1|]. split; [exact H2|by left].
  - exists (mktally nok nmay). split; [|split; [done|by left]]. constructor; [done|done|by left].
  - eexists. split; [|split; [apply Hsame|by left]].
    constructor. intros k' Hk'. unfold verm_get. destruct (decide (k = k')) as [<-|Hne].
    + by left.
    + rewrite lookup_insert_ne by done. by apply Hverm.
Qed.

(** ** All clients *)

Definition zsum (f : tally -> Z) (ts : list tally) : Z := foldr (fun t z => f t + z)%Z 0%Z ts.

Lemma zsum_insert f ts j t t' :
  ts !! j = Some t -> zsum f (<[j := t']> ts) = (zsum f ts + (f t' - f t))%Z.
Proof.
  revert j. induction ts as [|u ts IH]; intros [|j] H; simplify_eq/=; [lia|]. rewrite IH by done. lia.
Qed.

Record puts_inv (n : nat) (st : St * list pclient) (ts : list tally) : Prop := {
  pi_store : store_ok st.1;
  pi_clients : Forall2 (pclient_ok st.1) st.2 ts;
  pi_count : (zsum sure ts <= total_ver st.1 <= zsum sure ts + zsum perhaps ts)%Z;
  pi_bound : (total_ver st.1 <= Z.of_nat n)%Z;
  pi_tries : (0 <= zsum sure ts + zsum perhaps ts <= Z.of_nat n)%Z;
  pi_reliable : (forall s k v ver s', ~ ck_put s k v ver ErrMaybe s') -> zsum perhaps ts = 0%Z
}.

Lemma puts_inv_step n st st' ts :
  (Z.of_nat n < 2 ^ 64 - 1)%Z -> puts_inv n st ts -> puts_step st st' -> exists ts', puts_inv (S n) st' ts'.
Proof.
  intros Hn [Hs Hc Hcnt Hb Htr Hrel] Hstep. destruct Hstep as [j s cs c s' c' Hj Hstep|s cs s' Hv]; simpl in *.
  2: { destruct (later_same s s' Hv) as (H1 & H2 & H3). exists ts.
       split; simpl; [by apply H3| |by rewrite H2|lia|lia|done].
       eapply Forall2_impl; [exact Hc|]. intros c t. by apply pclient_ok_later. }
  destruct (Forall2_lookup_l _ _ _ _ _ Hc Hj) as (t & Ht & Hct).
  destruct (client_grows s s' c c' t Hs ltac:(lia) Hct Hstep)
    as (t' & Hc' & (Hl & Hs' & G1 & G2 & G3 & G4 & G5) & Hmay).
  exists (<[j := t']> ts). split; simpl.
  - done.
  - apply Forall2_insert; [|done]. eapply Forall2_impl; [exact Hc|]. intros d u. by apply pclient_ok_later.
  - rewrite !(zsum_insert _ _ _ _ _ Ht). lia.
  - lia.
  - rewrite !(zsum_insert _ _ _ _ _ Ht). lia.
  - intros Hno. rewrite (zsum_insert _ _ _ _ _ Ht). rewrite Hrel by done.
    destruct Hmay as [E|(k & v & ver & Hp)]; [lia|]. by destruct (Hno s k v ver s').
Qed.

Lemma puts_inv_run nclnt n s st :
  (Z.of_nat n < 2 ^ 64)%Z -> (forall k, k ∈ ka -> ck_view s k = None) ->
  nsteps puts_step n (puts_start s nclnt) st -> exists ts, puts_inv n st ts.
Proof.
  intros Hn Hv. apply (nsteps_invariant puts_step (fun n st => exists ts, puts_inv n st ts)).
  - intros k a b Hk [ts Hinv] Hs. eapply puts_inv_step; [|done|done]. lia.
  - exists ((fun _ => mktally 0 0) <$> seq 0 nclnt).
    assert (forall f, f (mktally 0 0) = 0%Z -> zsum f ((fun _ => mktally 0 0) <$> seq 0 nclnt) = 0%Z) as Hz.
    { intros f Hf. generalize (seq 0 nclnt). intros l. induction l as [|x l IH]; [done|]. simpl.
      rewrite Hf. exact IH. }
    assert (total_ver s = 0%Z) as Ht.
    { unfold total_ver, sum_ver, key_ver. clear Hka. induction ka as [|x l IH]; [done|]. simpl.
      rewrite Hv by left. rewrite IH; [done|]. intros; apply Hv. by right. }
    split; simpl; rewrite ?Hz, ?Ht by done; try done; try lia.
    + intros k v ver Hk E. rewrite Hv in E by done. done.
    + apply Forall2_fmap, Forall_Forall2_diag, Forall_forall. intros x _. constructor.
      intros k Hk. by right.
Qed.
End Puts.

(** ** The check *)

Lemma add_results_sum res rs :
  add_results res rs = mkClntRes (Nok res + foldr (fun r z => Nok r + z) 0 rs)%Z
                                 (Nmaybe res + foldr (fun r z => Nmaybe r + z) 0 rs)%Z.
Proof.
  unfold add_results. revert res. induction rs as [|r rs IH]; intros [a b]; simpl; [by rewrite !Z.add_0_r|].
  rewrite IH. simpl. f_equal; lia.
Qed.

(** The check is one [Get]: of a key that does not exist it fails, otherwise it compares the version. *)
Lemma CheckPutConcurrent_step encV decV {St : Type} `{!IKVClerk St}
    (Hcodec : forall e, decV (encV e) = Some e) ka (s s' : St) reliable k rs res p :
  store_ok encV ka s -> k ∈ ka -> prog_step (s, CheckPutConcurrent decV reliable k rs res) (s', p) ->
  p = Ret (if bool_decide (is_Some (ck_view s k)) then
             let res := add_results res rs in
             if negb reliable && bool_decide (u64 (Nok res + Nmaybe res) < key_ver s k)%Z then TestFails
             else if reliable && negb (bool_decide (key_ver s k = u64 (Nok res))) then TestFails
             else Leave res
           else TestFails).
Proof.
  intros Hs Hk ([[v ver] err] & Hg & ->)%prog_step_get. destruct (decide (err = OK)) as [He|He].
  - pose proof (ck_get_ok _ _ _ _ _ _ Hg He) as Hv. destruct (Hs k v ver Hk Hv) as [_ [e ->]].
    rewrite (bool_decide_eq_true_2 (err = OK)) by done. rewrite Hcodec.
    rewrite (bool_decide_eq_true_2 (is_Some _)) by by rewrite Hv.
    unfold key_ver. rewrite Hv. simpl. by repeat case_match.
  - destruct (ck_get_err _ _ _ _ _ _ Hg He) as [_ Hv].
    rewrite (bool_decide_eq_false_2 (err = OK)) by done.
    rewrite bool_decide_eq_false_2; [done|]. rewrite Hv. by intros [? ?].
Qed.

(** The tallies of finished clients are their results. *)
Lemma finished_sums encV decV {St : Type} `{!IKVClerk St} ka (s : St) rs ts :
  Forall2 (pclient_ok encV decV ka s) (PFinished <$> rs) ts ->
  zsum sure ts = foldr (fun r z => Nok r + z)%Z 0%Z rs /\
  zsum perhaps ts = foldr (fun r z => Nmaybe r + z)%Z 0%Z rs.
Proof.
  revert ts. induction rs as [|r rs IH]; intros ts H; simpl in H.
  - apply Forall2_nil_inv_l in H as ->. done.
  - apply Forall2_cons_inv_l in H as (t & ts' & Ht & Hts & ->). destruct (IH ts' Hts) as [H1 H2].
    inversion Ht; subst. simpl. rewrite <- H1, <- H2. done.
Qed.

(** ** Claims *)

(** C12: The put workload passes its check on every clerk: for any number of clients that run
    [OneClientPut] concurrently on keys that do not exist yet, over any implementation of the
    clerk interface, no client fails the test.  When all have finished, [CheckPutConcurrent] of a network
    that is not reliable, on any of the keys, returns the sums of the counts if the key exists, and fails,
    in [GetJson], exactly if it does not.  With a single key the key exists as soon as one put was counted
    as successful; if moreover the clerk never answers [ErrMaybe], [CheckPutConcurrent] of a reliable
    network accepts the version as the exact number of successful puts, and fails exactly if there was
    none. *)
Theorem put_workload_passes {St : Type} `{!IKVClerk St} encV decV
    (Hcodec : forall e, decV (encV e) = Some e)
    (Herr : forall s k v ver e s', ck_put s k v ver e s' -> is_Some (ck_view s k) \/ ver = 0%Z ->
      e = OK \/ e = ErrVersion \/ e = ErrMaybe)
    ka randomkeys nclnt n (s s' : St) cs :
  NoDup ka -> (Z.of_nat n < 2 ^ 64)%Z -> (forall k, k ∈ ka -> ck_view s k = None) ->
  nsteps (puts_step encV decV ka randomkeys) n (puts_start s nclnt) (s', cs) ->
  (forall j, cs !! j ≠ Some PFailed) /\
  forall rs, cs = PFinished <$> rs ->
    let tot := add_results (mkClntRes 0 0) rs in
    (forall k s'' p, k ∈ ka -> prog_step (s', CheckPutConcurrent decV false k rs (mkClntRes 0 0)) (s'', p) ->
       p = Ret (if bool_decide (is_Some (ck_view s' k)) then Leave tot else TestFails)) /\
    (forall k, ka = [k] -> (0 < Nok tot)%Z -> is_Some (ck_view s' k)) /\
    (forall k s'' p, ka = [k] -> (forall s k v ver s', ~ ck_put s k v ver ErrMaybe s') ->
       prog_step (s', CheckPutConcurrent decV true k rs (mkClntRes 0 0)) (s'', p) ->
       p = Ret (if bool_decide (0 < Nok tot)%Z then Leave tot else TestFails)).
Proof.
  intros Hka Hn Hv Hrun.
  destruct (puts_inv_run encV decV Hcodec Herr ka Hka randomkeys nclnt n s (s', cs) Hn Hv Hrun)
    as (ts & [Hs Hc Hcnt Hb Htr Hrel]). simpl in *. split.
  { intros j Hj. destruct (Forall2_lookup_l _ _ _ _ _ Hc Hj) as (t & _ & Ht). inversion Ht. }
  intros rs ->. destruct (finished_sums encV decV ka s' rs ts Hc) as [E1 E2].
  assert (add_results (mkClntRes 0 0) rs = mkClntRes (zsum sure ts) (zsum perhaps ts)) as ->
    by (rewrite add_results_sum, E1, E2; done). simpl.
  assert (forall k, k ∈ ka -> (0 < key_ver s' k)%Z <-> is_Some (ck_view s' k)) as Hex.
  { intros k Hk. unfold key_ver. destruct (ck_view s' k) as [[v ver]|] eqn:E; simpl.
    - destruct (Hs k v ver Hk E). split; [by eexists|lia].
    - split; [lia|]. by intros [? ?]. }
  split_and!.
  - intros k s'' p Hk Hp. apply (CheckPutConcurrent_step encV decV Hcodec ka) in Hp; [|done|done]. subst p.
    pose proof (key_ver_total encV ka s' k Hs Hk). case_bool_decide; [|done].
    rewrite add_results_sum, <- E1, <- E2. simpl. rewrite bool_decide_eq_false_2; [done|].
    rewrite u64_small by lia. lia.
  - intros k -> Hk. apply Hex; [set_solver|]. unfold total_ver, sum_ver in Hcnt. simpl in Hcnt. lia.
  - intros k s'' p -> Hno Hp. specialize (Hrel Hno).
    apply (CheckPutConcurrent_step encV decV Hcodec [k]) in Hp; [|done|set_solver]. subst p.
    unfold total_ver, sum_ver in Hcnt. simpl in Hcnt. specialize (Hex k ltac:(set_solver)).
    rewrite (bool_decide_ext (is_Some (ck_view s' k)) (0 < zsum sure ts)%Z) by (rewrite <- Hex; lia).
    case_bool_decide; [|done]. rewrite add_results_sum, <- E1, <- E2. simpl.
    rewrite bool_decide_eq_true_2; [done|]. rewrite u64_small by lia. lia.
Qed.

(** The server answers a put to an existing key, or at version 0, with one of these. *)
Lemma kvsrv_put_errors (kv : KVServer) k v ver e kv' :
  ck_put kv k v ver e kv' -> is_Some (ck_view kv k) \/ ver = 0%Z ->
  e = OK \/ e = ErrVersion \/ e = ErrMaybe.
Proof.
  intros Hp Hk. destruct Hp as [|_|_]; [|by auto|by auto].
  unfold KvServer.Put. simpl. simpl in Hk. unfold kv_view in Hk.
  destruct (m kv !! k) as [x|]; simpl.
  - case_bool_decide; simpl; auto.
  - destruct Hk as [[? ?]| ->]; [done|]. simpl. auto.
Qed.

Definition demo_encV (e : EntryV) : string := demo_encE [mkentry (EntryV_Id e) (EntryV_V e)].
Definition demo_decV (s : string) : option EntryV :=
  match demo_decE s with Some [e] => Some (mkEntryV (Id e) (N_ e)) | _ => None end.

Lemma demo_codecV e : demo_decV (demo_encV e) = Some e.
Proof. unfold demo_decV, demo_encV. rewrite demo_codec. by destruct e. Qed.

(** Two clients; the first puts once. *)
Lemma demo_puts :
  nsteps (puts_step demo_encV demo_decV ["k"] false) 6 (puts_start MakeKVServer 2)
    (mkKVServer {[ "k" := mkvalue (demo_encV (mkEntryV 0 0)) 1 ]},
     PFinished <$> [mkClntRes 1 0; mkClntRes 0 0]).
Proof.
  eapply nsteps_l; [eapply (puts_client _ _ _ _ 0); [reflexivity|by apply (ocp_start _ _ _ _ _ _ _ _ _ "k")]|].
  eapply nsteps_l; [eapply (puts_client _ _ _ _ 0); [reflexivity|eapply ocp_call, prog_put, put_direct]|].
  eapply nsteps_l.
  { eapply (puts_client _ _ _ _ 0); [vm_compute; reflexivity|].
    eapply ocp_call, prog_get. split; reflexivity. }
  eapply nsteps_l; [eapply (puts_client _ _ _ _ 0); [vm_compute; reflexivity|apply ocp_leave]|].
  eapply nsteps_l; [eapply (puts_client _ _ _ _ 0); [vm_compute; reflexivity|apply ocp_done]|].
  eapply nsteps_l; [eapply (puts_client _ _ _ _ 1); [vm_compute; reflexivity|apply ocp_done]|].
  vm_compute. apply nsteps_O.
Qed.

Lemma put_workload_passes_witness :
  exists s'' p, prog_step (mkKVServer {[ "k" := mkvalue (demo_encV (mkEntryV 0 0)) 1 ]},
      CheckPutConcurrent demo_decV false "k" [mkClntRes 1 0; mkClntRes 0 0] (mkClntRes 0 0)) (s'', p) /\
    p = Ret (Leave (mkClntRes 1 0)).
Proof.
  edestruct (put_workload_passes demo_encV demo_decV demo_codecV kvsrv_put_errors ["k"] false 2 6
    MakeKVServer (mkKVServer {[ "k" := mkvalue (demo_encV (mkEntryV 0 0)) 1 ]})
    (PFinished <$> [mkClntRes 1 0; mkClntRes 0 0])) as [_ H].
  - apply NoDup_singleton.
  - reflexivity.
  - intros k _. reflexivity.
  - exact demo_puts.
  - destruct (H [mkClntRes 1 0; mkClntRes 0 0] eq_refl) as [H1 _].
    assert (exists s'' p, prog_step (mkKVServer {[ "k" := mkvalue (demo_encV (mkEntryV 0 0)) 1 ]},
      CheckPutConcurrent demo_decV false "k" [mkClntRes 1 0; mkClntRes 0 0] (mkClntRes 0 0)) (s'', p))
      as (s'' & p & Hp).
    { eexists _, _. apply prog_get. split; reflexivity. }
    exists s'', p. split; [exact Hp|]. exact (H1 "k" s'' p (list_elem_of_here _ _) Hp).
Defined.
