(* ===== verification/KvSpread.v ===== *)
(** * The sequential workloads of the key/value tests

    [SpreadPuts] and [PutAtLeastOnceJson] of [src/src/kvtest1/kvtest.go], run by one client over any
    clerk that implements [IKVClerk]. *)

From S2P Require Import Prelude KvRpc KvServer Models KvClerk KvTest.

(** A program followed by another. *)
Fixpoint prog_bind {A B} (p : prog A) (f : A -> prog B) : prog B :=
  match p with
  | Ret a => f a
  | DoGet k cont => DoGet k (fun r => prog_bind (cont r) f)
  | DoPut k v ver cont => DoPut k v ver (fun e => prog_bind (cont e) f)
  end.

(** ** Operations *)

(** The loop of puts; their results are ignored. *)
Fixpoint spread_puts {A} (kvs : list (string * string)) (p : prog A) : prog A :=
  match kvs with
  | [] => p
  | (k, v) :: kvs => DoPut k v 0%Z (fun _ => spread_puts kvs p)
  end.

(** The loop of checks: a failed one ends the test. *)
Fixpoint spread_checks {R} (kvs : list (string * string)) (r : R) : prog (turn unit R) :=
  match kvs with
  | [] => Ret (Leave r)
  | (k, v) :: kvs =>
      prog_bind (CheckGet k v 1) (fun t =>
        match t with Leave _ => spread_checks kvs r | _ => Ret TestFails end)
  end.

(** [va]: the random values. *)
Definition SpreadPuts (va : list string) (n : nat) : prog (turn unit (list string * list string)) :=
  let kvs := zip (MakeKeys n) va in
  spread_puts kvs (spread_checks kvs (MakeKeys n, va)).

(** A turn of [PutAtLeastOnceJson]: every put is made at version 0. *)
Definition PutAtLeastOnceJson {T} (enc : T -> string) (key : string) (value : T) (ver : Tversion) :
    prog (turn Tversion Tversion) :=
  PutJson enc key value 0%Z (fun err =>
    Ret (if negb (bool_decide (err = ErrMaybe)) then Leave ver else Again (u64 (ver + 1)))).

(** ** Lemmas *)

Lemma MakeKeys_NoDup n : NoDup (MakeKeys n).
Proof.
  unfold MakeKeys. apply NoDup_fmap_2; [|apply NoDup_seq]. intros i j Hij.
  apply (inj (String.app "k")) in Hij. by apply (inj pretty) in Hij.
Qed.

Section Spread.
Context {St : Type} `{!IKVClerk St}.

(** The keys of [kvs] hold their values at version 1. *)
Definition all_hold (s : St) (kvs : list (string * string)) : Prop :=
  forall k v, (k, v) ∈ kvs -> ck_view s k = Some (v, 1%Z).

(** A put of a key that is missing takes effect, whatever the clerk answers. *)
Lemma put_missing s k v e s' :
  ck_view s k = None -> ck_put s k v 0%Z e s' ->
  ck_view s' k = Some (v, 1%Z) /\ forall k', k' ≠ k -> ck_view s' k' = ck_view s k'.
Proof.
  intros Hn [Ho [(_ & Hv & _)|(Hne & _)]]%ck_put_spec; [by rewrite Hv|]. by rewrite Hn in Hne.
Qed.

Lemma CheckGet_steps {A} s k v s' p (f : turn unit unit -> prog A) :
  ck_view s k = Some (v, 1%Z) -> prog_step (s, prog_bind (CheckGet k v 1) f) (s', p) ->
  p = f (Leave tt) /\ forall k', ck_view s' k' = ck_view s k'.
Proof.
  intros Hk Hs. apply prog_step_get in Hs as ([[val ver] err] & Hg & ->).
  split; [|by eapply ck_get_view]. destruct (decide (err = OK)) as [->|He].
  - pose proof (ck_get_ok _ _ _ _ _ _ Hg eq_refl) as E. rewrite Hk in E. injection E as <- <-.
    rewrite bool_decide_eq_false_2 by (by intros []). by rewrite !bool_decide_eq_true_2.
  - destruct (ck_get_err _ _ _ _ _ _ Hg He) as [_ ?]. congruence.
Qed.

Lemma ret_run {A} s (a : A) s' b : rtc prog_step (s, Ret a) (s', Ret b) -> s' = s /\ b = a.
Proof.
  intros H. apply rtc_inv in H as [E|(x & Hs & _)]; [by injection E|by apply prog_step_ret in Hs].
Qed.

Lemma spread_checks_run {R} kvs (r : R) s s' t :
  all_hold s kvs -> rtc prog_step (s, spread_checks kvs r) (s', Ret t) ->
  t = Leave r /\ forall k, ck_view s' k = ck_view s k.
Proof.
  revert s. induction kvs as [|[k v] kvs IH]; intros s Hh Hrun.
  - apply ret_run in Hrun as [-> ->]. done.
  - apply rtc_inv in Hrun as [E|([s1 p] & Hs & Hrun)]; [done|].
    eapply CheckGet_steps in Hs as [-> Hv]; [|apply Hh; left].
    destruct (IH s1) as [-> Hv'].
    + intros k' v' Hk'. rewrite Hv. apply Hh. by right.
    + done.
    + split; [done|]. intros k'. by rewrite Hv', Hv.
Qed.

Lemma spread_puts_run {A} kvs (p : prog A) s s' t past :
  NoDup kvs.*1 -> (forall k, k ∈ kvs.*1 -> ck_view s k = None) -> all_hold s past ->
  rtc prog_step (s, spread_puts kvs p) (s', Ret t) ->
  exists s1, all_hold s1 (past ++ kvs) /\ rtc prog_step (s1, p) (s', Ret t).
Proof.
  revert s past. induction kvs as [|[k v] kvs IH]; intros s past Hnd Hn Hh Hrun; simpl in *.
  - exists s. by rewrite app_nil_r.
  - apply NoDup_cons in Hnd as [Hk Hnd]. apply rtc_inv in Hrun as [E|([s1 q] & Hs & Hrun)]; [done|].
    apply prog_step_put in Hs as (e & Hp & ->).
    apply put_missing in Hp as [Hv Ho]; [|apply Hn; left].
    destruct (IH s1 (past ++ [(k, v)])) as (s2 & Hh2 & Hrun2); [done| | |done|].
    + intros k' Hk'. rewrite Ho by (intros ->; done). apply Hn. by right.
    + intros k' v' [Hin|E%list_elem_of_singleton]%elem_of_app; [|by injection E as -> ->].
      pose proof (Hh _ _ Hin) as E. rewrite Ho; [done|]. intros ->. rewrite Hn in E by left. done.
    + exists s2. by rewrite <- app_assoc in Hh2.
Qed.

(** A clerk that always answers runs every program to its end. *)
Lemma prog_runs {A} (p : prog A) s :
  (forall s k, exists r s', ck_get s k r s') ->
  (forall s k v ver, exists e s', ck_put s k v ver e s') ->
  exists s' a, rtc prog_step (s, p) (s', Ret a).
Proof.
  intros Hg Hp. revert s. induction p as [a|k cont IH|k v ver cont IH]; intros s.
  - exists s, a. done.
  - destruct (Hg s k) as (r & s1 & H). destruct (IH r s1) as (s' & a & Hrun).
    exists s', a. eapply rtc_l; [by apply prog_get|done].
  - destruct (Hp s k v ver) as (e & s1 & H). destruct (IH e s1) as (s' & a & Hrun).
    exists s', a. eapply rtc_l; [by apply prog_put|done].
Qed.
End Spread.

(** ** Properties *)

(** on a store without the keys, [SpreadPuts] passes its checks and leaves each key with its value at
    version 1, whatever the clerk answers to the puts; with a clerk that answers every call it
    ends. *)
Theorem SpreadPuts_passes {St} `{!IKVClerk St} (va : list string) (n : nat) (s : St)
    (Hget : forall s k, exists r s', ck_get s k r s')
    (Hput : forall s k v ver, exists e s', ck_put s k v ver e s')
    (Hva : length va = n) (Hs : forall k, k ∈ MakeKeys n -> ck_view s k = None) :
  (exists s' t, rtc prog_step (s, SpreadPuts va n) (s', Ret t)) /\
  forall s' t, rtc prog_step (s, SpreadPuts va n) (s', Ret t) ->
    t = Leave (MakeKeys n, va) /\
    forall i k v, MakeKeys n !! i = Some k -> va !! i = Some v -> ck_view s' k = Some (v, 1%Z).
Proof.
  split; [by apply prog_runs|]. intros s' t Hrun.
  assert ((zip (MakeKeys n) va).*1 = MakeKeys n) as Hf.
  { apply fst_zip. unfold MakeKeys. rewrite length_fmap, length_seq. lia. }
  destruct (spread_puts_run (zip (MakeKeys n) va)
    (spread_checks (zip (MakeKeys n) va) (MakeKeys n, va)) s s' t []) as (s1 & Hh & Hrun1).
  - rewrite Hf. apply MakeKeys_NoDup.
  - rewrite Hf. exact Hs.
  - intros k v Hkv. by apply elem_of_nil in Hkv.
  - exact Hrun.
  - destruct (spread_checks_run _ _ _ _ _ Hh Hrun1) as [-> Hv]. split; [done|].
    intros i k v Hk Hi. rewrite Hv. apply Hh. apply list_elem_of_lookup. exists i.
    apply lookup_zip_with_Some. eauto.
Qed.

Lemma SpreadPuts_passes_witness :
  forall s' t, rtc prog_step (MakeKVServer, SpreadPuts ["a"; "b"] 2) (s', Ret t) ->
    t = Leave (MakeKeys 2, ["a"; "b"]) /\
    forall i k v, MakeKeys 2 !! i = Some k -> ["a"; "b"] !! i = Some v ->
      ck_view s' k = Some (v, 1%Z).
Proof.
  apply (SpreadPuts_passes ["a"; "b"] 2 MakeKVServer).
  - intros s k. eexists _, s. split; reflexivity.
  - intros s k v ver. eexists _, _. apply put_direct.
  - reflexivity.
  - reflexivity.
Defined.

(** on a key that has been written, [PutAtLeastOnceJson] never puts: a turn leaves the store as it
    was, and whatever version it is asked for it returns that version or goes round again. *)
Theorem PutAtLeastOnceJson_never_puts {St} `{!IKVClerk St} {T} (enc : T -> string) (key : string)
    (value : T) (ver : Tversion) (s s' : St) (old : string) (cur : Tversion)
    (r : turn Tversion Tversion)
    (Hcur : ck_view s key = Some (old, cur)) (Hpos : cur ≠ 0%Z)
    (Hrun : rtc prog_step (s, PutAtLeastOnceJson enc key value ver) (s', Ret r)) :
  (forall k, ck_view s' k = ck_view s k) /\ (r = Leave ver \/ r = Again (u64 (ver + 1))).
Proof.
  apply rtc_inv in Hrun as [E|([s1 p] & Hs & Hrun)]; [done|].
  apply prog_step_put in Hs as (e & Hp & ->). apply ret_run in Hrun as [-> ->].
  split; [|by case_bool_decide; auto].
  apply ck_put_spec in Hp as [Ho [(E & _)|(_ & Hk & _)]].
  - rewrite Hcur in E. simpl in E. congruence.
  - intros k. destruct (decide (k = key)) as [->|Hne]; [done|by apply Ho].
Qed.

Lemma PutAtLeastOnceJson_never_puts_witness :
  (forall k, ck_view (KvServer.Put MakeKVServer demo_args).1 k =
     ck_view (KvServer.Put MakeKVServer demo_args).1 k) /\
  (@Leave Z Z 5%Z = Leave 5%Z \/ @Leave Z Z 5%Z = Again (u64 (5 + 1))).
Proof.
  apply (PutAtLeastOnceJson_never_puts (fun s : string => s) "k" "w" 5
    (KvServer.Put MakeKVServer demo_args).1 (KvServer.Put MakeKVServer demo_args).1 "v" 1).
  - reflexivity.
  - lia.
  - eapply rtc_l; [eapply prog_put, put_direct|]. apply rtc_refl.
Defined.
