(* ===== verification/Fnv.v ===== *)
(** * The FNV-1a hash of Go's [hash/fnv], and its two users

    [fnv.New32a] as the standard library computes it on 32-bit words, [Key2Shard] of
    [src/src/shardkv1/shardcfg/shardcfg.go] and [ihash] of [src/src/mr/worker.go]. *)

From S2P Require Import Prelude.

Definition offset32 : Z := 2166136261.
Definition prime32 : Z := 16777619.

(** [hash ^= uint32(c); hash *= prime32] for every byte. *)
Definition sum32a_write (h : Z) (c : Z) : Z := u32 (Z.lxor h c * prime32).

(** The bytes of a string. *)
Fixpoint bytes_of_string (s : string) : list Z :=
  match s with
  | EmptyString => []
  | String c s => Z.of_N (Ascii.N_of_ascii c) :: bytes_of_string s
  end.

(** [h := fnv.New32a(); h.Write([]byte(key)); h.Sum32()]. *)
Definition Sum32 (key : string) : Z := foldl sum32a_write offset32 (bytes_of_string key).

Definition NShards : Z := 12.

(** [Tshid(Tshid(h.Sum32()) % NShards)]: the conversion to a 64-bit int keeps the value. *)
Definition Key2Shard (key : string) : Z := Z.rem (Sum32 key) NShards.

(** [int(h.Sum32() & 0x7fffffff)]. *)
Definition ihash (key : string) : Z := Z.land (Sum32 key) 2147483647.

(** Published test vectors of the algorithm. *)
Example Sum32_vectors :
  Sum32 "" = 2166136261%Z /\ Sum32 "a" = 3826002220%Z /\ Sum32 "foobar" = 3214735720%Z.
Proof. vm_compute. auto. Qed.

Lemma Sum32_range key : (0 <= Sum32 key < 2 ^ 32)%Z.
Proof.
  unfold Sum32. assert (0 <= offset32 < 2 ^ 32)%Z as H by (vm_compute; split; congruence).
  revert H. generalize offset32. induction (bytes_of_string key) as [|c l IH]; intros h Hh; [done|].
  simpl. apply IH. apply u32_range.
Qed.

Lemma Key2Shard_lt key : (0 <= Key2Shard key < 12)%Z.
Proof.
  unfold Key2Shard, NShards. pose proof (Sum32_range key).
  rewrite Z.rem_mod_nonneg by lia. apply Z.mod_pos_bound. lia.
Qed.

Lemma ihash_mod key : ihash key = (Sum32 key mod 2 ^ 31)%Z.
Proof. unfold ihash. rewrite <- Z.land_ones by lia. reflexivity. Qed.

Lemma ihash_range key : (0 <= ihash key < 2 ^ 31)%Z.
Proof. rewrite ihash_mod. apply Z.mod_pos_bound. lia. Qed.
