(* ===== verification/ShardCfg.v ===== *)
(** * Shard configurations

    Model of [src/src/shardkv1/shardcfg/shardcfg.go]: the assignment of shards to groups, its
    changes ([Join], [Leave]) and [Rebalance].  Where the code ranges over a Go map, the order
    of the visit is an argument.  [log.Fatalf] is the result [Fatal]. *)

From S2P Require Import Prelude Fnv.

Abbreviation Tgid := Z (only parsing).
Abbreviation Tnum := Z (only parsing).

Definition Gid1 : Tgid := 1.
Definition NumFirst : Tnum := 1.

(** [Shards] is an array of [NShards] entries, zero for an unassigned shard. *)
Record ShardConfig := mkShardConfig {
  Num : Tnum;
  Shards : list Tgid;
  Groups : gmap Tgid (list string)
}.

Definition MakeShardConfig : ShardConfig :=
  mkShardConfig 0 (replicate (Z.to_nat NShards) 0%Z) ∅.

(** [order]: the visit of [cfg.Groups]; [copy] makes a fresh slice with the same elements. *)
Definition Copy (order : list (Tgid * list string)) (cfg : ShardConfig) : ShardConfig :=
  mkShardConfig (Num cfg) (Shards cfg) (foldl (fun gs '(k, srvs) => <[k := srvs]> gs) ∅ order).

(** [counts[g] += 1] for every shard. *)
Definition shard_counts (shards : list Tgid) : gmap Tgid Z :=
  foldl (fun counts g => <[g := (default 0 (counts !! g) + 1)%Z]> counts) ∅ shards.

(** [slices.Sort(groups)] on the keys of [c.Groups]. *)
Definition sorted_groups (c : ShardConfig) : list Tgid :=
  merge_sort Z.le (elements (dom (Groups c))).

(** The loop body of [analyze]: most loaded group and its load, least loaded group and its. *)
Definition analyze_step (counts : gmap Tgid Z) (acc : Tgid * Z * Tgid * Z) (g : Tgid) :
    Tgid * Z * Tgid * Z :=
  let '(mg, mn, lg, ln) := acc in
  let n := default 0%Z (counts !! g) in
  let '(lg, ln) := if bool_decide (n < ln)%Z then (g, n) else (lg, ln) in
  let '(mg, mn) := if bool_decide (mn < n)%Z then (g, n) else (mg, mn) in
  (mg, mn, lg, ln).

Definition analyze (c : ShardConfig) : Tgid * Z * Tgid * Z :=
  foldl (analyze_step (shard_counts (Shards c))) ((-1)%Z, (-1)%Z, (-1)%Z, 257%Z) (sorted_groups c).

Definition least (c : ShardConfig) : Tgid :=
  let '(_, _, lg, _) := analyze c in lg.

Definition set_shard (c : ShardConfig) (s : nat) (g : Tgid) : ShardConfig :=
  mkShardConfig (Num c) (<[s := g]> (Shards c)) (Groups c).

(** The loop that assigns the unassigned shards; it ranges over a copy of the array. *)
Definition assign_step (c : ShardConfig) (sg : nat * Tgid) : ShardConfig :=
  match Groups c !! sg.2 with
  | Some _ => c
  | None => set_shard c sg.1 (least c)
  end.

Definition assign_unassigned (c : ShardConfig) : ShardConfig :=
  foldl assign_step c (imap pair (Shards c)).

(** [for s, g := range c.Shards { if g == mg { c.Shards[s] = lg; break } }]. *)
Definition move_one (c : ShardConfig) (mg lg : Tgid) : ShardConfig :=
  match list_find (fun g => g = mg) (Shards c) with
  | Some (s, _) => set_shard c s lg
  | None => c
  end.

(** The endless loop with its [break]; [None] when [fuel] iterations were not enough. *)
Fixpoint balance_loop (fuel : nat) (c : ShardConfig) : option ShardConfig :=
  match fuel with
  | 0 => None
  | S fuel =>
      let '(mg, mn, lg, ln) := analyze c in
      if bool_decide (mn < ln + 2)%Z then Some c
      else balance_loop fuel (move_one c mg lg)
  end.

(** A move lowers the sum of the squares of the loads, at most [NShards * NShards] at first. *)
Definition rebalance_fuel : nat := 145.

Definition Rebalance (c : ShardConfig) : option ShardConfig :=
  if bool_decide (size (Groups c) < 1)
  then Some (mkShardConfig (Num c) ((fun _ => 0%Z) <$> Shards c) (Groups c))
  else balance_loop rebalance_fuel (assign_unassigned c).

(** Some server of the new group is already in a group. *)
Definition server_clash (groups : gmap Tgid (list string)) (servers : list string) : bool :=
  existsb (fun '(_, xservers) =>
    existsb (fun s1 => existsb (fun s2 => bool_decide (s1 = s2)) servers) xservers)
    (map_to_list groups).

Definition join_step (groups : gmap Tgid (list string)) (x : Tgid * list string) :
    go (gmap Tgid (list string)) :=
  match groups !! x.1 with
  | Some _ => Fatal "re-Join"
  | None =>
      if server_clash groups x.2 then Fatal "Join puts server in two groups"
      else Ok (<[x.1 := x.2]> groups)
  end.

(** [order]: the visit of the map [servers]. *)
Definition Join (order : list (Tgid * list string)) (cfg : ShardConfig) : go ShardConfig :=
  let! groups := fold_go join_step order (Groups cfg) in
  if bool_decide (order = []) then Fatal "Join but no change"
  else Ok (mkShardConfig (Num cfg + 1) (Shards cfg) groups).

Definition leave_step (groups : gmap Tgid (list string)) (gid : Tgid) :
    go (gmap Tgid (list string)) :=
  match groups !! gid with
  | None => Fatal "Leave but not in config"
  | Some _ => Ok (delete gid groups)
  end.

Definition Leave (gids : list Tgid) (cfg : ShardConfig) : go ShardConfig :=
  let! groups := fold_go leave_step gids (Groups cfg) in
  if bool_decide (gids = []) then Fatal "Leave but no change"
  else Ok (mkShardConfig (Num cfg + 1) (Shards cfg) groups).

Definition JoinBalance (order : list (Tgid * list string)) (cfg : ShardConfig) :
    go (option ShardConfig) :=
  let! cfg' := Join order cfg in Ok (Rebalance cfg').

Definition LeaveBalance (gids : list Tgid) (cfg : ShardConfig) : go (option ShardConfig) :=
  let! cfg' := Leave gids cfg in Ok (Rebalance cfg').

(** A lookup of a gid with no group gives the nil slice and [false]. *)
Definition GidServers (cfg : ShardConfig) (sh : Z) : go (Tgid * list string * bool) :=
  let! gid := slice_get (Shards cfg) sh in
  Ok (gid, default [] (Groups cfg !! gid), bool_decide (is_Some (Groups cfg !! gid))).

Definition IsMember (cfg : ShardConfig) (gid : Tgid) : bool :=
  existsb (fun g => bool_decide (g = gid)) (Shards cfg).

(** [order]: the visit of [cfg.Groups] in the last loop. *)
Definition CheckConfig (order groups : list Tgid) (cfg : ShardConfig) : go unit :=
  if bool_decide (size (Groups cfg) ≠ length groups) then Fatal "wanted groups"
  else if existsb (fun g => bool_decide (Groups cfg !! g = None)) groups then Fatal "missing group"
  else if bool_decide (0 < length groups)
          && existsb (fun g => bool_decide (Groups cfg !! g = None)) (Shards cfg)
  then Fatal "invalid group"
  else
    let counts := shard_counts (Shards cfg) in
    let '(min, max) := foldl (fun '(min, max) g =>
        let n := default 0%Z (counts !! g) in
        let max := if bool_decide (max < n)%Z then n else max in
        let min := if bool_decide (n < min)%Z then n else min in
        (min, max)) (257%Z, 0%Z) order in
    if bool_decide (min + 1 < max)%Z then Fatal "max too much larger than min" else Ok tt.

(** ** Loads *)

(** Number of shards of a group. *)
Definition load (shards : list Tgid) (g : Tgid) : nat := countb (fun x => bool_decide (x = g)) shards.

Lemma shard_counts_load shards g : default 0%Z (shard_counts shards !! g) = Z.of_nat (load shards g).
Proof.
  unfold shard_counts, load.
  assert (forall (m : gmap Z Z), default 0%Z
    (foldl (fun counts g => <[g := (default 0 (counts !! g) + 1)%Z]> counts) m shards !! g)
    = (default 0 (m !! g) + Z.of_nat (countb (fun x => bool_decide (x = g)) shards))%Z) as H.
  { induction shards as [|x l IH]; intros m; simpl; [unfold countb; simpl; lia|].
    rewrite IH, countb_cons. destruct (decide (x = g)) as [->|Hne].
    - rewrite lookup_insert_eq, bool_decide_eq_true_2 by done. simpl. lia.
    - rewrite lookup_insert_ne, bool_decide_eq_false_2 by done. lia. }
  rewrite H, lookup_empty. done.
Qed.

Lemma load_le_length shards g : load shards g <= length shards.
Proof. apply countb_le_length. Qed.

(** Loads after the shard at [s] moves from group [a] to group [b]. *)
Lemma load_insert shards s a b g :
  shards !! s = Some a ->
  load (<[s := b]> shards) g + (if decide (a = g) then 1 else 0)
  = load shards g + (if decide (b = g) then 1 else 0).
Proof.
  intros H. pose proof (countb_insert (fun x => bool_decide (x = g)) shards s a b H) as Hc.
  unfold load. simpl in Hc. by rewrite !bool_decide_decide in Hc; destruct (decide (a = g)), (decide (b = g)).
Qed.

(** ** What [analyze] computes *)

Section Analyze.
  Context (counts : gmap Tgid Z).

Let n (g : Tgid) : Z := default 0%Z (counts !! g).

Lemma analyze_fold gs mg0 mn0 lg0 ln0 :
  let '(mg, mn, lg, ln) := foldl (analyze_step counts) (mg0, mn0, lg0, ln0) gs in
  (mn0 <= mn)%Z /\ (ln <= ln0)%Z /\
  (forall g, g ∈ gs -> (ln <= n g <= mn)%Z) /\
  ((mg = mg0 /\ mn = mn0) \/ (mg ∈ gs /\ mn = n mg)) /\
  ((lg = lg0 /\ ln = ln0) \/ (lg ∈ gs /\ ln = n lg)).
Proof.
  revert mg0 mn0 lg0 ln0. induction gs as [|g gs IH]; intros mg0 mn0 lg0 ln0; simpl.
  - split_and!; try lia; [|auto..]. intros g Hg. by apply not_elem_of_nil in Hg.
  - fold (n g). 
    set (lg1 := if bool_decide (n g < ln0)%Z then g else lg0).
    set (ln1 := if bool_decide (n g < ln0)%Z then n g else ln0).
    set (mg1 := if bool_decide (mn0 < n g)%Z then g else mg0).
    set (mn1 := if bool_decide (mn0 < n g)%Z then n g else mn0).
    replace (let '(lg, ln) := if bool_decide (n g < ln0)%Z then (g, n g) else (lg0, ln0) in
             let '(mg, mn) := if bool_decide (mn0 < n g)%Z then (g, n g) else (mg0, mn0) in
             (mg, mn, lg, ln)) with (mg1, mn1, lg1, ln1)
      by (unfold lg1, ln1, mg1, mn1; repeat case_bool_decide; done).
    specialize (IH mg1 mn1 lg1 ln1).
    destruct (foldl _ _ _) as [[[mg mn] lg] ln].
    destruct IH as (Hm & Hl & Hall & Hmg & Hlg).
    assert (mn0 <= mn1 /\ n g <= mn1 /\ ln1 <= ln0 /\ ln1 <= n g)%Z as (? & ? & ? & ?)
      by (unfold mn1, ln1; repeat case_bool_decide; lia).
    split_and!; [lia|lia| | |].
    + intros x [->|Hx]%elem_of_cons; [lia|by apply Hall].
    + destruct Hmg as [[-> ->]|[? ?]]; [|right; split; [by right|done]].
      unfold mg1, mn1. case_bool_decide; [right; split; [left|done]|by left].
    + destruct Hlg as [[-> ->]|[? ?]]; [|right; split; [by right|done]].
      unfold lg1, ln1. case_bool_decide; [right; split; [left|done]|by left].
Qed.

End Analyze.

Lemma elem_of_sorted_groups c g : g ∈ sorted_groups c <-> is_Some (Groups c !! g).
Proof.
  unfold sorted_groups. rewrite merge_sort_Permutation, elem_of_elements. apply elem_of_dom.
Qed.

Lemma NoDup_sorted_groups c : NoDup (sorted_groups c).
Proof. unfold sorted_groups. rewrite merge_sort_Permutation. apply NoDup_elements. Qed.

(** With at least one group and at most 256 shards: [mg] is a group of maximal load [mn], [lg] a
    group of minimal load [ln]. *)
Lemma analyze_spec c :
  Groups c ≠ ∅ -> length (Shards c) <= 256 ->
  let '(mg, mn, lg, ln) := analyze c in
  is_Some (Groups c !! mg) /\ mn = Z.of_nat (load (Shards c) mg) /\
  is_Some (Groups c !! lg) /\ ln = Z.of_nat (load (Shards c) lg) /\
  forall g, is_Some (Groups c !! g) ->
    (ln <= Z.of_nat (load (Shards c) g) <= mn)%Z.
Proof.
  intros Hne Hlen. unfold analyze.
  pose proof (analyze_fold (shard_counts (Shards c)) (sorted_groups c) (-1) (-1) (-1) 257) as H.
  destruct (foldl _ _ _) as [[[mg mn] lg] ln].
  destruct H as (_ & _ & Hall & Hmg & Hlg). 
  assert (forall g, is_Some (Groups c !! g) ->
    (ln <= Z.of_nat (load (Shards c) g) <= mn)%Z) as Hall'.
  { intros g Hg. rewrite <- shard_counts_load. apply Hall. by apply elem_of_sorted_groups. }
  destruct (map_choose _ Hne) as (g0 & srvs & Hg0).
  pose proof (Hall' g0 ltac:(eauto)) as Hg. pose proof (load_le_length (Shards c) g0).
  destruct Hmg as [[-> ->]|[Hmg ->]]; [lia|]. destruct Hlg as [[-> ->]|[Hlg ->]]; [lia|].
  rewrite elem_of_sorted_groups in Hmg, Hlg. rewrite !shard_counts_load in *. done.
Qed.

(** ** Termination of the balancing loop *)

Definition energy (c : ShardConfig) : nat :=
  sum_list_with (fun g => load (Shards c) g * load (Shards c) g) (sorted_groups c).

(** Distinct groups share the shards. *)
Lemma sum_loads_le gs shards : NoDup gs -> sum_list_with (load shards) gs <= length shards.
Proof.
  intros Hnd. induction shards as [|x l IH]; simpl.
  - clear Hnd. induction gs as [|g gs IH]; simpl; [done|]. unfold load, countb. simpl. done.
  - transitivity (sum_list_with (load l) gs + 1); [|lia]. clear IH.
    destruct (decide (x ∈ gs)) as [Hx|Hx].
    + apply elem_of_Permutation in Hx as [gs' Hgs]. rewrite Hgs in Hnd. rewrite Hgs.
      apply NoDup_cons in Hnd as [Hx _]. simpl.
      assert (sum_list_with (load (x :: l)) gs' = sum_list_with (load l) gs') as Hs.
      { clear Hgs. induction gs' as [|g gs' IH]; simpl; [done|].
        rewrite IH by set_solver. unfold load at 1. rewrite countb_cons.
        by rewrite bool_decide_eq_false_2 by set_solver. }
      rewrite Hs. unfold load at 1. rewrite countb_cons, bool_decide_eq_true_2 by done.
      fold (load l x). lia.
    + assert (sum_list_with (load (x :: l)) gs = sum_list_with (load l) gs) as Hs; [|lia].
      clear Hnd. induction gs as [|g gs IH]; simpl; [done|].
      rewrite IH by set_solver. unfold load at 1. rewrite countb_cons.
      by rewrite bool_decide_eq_false_2 by set_solver.
Qed.

Lemma energy_bound c : length (Shards c) = 12 -> energy c <= 144.
Proof.
  intros Hlen. unfold energy. etrans; [apply sum_squares_le|].
  pose proof (sum_loads_le (sorted_groups c) (Shards c) (NoDup_sorted_groups c)). nia.
Qed.

(** A loaded group has a shard to give. *)
Lemma move_one_found c mg lg :
  0 < load (Shards c) mg ->
  exists s, Shards c !! s = Some mg /\ move_one c mg lg = set_shard c s lg.
Proof.
  intros Hload. unfold move_one. destruct (list_find _ _) as [[s g]|] eqn:E.
  - apply list_find_Some in E as (? & -> & _). eauto.
  - apply list_find_None in E. rewrite Forall_forall in E.
    assert (load (Shards c) mg = 0); [|lia]. apply countb_zero.
    intros x Hx. apply bool_decide_eq_false_2. by apply E.
Qed.

Lemma move_one_energy c mg lg :
  is_Some (Groups c !! mg) -> is_Some (Groups c !! lg) ->
  load (Shards c) lg + 2 <= load (Shards c) mg ->
  energy (move_one c mg lg) < energy c.
Proof.
  intros Hmg Hlg Hge. destruct (move_one_found c mg lg) as (s & Hs & ->); [lia|].
  assert (mg ≠ lg) as Hne by (intros ->; lia).
  assert (forall g, load (<[s := lg]> (Shards c)) g + (if decide (mg = g) then 1 else 0)
    = load (Shards c) g + (if decide (lg = g) then 1 else 0)) as Hl
    by (intros g; by apply load_insert).
  unfold energy. change (sorted_groups (set_shard c s lg)) with (sorted_groups c). simpl.
  pose proof (Hl mg) as Hm. pose proof (Hl lg) as Hg.
  rewrite decide_True, decide_False in Hm by done.
  rewrite decide_False, decide_True in Hg by done.
  pose proof (sum_list_two
    (fun g => load (Shards c) g * load (Shards c) g)
    (fun g => load (<[s := lg]> (Shards c)) g * load (<[s := lg]> (Shards c)) g)
    (sorted_groups c) mg lg (NoDup_sorted_groups c)) as Hsum.
  rewrite !elem_of_sorted_groups in Hsum. specialize (Hsum Hmg Hlg Hne).
  assert (forall g, g ≠ mg -> g ≠ lg ->
    load (<[s := lg]> (Shards c)) g * load (<[s := lg]> (Shards c)) g
    = load (Shards c) g * load (Shards c) g) as Hoth.
  { intros g Hg1 Hg2. specialize (Hl g). rewrite !decide_False in Hl by congruence.
    rewrite !Nat.add_0_r in Hl. by rewrite Hl. }
  specialize (Hsum Hoth). clear Hl Hoth Hs. nia.
Qed.

(** ** The loop of [Rebalance] *)

(** No group has two shards more than another. *)
Definition balanced (c : ShardConfig) : Prop :=
  forall g g', is_Some (Groups c !! g) -> is_Some (Groups c !! g') ->
    load (Shards c) g <= load (Shards c) g' + 1.

(** Every shard belongs to a group. *)
Definition assigned (c : ShardConfig) : Prop :=
  forall s g, Shards c !! s = Some g -> is_Some (Groups c !! g).

Lemma set_shard_assigned c s g :
  assigned c -> is_Some (Groups c !! g) -> assigned (set_shard c s g).
Proof.
  intros Ha Hg s' g' Hs'. simpl in *.
  apply list_lookup_insert_Some in Hs' as [(_ & <- & _)|[_ Hs']]; [done|by eapply Ha].
Qed.

Lemma balance_loop_spec fuel c :
  Groups c ≠ ∅ -> length (Shards c) = 12 -> assigned c -> energy c < fuel ->
  exists c', balance_loop fuel c = Some c' /\ Num c' = Num c /\ Groups c' = Groups c /\
    length (Shards c') = 12 /\ assigned c' /\ balanced c'.
Proof.
  revert c. induction fuel as [|fuel IH]; intros c Hne Hlen Ha Hen; [lia|]. simpl.
  pose proof (analyze_spec c Hne ltac:(lia)) as Han.
  destruct (analyze c) as [[[mg mn] lg] ln].
  destruct Han as (Hmg & -> & Hlg & -> & Hall). case_bool_decide as Hstop.
  - exists c. split_and!; try done. intros g g' Hg Hg'.
    pose proof (Hall g Hg). pose proof (Hall g' Hg'). lia.
  - pose proof (move_one_energy c mg lg Hmg Hlg ltac:(lia)) as Hdec.
    destruct (move_one_found c mg lg ltac:(lia)) as (s & Hs & Heq). rewrite Heq in *.
    destruct (IH (set_shard c s lg)) as (c' & ? & ? & ? & ? & ? & ?); simpl in *.
    + done.
    + by rewrite length_insert.
    + by apply set_shard_assigned.
    + lia.
    + exists c'. done.
Qed.

Lemma balanced_loop_id fuel c :
  Groups c ≠ ∅ -> length (Shards c) = 12 -> balanced c -> balance_loop (S fuel) c = Some c.
Proof.
  intros Hne Hlen Hbal. simpl. pose proof (analyze_spec c Hne ltac:(lia)) as Han.
  destruct (analyze c) as [[[mg mn] lg] ln]. destruct Han as (Hmg & -> & Hlg & -> & Hall).
  specialize (Hbal mg lg Hmg Hlg). by rewrite bool_decide_eq_true_2 by lia.
Qed.

(** ** The loop that assigns shards *)

Lemma least_valid c : Groups c ≠ ∅ -> length (Shards c) <= 256 -> is_Some (Groups c !! least c).
Proof.
  intros Hne Hlen. pose proof (analyze_spec c Hne Hlen) as Han. unfold least.
  destruct (analyze c) as [[[mg mn] lg] ln]. by destruct Han as (_ & _ & ? & _).
Qed.

(** The loop from index [k] on: [l] is the rest of the array it ranges over. *)
Lemma assign_loop_spec l k c :
  Groups c ≠ ∅ -> length (Shards c) = 12 ->
  (forall i, Shards c !! (k + i) = l !! i) ->
  (forall s g, s < k -> Shards c !! s = Some g -> is_Some (Groups c !! g)) ->
  let c' := foldl assign_step c (imap (fun i g => (k + i, g)) l) in
  Num c' = Num c /\ Groups c' = Groups c /\ length (Shards c') = 12 /\ assigned c' /\
  (forall s g, Shards c !! s = Some g -> is_Some (Groups c !! g) -> Shards c' !! s = Some g).
Proof.
  revert k c. induction l as [|g l IH]; intros k c Hne Hlen Hrest Hpre; simpl.
  - split_and!; try done. intros s x Hs. destruct (decide (s < k)); [by eapply Hpre|].
    specialize (Hrest (s - k)). replace (k + (s - k)) with s in Hrest by lia.
    rewrite Hs in Hrest. by rewrite lookup_nil in Hrest.
  - assert (Shards c !! k = Some g) as Hk by (specialize (Hrest 0); by rewrite Nat.add_0_r in Hrest).
    pose proof (lookup_lt_Some _ _ _ Hk) as Hklt. rewrite Nat.add_0_r.
    set (c1 := assign_step c (k, g)).
    assert (Num c1 = Num c /\ Groups c1 = Groups c /\ length (Shards c1) = 12 /\
      (forall s, s ≠ k -> Shards c1 !! s = Shards c !! s) /\
      (forall x, Shards c1 !! k = Some x -> is_Some (Groups c !! x)) /\
      (is_Some (Groups c !! g) -> Shards c1 !! k = Some g)) as (HN & HG & HL & Hoth & Hat & Hkeep).
    { unfold c1, assign_step. simpl. destruct (Groups c !! g) eqn:Eg; simpl.
      - split_and!; try done. intros x Hx. rewrite Hk in Hx. simplify_eq. eauto.
      - split_and!; try done; [by rewrite length_insert| |].
        + intros s Hs. by rewrite list_lookup_insert_ne.
        + intros x. rewrite list_lookup_insert_eq by lia. intros [= <-].
          apply least_valid; [done|lia]. }
    rewrite <- HG, <- HN.
    replace (imap ((fun i x => (k + i, x)) ∘ S) l) with (imap (fun i x => (S k + i, x)) l)
      by (apply imap_ext; intros; simpl; f_equal; lia).
    destruct (IH (S k) c1) as (H1 & H2 & H3 & H4 & H5); [by rewrite HG|done| | |].
    + intros i. rewrite Hoth by lia. specialize (Hrest (S i)). simpl in Hrest. rewrite <- Hrest.
      f_equal. lia.
    + intros s x Hs Hsx. rewrite HG. destruct (decide (s = k)) as [->|]; [by apply Hat|].
      rewrite Hoth in Hsx by done. apply (Hpre s); [lia|done].
    + split_and!; try done. intros s x Hs Hx. apply H5; [|done]. rewrite HG in Hx.
      destruct (decide (s = k)) as [->|]; [|by rewrite Hoth].
      rewrite Hk in Hs. simplify_eq. by apply Hkeep.
Qed.

Lemma assign_unassigned_spec c :
  Groups c ≠ ∅ -> length (Shards c) = 12 ->
  let c' := assign_unassigned c in
  Num c' = Num c /\ Groups c' = Groups c /\ length (Shards c') = 12 /\ assigned c' /\
  (forall s g, Shards c !! s = Some g -> is_Some (Groups c !! g) -> Shards c' !! s = Some g).
Proof.
  intros Hne Hlen. apply (assign_loop_spec (Shards c) 0 c Hne Hlen); [done|]. lia.
Qed.

Lemma assign_unassigned_id c :
  Groups c ≠ ∅ -> length (Shards c) = 12 -> assigned c -> assign_unassigned c = c.
Proof.
  intros Hne Hlen Ha. destruct (assign_unassigned_spec c Hne Hlen) as (HN & HG & HL & _ & Hkeep).
  destruct (assign_unassigned c) as [N S G]. destruct c as [N0 S0 G0]. simpl in *. subst N G.
  f_equal. apply list_eq_same_length with 12; [done|done|].
  intros i x y _ Hx Hy. assert (S !! i = Some y) as Hy' by (apply Hkeep; [done|by eapply Ha]).
  congruence.
Qed.

Lemma size_lt_1 (c : ShardConfig) : size (Groups c) < 1 <-> Groups c = ∅.
Proof. rewrite <- map_size_empty_iff. lia. Qed.

Lemma Rebalance_spec c :
  length (Shards c) = 12 ->
  exists c', Rebalance c = Some c' /\ Num c' = Num c /\ Groups c' = Groups c /\
    length (Shards c') = 12 /\
    (Groups c = ∅ -> forall s g, Shards c' !! s = Some g -> g = 0%Z) /\
    (Groups c ≠ ∅ -> assigned c' /\ balanced c').
Proof.
  intros Hlen. unfold Rebalance. case_bool_decide as Hs; rewrite size_lt_1 in Hs.
  - exists (mkShardConfig (Num c) ((fun _ => 0%Z) <$> Shards c) (Groups c)).
    split_and!; simpl; try done; [by rewrite length_fmap|].
    intros _ s g. rewrite list_lookup_fmap. by destruct (Shards c !! s); intros [= <-].
  - destruct (assign_unassigned_spec c Hs Hlen) as (HN & HG & HL & Ha & _).
    destruct (balance_loop_spec rebalance_fuel (assign_unassigned c))
      as (c' & H1 & H2 & H3 & H4 & H5 & H6); [by rewrite HG|done|done| |].
    { pose proof (energy_bound _ HL). unfold rebalance_fuel. lia. }
    exists c'. split_and!; try done; congruence.
Qed.

(** ** [Join] and [Leave] *)

Lemma server_clash_spec groups servers :
  server_clash groups servers = false <->
  forall x xs s, groups !! x = Some xs -> s ∈ xs -> s ∉ servers.
Proof.
  unfold server_clash. rewrite <- not_true_iff_false, existsb_exists.
  setoid_rewrite <- list_elem_of_In. split.
  - intros Hno x xs s Hx Hs Hs'. apply Hno. exists (x, xs).
    split; [by apply elem_of_map_to_list|]. apply existsb_exists. exists s.
    split; [by apply list_elem_of_In|]. apply existsb_exists. exists s.
    split; [by apply list_elem_of_In|]. by apply bool_decide_eq_true_2.
  - intros Hall ([x xs] & Hx & (s & Hs & (s' & Hs' & He)%existsb_exists)%existsb_exists).
    apply elem_of_map_to_list in Hx. apply bool_decide_eq_true_1 in He as <-.
    apply list_elem_of_In in Hs, Hs'. by eapply Hall.
Qed.

(** The requests [Join] accepts: new and distinct gids, and no server in two groups. *)
Record joinable (groups : gmap Tgid (list string)) (order : list (Tgid * list string)) : Prop := {
  join_distinct : NoDup order.*1;
  join_new : forall g srvs, (g, srvs) ∈ order -> groups !! g = None;
  join_old : forall g srvs x xs s, (g, srvs) ∈ order -> groups !! x = Some xs -> s ∈ xs ->
    s ∉ srvs;
  join_each : forall g srvs g' srvs' s, (g, srvs) ∈ order -> (g', srvs') ∈ order -> g ≠ g' ->
    s ∈ srvs -> s ∉ srvs'
}.

Lemma joinable_perm groups order order' :
  order ≡ₚ order' -> joinable groups order -> joinable groups order'.
Proof.
  intros Hp [H1 H2 H3 H4]. split.
  - by rewrite <- Hp.
  - intros g srvs. rewrite <- Hp. eauto.
  - intros g srvs x xs s. rewrite <- Hp. eauto.
  - intros g srvs g' srvs' s. rewrite <- !Hp. eauto.
Qed.

Lemma joinable_cons groups g srvs order :
  joinable groups ((g, srvs) :: order) <->
  (groups !! g = None /\ server_clash groups srvs = false) /\
  joinable (<[g := srvs]> groups) order.
Proof.
  rewrite server_clash_spec. split.
  - intros [H1 H2 H3 H4]. rewrite fmap_cons in H1. simpl in H1. apply NoDup_cons in H1 as [Hg Hnd].
    assert (forall g' srvs', (g', srvs') ∈ order -> g' ≠ g) as Hne.
    { intros g' srvs' Hin ->. apply Hg. apply list_elem_of_fmap. by exists (g, srvs'). }
    split; [split; [eapply H2; left|intros x xs s; eapply H3; left]|]. split; [done| | |].
    + intros g' srvs' Hin. rewrite lookup_insert_ne by (symmetry; by eapply Hne).
      eapply H2. by right.
    + intros g' srvs' x xs s Hin [[<- <-]|[_ Hx]]%lookup_insert_Some.
      * intros Hs. eapply (H4 g srvs g' srvs'); [left|by right|symmetry; by eapply Hne|done].
      * eapply H3; [by right|done].
    + intros g1 s1 g2 s2 s Hi1 Hi2. eapply H4; by right.
  - intros ((Hg & Hold) & [H1 H2 H3 H4]).
    assert (forall g' srvs', (g', srvs') ∈ order -> g' ≠ g /\ groups !! g' = None) as Hne.
    { intros g' srvs' Hin. apply H2 in Hin. by apply lookup_insert_None in Hin as [? ?]. }
    split.
    + rewrite fmap_cons. apply NoDup_cons. split; [|done].
      intros ([g' srvs'] & Heq & Hin)%list_elem_of_fmap. simpl in Heq.
      destruct (Hne _ _ Hin). congruence.
    + intros g' srvs' [[= -> ->]|Hin]%elem_of_cons; [done|]. by apply (Hne g' srvs').
    + intros g' srvs' x xs s [[= -> ->]|Hin]%elem_of_cons Hx Hs; [by eapply Hold|].
      eapply (H3 g' srvs' x xs); [done| |done]. rewrite lookup_insert_ne; [done|]. congruence.
    + intros g1 s1 g2 s2 s [[= -> ->]|Hi1]%elem_of_cons [[= -> ->]|Hi2]%elem_of_cons Hn Hs.
      * done.
      * eapply (H3 g2 s2 g srvs); [done|by rewrite lookup_insert_eq|done].
      * intros Hs'. eapply (H3 g1 s1 g srvs); [done|by rewrite lookup_insert_eq|done|done].
      * exact (H4 g1 s1 g2 s2 s Hi1 Hi2 Hn Hs).
Qed.

Lemma join_loop_spec order groups groups' :
  fold_go join_step order groups = Ok groups' <->
  joinable groups order /\ groups' = list_to_map order ∪ groups.
Proof.
  revert groups. induction order as [|[g srvs] order IH]; intros groups; simpl.
  - rewrite (left_id_L ∅ (∪)). split; [intros [= <-]|by intros [_ ->]].
    split; [|done]. split; [constructor|set_solver..].
  - rewrite joinable_cons. unfold join_step at 1. simpl.
    destruct (groups !! g) eqn:Eg; [split; [done|naive_solver]|].
    destruct (server_clash groups srvs) eqn:Ec; [split; [done|naive_solver]|]. simpl. rewrite IH.
    assert (joinable (<[g := srvs]> groups) order ->
      list_to_map order ∪ <[g:=srvs]> groups = <[g:=srvs]> (list_to_map order) ∪ groups) as Heq.
    { intros [_ H2 _ _]. rewrite <- insert_union_l. symmetry. apply insert_union_r.
      apply not_elem_of_list_to_map_1. intros ([g' srvs'] & Hg' & Hin)%list_elem_of_fmap.
      simpl in Hg'. subst g'. apply H2 in Hin. by rewrite lookup_insert_eq in Hin. }
    naive_solver congruence.
Qed.

Lemma Join_Ok order cfg cfg' :
  Join order cfg = Ok cfg' <->
  order ≠ [] /\ joinable (Groups cfg) order /\
  cfg' = mkShardConfig (Num cfg + 1) (Shards cfg) (list_to_map order ∪ Groups cfg).
Proof.
  unfold Join. split.
  - intros H. destruct (fold_go _ _ _) as [gs| |] eqn:E; try discriminate H. simpl in H.
    case_bool_decide; simplify_eq. apply join_loop_spec in E as [Hj ->]. done.
  - intros (Hne & Hj & ->).
    rewrite (proj2 (join_loop_spec order (Groups cfg) _) (conj Hj eq_refl)). simpl.
    by rewrite bool_decide_eq_false_2.
Qed.

(** The groups that remain. *)
Definition without (gids : list Tgid) (groups : gmap Tgid (list string)) :
    gmap Tgid (list string) := filter (fun x => x.1 ∉ gids) groups.

Lemma without_lookup gids groups g xs :
  without gids groups !! g = Some xs <-> groups !! g = Some xs /\ g ∉ gids.
Proof. unfold without. by rewrite map_lookup_filter_Some. Qed.

Lemma without_nil groups : without [] groups = groups.
Proof. apply map_eq. intros g. apply option_eq. intros xs. rewrite without_lookup. set_solver. Qed.

Lemma without_cons g gids groups : without (g :: gids) groups = without gids (delete g groups).
Proof.
  apply map_eq. intros x. apply option_eq. intros xs.
  rewrite !without_lookup, lookup_delete_Some. set_solver.
Qed.

Lemma leave_loop_spec gids groups groups' :
  fold_go leave_step gids groups = Ok groups' <->
  NoDup gids /\ (forall g, g ∈ gids -> is_Some (groups !! g)) /\
  groups' = without gids groups.
Proof.
  revert groups. induction gids as [|g gids IH]; intros groups; simpl.
  - rewrite without_nil.
    split; [intros [= <-]|by intros (_ & _ & ->)]. split_and!; [constructor|set_solver|done].
  - unfold leave_step at 1. destruct (groups !! g) eqn:Eg; simpl.
    + rewrite IH, NoDup_cons, without_cons.
      assert ((forall g', g' ∈ gids -> is_Some (delete g groups !! g')) <->
              ((g ∉ gids) /\ (forall g', g' ∈ gids -> is_Some (groups !! g')))) as ->.
      { split.
        - intros H. split; [|intros g' Hg'; destruct (H g' Hg') as [? Hx]; eexists;
            by apply lookup_delete_Some in Hx as [_ Hx]].
          intros Hin. destruct (H g Hin) as [? Hx]. by rewrite lookup_delete_eq in Hx.
        - intros [Hg H] g' Hg'. rewrite lookup_delete_ne by congruence. auto. }
      setoid_rewrite elem_of_cons. naive_solver.
    + split; [done|]. intros (_ & H & _). destruct (H g) as [? Hx]; [left|]. congruence.
Qed.

Lemma Leave_Ok gids cfg cfg' :
  Leave gids cfg = Ok cfg' <->
  gids ≠ [] /\ NoDup gids /\ (forall g, g ∈ gids -> is_Some (Groups cfg !! g)) /\
  cfg' = mkShardConfig (Num cfg + 1) (Shards cfg) (without gids (Groups cfg)).
Proof.
  unfold Leave. split.
  - intros H. destruct (fold_go _ _ _) as [gs| |] eqn:E; try discriminate H. simpl in H.
    case_bool_decide; simplify_eq. apply leave_loop_spec in E as (? & ? & ->). done.
  - intros (Hne & Hnd & Hin & ->).
    rewrite (proj2 (leave_loop_spec gids (Groups cfg) _) (conj Hnd (conj Hin eq_refl))). simpl.
    by rewrite bool_decide_eq_false_2.
Qed.

(** ** Configurations the controller can reach *)

Inductive cfg_step : ShardConfig -> ShardConfig -> Prop :=
| cfg_join order c c' : JoinBalance order c = Ok (Some c') -> cfg_step c c'
| cfg_leave gids c c' : LeaveBalance gids c = Ok (Some c') -> cfg_step c c'.

(** No server is in two groups. *)
Definition servers_disjoint (groups : gmap Tgid (list string)) : Prop :=
  forall g xs g' xs' s, groups !! g = Some xs -> groups !! g' = Some xs' -> g ≠ g' ->
    s ∈ xs -> s ∉ xs'.

Record cfg_ok (c : ShardConfig) : Prop := {
  cfg_len : length (Shards c) = 12;
  cfg_disjoint : servers_disjoint (Groups c);
  cfg_none : Groups c = ∅ -> forall s g, Shards c !! s = Some g -> g = 0%Z;
  cfg_some : Groups c ≠ ∅ -> assigned c /\ balanced c
}.

Lemma servers_disjoint_join groups order :
  servers_disjoint groups -> joinable groups order ->
  servers_disjoint (list_to_map order ∪ groups).
Proof.
  intros Hd [H1 H2 H3 H4] g xs g' xs' s Hg Hg' Hne Hs.
  assert (forall x srvs, (list_to_map order : gmap Z (list string)) !! x = Some srvs ->
    (x, srvs) ∈ order) as Hmap by (intros x srvs; by apply elem_of_list_to_map_2).
  apply lookup_union_Some_raw in Hg as [Hg|[_ Hg]];
  apply lookup_union_Some_raw in Hg' as [Hg'|[_ Hg']].
  - exact (H4 _ _ _ _ _ (Hmap _ _ Hg) (Hmap _ _ Hg') Hne Hs).
  - intros Hs'. exact (H3 _ _ _ _ _ (Hmap _ _ Hg) Hg' Hs' Hs).
  - exact (H3 _ _ _ _ _ (Hmap _ _ Hg') Hg Hs).
  - exact (Hd _ _ _ _ _ Hg Hg' Hne Hs).
Qed.

Lemma cfg_ok_start : cfg_ok MakeShardConfig.
Proof.
  split; [done| | |done].
  - intros g xs g' xs' s Hg. unfold MakeShardConfig in Hg. simpl in Hg. by rewrite lookup_empty in Hg.
  - intros _ s g Hs. by apply lookup_replicate in Hs as [-> _].
Qed.

Lemma Rebalance_ok c c' :
  length (Shards c) = 12 -> servers_disjoint (Groups c) -> Rebalance c = Some c' -> cfg_ok c'.
Proof.
  intros Hlen Hd HR. destruct (Rebalance_spec c Hlen) as (c1 & H1 & H2 & H3 & H4 & H5 & H6).
  assert (c1 = c') as -> by congruence. split; rewrite ?H3; done.
Qed.

Lemma cfg_ok_step c c' : cfg_ok c -> cfg_step c c' -> cfg_ok c'.
Proof.
  intros Hc Hs. destruct Hs as [order c0 c1 H|gids c0 c1 H]; destruct Hc as [Hlen Hd _ _].
  - unfold JoinBalance in H. destruct (Join order c0) as [c2| |] eqn:E; simplify_eq/=.
    apply Join_Ok in E as (_ & Hj & ->). eapply Rebalance_ok; [..|done]; [done|].
    by apply servers_disjoint_join.
  - unfold LeaveBalance in H. destruct (Leave gids c0) as [c2| |] eqn:E; simplify_eq/=.
    apply Leave_Ok in E as (_ & _ & _ & ->). eapply Rebalance_ok; [..|done]; [done|].
    intros g xs g' xs' s [Hg _]%without_lookup [Hg' _]%without_lookup.
    by eapply Hd.
Qed.

(** ** [CheckConfig] *)

(** The loop only ever stores loads of groups it visits. *)
Lemma minmax_fold (n : Tgid -> Z) order mi0 ma0 mi ma :
  foldl (fun '(min, max) g =>
     let k := n g in
     let max := if bool_decide (max < k)%Z then k else max in
     let min := if bool_decide (k < min)%Z then k else min in
     (min, max)) (mi0, ma0) order = (mi, ma) ->
  (mi = mi0 \/ exists g, g ∈ order /\ mi = n g) /\ (ma = ma0 \/ exists g, g ∈ order /\ ma = n g).
Proof.
  revert mi0 ma0. induction order as [|g order IH]; intros mi0 ma0; simpl.
  - intros [= -> ->]. auto.
  - intros [H1 H2]%IH. split.
    + destruct H1 as [->|(x & ? & ->)]; [|right; exists x; set_solver].
      destruct (bool_decide _); [right; exists g; set_solver|auto].
    + destruct H2 as [->|(x & ? & ->)]; [|right; exists x; set_solver].
      destruct (bool_decide _); [right; exists g; set_solver|auto].
Qed.

Lemma CheckConfig_ok order groups c :
  cfg_ok c -> order ≡ₚ elements (dom (Groups c)) -> groups ≡ₚ elements (dom (Groups c)) ->
  CheckConfig order groups c = Ok tt.
Proof.
  intros [Hlen _ _ Hsome] Ho Hg. unfold CheckConfig.
  assert (forall g, g ∈ order -> is_Some (Groups c !! g)) as Hin.
  { intros g. rewrite Ho, elem_of_elements, elem_of_dom. done. }
  rewrite bool_decide_eq_false_2.
  2: { intros Hne. apply Hne. rewrite Hg, <- size_dom. done. }
  replace (existsb _ groups) with false.
  2: { symmetry. apply not_true_iff_false. intros (g & Hx & Hn)%existsb_exists.
       apply list_elem_of_In in Hx. rewrite Hg, elem_of_elements, elem_of_dom in Hx.
       apply bool_decide_eq_true_1 in Hn. rewrite Hn in Hx. by destruct Hx. }
  assert (0 < length groups -> Groups c ≠ ∅) as Hne.
  { intros Hl He. rewrite Hg, He, dom_empty_L, elements_empty in Hl. simpl in Hl. lia. }
  replace (bool_decide (0 < length groups) && _) with false.
  2: { symmetry. apply not_true_iff_false. intros [Hl Hx]%andb_true_iff.
       apply bool_decide_eq_true_1 in Hl. destruct (Hsome (Hne Hl)) as [Ha _].
       apply existsb_exists in Hx as (g & [s Hs]%list_elem_of_In%list_elem_of_lookup & Hn).
       apply bool_decide_eq_true_1 in Hn. destruct (Ha s g Hs). congruence. }
  destruct (foldl _ _ _) as [mi ma] eqn:E.
  apply (minmax_fold (fun g => default 0%Z (shard_counts (Shards c) !! g))) in E as [H1 H2].
  rewrite bool_decide_eq_false_2; [done|].
  assert (forall g, default 0%Z (shard_counts (Shards c) !! g) = Z.of_nat (load (Shards c) g)
    /\ load (Shards c) g <= 12) as Hld.
  { intros g. rewrite shard_counts_load. split; [done|]. rewrite <- Hlen. apply load_le_length. }
  destruct H1 as [->|(g & Hg1 & ->)]; destruct H2 as [->|(g' & Hg2 & ->)]; [lia| | |].
  - destruct (Hld g') as [-> ?]. lia.
  - destruct (Hld g) as [-> ?]. lia.
  - destruct (Hld g) as [-> _], (Hld g') as [-> _].
    apply Hin in Hg1, Hg2. destruct Hsome as [_ Hb]; [|specialize (Hb g' g Hg2 Hg1); lia].
    intros He. rewrite He in Hg1. rewrite lookup_empty in Hg1. by destruct Hg1.
Qed.

(** ** Properties *)

(** C10: [Rebalance] terminates on every configuration with its twelve shards, whatever the
    groups and the current assignment.  It changes only the assignment: with no groups every
    shard becomes unassigned, otherwise every shard belongs to a group and no group has two
    shards more than another. *)
Theorem Rebalance_balances (c : ShardConfig) (Hlen : length (Shards c) = 12) :
  exists c', Rebalance c = Some c' /\ Num c' = Num c /\ Groups c' = Groups c /\
    length (Shards c') = 12 /\
    (Groups c = ∅ -> forall s g, Shards c' !! s = Some g -> g = 0%Z) /\
    (Groups c ≠ ∅ ->
      (forall s g, Shards c' !! s = Some g -> is_Some (Groups c !! g)) /\
      (forall g g', is_Some (Groups c !! g) -> is_Some (Groups c !! g') ->
         load (Shards c') g <= load (Shards c') g' + 1)).
Proof.
  destruct (Rebalance_spec c Hlen) as (c' & H1 & H2 & H3 & H4 & H5 & H6).
  exists c'. split_and!; try done. intros Hne. destruct (H6 Hne) as [Ha Hb].
  unfold assigned, balanced in *. rewrite H3 in *. done.
Qed.

Definition demo_cfg : ShardConfig :=
  mkShardConfig 3 [1; 1; 1; 1; 1; 1; 7; 7; 0; 2; 2; 9]%Z
    {[ 1%Z := ["a"]; 2%Z := ["b"]; 5%Z := ["c"] ]}.

Lemma Rebalance_balances_witness :
  exists c', Rebalance demo_cfg = Some c' /\ Num c' = Num demo_cfg /\
    Groups c' = Groups demo_cfg /\ length (Shards c') = 12 /\
    (Groups demo_cfg = ∅ -> forall s g, Shards c' !! s = Some g -> g = 0%Z) /\
    (Groups demo_cfg ≠ ∅ ->
      (forall s g, Shards c' !! s = Some g -> is_Some (Groups demo_cfg !! g)) /\
      (forall g g', is_Some (Groups demo_cfg !! g) -> is_Some (Groups demo_cfg !! g') ->
         load (Shards c') g <= load (Shards c') g' + 1)).
Proof. apply (Rebalance_balances demo_cfg). reflexivity. Defined.

(** [Rebalance] is idempotent: a second call leaves the configuration as it is, so shards
    do not move when nothing changed. *)
Theorem Rebalance_idempotent (c c' : ShardConfig) (Hlen : length (Shards c) = 12)
    (HR : Rebalance c = Some c') : Rebalance c' = Some c'.
Proof.
  destruct (Rebalance_spec c Hlen) as (c1 & H1 & H2 & H3 & H4 & H5 & H6).
  assert (c1 = c') as -> by congruence. unfold Rebalance.
  case_bool_decide as Hs; rewrite size_lt_1 in Hs.
  - destruct c' as [N S G]. simpl in *. subst G. do 2 f_equal.
    apply list_eq_same_length with 12; [done|by rewrite length_fmap|].
    intros i x y _ Hx Hy. rewrite list_lookup_fmap, Hy in Hx. simpl in Hx.
    rewrite (H5 ltac:(by symmetry) i y Hy). congruence.
  - destruct H6 as [Ha Hb]; [congruence|]. rewrite assign_unassigned_id by done.
    by apply balanced_loop_id.
Qed.

Lemma Rebalance_idempotent_witness :
  let c := mkShardConfig 3 [2; 5; 1; 1; 1; 1; 5; 5; 2; 2; 2; 5]%Z (Groups demo_cfg) in
  Rebalance c = Some c.
Proof. apply (Rebalance_idempotent demo_cfg); vm_compute; reflexivity. Defined.

(** whether [Join] succeeds, and what it returns, does not depend on the order in which Go
    visits the map of new groups. *)
Theorem Join_order_independent (order order' : list (Tgid * list string)) (cfg cfg' : ShardConfig)
    (Hp : order ≡ₚ order') (HJ : Join order cfg = Ok cfg') : Join order' cfg = Ok cfg'.
Proof.
  apply Join_Ok in HJ as (Hne & Hj & ->). apply Join_Ok. split_and!.
  - intros ->. by apply Permutation_nil_r in Hp.
  - by eapply joinable_perm.
  - f_equal. f_equal. apply list_to_map_proper; [|done]. by destruct Hj.
Qed.

Lemma Join_order_independent_witness :
  Join [(2%Z, ["b"]); (1%Z, ["a"])] MakeShardConfig =
  Ok (mkShardConfig 1 (replicate 12 0%Z) {[ 1%Z := ["a"]; 2%Z := ["b"] ]}).
Proof.
  apply (Join_order_independent [(1%Z, ["a"]); (2%Z, ["b"])]); [apply perm_swap|reflexivity].
Defined.

(** C20: every configuration reachable from the empty one by [JoinBalance] and [LeaveBalance]
    passes [CheckConfig] for its set of groups, in whatever order these are listed and visited,
    and no server is ever in two groups. *)
Theorem reachable_configs_check (c : ShardConfig) (order groups : list Tgid)
    (Hr : rtc cfg_step MakeShardConfig c)
    (Ho : order ≡ₚ elements (dom (Groups c))) (Hg : groups ≡ₚ elements (dom (Groups c))) :
  CheckConfig order groups c = Ok tt /\ servers_disjoint (Groups c).
Proof.
  assert (cfg_ok c) as Hc by (eapply rtc_invariant; [apply cfg_ok_step|apply cfg_ok_start|done]).
  split; [by apply CheckConfig_ok|by destruct Hc].
Qed.

(** The configuration of the package's own test after two [JoinBalance]s. *)
Definition demo_joined : ShardConfig :=
  mkShardConfig 2 [2; 2; 2; 2; 2; 2; 1; 1; 1; 1; 1; 1]%Z
    {[ 1%Z := ["x"; "y"; "z"]; 2%Z := ["a"; "b"; "c"] ]}.

Lemma demo_joined_reachable : rtc cfg_step MakeShardConfig demo_joined.
Proof.
  eapply rtc_l; [apply (cfg_join [(1%Z, ["x"; "y"; "z"])]); vm_compute; reflexivity|].
  eapply rtc_l; [apply (cfg_join [(2%Z, ["a"; "b"; "c"])]); vm_compute; reflexivity|].
  apply rtc_refl.
Qed.

Lemma reachable_configs_check_witness :
  CheckConfig [2; 1]%Z [1; 2]%Z demo_joined = Ok tt /\ servers_disjoint (Groups demo_joined).
Proof.
  apply reachable_configs_check; [apply demo_joined_reachable|..];
    apply (bool_decide_unpack _); vm_compute; exact I.
Defined.

(** routing.  In every reachable configuration with at least one group, every key hashes
    to a shard in range, and the shard is served by a group of the configuration. *)
Theorem every_key_is_served (c : ShardConfig) (key : string)
    (Hr : rtc cfg_step MakeShardConfig c) (Hne : Groups c ≠ ∅) :
  exists gid srvs, GidServers c (Key2Shard key) = Ok (gid, srvs, true) /\
    Groups c !! gid = Some srvs /\ IsMember c gid = true.
Proof.
  assert (cfg_ok c) as [Hlen _ _ Hsome]
    by (eapply rtc_invariant; [apply cfg_ok_step|apply cfg_ok_start|done]).
  destruct (Hsome Hne) as [Ha _]. pose proof (Key2Shard_lt key) as Hk.
  destruct (lookup_lt_is_Some_2 (Shards c) (Z.to_nat (Key2Shard key))) as [gid Hgid]; [lia|].
  destruct (Ha _ _ Hgid) as [srvs Hsrvs]. exists gid, srvs. split_and!; [|done|].
  - unfold GidServers. rewrite (proj2 (slice_get_Ok _ _ gid)) by (split; [lia|done]). simpl.
    rewrite Hsrvs. by rewrite bool_decide_eq_true_2.
  - unfold IsMember. apply existsb_exists. exists gid.
    split; [|by apply bool_decide_eq_true_2]. apply list_elem_of_In.
    by eapply list_elem_of_lookup_2.
Qed.

Lemma every_key_is_served_witness :
  exists gid srvs, GidServers demo_joined (Key2Shard "k1") = Ok (gid, srvs, true) /\
    Groups demo_joined !! gid = Some srvs /\ IsMember demo_joined gid = true.
Proof. apply (every_key_is_served demo_joined "k1"); [apply demo_joined_reachable|done]. Defined.
