(* ===== verification/GoStrings.v ===== *)
(** * String and file-system functions of Go's library

    What the sources use of [strings] ([Split], [Replace] with an empty replacement, [Join]), of
    [path/filepath] ([Glob] with [*] patterns) and of [os] (a flat directory of text files).
    Strings are byte strings; [TrimSpace], which works on runes, is in [GoUnicode]. *)

From S2P Require Import Prelude.
From stdpp Require Import pretty.

(** ** [strings] *)

(** [split_from sep skip cur s]: [cur] is the piece under construction, [skip] the number of
    bytes of a separator still to be passed over. *)
Fixpoint split_from (sep : string) (skip : nat) (cur : string) (s : string) : list string :=
  match s with
  | EmptyString => [cur]
  | String c s' =>
      match skip with
      | S k => split_from sep k cur s'
      | 0 =>
          if String.prefix sep s
          then cur :: split_from sep (String.length sep - 1) "" s'
          else split_from sep 0 (cur +:+ String c "") s'
      end
  end.

(** [strings.Split(s, sep)] for a non-empty [sep]. *)
Definition Split (s sep : string) : list string := split_from sep 0 "" s.

Fixpoint remove_from (old : string) (skip : nat) (s : string) : string :=
  match s with
  | EmptyString => EmptyString
  | String c s' =>
      match skip with
      | S k => remove_from old k s'
      | 0 =>
          if String.prefix old s
          then remove_from old (String.length old - 1) s'
          else String c (remove_from old 0 s')
      end
  end.

(** [strings.Replace(s, old, "", -1)] for a non-empty [old]. *)
Definition RemoveAll (s old : string) : string := remove_from old 0 s.

(** [strings.Join(l, sep)]. *)
Fixpoint Join_strings (l : list string) (sep : string) : string :=
  match l with
  | [] => ""
  | [s] => s
  | s :: l => s +:+ sep +:+ Join_strings l sep
  end.

(** ** [filepath.Match] for patterns made of literal bytes and [*] *)

Definition star : Ascii.ascii := Ascii.ascii_of_nat 42.
Definition slash : Ascii.ascii := Ascii.ascii_of_nat 47.

(** [*] stands for any sequence of bytes other than [/]. *)
Fixpoint match_pattern (p s : string) : bool :=
  match p with
  | EmptyString => match s with EmptyString => true | _ => false end
  | String a p' =>
      if bool_decide (a = star) then
        (fix go (s : string) : bool :=
           match_pattern p' s ||
           match s with
           | EmptyString => false
           | String c s' => negb (bool_decide (c = slash)) && go s'
           end) s
      else
        match s with
        | EmptyString => false
        | String c s' => bool_decide (a = c) && match_pattern p' s'
        end
  end.

(** ** Files *)

(** The working directory: contents by name. *)
Abbreviation FS := (gmap string string) (only parsing).

(** [filepath.Glob]: the names that match, sorted. *)
Definition Glob (fs : FS) (pattern : string) : list string :=
  sort_Strings (filter (fun f => match_pattern pattern f = true) (elements (dom fs))).

(** [os.Remove]: [None] for the error of a file that does not exist. *)
Definition Remove (fs : FS) (f : string) : option FS :=
  match fs !! f with Some _ => Some (delete f fs) | None => None end.

(** [os.Rename] replaces its destination. *)
Definition Rename (fs : FS) (f f' : string) : option FS :=
  match fs !! f with Some c => Some (<[f' := c]> (delete f fs)) | None => None end.

(** [os.OpenFile] with [O_APPEND|O_WRONLY|O_CREATE], a write and a close. *)
Definition Append (fs : FS) (f : string) (text : string) : FS :=
  <[f := default "" (fs !! f) +:+ text]> fs.

(** ** Examples *)

Example Split_ex : Split "m-out-3-7" "-" = ["m"; "out"; "3"; "7"].
Proof. reflexivity. Qed.

Example Split_ex2 : Split "a:::b::::c" ":::" = ["a"; "b"; ":c"].
Proof. reflexivity. Qed.

Example RemoveAll_ex : RemoveAll "tempm-out-3-7" "temp" = "m-out-3-7".
Proof. reflexivity. Qed.

Example match_ex :
  match_pattern "m-out-*-*" "m-out-3-7" = true /\
  match_pattern "m-out-*-*" "tempm-out-3-7" = false /\
  match_pattern "m-out*" "m-out-3-7" = true.
Proof. vm_compute. auto. Qed.

(** ** Lemmas *)

Lemma elem_of_Glob fs p f : f ∈ Glob fs p <-> is_Some (fs !! f) /\ match_pattern p f = true.
Proof.
  unfold Glob. rewrite sort_Strings_perm, list_elem_of_filter, elem_of_elements, elem_of_dom.
  naive_solver.
Qed.

Lemma NoDup_Glob fs p : NoDup (Glob fs p).
Proof. unfold Glob. rewrite sort_Strings_perm. apply NoDup_filter, NoDup_elements. Qed.

(** Occurrences of a byte. *)
Fixpoint count_char (c : Ascii.ascii) (s : string) : nat :=
  match s with
  | EmptyString => 0
  | String a s => (if bool_decide (a = c) then 1 else 0) + count_char c s
  end.

(** Splitting at a byte gives one piece more than there are occurrences of it. *)
Lemma length_Split_char c s :
  length (Split s (String c "")) = S (count_char c s).
Proof.
  unfold Split. generalize "" at 2. induction s as [|a s IH]; intros cur; [done|].
  cbn [split_from count_char String.prefix String.length].
  destruct (Ascii.ascii_dec c a) as [->|Hne].
  - rewrite bool_decide_eq_true_2 by done. replace (String.prefix "" s) with true by by destruct s.
    simpl. by rewrite IH.
  - rewrite bool_decide_eq_false_2 by congruence. by rewrite IH.
Qed.

(** A name that matches has the literal bytes of the pattern. *)
Lemma match_pattern_count c p s :
  c ≠ star -> match_pattern p s = true -> count_char c p <= count_char c s.
Proof.
  intros Hc. revert s. induction p as [|a p IH]; intros s; [simpl; lia|].
  cbn [match_pattern count_char]. case_bool_decide as Ha.
  - rewrite bool_decide_eq_false_2 by congruence. induction s as [|b s IHs].
    + rewrite orb_false_r. apply IH.
    + intros [H|[_ H]%andb_true_iff]%orb_true_iff; [by apply IH|].
      specialize (IHs H). simpl in *. lia.
  - destruct s as [|b s]; [done|]. intros [<-%bool_decide_eq_true_1 H]%andb_true_iff.
    apply IH in H. simpl. lia.
Qed.

Lemma append_cons c (s t : string) : String c s +:+ t = String c (s +:+ t).
Proof. reflexivity. Qed.

Lemma append_assoc (s t u : string) : (s +:+ t) +:+ u = s +:+ (t +:+ u).
Proof. induction s as [|c s IH]; [done|]. by rewrite !append_cons, IH. Qed.

Lemma append_nil_r (s : string) : s +:+ "" = s.
Proof. induction s as [|c s IH]; [done|]. by rewrite !append_cons, IH. Qed.

Lemma count_char_app c s t : count_char c (s +:+ t) = count_char c s + count_char c t.
Proof. induction s as [|a s IH]; [done|]. rewrite append_cons. cbn [count_char]. rewrite IH. lia. Qed.

Lemma prefix_app s t : String.prefix s (s +:+ t) = true.
Proof.
  induction s as [|c s IH]; [by destruct t|]. rewrite append_cons.
  cbn [String.prefix]. by destruct (Ascii.ascii_dec c c).
Qed.

(** ** Matching *)

(** Patterns that start with literal bytes. *)
Lemma match_literal lit p s :
  count_char star lit = 0 -> match_pattern (lit +:+ p) (lit +:+ s) = match_pattern p s.
Proof.
  induction lit as [|c lit IH]; [done|]. rewrite !append_cons. cbn [count_char match_pattern].
  case_bool_decide as Hc; [lia|]. intros H. rewrite bool_decide_eq_true_2 by done. by apply IH.
Qed.

Lemma match_prefix lit p s :
  count_char star lit = 0 -> match_pattern (lit +:+ p) s = true -> String.prefix lit s = true.
Proof.
  revert s. induction lit as [|c lit IH]; intros s; [by destruct s|]. rewrite append_cons.
  cbn [count_char match_pattern]. case_bool_decide as Hc; [lia|]. intros H.
  destruct s as [|a s]; [done|]. intros [<-%bool_decide_eq_true_1 Hm]%andb_true_iff.
  cbn [String.prefix]. destruct (Ascii.ascii_dec c c); [by apply IH|done].
Qed.

Lemma match_star p a s :
  count_char slash a = 0 -> match_pattern p s = true -> match_pattern (String star p) (a +:+ s) = true.
Proof.
  intros Ha Hm. cbn [match_pattern]. rewrite bool_decide_eq_true_2 by done.
  induction a as [|c a IH].
  - change ("" +:+ s) with s. destruct s; by rewrite Hm.
  - rewrite append_cons. cbn [count_char] in Ha. case_bool_decide as Hc; [lia|].
    simpl. rewrite IH by done. by rewrite orb_true_r.
Qed.

(** ** Splitting at a separator *)

(** Bytes other than the first one of the separator go to the piece. *)
Lemma split_from_piece c sep cur s t :
  count_char c s = 0 ->
  split_from (String c sep) 0 cur (s +:+ t) = split_from (String c sep) 0 (cur +:+ s) t.
Proof.
  revert cur. induction s as [|a s IH]; intros cur H; [by rewrite append_nil_r|].
  cbn [count_char] in H. case_bool_decide as Ha; [lia|].
  rewrite append_cons. cbn [split_from String.prefix].
  destruct (Ascii.ascii_dec c a) as [->|_]; [done|].
  rewrite IH by lia. by rewrite append_assoc, append_cons.
Qed.

Lemma split_from_skip sep cur s t :
  split_from sep (String.length s) cur (s +:+ t) = split_from sep 0 cur t.
Proof. induction s as [|a s IH]; [done|]. exact IH. Qed.

Lemma Split_first c sep s t :
  count_char c s = 0 ->
  Split (s +:+ String c sep +:+ t) (String c sep) = s :: Split t (String c sep).
Proof.
  intros H. unfold Split. rewrite split_from_piece by done.
  change ("" +:+ s) with s. rewrite append_cons. cbn [split_from].
  rewrite <- append_cons. rewrite prefix_app.
  replace (String.length (String c sep) - 1) with (String.length sep) by (simpl; lia).
  by rewrite split_from_skip.
Qed.

Lemma Split_single c sep s : count_char c s = 0 -> Split s (String c sep) = [s].
Proof.
  intros H. unfold Split. rewrite <- (append_nil_r s) at 1. by rewrite split_from_piece.
Qed.

(** ** Numbers *)

Definition dash : Ascii.ascii := Ascii.ascii_of_nat 45.

(** Numbers are written with digits. *)
Lemma pretty_N_go_chars c x s :
  (forall d, (d < 10)%N -> pretty_N_char d ≠ c) -> count_char c s = 0 ->
  count_char c (pretty_N_go x s) = 0.
Proof.
  intros Hc. revert s. induction (N.lt_wf_0 x) as [x _ IH]; intros s Hs.
  assert (x = 0 \/ 0 < x)%N as [->|Hx] by lia; [by rewrite pretty_N_go_0|].
  rewrite pretty_N_go_step by done. apply IH; [by apply N.div_lt|].
  simpl. rewrite bool_decide_eq_false_2; [done|]. apply Hc. by apply N.mod_lt.
Qed.

Lemma pretty_chars c (z : Z) :
  (0 <= z)%Z -> (forall d, (d < 10)%N -> pretty_N_char d ≠ c) -> count_char c (pretty z) = 0.
Proof.
  intros Hz Hc. destruct z as [|p|p]; [| |lia].
  - change (pretty 0%Z) with "0". simpl. rewrite bool_decide_eq_false_2; [done|].
    apply (Hc 0%N). done.
  - change (pretty (Z.pos p)) with (pretty (N.pos p)). unfold pretty, pretty_N.
    by apply pretty_N_go_chars.
Qed.

Lemma not_digit c :
  (forall n, n < 10 -> Ascii.ascii_of_nat (48 + n) ≠ c) ->
  forall d, (d < 10)%N -> pretty_N_char d ≠ c.
Proof.
  intros H d Hd. unfold pretty_N_char.
  repeat case_match; (apply (H 0) || apply (H 1) || apply (H 2) || apply (H 3) || apply (H 4)
    || apply (H 5) || apply (H 6) || apply (H 7) || apply (H 8) || apply (H 9)); lia.
Qed.

Lemma pretty_no_dash (z : Z) : (0 <= z)%Z -> count_char dash (pretty z) = 0.
Proof.
  intros Hz. apply pretty_chars; [done|]. apply not_digit.
  intros n Hn. do 10 (destruct n as [|n]; [done|]). lia.
Qed.

Lemma pretty_nat_no_dash (n : nat) : count_char dash (pretty n) = 0.
Proof.
  assert (pretty n = pretty (Z.of_nat n)) as -> by by destruct n.
  apply pretty_no_dash. lia.
Qed.

(** A string is cut at its last [c] in one way only. *)
Lemma append_last c s t s' t' :
  count_char c t = 0 -> count_char c t' = 0 -> s +:+ String c t = s' +:+ String c t' ->
  s = s' /\ t = t'.
Proof.
  revert s'. induction s as [|a s IH]; intros [|a' s'] Ht Ht' E; rewrite ?append_cons in E.
  - by injection E.
  - injection E as <- ->. rewrite count_char_app in Ht. simpl in Ht.
    rewrite bool_decide_eq_true_2 in Ht by done. lia.
  - injection E as -> <-. rewrite count_char_app in Ht'. simpl in Ht'.
    rewrite bool_decide_eq_true_2 in Ht' by done. lia.
  - injection E as -> E. by destruct (IH s' Ht Ht' E) as [-> ->].
Qed.
