(* ===== verification/GoUnicode.v ===== *)
(** * Runes: [unicode/utf8], [unicode], [strings.FieldsFunc] and [strings.TrimSpace]

    What the sources use of Go's Unicode packages.  Strings are byte strings; a rune is decoded
    with the tables of [utf8.DecodeRuneInString], where a byte that starts no valid encoding is
    [RuneError] of width 1.  [unicode.IsSpace] is written out.  [unicode.IsLetter] and
    [unicode.IsUpper] are written out for ASCII; above it they are the tables of the Unicode
    standard, an argument, in which white space is no letter. *)

From S2P Require Import Prelude GoStrings.

Definition byte (c : Ascii.ascii) : Z := Z.of_N (Ascii.N_of_ascii c).

Definition RuneError : Z := 65533.

Definition in_range (lo x hi : Z) : bool := bool_decide (lo <= x <= hi)%Z.

(** The width and the range of the second byte for a first byte of 128 or more; [None] for a byte
    that starts no encoding. *)
Definition first_byte (b : Z) : option (nat * Z * Z) :=
  if in_range 194 b 223 then Some (2, 128%Z, 191%Z)
  else if bool_decide (b = 224)%Z then Some (3, 160%Z, 191%Z)
  else if bool_decide (b = 237)%Z then Some (3, 128%Z, 159%Z)
  else if in_range 225 b 239 then Some (3, 128%Z, 191%Z)
  else if bool_decide (b = 240)%Z then Some (4, 144%Z, 191%Z)
  else if in_range 241 b 243 then Some (4, 128%Z, 191%Z)
  else if bool_decide (b = 244)%Z then Some (4, 128%Z, 143%Z)
  else None.

(** Six bits of a continuation byte. *)
Definition cont (r b : Z) : Z := Z.lor (Z.shiftl r 6) (Z.land b 63).

(** [utf8.DecodeRuneInString]: the rune and its width. *)
Definition DecodeRuneInString (s : string) : Z * nat :=
  match s with
  | EmptyString => (RuneError, 0)
  | String c0 s1 =>
      let b0 := byte c0 in
      if bool_decide (b0 < 128)%Z then (b0, 1)
      else
        match first_byte b0, s1 with
        | Some (n, lo, hi), String c1 s2 =>
            let b1 := byte c1 in
            if negb (in_range lo b1 hi) then (RuneError, 1)
            else if Nat.eqb n 2 then (cont (Z.land b0 31) b1, 2)
            else
              match s2 with
              | EmptyString => (RuneError, 1)
              | String c2 s3 =>
                  let b2 := byte c2 in
                  if negb (in_range 128 b2 191) then (RuneError, 1)
                  else if Nat.eqb n 3 then (cont (cont (Z.land b0 15) b1) b2, 3)
                  else
                    match s3 with
                    | EmptyString => (RuneError, 1)
                    | String c3 _ =>
                        let b3 := byte c3 in
                        if negb (in_range 128 b3 191) then (RuneError, 1)
                        else (cont (cont (cont (Z.land b0 7) b1) b2) b3, 4)
                    end
              end
        | _, _ => (RuneError, 1)
        end
  end.

(** [utf8.RuneStart]. *)
Definition RuneStart (c : Ascii.ascii) : bool := negb (bool_decide (Z.land (byte c) 192 = 128)%Z).

(** How many bytes [utf8.DecodeLastRuneInString] goes back, on the reversed bytes of a string whose last
    byte is not ASCII: to the nearest byte that starts a rune among the three before the last, otherwise
    five bytes, or to the beginning. *)
Definition last_width (rs : list Ascii.ascii) : nat :=
  match rs with
  | _ :: c2 :: rs2 =>
      if RuneStart c2 then 2
      else
        match rs2 with
        | c3 :: rs3 =>
            if RuneStart c3 then 3
            else
              match rs3 with
              | c4 :: rs4 => if RuneStart c4 then 4 else match rs4 with [] => 4 | _ => 5 end
              | [] => 3
              end
        | [] => 2
        end
  | _ => length rs
  end.

(** [utf8.DecodeLastRuneInString], on the reversed bytes. *)
Definition DecodeLastRune (rs : list Ascii.ascii) : Z * nat :=
  match rs with
  | [] => (RuneError, 0)
  | c :: _ =>
      if bool_decide (byte c < 128)%Z then (byte c, 1)
      else
        let n := last_width rs in
        let '(r, size) := DecodeRuneInString (String.string_of_list_ascii (reverse (take n rs))) in
        if Nat.eqb size n then (r, size) else (RuneError, 1)
  end.

(** [unicode.IsSpace]: Latin-1, then the other characters with the property White_Space. *)
Definition IsSpace (r : Z) : bool :=
  if bool_decide (r <= 255)%Z then in_range 9 r 13 || bool_decide (r ∈ [32; 133; 160])%Z
  else in_range 8192 r 8202 || bool_decide (r ∈ [5760; 8232; 8233; 8239; 8287; 12288])%Z.

(** [strings.TrimLeftFunc(s, unicode.IsSpace)]; [skip] bytes of a rune are still to be dropped. *)
Fixpoint trim_left_from (skip : nat) (s : string) : string :=
  match s with
  | EmptyString => EmptyString
  | String c s' =>
      match skip with
      | S k => trim_left_from k s'
      | 0 =>
          let '(r, w) := DecodeRuneInString s in
          if IsSpace r then trim_left_from (w - 1) s' else s
      end
  end.
Definition TrimLeft (s : string) : string := trim_left_from 0 s.

(** [strings.TrimRightFunc(s, unicode.IsSpace)], on the reversed bytes. *)
Fixpoint trim_right_from (skip : nat) (rs : list Ascii.ascii) : list Ascii.ascii :=
  match rs with
  | [] => []
  | c :: rs' =>
      match skip with
      | S k => trim_right_from k rs'
      | 0 =>
          let '(r, w) := DecodeLastRune rs in
          if IsSpace r then trim_right_from (w - 1) rs' else rs
      end
  end.
Definition TrimRight (s : string) : string :=
  String.string_of_list_ascii (reverse (trim_right_from 0 (reverse (String.list_ascii_of_string s)))).

Definition TrimSpace (s : string) : string := TrimRight (TrimLeft s).

Section Classes.
(** The Unicode tables above ASCII. *)
Context (table : Z -> bool).

Definition IsUpper (r : Z) : bool :=
  if bool_decide (r < 128)%Z then in_range 65 r 90 else table r.

Definition IsLetter (r : Z) : bool :=
  if bool_decide (r < 128)%Z then in_range 65 r 90 || in_range 97 r 122 else negb (IsSpace r) && table r.
End Classes.

(** The pieces of a string between the runes [f] holds of; [cur] is the piece under
    construction, [skip] the number of bytes of the current rune still to come, which belong to
    the piece when [inside]. *)
Fixpoint fields_from (f : Z -> bool) (skip : nat) (inside : bool) (cur s : string) : list string :=
  match s with
  | EmptyString => if bool_decide (cur = "") then [] else [cur]
  | String c s' =>
      match skip with
      | S k => fields_from f k inside (if inside then cur +:+ String c "" else cur) s'
      | 0 =>
          let '(r, w) := DecodeRuneInString s in
          if f r then
            (if bool_decide (cur = "") then [] else [cur]) ++ fields_from f (w - 1) false "" s'
          else fields_from f (w - 1) true (cur +:+ String c "") s'
      end
  end.

(** [strings.FieldsFunc(s, f)]. *)
Definition FieldsFunc (s : string) (f : Z -> bool) : list string := fields_from f 0 false "" s.

(** ** Examples *)

Definition chr (n : nat) (s : string) : string := String (Ascii.ascii_of_nat n) s.

(** A two-byte, a three-byte and a four-byte rune, a surrogate and a truncated rune. *)
Example Decode_ex :
  DecodeRuneInString (chr 195 (chr 169 "x")) = (233%Z, 2) /\
  DecodeRuneInString (chr 226 (chr 130 (chr 172 ""))) = (8364%Z, 3) /\
  DecodeRuneInString (chr 240 (chr 159 (chr 152 (chr 128 "")))) = (128512%Z, 4) /\
  DecodeRuneInString (chr 237 (chr 160 (chr 128 ""))) = (RuneError, 1) /\
  DecodeRuneInString (chr 226 (chr 130 "")) = (RuneError, 1).
Proof. vm_compute. auto. Qed.

(** White space of one, two and three bytes, and a byte that ends no rune. *)
Example TrimSpace_ex :
  TrimSpace "  a b  " = "a b" /\
  TrimSpace (chr 194 (chr 160 (chr 226 (chr 128 (chr 131 ("a" +:+ chr 194 (chr 133 ""))))))) = "a" /\
  TrimSpace ("a" +:+ chr 160 " ") = "a" +:+ chr 160 "".
Proof. vm_compute. auto. Qed.

Example FieldsFunc_ex :
  FieldsFunc "It's  a dog." (fun r => negb (IsLetter (fun _ => false) r)) = ["It"; "s"; "a"; "dog"].
Proof. vm_compute. reflexivity. Qed.

(** ** Lemmas *)

Lemma byte_range c : (0 <= byte c < 256)%Z.
Proof.
  unfold byte. destruct c as [b0 b1 b2 b3 b4 b5 b6 b7].
  destruct b0, b1, b2, b3, b4, b5, b6, b7; vm_compute; split; congruence.
Qed.

(** The first [w] bytes of a string are not ASCII. *)
Fixpoint high (w : nat) (s : string) : Prop :=
  match w, s with
  | S w, String c s => (128 <= byte c)%Z /\ high w s
  | _, _ => True
  end.

Lemma decode_ascii c s : (byte c < 128)%Z -> DecodeRuneInString (String c s) = (byte c, 1).
Proof. intros H. simpl. by rewrite bool_decide_eq_true_2. Qed.

(** The rune of a first byte that is not ASCII has no ASCII byte. *)
Lemma decode_high c s :
  (128 <= byte c)%Z -> high (DecodeRuneInString (String c s)).2 (String c s).
Proof.
  intros H. unfold DecodeRuneInString. rewrite bool_decide_eq_false_2 by lia.
  destruct (first_byte (byte c)) as [[[n lo] hi]|] eqn:Ef; [|by destruct s].
  assert (128 <= lo)%Z as Hlo.
  { unfold first_byte in Ef. repeat case_match; simplify_eq; lia. }
  repeat case_match; simplify_eq/=; unfold in_range in *;
    repeat match goal with
    | H : negb (bool_decide _) = false |- _ => apply negb_false_iff, bool_decide_eq_true_1 in H
    end; repeat split; lia.
Qed.

Lemma decode_width s : s ≠ "" -> 1 <= (DecodeRuneInString s).2.
Proof.
  intros Hs. destruct s as [|c s]; [done|]. unfold DecodeRuneInString.
  repeat case_match; simplify_eq/=; lia.
Qed.

(** ** Trimming *)

(** The first rune of a string is that of a longer string, unless it is cut off. *)
Lemma decode_prefix s t :
  s ≠ "" -> DecodeRuneInString s = DecodeRuneInString (s +:+ t) \/ DecodeRuneInString s = (RuneError, 1).
Proof.
  intros Hs. destruct s as [|c0 [|c1 [|c2 [|c3 s]]]]; [done|..]; rewrite ?append_cons; simpl.
  all: repeat case_match; simplify_eq; auto.
Qed.

(** An ASCII byte after a string cuts its first rune off as the end does. *)
Lemma decode_ascii_after s c t :
  s ≠ "" -> (byte c < 128)%Z -> DecodeRuneInString (s +:+ String c t) = DecodeRuneInString s.
Proof.
  intros Hs Hc. assert (forall lo hi, (128 <= lo)%Z -> in_range lo (byte c) hi = false) as Hr
    by (intros lo hi Hlo; apply bool_decide_eq_false_2; lia).
  assert (forall b n lo hi, first_byte b = Some (n, lo, hi) -> (128 <= lo)%Z) as Hlo.
  { intros b n lo hi Hb. unfold first_byte in Hb. repeat case_match; simplify_eq; lia. }
  destruct s as [|c0 [|c1 [|c2 [|c3 s]]]]; [done|..]; rewrite ?append_cons; change ("" +:+ String c t) with (String c t);
    cbn [DecodeRuneInString]; (destruct (bool_decide (byte c0 < 128)%Z); [done|]);
    (destruct (first_byte (byte c0)) as [[[n lo] hi]|] eqn:Ef; [|done]).
  - by rewrite Hr by by eapply Hlo.
  - destruct (in_range lo (byte c1) hi); [|done]. simpl. destruct n as [|[|[|n]]]; try done; by rewrite Hr by lia.
  - destruct (in_range lo (byte c1) hi); [|done]. simpl. destruct n as [|[|[|n]]]; try done; simpl;
      (destruct (in_range 128 (byte c2) 191); [|done]); simpl; try done; rewrite ?Hr by lia; by repeat case_match.
  - done.
Qed.

Definition first_rune (s : string) : Z := (DecodeRuneInString s).1.

Lemma trim_left_from_length k s : String.length (trim_left_from k s) <= String.length s.
Proof.
  revert k. induction s as [|c s IH]; intros k; [done|]. cbn [trim_left_from].
  destruct k; [|simpl; etrans; [apply IH|lia]]. destruct (DecodeRuneInString _) as [r w].
  destruct (IsSpace r); [simpl; etrans; [apply IH|lia]|done].
Qed.

Lemma TrimLeft_first s : TrimLeft s = s <-> s = "" \/ IsSpace (first_rune s) = false.
Proof.
  unfold TrimLeft, first_rune. destruct s as [|c s]; [naive_solver|]. cbn [trim_left_from].
  destruct (DecodeRuneInString (String c s)) as [r w]. cbn [fst]. destruct (IsSpace r); [|naive_solver].
  split; [|naive_solver]. intros E. pose proof (trim_left_from_length (w - 1) s) as Hl.
  rewrite E in Hl. simpl in Hl. lia.
Qed.

Lemma trim_right_from_length k rs : length (trim_right_from k rs) <= length rs.
Proof.
  revert k. induction rs as [|c rs IH]; intros k; [done|]. cbn [trim_right_from].
  destruct k; [|simpl; etrans; [apply IH|lia]]. destruct (DecodeLastRune _) as [r w].
  destruct (IsSpace r); [simpl; etrans; [apply IH|lia]|done].
Qed.

Lemma trim_right_last rs : trim_right_from 0 rs = rs <-> rs = [] \/ IsSpace (DecodeLastRune rs).1 = false.
Proof.
  destruct rs as [|c rs]; [naive_solver|]. cbn [trim_right_from].
  destruct (DecodeLastRune (c :: rs)) as [r w]. cbn [fst]. destruct (IsSpace r); [|naive_solver].
  split; [|naive_solver]. intros E. pose proof (trim_right_from_length (w - 1) rs) as Hl.
  rewrite E in Hl. simpl in Hl. lia.
Qed.

Lemma ascii_start c : (byte c < 128)%Z -> RuneStart c = true.
Proof. destruct c as [[] [] [] [] [] [] [] []]; vm_compute; congruence. Qed.

Lemma not_start_invalid c s : RuneStart c = false -> (DecodeRuneInString (String c s)) = (RuneError, 1).
Proof.
  intros H. assert ((128 <= byte c)%Z /\ first_byte (byte c) = None) as [Hb Hf].
  { revert H. destruct c as [[] [] [] [] [] [] [] []]; vm_compute; intuition congruence. }
  simpl. rewrite bool_decide_eq_false_2 by lia. by rewrite Hf.
Qed.

(** An ASCII byte before a string cuts its last rune off as the beginning does. *)
Lemma last_ascii_before rs c rest :
  rs ≠ [] -> (byte c < 128)%Z -> DecodeLastRune (rs ++ c :: rest) = DecodeLastRune rs.
Proof.
  intros Hrs Hc. pose proof (ascii_start c Hc) as Hst. pose proof (fun s => decode_ascii c s Hc) as Hd.
  destruct rs as [|a [|b [|d [|e rs]]]]; [done|..]; cbn [app DecodeLastRune];
    (case_bool_decide as Ha; [done|]); cbn [last_width length]; rewrite ?Hst.
  - unfold reverse. cbn [take rev_append String.string_of_list_ascii]. rewrite ?take_0.
    cbn [rev_append String.string_of_list_ascii]. rewrite Hd. simpl. rewrite bool_decide_eq_false_2 by done. by destruct (first_byte (byte a)) as [[[? ?] ?]|].
  - destruct (RuneStart b) eqn:Eb; [done|]. unfold reverse. cbn [take rev_append String.string_of_list_ascii]. rewrite ?take_0.
    cbn [rev_append String.string_of_list_ascii]. rewrite Hd, (not_start_invalid b) by done. done.
  - destruct (RuneStart b) eqn:Eb; [done|]. destruct (RuneStart d) eqn:Ed; [done|]. unfold reverse.
    cbn [take rev_append String.string_of_list_ascii]. rewrite ?take_0. cbn [rev_append String.string_of_list_ascii].
    rewrite Hd, (not_start_invalid d) by done. done.
  - destruct (RuneStart b) eqn:Eb; [done|]. destruct (RuneStart d) eqn:Ed; [done|].
    destruct (RuneStart e) eqn:Ee; [done|]. unfold reverse. destruct rs as [|f rs]; [|done].
    cbn [app take rev_append String.string_of_list_ascii]. rewrite ?take_0. cbn [rev_append String.string_of_list_ascii].
    rewrite Hd, (not_start_invalid e) by done. done.
Qed.

Lemma TrimRight_last s :
  TrimRight s = s <-> trim_right_from 0 (reverse (String.list_ascii_of_string s))
                      = reverse (String.list_ascii_of_string s).
Proof.
  unfold TrimRight. split; intros E.
  - apply (f_equal String.list_ascii_of_string) in E. rewrite String.list_ascii_of_string_of_list_ascii in E.
    apply (f_equal reverse) in E. by rewrite reverse_involutive in E.
  - by rewrite E, reverse_involutive, String.string_of_list_ascii_of_string.
Qed.

Lemma list_ascii_app s t :
  String.list_ascii_of_string (s +:+ t) = String.list_ascii_of_string s ++ String.list_ascii_of_string t.
Proof. induction s as [|c s IH]; [done|]. rewrite append_cons. simpl. by rewrite IH. Qed.

(** A separator of ASCII bytes that are not white space protects what is around it. *)
Lemma TrimSpace_sep s c sep c' t :
  TrimLeft s = s -> TrimRight t = t -> (byte c < 128)%Z -> IsSpace (byte c) = false ->
  (byte c' < 128)%Z -> IsSpace (byte c') = false ->
  TrimSpace (s +:+ String c (sep +:+ String c' t)) = s +:+ String c (sep +:+ String c' t).
Proof.
  intros Hs Ht Hc Hsp Hc' Hsp'. unfold TrimSpace.
  assert (TrimLeft (s +:+ String c (sep +:+ String c' t)) = s +:+ String c (sep +:+ String c' t)) as ->.
  { apply TrimLeft_first. right. unfold first_rune. apply TrimLeft_first in Hs as [->|Hs].
    - change ("" +:+ ?x) with x. by rewrite decode_ascii.
    - destruct (decide (s = "")) as [->|Hne]; [|by rewrite decode_ascii_after].
      change ("" +:+ ?x) with x. by rewrite decode_ascii. }
  apply TrimRight_last, trim_right_last. right. rewrite list_ascii_app. cbn [String.list_ascii_of_string].
  rewrite list_ascii_app. cbn [String.list_ascii_of_string].
  rewrite app_comm_cons, app_assoc, reverse_app, reverse_cons, <- app_assoc. cbn [app].
  apply TrimRight_last, trim_right_last in Ht as [Ht|Ht].
  - rewrite Ht. cbn [app DecodeLastRune]. by rewrite bool_decide_eq_true_2.
  - destruct (decide (reverse (String.list_ascii_of_string t) = [])) as [E|E].
    + rewrite E. cbn [app DecodeLastRune]. by rewrite bool_decide_eq_true_2.
    + by rewrite last_ascii_before.
Qed.

(** ** Words *)

(** Bytes of letters: ASCII letters, and the bytes of other runes. *)
Definition letter_byte (b : Z) : bool :=
  in_range 65 b 90 || in_range 97 b 122 || bool_decide (128 <= b)%Z.

Fixpoint all_bytes (P : Z -> bool) (s : string) : bool :=
  match s with
  | EmptyString => true
  | String c s => P (byte c) && all_bytes P s
  end.

Lemma all_bytes_app P s t : all_bytes P (s +:+ t) = all_bytes P s && all_bytes P t.
Proof.
  induction s as [|c s IH]; [done|]. rewrite append_cons. simpl. by rewrite IH, andb_assoc.
Qed.

(** A byte that is not among them does not occur. *)
Lemma all_bytes_count P c s : P (byte c) = false -> all_bytes P s = true -> count_char c s = 0.
Proof.
  intros Hc. induction s as [|a s IH]; [done|]. simpl. intros [Ha Hs]%andb_true_iff.
  rewrite bool_decide_eq_false_2, IH by congruence. done.
Qed.

(** A word has such bytes and does not begin with white space. *)
Definition word_ok (w : string) : Prop := w ≠ "" /\ all_bytes letter_byte w = true /\ TrimLeft w = w.

Section Words.
Context (table : Z -> bool).
Definition not_letter (r : Z) : bool := negb (IsLetter table r).

(** The first byte of a rune that is a letter, and the bytes that follow. *)
Lemma letter_rune c s :
  not_letter (DecodeRuneInString (String c s)).1 = false ->
  letter_byte (byte c) = true /\ high ((DecodeRuneInString (String c s)).2 - 1) s.
Proof.
  intros Hf. unfold letter_byte. destruct (decide (byte c < 128)%Z) as [H|H].
  - rewrite decode_ascii in * by done. simpl in *. unfold not_letter, IsLetter in Hf.
    rewrite bool_decide_eq_true_2 in Hf by done. apply negb_false_iff in Hf. rewrite Hf. done.
  - rewrite (bool_decide_eq_true_2 (128 <= byte c)%Z) by lia. rewrite orb_true_r.
    split; [done|]. pose proof (decode_high c s ltac:(lia)) as Hh.
    pose proof (decode_width (String c s) ltac:(done)).
    destruct (DecodeRuneInString (String c s)) as [r [|w]]; simpl in *; [lia|].
    destruct Hh as [_ Hh]. by rewrite Nat.sub_0_r.
Qed.

(** A letter is not white space. *)
Lemma letter_not_space r : not_letter r = false -> IsSpace r = false.
Proof.
  unfold not_letter, IsLetter. intros Hf%negb_false_iff. case_bool_decide as Hr.
  - unfold in_range in Hf. unfold IsSpace, in_range. rewrite bool_decide_eq_true_2 by lia.
    apply orb_false_iff. split; apply bool_decide_eq_false_2; [|intros Hin; set_unfold in Hin];
      apply orb_true_iff in Hf as [Hf|Hf]; apply bool_decide_eq_true_1 in Hf; naive_solver lia.
  - apply andb_true_iff in Hf as [Hf _]. by apply negb_true_iff in Hf.
Qed.

(** A piece that begins with a rune that is not white space. *)
Definition begins (cur s : string) : Prop := cur = "" \/ IsSpace (first_rune (cur +:+ s)) = false.

Lemma begins_trim cur s : begins cur s -> TrimLeft cur = cur.
Proof.
  intros [->|H]; [done|]. apply TrimLeft_first. destruct (decide (cur = "")) as [|Hne]; [by left|right].
  unfold first_rune in *. by destruct (decode_prefix cur s Hne) as [->| ->].
Qed.

Lemma begins_snoc cur c s : cur ≠ "" -> begins cur (String c s) -> begins (cur +:+ String c "") s.
Proof. intros Hne [?|H]; [done|]. right. by rewrite append_assoc, append_cons. Qed.

Lemma word_intro cur s : all_bytes letter_byte cur = true -> begins cur s ->
  Forall word_ok (if bool_decide (cur = "") then [] else [cur]).
Proof.
  intros Hc Hb. case_bool_decide; repeat constructor; [done|done|by eapply begins_trim].
Qed.

Lemma fields_from_ok s skip inside cur :
  all_bytes letter_byte cur = true -> begins cur s -> (inside = true -> cur ≠ "" /\ high skip s) ->
  (inside = false -> cur = "") ->
  Forall word_ok (fields_from not_letter skip inside cur s).
Proof.
  revert skip inside cur. induction s as [|c s IH]; intros skip inside cur Hcur Hb Hin Hout.
  - by eapply word_intro.
  - destruct skip as [|k].
    + cbn [fields_from]. destruct (DecodeRuneInString (String c s)) as [r w] eqn:Ed.
      destruct (not_letter r) eqn:Ef.
      * apply Forall_app. split; [by eapply word_intro|]. apply IH; [done|by left|done|done].
      * pose proof (letter_rune c s) as Hl. rewrite Ed in Hl. destruct (Hl Ef) as [Hc Hw].
        assert (cur +:+ String c "" ≠ "") as Hne by by destruct cur.
        apply IH; [|..|done|done].
        -- rewrite all_bytes_app, Hcur. simpl. by rewrite Hc.
        -- destruct (decide (cur = "")) as [->|Hcn]; [|by apply begins_snoc].
           right. unfold first_rune. change (("" +:+ String c "") +:+ s) with (String c s). rewrite Ed.
           by apply letter_not_space.
    + simpl. destruct inside.
      * destruct (Hin eq_refl) as [Hcn [Hc Hh]]. apply IH; [|by apply begins_snoc|split; [by destruct cur|done]|done].
        rewrite all_bytes_app, Hcur. simpl. unfold letter_byte.
        rewrite (bool_decide_eq_true_2 (128 <= byte c)%Z) by done. by rewrite orb_true_r.
      * rewrite (Hout eq_refl). apply IH; [done|by left|done|done].
Qed.

Lemma FieldsFunc_ok s : Forall word_ok (FieldsFunc s not_letter).
Proof. apply fields_from_ok; [done|by left|done|done]. Qed.
End Words.

(** Words have no white space and no colon. *)
Lemma word_count c w :
  letter_byte (byte c) = false -> word_ok w -> count_char c w = 0.
Proof. intros Hc (_ & Hw & _). by eapply all_bytes_count. Qed.
