(* ===== verification/MrCoordinator.v ===== *)
(** * The MapReduce coordinator

    Model of [src/src/mr/coordinator.go] with the request types of [src/src/mr/rpc.go].  Each
    RPC handler and [Done] holds the coordinator's mutex and is one function of the state;
    [Heartbeat] takes no lock in the source and is modelled as one step all the same.  The
    working directory is a [FS]; the clock and the visit order of Go maps are arguments. *)

From S2P Require Import Prelude GoStrings.

(** ** Data *)

Inductive taskStatus :=
| taskStatusIdle
| taskStatusInProgress
| taskStatusCompleted
| taskStatusTimedOut
| taskStatusFailed.
#[export] Instance taskStatus_eq_dec : EqDecision taskStatus.
Proof. solve_decision. Defined.

Inductive TaskType :=
| TaskTypeMap
| TaskTypeReduce
| TaskTypeNoTask
| TaskTypeShutdown.
#[export] Instance TaskType_eq_dec : EqDecision TaskType.
Proof. solve_decision. Defined.

Inductive phase :=
| phaseMap
| phaseReduce
| phaseShutdown.
#[export] Instance phase_eq_dec : EqDecision phase.
Proof. solve_decision. Defined.

Record task := mktask {
  files : list string;
  status : taskStatus;
  startTime : Z;
  taskType : TaskType
}.

Record worker := mkworker {
  worker_taskId : Z;
  isRunning : bool
}.

Record Coordinator := mkCoordinator {
  tasks : list task;
  workers : list worker;
  numMapTasks : Z;
  numReduceTasks : Z;
  c_phase : phase;
  timeoutSecs : Z;
  c_nReduce : Z
}.

Record GetTaskRes := mkGetTaskRes {
  res_Files : list string;
  res_NReduce : Z;
  res_TaskType : TaskType;
  res_TaskId : Z
}.

Record TaskDoneReq := mkTaskDoneReq {
  req_WorkerId : Z;
  req_TaskId : Z;
  req_FilesCreated : list string
}.

(** ** Updates of single fields *)

Definition set_status (st : taskStatus) (t : task) : task :=
  mktask (files t) st (startTime t) (taskType t).

Definition set_tasks (c : Coordinator) (ts : list task) : Coordinator :=
  mkCoordinator ts (workers c) (numMapTasks c) (numReduceTasks c) (c_phase c) (timeoutSecs c)
    (c_nReduce c).

Definition set_workers (c : Coordinator) (ws : list worker) : Coordinator :=
  mkCoordinator (tasks c) ws (numMapTasks c) (numReduceTasks c) (c_phase c) (timeoutSecs c)
    (c_nReduce c).

Definition set_counts (c : Coordinator) (nm nr : Z) (p : phase) : Coordinator :=
  mkCoordinator (tasks c) (workers c) nm nr p (timeoutSecs c) (c_nReduce c).

(** ** Operations *)

(** The zero status is [taskStatusIdle]. *)
Definition createMapTasks (fs : list string) : list task :=
  (fun f => mktask [f] taskStatusIdle 0 TaskTypeMap) <$> fs.

(** [c.server()] only starts listening. *)
Definition MakeCoordinator (fs : list string) (nReduce : Z) : Coordinator :=
  mkCoordinator (createMapTasks fs) [] (Z.of_nat (length fs)) 0 phaseMap 10 nReduce.

Definition RegisterWorker (c : Coordinator) : Coordinator * Z :=
  (set_workers c (workers c ++ [mkworker 0 true]), Z.of_nat (length (workers c))).

(** Index of the first idle task, and the task; [(0, nil)] when there is none. *)
Definition findIdleTask (c : Coordinator) : Z * option task :=
  match list_find (fun t => status t = taskStatusIdle) (tasks c) with
  | Some (i, t) => (Z.of_nat i, Some t)
  | None => (0%Z, None)
  end.

Definition set_worker_task (c : Coordinator) (w : Z) (id : Z) : go Coordinator :=
  let! wk := slice_get (workers c) w in
  Ok (set_workers c (<[Z.to_nat w := mkworker id (isRunning wk)]> (workers c))).

(** The result starts as the zero [GetTaskRes], whose type is [TaskTypeMap]. *)
Definition GetTask (c : Coordinator) (workerId : Z) (now : Z) : go (Coordinator * GetTaskRes) :=
  match findIdleTask c with
  | (id, None) =>
      let! c := set_worker_task c workerId id in
      Ok (c, mkGetTaskRes [] 0 TaskTypeNoTask 0)
  | (id, Some t) =>
      let t' := mktask (files t) taskStatusInProgress now (taskType t) in
      let c := set_tasks c (<[Z.to_nat id := t']> (tasks c)) in
      let! c := set_worker_task c workerId id in
      Ok (c, mkGetTaskRes (files t) (c_nReduce c) (taskType t) id)
  end.

(** Stops at the first rename that fails; the flag is the error. *)
Fixpoint renameTempFiles (fs : FS) (l : list string) : FS * bool :=
  match l with
  | [] => (fs, false)
  | f :: l =>
      match Rename fs f (RemoveAll f "temp") with
      | None => (fs, true)
      | Some fs' => renameTempFiles fs' l
      end
  end.

Fixpoint removeFiles (fs : FS) (l : list string) : FS * bool :=
  match l with
  | [] => (fs, false)
  | f :: l =>
      match Remove fs f with
      | None => (fs, true)
      | Some fs' => removeFiles fs' l
      end
  end.

(** [parts[3]]: the reducer id of [m-out-<task-id>-<reducer-id>]. *)
Definition reduceId (filename : string) : string :=
  default "" (Split filename "-" !! 3).

(** [order]: the visit of the map from reducer ids to file names. *)
Definition createReduceTasks (c : Coordinator) (fs : FS) (order : list string) : Coordinator :=
  let filenames := Glob fs "m-out-*-*" in
  let m := group_by reduceId id filenames ∅ in
  let new := (fun k => mktask (default [] (m !! k)) taskStatusIdle 0 TaskTypeReduce) <$> order in
  mkCoordinator (tasks c ++ new) (workers c) (numMapTasks c)
    (numReduceTasks c + Z.of_nat (length order)) (c_phase c) (timeoutSecs c) (c_nReduce c).

(** The orders [createReduceTasks] may visit its map in. *)
Definition reduce_order (fs : FS) (order : list string) : Prop :=
  order ≡ₚ elements (dom (group_by reduceId id (Glob fs "m-out-*-*") ∅)).

(** The flag of the result is the returned error. *)
Definition TaskDone (c : Coordinator) (fs : FS) (req : TaskDoneReq) (order : list string) :
    go (Coordinator * FS * bool) :=
  let! t := slice_get (tasks c) (req_TaskId req) in
  if bool_decide (status t = taskStatusTimedOut) then
    let '(fs', err) := removeFiles fs (req_FilesCreated req) in
    Ok (c, fs', err)
  else
    let c := set_tasks c (<[Z.to_nat (req_TaskId req) := set_status taskStatusCompleted t]>
                            (tasks c)) in
    match taskType t with
    | TaskTypeMap =>
        let '(fs', err) := renameTempFiles fs (req_FilesCreated req) in
        if err : bool then Ok (c, fs', true)
        else
          let c := set_counts c (numMapTasks c - 1) (numReduceTasks c) (c_phase c) in
          if bool_decide (numMapTasks c = 0%Z) then
            let c := createReduceTasks c fs' order in
            Ok (set_counts c (numMapTasks c) (numReduceTasks c) phaseReduce, fs', false)
          else Ok (c, fs', false)
    | TaskTypeReduce =>
        let '(fs', err) := renameTempFiles fs (req_FilesCreated req) in
        if err : bool then Ok (c, fs', true)
        else
          let c := set_counts c (numMapTasks c) (numReduceTasks c - 1) (c_phase c) in
          if bool_decide (numReduceTasks c = 0%Z)
          then Ok (set_counts c (numMapTasks c) (numReduceTasks c) phaseShutdown, fs', false)
          else Ok (c, fs', false)
    | _ => Ok (c, fs, false)
    end.

(** A task is over its time at a reading of the clock. *)
Definition expired (c : Coordinator) (now : Z) (t : task) : bool :=
  bool_decide (status t = taskStatusInProgress) && bool_decide (startTime t + timeoutSecs c < now)%Z.

(** Body of the loop at index [i]; [now i] is the clock there. *)
Definition timeout_step (now : nat -> Z) (c : Coordinator) (it : nat * task) : Coordinator :=
  let '(i, t) := it in
  if expired c (now i) t then
    set_tasks c (<[i := set_status taskStatusTimedOut (default t (tasks c !! i))]> (tasks c)
                 ++ [mktask (files t) taskStatusIdle 0 (taskType t)])
  else c.

(** The loop ranges over the slice as it was at its start. *)
Definition timeoutTasks (c : Coordinator) (now : nat -> Z) : Coordinator :=
  foldl (timeout_step now) c (imap pair (tasks c)).

(** The error of [deleteFiles] is ignored by its caller. *)
Definition deleteFiles (fs : FS) (pattern : string) : FS * bool :=
  removeFiles fs (Glob fs pattern).

Definition unfinished (t : task) : bool :=
  bool_decide (status t = taskStatusIdle) || bool_decide (status t = taskStatusInProgress).

Definition Done (c : Coordinator) (fs : FS) (now : nat -> Z) : Coordinator * FS * bool :=
  let c := timeoutTasks c now in
  let finish := (c, (deleteFiles fs "m-out*").1, true) in
  match c_phase c with
  | phaseMap => (c, fs, false)
  | phaseReduce => if existsb unfinished (tasks c) then (c, fs, false) else finish
  | phaseShutdown => if existsb isRunning (workers c) then (c, fs, false) else finish
  end.

Definition Heartbeat (c : Coordinator) (workerId : Z) : go (Coordinator * bool) :=
  if bool_decide (c_phase c = phaseShutdown) then
    let! wk := slice_get (workers c) workerId in
    Ok (set_workers c (<[Z.to_nat workerId := mkworker (worker_taskId wk) false]> (workers c)), true)
  else Ok (c, false).

(** ** The system: a coordinator, its directory and its workers

    [pending] are the task ids handed out to workers that are still to report.  A worker reports
    a task it was given once, or crashes; it writes files at any time.  The workers of [up] send
    heartbeats. *)

Record sys := mksys {
  co : Coordinator;
  dir : FS;
  pending : list nat
}.

Inductive sys_step (up : Z -> Prop) : sys -> sys -> Prop :=
| sys_register s : sys_step up s (mksys (RegisterWorker (co s)).1 (dir s) (pending s))
| sys_get s w now c' r :
    GetTask (co s) w now = Ok (c', r) ->
    sys_step up s (mksys c' (dir s)
      (if bool_decide (res_TaskType r = TaskTypeNoTask) then pending s
       else Z.to_nat (res_TaskId r) :: pending s))
| sys_done s l1 id l2 req order c' fs' err :
    pending s = l1 ++ id :: l2 -> req_TaskId req = Z.of_nat id -> reduce_order fs' order ->
    TaskDone (co s) (dir s) req order = Ok (c', fs', err) ->
    sys_step up s (mksys c' fs' (l1 ++ l2))
| sys_crash s l1 id l2 :
    pending s = l1 ++ id :: l2 -> sys_step up s (mksys (co s) (dir s) (l1 ++ l2))
| sys_files s fs' : sys_step up s (mksys (co s) fs' (pending s))
| sys_tick s now c' fs' b :
    Done (co s) (dir s) now = (c', fs', b) -> sys_step up s (mksys c' fs' (pending s))
| sys_heartbeat s w c' b :
    up w -> Heartbeat (co s) w = Ok (c', b) -> sys_step up s (mksys c' (dir s) (pending s)).

Definition sys_start (input : list string) (nReduce : Z) (fs : FS) : sys :=
  mksys (MakeCoordinator input nReduce) fs [].

(** ** Invariant *)

(** Idle or running tasks of a type. *)
Definition active (ty : TaskType) (ts : list task) : nat :=
  countb (fun t => bool_decide (taskType t = ty) && unfinished t) ts.

(** The map task of input file [f], not yet given up. *)
Definition live_for (f : string) (t : task) : bool :=
  bool_decide (taskType t = TaskTypeMap) && bool_decide (files t = [f])
  && negb (bool_decide (status t = taskStatusTimedOut)).

Record inv (input : list string) (c : Coordinator) (pend : list nat) : Prop := {
  inv_types : forall i t, tasks c !! i = Some t ->
    taskType t = TaskTypeMap \/ (taskType t = TaskTypeReduce /\ c_phase c ≠ phaseMap);
  inv_nodup : NoDup pend;
  inv_pending : forall i, i ∈ pend -> exists t, tasks c !! i = Some t /\
    (status t = taskStatusInProgress \/ status t = taskStatusTimedOut);
  inv_map : c_phase c = phaseMap ->
    (Z.of_nat (active TaskTypeMap (tasks c)) <= numMapTasks c)%Z /\ numReduceTasks c = 0%Z;
  inv_reduce : c_phase c ≠ phaseMap ->
    active TaskTypeMap (tasks c) = 0 /\
    (Z.of_nat (active TaskTypeReduce (tasks c)) <= numReduceTasks c)%Z;
  inv_shutdown : c_phase c = phaseShutdown -> active TaskTypeReduce (tasks c) = 0;
  inv_live : forall f, countb (live_for f) (tasks c) = countb (fun g => bool_decide (g = f)) input
}.

(** ** Effect of single task updates on the counts *)

Lemma active_insert ty ts i t t' :
  ts !! i = Some t -> taskType t' = taskType t ->
  active ty (<[i := t']> ts) + (if bool_decide (taskType t = ty) && unfinished t then 1 else 0)
  = active ty ts + (if bool_decide (taskType t = ty) && unfinished t' then 1 else 0).
Proof.
  intros Hi Hty. unfold active.
  pose proof (countb_insert (fun t => bool_decide (taskType t = ty) && unfinished t) ts i t t' Hi)
    as H. simpl in H. by rewrite Hty in H.
Qed.

(** An update that keeps a task unfinished or finished keeps the counts. *)
Lemma active_insert_same ty ts i t t' :
  ts !! i = Some t -> taskType t' = taskType t -> unfinished t' = unfinished t ->
  active ty (<[i := t']> ts) = active ty ts.
Proof.
  intros Hi Hty Hu. pose proof (active_insert ty ts i t t' Hi Hty) as H. rewrite Hu in H.
  destruct (_ && _); lia.
Qed.

Lemma active_app ty ts ts' : active ty (ts ++ ts') = active ty ts + active ty ts'.
Proof. apply countb_app. Qed.

Lemma live_insert f ts i t t' :
  ts !! i = Some t -> live_for f t' = live_for f t ->
  countb (live_for f) (<[i := t']> ts) = countb (live_for f) ts.
Proof.
  intros Hi Hl. pose proof (countb_insert (live_for f) ts i t t' Hi) as H. rewrite Hl in H. lia.
Qed.

(** A task to which a task of its type was added is active. *)
Lemma active_pos ty ts i t :
  ts !! i = Some t -> taskType t = ty -> unfinished t = true -> 0 < active ty ts.
Proof.
  intros Hi Hty Hu. destruct (active ty ts) eqn:E; [|lia].
  apply (proj1 (countb_zero _ _)) with (x := t) in E; [|by eapply list_elem_of_lookup_2].
  rewrite bool_decide_eq_true_2, Hu in E by done. done.
Qed.

(** ** The invariant holds at the start and is kept by every operation *)

Lemma inv_start input nReduce : inv input (MakeCoordinator input nReduce) [].
Proof.
  assert (forall i t, createMapTasks input !! i = Some t -> taskType t = TaskTypeMap) as Hty.
  { intros i t. unfold createMapTasks. rewrite list_lookup_fmap.
    by destruct (input !! i); intros [= <-]. }
  split; simpl; try done.
  - intros i t Hi. left. eauto.
  - constructor.
  - intros i Hi. by apply not_elem_of_nil in Hi.
  - intros _. split; [|done]. unfold active.
    pose proof (countb_le_length (fun t => bool_decide (taskType t = TaskTypeMap) && unfinished t)
      (createMapTasks input)) as Hle. unfold createMapTasks in *. rewrite length_fmap in Hle. lia.
  - intros f. unfold createMapTasks. clear Hty. induction input as [|g input IH]; [done|].
    rewrite fmap_cons, !countb_cons, IH. f_equal. unfold live_for. simpl.
    rewrite !bool_decide_decide. destruct (decide ([g] = [f])), (decide (g = f)); naive_solver.
Qed.

(** Only the tasks, the counters and the phase matter. *)
Lemma inv_ext input c c' pend :
  tasks c' = tasks c -> numMapTasks c' = numMapTasks c -> numReduceTasks c' = numReduceTasks c ->
  c_phase c' = c_phase c -> inv input c pend -> inv input c' pend.
Proof.
  intros Ht Hm Hr Hp [H1 H2 H3 H4 H5 H6 H7].
  split; rewrite ?Ht, ?Hm, ?Hr, ?Hp; done.
Qed.

Lemma inv_drop input c l1 id l2 : inv input c (l1 ++ id :: l2) -> inv input c (l1 ++ l2).
Proof.
  intros [H1 H2 H3 H4 H5 H6 H7]. split; try done.
  - eapply sublist_NoDup; [exact H2|]. apply sublist_app; [done|]. by apply sublist_cons.
  - intros i Hi. apply H3. set_solver.
Qed.

(** Handing out an idle task. *)
Lemma inv_assign input c pend i t now :
  inv input c pend -> tasks c !! i = Some t -> status t = taskStatusIdle ->
  inv input
    (set_tasks c (<[i := mktask (files t) taskStatusInProgress now (taskType t)]> (tasks c)))
    (i :: pend).
Proof.
  intros [H1 H2 H3 H4 H5 H6 H7] Hi Hidle. pose proof (lookup_lt_Some _ _ _ Hi) as Hlt.
  set (t' := mktask (files t) taskStatusInProgress now (taskType t)).
  assert (forall ty, active ty (<[i := t']> (tasks c)) = active ty (tasks c)) as Hact.
  { intros ty. apply (active_insert_same ty _ i t t'); [done|done|].
    unfold unfinished. simpl. by rewrite Hidle. }
  split; simpl; rewrite ?Hact; try done.
  - intros j u [(<- & <- & _)|[_ Hj]]%list_lookup_insert_Some; [by apply (H1 i t)|by eapply H1].
  - apply NoDup_cons. split; [|done]. intros (u & Hu & Hst)%H3. destruct Hst; congruence.
  - intros j [->|Hj]%elem_of_cons.
    + exists t'. rewrite list_lookup_insert_eq by done. auto.
    + destruct (decide (i = j)) as [->|Hne].
      * exists t'. rewrite list_lookup_insert_eq by done. auto.
      * rewrite list_lookup_insert_ne by done. by apply H3.
  - intros f. rewrite <- H7. apply (live_insert f _ i t t' Hi).
    unfold live_for. simpl. by rewrite Hidle.
Qed.

Lemma set_worker_task_Ok c w i c' :
  set_worker_task c w i = Ok c' ->
  tasks c' = tasks c /\ numMapTasks c' = numMapTasks c /\ numReduceTasks c' = numReduceTasks c /\
  c_phase c' = c_phase c.
Proof. unfold set_worker_task. intros H. go_inv. done. Qed.

Lemma findIdleTask_Some c z t :
  findIdleTask c = (z, Some t) ->
  exists i, z = Z.of_nat i /\ tasks c !! i = Some t /\ status t = taskStatusIdle.
Proof.
  unfold findIdleTask. destruct (list_find _ _) as [[i u]|] eqn:E; [|done].
  intros [= <- <-]. apply list_find_Some in E as (? & ? & _). eauto.
Qed.

Lemma findIdleTask_None c z :
  findIdleTask c = (z, None) -> z = 0%Z /\ forall t, t ∈ tasks c -> status t ≠ taskStatusIdle.
Proof.
  unfold findIdleTask. destruct (list_find _ _) as [[i u]|] eqn:E; [done|].
  intros [= <-]. apply list_find_None in E. split; [done|]. by apply Forall_forall.
Qed.

Lemma inv_GetTask input c pend w now c' r :
  inv input c pend -> GetTask c w now = Ok (c', r) ->
  inv input c' (if bool_decide (res_TaskType r = TaskTypeNoTask) then pend
                else Z.to_nat (res_TaskId r) :: pend).
Proof.
  unfold GetTask. intros Hinv H. destruct (findIdleTask c) as [z [t|]] eqn:E.
  - apply findIdleTask_Some in E as (i & -> & Hi & Hidle). rewrite Nat2Z.id in H.
    pose proof (inv_types _ _ _ Hinv i t Hi) as Hty.
    pose proof (inv_assign input c pend i t now Hinv Hi Hidle) as Hinv'.
    destruct (set_worker_task _ _ _) as [c1| |] eqn:Ew; simplify_eq/=.
    apply set_worker_task_Ok in Ew as (? & ? & ? & ?).
    rewrite bool_decide_eq_false_2 by (destruct Hty as [E|[E _]]; rewrite E; done).
    rewrite Nat2Z.id.
    by eapply inv_ext; [..|exact Hinv'].
  - destruct (set_worker_task _ _ _) as [c1| |] eqn:Ew; simplify_eq/=.
    apply set_worker_task_Ok in Ew as (? & ? & ? & ?). by eapply inv_ext.
Qed.

(** ** Timeouts *)

(** The loop of [timeoutTasks] keeps what its body keeps. *)
Lemma timeout_loop now (P : Coordinator -> Prop) c :
  (forall c i t, tasks c !! i = Some t -> P c -> P (timeout_step now c (i, t))) ->
  P c -> P (timeoutTasks c now).
Proof.
  intros HP Hc. unfold timeoutTasks.
  assert (forall l k c, (forall i t, l !! i = Some t -> tasks c !! (k + i) = Some t) -> P c ->
    P (foldl (timeout_step now) c (imap (fun i t => (k + i, t)) l))) as Hgen.
  { clear c Hc. induction l as [|t l IH]; intros k c Hl Hc; simpl; [done|].
    replace (imap ((fun i x => (k + i, x)) ∘ S) l) with (imap (fun i x => (S k + i, x)) l)
      by (apply imap_ext; intros; simpl; f_equal; lia).
    rewrite Nat.add_0_r.
    assert (tasks c !! k = Some t) as Hk by (rewrite <- (Nat.add_0_r k); by apply Hl).
    apply IH; [|by apply HP]. intros i u Hi.
    assert (tasks c !! (S k + i) = Some u) as Hu
      by (replace (S k + i) with (k + S i) by lia; by apply Hl).
    simpl. destruct (expired _ _ _); [|done]. simpl.
    apply lookup_app_l_Some. rewrite list_lookup_insert_ne by lia. done. }
  apply (Hgen (tasks c) 0 c); [done|done].
Qed.

Lemma timeout_step_active now c i t ty :
  tasks c !! i = Some t ->
  active ty (tasks (timeout_step now c (i, t))) = active ty (tasks c).
Proof.
  intros Hi. simpl. destruct (expired c (now i) t) eqn:Ee; [|done].
  unfold expired in Ee. apply andb_true_iff in Ee as [Hst%bool_decide_eq_true_1 _].
  rewrite Hi. simpl. rewrite active_app.
  pose proof (active_insert ty (tasks c) i t (set_status taskStatusTimedOut t) Hi eq_refl) as Ha.
  unfold active at 2. rewrite countb_cons. unfold unfinished in *. simpl in *. rewrite Hst in Ha.
  simpl in Ha. unfold countb at 1. simpl.
  destruct (bool_decide (taskType t = ty)); simpl in *; lia.
Qed.

Lemma inv_timeout_step input pend now c i t :
  tasks c !! i = Some t -> inv input c pend -> inv input (timeout_step now c (i, t)) pend.
Proof.
  intros Hi [H1 H2 H3 H4 H5 H6 H7].
  pose proof (fun ty => timeout_step_active now c i t ty Hi) as Hact.
  simpl in *. destruct (expired c (now i) t) eqn:Ee; [|done].
  unfold expired in Ee. apply andb_true_iff in Ee as [Hst%bool_decide_eq_true_1 _].
  rewrite Hi in *. simpl in *. pose proof (lookup_lt_Some _ _ _ Hi) as Hlt.
  set (t1 := set_status taskStatusTimedOut t) in *.
  set (t2 := mktask (files t) taskStatusIdle 0 (taskType t)) in *.
  split; simpl; rewrite ?Hact; try done.
  - intros j u [Hj|[_ Hj]]%lookup_app_Some.
    + apply list_lookup_insert_Some in Hj as [(<- & <- & _)|[_ Hj]];
        [by apply (H1 i t)|by eapply H1].
    + apply list_lookup_singleton_Some in Hj as [_ <-]. by apply (H1 i t).
  - intros j Hj. destruct (H3 j Hj) as (u & Hu & Hus).
    destruct (decide (i = j)) as [->|Hne].
    + exists t1. split; [|by right]. apply lookup_app_l_Some. by rewrite list_lookup_insert_eq.
    + exists u. split; [|done]. apply lookup_app_l_Some. by rewrite list_lookup_insert_ne.
  - intros f. rewrite countb_app, <- H7.
    pose proof (countb_insert (live_for f) (tasks c) i t t1 Hi) as Hc.
    assert (live_for f t1 = false) as E1 by (unfold live_for; simpl; by rewrite andb_false_r).
    assert (live_for f t2 = live_for f t) as E2 by (unfold live_for; simpl; by rewrite Hst).
    rewrite E1 in Hc. rewrite countb_cons, E2. unfold countb at 2. simpl.
    destruct (live_for f t); lia.
Qed.

Lemma inv_timeoutTasks input c pend now : inv input c pend -> inv input (timeoutTasks c now) pend.
Proof. apply (timeout_loop now (fun c => inv input c pend)). intros. by apply inv_timeout_step. Qed.

Lemma inv_Done input c pend fs now c' fs' b :
  inv input c pend -> Done c fs now = (c', fs', b) -> c' = timeoutTasks c now /\ inv input c' pend.
Proof.
  intros Hinv H. assert (c' = timeoutTasks c now) as ->.
  { unfold Done in H. by repeat case_match; simplify_eq. }
  split; [done|by apply inv_timeoutTasks].
Qed.

(** ** Reports of workers *)

(** Every task [createReduceTasks] adds is an idle reduce task. *)
Lemma createReduceTasks_new c fs order :
  exists new, tasks (createReduceTasks c fs order) = tasks c ++ new /\
    length new = length order /\
    (forall i t, new !! i = Some t -> taskType t = TaskTypeReduce /\ status t = taskStatusIdle) /\
    active TaskTypeMap new = 0 /\ active TaskTypeReduce new = length order /\
    (forall f, countb (live_for f) new = 0) /\
    numMapTasks (createReduceTasks c fs order) = numMapTasks c /\
    numReduceTasks (createReduceTasks c fs order)
    = (numReduceTasks c + Z.of_nat (length order))%Z.
Proof.
  unfold createReduceTasks. simpl. eexists. split; [reflexivity|].
  set (mk k := mktask _ taskStatusIdle 0 TaskTypeReduce).
  split; [apply length_fmap|].
  split. { intros i t. rewrite list_lookup_fmap. by destruct (order !! i); intros [= <-]. }
  split_and!.
  - apply countb_zero. intros t (k & -> & _)%list_elem_of_fmap. done.
  - unfold active. induction order as [|k l IH]; [done|].
    rewrite fmap_cons, countb_cons, IH. done.
  - intros f. apply countb_zero. intros t (k & -> & _)%list_elem_of_fmap. done.
  - done.
  - done.
Qed.
#[local] Arguments createReduceTasks : simpl never.

(** The completed task: fewer active tasks of its type, nothing else. *)
Lemma complete_counts ts i t :
  ts !! i = Some t -> status t = taskStatusInProgress ->
  (forall ty, active ty (<[i := set_status taskStatusCompleted t]> ts)
      + (if bool_decide (taskType t = ty) then 1 else 0) = active ty ts) /\
  (forall f, countb (live_for f) (<[i := set_status taskStatusCompleted t]> ts)
      = countb (live_for f) ts).
Proof.
  intros Hi Hst. split.
  - intros ty. pose proof (active_insert ty ts i t (set_status taskStatusCompleted t) Hi eq_refl)
      as H. unfold unfinished in H. simpl in H. rewrite Hst in H. simpl in H.
    rewrite andb_false_r, andb_true_r in H. lia.
  - intros f. apply (live_insert f ts i t); [done|]. unfold live_for. simpl. by rewrite Hst.
Qed.

(** Shared part: the reporting task is marked completed and leaves [pending]. *)
Lemma inv_complete_lookups input c l1 i l2 t :
  inv input c (l1 ++ i :: l2) -> tasks c !! i = Some t ->
  let ts := <[i := set_status taskStatusCompleted t]> (tasks c) in
  (forall j u, ts !! j = Some u ->
     taskType u = TaskTypeMap \/ (taskType u = TaskTypeReduce /\ c_phase c ≠ phaseMap)) /\
  NoDup (l1 ++ l2) /\
  (forall j, j ∈ l1 ++ l2 -> exists u, ts !! j = Some u /\
     (status u = taskStatusInProgress \/ status u = taskStatusTimedOut)).
Proof.
  intros Hinv Hi ts. pose proof (inv_nodup _ _ _ Hinv) as Hnd. split_and!.
  - intros j u [(<- & <- & _)|[_ Hj]]%list_lookup_insert_Some;
      [by apply (inv_types _ _ _ Hinv i t)|by eapply inv_types].
  - by apply inv_drop in Hinv as [].
  - intros j Hj. assert (j ≠ i) as Hne.
    { intros ->. apply NoDup_app in Hnd as (_ & Hd & Hnd). apply NoDup_cons in Hnd as [Hn _].
      apply elem_of_app in Hj as [Hj|Hj]; [|done]. apply (Hd i Hj). left. }
    unfold ts. rewrite list_lookup_insert_ne by done.
    apply (inv_pending _ _ _ Hinv). set_solver.
Qed.

Lemma inv_TaskDone input c fs l1 i l2 req order c' fs' err :
  inv input c (l1 ++ i :: l2) -> req_TaskId req = Z.of_nat i ->
  TaskDone c fs req order = Ok (c', fs', err) -> inv input c' (l1 ++ l2).
Proof.
  intros Hinv Hid H.
  destruct (inv_pending _ _ _ Hinv i) as (t & Hi & Hst); [set_solver|].
  unfold TaskDone in H. rewrite Hid, (slice_get_lookup _ _ _ Hi), Nat2Z.id in H. simpl in H.
  case_bool_decide as Hto.
  { destruct (removeFiles _ _); simplify_eq/=. by eapply inv_drop. }
  destruct Hst as [Hst|?]; [|done].
  destruct (inv_complete_lookups input c l1 i l2 t Hinv Hi) as (L1 & L2 & L3).
  destruct (complete_counts (tasks c) i t Hi Hst) as [Ha Hl].
  pose proof (Ha TaskTypeMap) as Ham. pose proof (Ha TaskTypeReduce) as Har.
  assert (unfinished t = true) as Hun by (unfold unfinished; by rewrite Hst).
  pose proof (inv_types _ _ _ Hinv i t Hi) as Hty.
  destruct Hinv as [H1 H2 H3 H4 H5 H6 H7].
  destruct Hty as [Hty|[Hty Hph]]; rewrite Hty in *.
  - (* map task: the phase is the map phase *)
    rewrite bool_decide_eq_true_2 in Ham by done. rewrite bool_decide_eq_false_2 in Har by done.
    assert (c_phase c = phaseMap) as Hph.
    { destruct (decide (c_phase c = phaseMap)) as [|Hp]; [done|].
      destruct (H5 Hp) as [Hz _]. pose proof (active_pos _ _ _ _ Hi Hty Hun). lia. }
    destruct (H4 Hph) as [Hle Hr0].
    assert (active TaskTypeReduce (tasks c) = 0) as Hnored.
    { apply countb_zero. intros u [j Hu]%list_elem_of_lookup.
      destruct (H1 j u Hu) as [E|[_ ?]]; [by rewrite E|done]. }
    destruct (renameTempFiles _ _) as [fs1 err1]. destruct err1; simplify_eq/=.
    { split; simpl; try done; [intros _; split; [lia|done]|congruence|by intros f; rewrite Hl]. }
    case_bool_decide as Hz; simplify_eq/=.
    + destruct (createReduceTasks_new
        (set_counts (set_tasks c (<[i:=set_status taskStatusCompleted t]> (tasks c)))
           (numMapTasks c - 1) (numReduceTasks c) (c_phase c)) fs' order)
        as (new & Hnew & Hlen & Hnt & Hnm & Hnr & Hnl & En & Er). simpl in *.
      split; simpl; rewrite ?Hnew, ?En, ?Er, ?active_app; try done.
      * intros j u [Hj|[_ Hj]]%lookup_app_Some; [by left; destruct (L1 j u Hj) as [|[]]|].
        right. split; [by eapply Hnt|done].
      * intros j (u & Hu & Hus)%L3. exists u. split; [by apply lookup_app_l_Some|done].
      * intros _. rewrite Hnm, Hnr. split; [lia|]. lia.
      * intros f. rewrite countb_app, Hnl, Hl, H7. lia.
    + split; simpl; try done; [intros _; split; [lia|done]|congruence|by intros f; rewrite Hl].
  - (* reduce task *)
    rewrite bool_decide_eq_false_2 in Ham by done. rewrite bool_decide_eq_true_2 in Har by done.
    destruct (H5 Hph) as [Hz Hle].
    destruct (renameTempFiles _ _) as [fs1 err1]. destruct err1; simplify_eq/=.
    { split; simpl; try done; [split; lia| |by intros f; rewrite Hl].
      intros Hs. specialize (H6 Hs). lia. }
    case_bool_decide as Hzr; simplify_eq/=.
    + split; simpl; try done.
      * intros j u Hj. destruct (L1 j u Hj) as [|[]]; [by left|by right].
      * intros _. split; lia.
      * intros _. lia.
      * intros f. by rewrite Hl.
    + split; simpl; try done; [split; lia| |by intros f; rewrite Hl].
      intros Hs. specialize (H6 Hs). lia.
Qed.

Lemma Heartbeat_same c w c' b :
  Heartbeat c w = Ok (c', b) ->
  tasks c' = tasks c /\ numMapTasks c' = numMapTasks c /\ numReduceTasks c' = numReduceTasks c /\
  c_phase c' = c_phase c.
Proof.
  unfold Heartbeat. intros H. case_bool_decide; [|by simplify_eq].
  by destruct (slice_get _ _); simplify_eq/=.
Qed.

Lemma inv_step {up} input s s' :
  sys_step up s s' -> inv input (co s) (pending s) -> inv input (co s') (pending s').
Proof.
  intros Hstep Hinv. destruct Hstep; simpl.
  - by apply (inv_ext input (co s)).
  - by eapply inv_GetTask.
  - rewrite H in Hinv. by eapply inv_TaskDone.
  - rewrite H in Hinv. by eapply inv_drop.
  - done.
  - by eapply inv_Done.
  - apply Heartbeat_same in H0 as (? & ? & ? & ?). by apply (inv_ext input (co s)).
Qed.

Lemma inv_run {up} input nReduce fs s :
  rtc (sys_step up) (sys_start input nReduce fs) s -> inv input (co s) (pending s).
Proof.
  intros H. apply (rtc_invariant (sys_step up) (fun s => inv input (co s) (pending s))
    (sys_start input nReduce fs)); [|apply inv_start|done].
  intros ? ? ? ?. by eapply inv_step.
Qed.

(** ** No task is ever marked failed *)

Definition no_failed (c : Coordinator) : Prop :=
  Forall (fun t => status t ≠ taskStatusFailed) (tasks c).

Lemma no_failed_TaskDone c fs req order c' fs' err :
  no_failed c -> TaskDone c fs req order = Ok (c', fs', err) -> no_failed c'.
Proof.
  unfold TaskDone, no_failed. intros Hc H.
  destruct (slice_get (tasks c) (req_TaskId req)) as [t| |]; simpl in H; [|done..].
  case_bool_decide. { by destruct (removeFiles _ _); simplify_eq. }
  assert (Forall (fun t => status t ≠ taskStatusFailed)
    (<[Z.to_nat (req_TaskId req) := set_status taskStatusCompleted t]> (tasks c))) as Hi
    by by apply Forall_insert.
  destruct (taskType t); try (by simplify_eq);
    destruct (renameTempFiles _ _) as [fs1 [|]]; try (by simplify_eq);
    case_bool_decide; simplify_eq/=; try done.
  apply Forall_app_2; [done|]. apply Forall_fmap, Forall_true. done.
Qed.

Lemma no_failed_timeout now c : no_failed c -> no_failed (timeoutTasks c now).
Proof.
  apply (timeout_loop now no_failed). intros c' i t Hi Hf. simpl.
  destruct (expired _ _ _); [|done]. rewrite Hi.
  apply Forall_app_2; [by apply Forall_insert|by repeat constructor].
Qed.

Lemma no_failed_step {up} s s' : no_failed (co s) -> sys_step up s s' -> no_failed (co s').
Proof.
  intros Hc Hstep. destruct Hstep; simpl; try done.
  - unfold GetTask in H. destruct (findIdleTask _) as [z [t|]];
      destruct (set_worker_task _ _ _) eqn:Ew; simplify_eq/=;
      apply set_worker_task_Ok in Ew as (Ht & _); unfold no_failed; rewrite Ht; [|done].
    by apply Forall_insert.
  - by eapply no_failed_TaskDone.
  - assert (c' = timeoutTasks (co s) now) as ->
      by (unfold Done in H; by repeat case_match; simplify_eq).
    by apply no_failed_timeout.
  - apply Heartbeat_same in H0 as (Ht & _). unfold no_failed. by rewrite Ht.
Qed.

Lemma no_failed_run {up} input nReduce fs s :
  rtc (sys_step up) (sys_start input nReduce fs) s -> no_failed (co s).
Proof.
  apply (rtc_invariant (sys_step up) (fun s => no_failed (co s))); [apply no_failed_step|].
  simpl. unfold no_failed. simpl. unfold createMapTasks. apply Forall_fmap, Forall_true. done.
Qed.

(** Map tasks of input file [f] that completed. *)
Definition completed_for (f : string) (t : task) : bool :=
  bool_decide (taskType t = TaskTypeMap) && bool_decide (files t = [f])
  && bool_decide (status t = taskStatusCompleted).

(** Without unfinished map tasks the live tasks of a file are the completed ones. *)
Lemma completed_counts input c pend f :
  inv input c pend -> no_failed c -> active TaskTypeMap (tasks c) = 0 ->
  countb (completed_for f) (tasks c) = countb (fun g => bool_decide (g = f)) input.
Proof.
  intros Hinv Hnf Ha. rewrite <- (inv_live _ _ _ Hinv f).
  apply countb_ext. intros t Ht. unfold completed_for, live_for.
  assert (status t ≠ taskStatusFailed) as Hf
    by (revert t Ht; by apply Forall_forall).
  pose proof (proj1 (countb_zero _ _) Ha t Ht) as Hz. simpl in Hz. unfold unfinished in Hz.
  destruct (bool_decide (taskType t = TaskTypeMap)); [|done]. simpl in *.
  destruct (status t); done.
Qed.

(** ** Deleting the intermediate files *)

Lemma removeFiles_all (fs : FS) l :
  NoDup l -> (forall f, f ∈ l -> is_Some (fs !! f)) ->
  removeFiles fs l = (filter (fun p => p.1 ∉ l) fs, false).
Proof.
  revert fs. induction l as [|f l IH]; intros fs Hnd Hl; simpl.
  { f_equal. symmetry. apply map_filter_id. set_solver. }
  apply NoDup_cons in Hnd as [Hf Hnd]. unfold Remove. destruct (Hl f) as [c Hc]; [left|].
  rewrite Hc, IH; [|done|].
  - f_equal. apply map_eq. intros k. apply option_eq. intros v.
    rewrite !map_lookup_filter_Some, lookup_delete_Some. simpl. set_solver.
  - intros g Hg. rewrite lookup_delete_ne by (intros ->; done). apply Hl. by right.
Qed.

Lemma deleteFiles_spec (fs : FS) pattern :
  deleteFiles fs pattern = (filter (fun p => match_pattern pattern p.1 = false) fs, false).
Proof.
  unfold deleteFiles. rewrite removeFiles_all;
    [|apply NoDup_Glob|by intros f [? _]%elem_of_Glob].
  f_equal. apply map_eq. intros k. apply option_eq. intros v.
  rewrite !map_lookup_filter_Some. simpl. rewrite elem_of_Glob.
  destruct (match_pattern pattern k); naive_solver.
Qed.

Lemma inv_all_finished input c pend :
  inv input c pend -> active TaskTypeMap (tasks c) = 0 -> active TaskTypeReduce (tasks c) = 0 ->
  Forall (fun t => unfinished t = false) (tasks c).
Proof.
  intros Hinv Hm Hr. apply Forall_lookup_2. intros i t Hi. apply not_true_iff_false. intros Hu.
  destruct (inv_types _ _ _ Hinv i t Hi) as [Hty|[Hty _]];
    pose proof (active_pos _ _ _ _ Hi Hty Hu); lia.
Qed.

(** When [Done] says so, no task is left to do. *)
Lemma Done_true input c pend fs now c' fs' :
  inv input c pend -> Done c fs now = (c', fs', true) ->
  c_phase c' ≠ phaseMap /\ active TaskTypeReduce (tasks c') = 0 /\
  fs' = filter (fun p => match_pattern "m-out*" p.1 = false) fs.
Proof.
  intros Hinv HD. destruct (inv_Done _ _ _ _ _ _ _ _ Hinv HD) as [Hc' Hinv'].
  unfold Done in HD. rewrite <- Hc', deleteFiles_spec in HD. destruct (c_phase c') eqn:Ep; [done|..].
  - destruct (existsb unfinished (tasks c')) eqn:Ex; simplify_eq/=. split_and!; [done| |done].
    apply countb_zero. intros t Ht. apply andb_false_intro2.
    apply not_true_iff_false. intros Hu. rewrite <- not_true_iff_false in Ex. apply Ex.
    apply existsb_exists. exists t. by rewrite <- list_elem_of_In.
  - destruct (existsb isRunning (workers c')); simplify_eq/=.
    split_and!; [done|by apply (inv_shutdown _ _ _ Hinv')|done].
Qed.

(** ** What [timeoutTasks] does *)

(** The retry of an expired task. *)
Definition retry (t : task) : task := mktask (files t) taskStatusIdle 0 (taskType t).

Definition timed_out (c : Coordinator) (now : nat -> Z) (i : nat) (t : task) : task :=
  if expired c (now i) t then set_status taskStatusTimedOut t else t.

Definition retries (c : Coordinator) (now : nat -> Z) : list task :=
  (fun p => retry p.2) <$> filter (fun p => expired c (now p.1) p.2 = true) (imap pair (tasks c)).

Lemma timeout_loop_tasks now c0 l pre new :
  let c := set_tasks c0 (pre ++ l ++ new) in
  foldl (timeout_step now) c (imap (fun i t => (length pre + i, t)) l) =
  set_tasks c0
    (pre ++ imap (fun i t => timed_out c0 now (length pre + i) t) l ++ new
     ++ ((fun p => retry p.2) <$> filter (fun p => expired c0 (now p.1) p.2 = true)
           (imap (fun i t => (length pre + i, t)) l))).
Proof.
  revert pre new. induction l as [|t l IH]; intros pre new; simpl; [by rewrite app_nil_r|].
  rewrite Nat.add_0_r.
  set (t' := timed_out c0 now (length pre) t).
  assert (forall {B} (f : nat -> task -> B), imap ((fun i x => f (length pre + i) x) ∘ S) l
    = imap (fun i x => f (length (pre ++ [t']) + i) x) l) as Himap.
  { intros B f. apply imap_ext. intros i x _. simpl. f_equal. rewrite length_app. simpl. lia. }
  rewrite (Himap _ (fun i x => (i, x))), (Himap _ (timed_out c0 now)).
  specialize (IH (pre ++ [t'])). rewrite filter_cons. simpl.
  replace (expired (set_tasks c0 (pre ++ t :: l ++ new)) (now (length pre)) t)
    with (expired c0 (now (length pre)) t) by done.
  unfold t', timed_out in *. destruct (expired c0 (now (length pre)) t) eqn:Ee; simpl.
  - specialize (IH (new ++ [retry t])). rewrite <- !app_assoc in IH. simpl in IH.
    rewrite list_lookup_middle by done. simpl.
    rewrite insert_app_r_alt, Nat.sub_diag by lia. simpl.
    rewrite <- app_assoc. simpl. rewrite <- app_assoc. exact IH.
  - specialize (IH new). rewrite <- !app_assoc in IH. exact IH.
Qed.

Lemma timeoutTasks_tasks c now :
  timeoutTasks c now = set_tasks c (imap (timed_out c now) (tasks c) ++ retries c now).
Proof.
  pose proof (timeout_loop_tasks now c (tasks c) [] []) as H. simpl in H.
  rewrite app_nil_r in H. unfold timeoutTasks, retries.
  replace (set_tasks c (tasks c)) with c in H by by destruct c. exact H.
Qed.

(** ** A failed rename *)

(** A map task that is neither unfinished nor counted. *)
Definition stuck (c : Coordinator) : Prop :=
  c_phase c = phaseMap /\ (Z.of_nat (active TaskTypeMap (tasks c)) < numMapTasks c)%Z.

Lemma GetTask_counts c w now c' r :
  GetTask c w now = Ok (c', r) ->
  (forall ty, active ty (tasks c') = active ty (tasks c)) /\
  numMapTasks c' = numMapTasks c /\ c_phase c' = c_phase c.
Proof.
  unfold GetTask. intros H. destruct (findIdleTask c) as [z [t|]] eqn:E;
    destruct (set_worker_task _ _ _) eqn:Ew; simplify_eq/=;
    apply set_worker_task_Ok in Ew as (Ht & Hm & _ & Hp); rewrite Ht, Hm, Hp; [|done].
  apply findIdleTask_Some in E as (i & -> & Hi & Hidle). rewrite Nat2Z.id.
  split_and!; [|done..]. intros ty. apply (active_insert_same ty (tasks c) i t); [done|done|].
  unfold unfinished. simpl. by rewrite Hidle.
Qed.

Lemma stuck_TaskDone input c fs l1 i l2 req order c' fs' err :
  inv input c (l1 ++ i :: l2) -> stuck c -> req_TaskId req = Z.of_nat i ->
  TaskDone c fs req order = Ok (c', fs', err) -> stuck c'.
Proof.
  intros Hinv [Hph Hlt] Hid H.
  destruct (inv_pending _ _ _ Hinv i) as (t & Hi & Hst); [set_solver|].
  unfold TaskDone in H. rewrite Hid, (slice_get_lookup _ _ _ Hi), Nat2Z.id in H. simpl in H.
  case_bool_decide as Hto. { by destruct (removeFiles _ _); simplify_eq/=. }
  destruct Hst as [Hst|?]; [|done].
  destruct (complete_counts (tasks c) i t Hi Hst) as [Ha _]. specialize (Ha TaskTypeMap).
  destruct (inv_types _ _ _ Hinv i t Hi) as [Hty|[_ ?]]; [|done]. rewrite Hty in *.
  rewrite bool_decide_eq_true_2 in Ha by done.
  destruct (renameTempFiles _ _) as [fs1 [|]]; [simplify_eq/=; split; simpl; [done|lia]|].
  case_bool_decide as Hz; simpl in Hz; simplify_eq/=; [lia|]. split; simpl; [done|lia].
Qed.

Lemma stuck_step {up} input s s' :
  inv input (co s) (pending s) /\ stuck (co s) -> sys_step up s s' ->
  inv input (co s') (pending s') /\ stuck (co s').
Proof.
  intros [Hinv Hs] Hstep. split; [by eapply inv_step|]. destruct Hstep; simpl; try done.
  - apply GetTask_counts in H as (Ha & Hm & Hp). unfold stuck. by rewrite Ha, Hm, Hp.
  - rewrite H in Hinv. by eapply stuck_TaskDone.
  - destruct (inv_Done _ _ _ _ _ _ _ _ Hinv H) as [-> _].
    apply (timeout_loop now stuck); [|done]. intros c i t Hi [Hp Hc].
    split; [by simpl; destruct (expired _ _ _)|].
    rewrite timeout_step_active by done. simpl. by destruct (expired _ _ _).
  - apply Heartbeat_same in H0 as (Ht & Hm & _ & Hp). unfold stuck. by rewrite Ht, Hm, Hp.
Qed.

(** ** Workers that send no heartbeats *)

Definition silent_running (up : Z -> Prop) (c : Coordinator) : Prop :=
  forall w wk, workers c !! w = Some wk -> up (Z.of_nat w) \/ isRunning wk = true.

Lemma set_worker_task_silent up c v i c' :
  set_worker_task c v i = Ok c' -> silent_running up c -> silent_running up c'.
Proof.
  unfold set_worker_task. intros H Hr. destruct (slice_get _ _) as [wk| |] eqn:E; simplify_eq/=.
  apply slice_get_Ok in E as [_ E].
  intros w u [(<- & <- & _)|[_ Hu]]%list_lookup_insert_Some; [by apply (Hr _ wk)|by eapply Hr].
Qed.

Lemma TaskDone_workers c fs req order c' fs' err :
  TaskDone c fs req order = Ok (c', fs', err) -> workers c' = workers c.
Proof.
  unfold TaskDone. intros H. destruct (slice_get _ _) as [t| |]; simpl in H; [|done..].
  case_bool_decide; [by destruct (removeFiles _ _); simplify_eq|].
  destruct (taskType t); try (by simplify_eq);
    destruct (renameTempFiles _ _) as [fs1 [|]]; try (by simplify_eq);
    case_bool_decide; by simplify_eq/=.
Qed.

Lemma silent_running_step up s s' :
  silent_running up (co s) -> sys_step up s s' -> silent_running up (co s').
Proof.
  intros Hc Hstep. destruct Hstep; simpl; try done.
  - intros w wk [Hw|[_ Hw]]%lookup_app_Some; [by eapply Hc|].
    apply list_lookup_singleton_Some in Hw as [_ <-]. by right.
  - unfold GetTask in H. destruct (findIdleTask _) as [z [t|]];
      destruct (set_worker_task _ _ _) eqn:Ew; simplify_eq/=;
      (eapply set_worker_task_silent; [exact Ew|done]).
  - unfold silent_running. by erewrite TaskDone_workers.
  - assert (workers c' = workers (co s)) as E
      by (unfold Done in H; rewrite timeoutTasks_tasks in H; by repeat case_match; simplify_eq).
    unfold silent_running. by rewrite E.
  - unfold Heartbeat in H0. case_bool_decide; [|by simplify_eq].
    destruct (slice_get _ _) as [wk| |] eqn:E; simplify_eq/=.
    apply slice_get_Ok in E as [Hw E]. intros v u Hu. simpl in Hu.
    apply list_lookup_insert_Some in Hu as [(<- & _)|[_ Hu]]; [|by eapply Hc].
    left. by rewrite Z2Nat.id.
Qed.

(** ** Reduce tasks *)

(** [parts[3]] is in range for every file [createReduceTasks] finds. *)
Lemma reduceId_defined f :
  match_pattern "m-out-*-*" f = true -> Split f "-" !! 3 = Some (reduceId f).
Proof.
  intros H. apply (match_pattern_count (Ascii.ascii_of_nat 45)) in H; [|done].
  destruct (lookup_lt_is_Some_2 (Split f "-") 3) as [x Hx].
  { pose proof (length_Split_char (Ascii.ascii_of_nat 45) f) as E.
    change (String (Ascii.ascii_of_nat 45) "") with "-" in E. rewrite E.
    change (count_char (Ascii.ascii_of_nat 45) "m-out-*-*") with 3 in H. lia. }
  unfold reduceId. by rewrite Hx.
Qed.

Lemma createReduceTasks_files c fs order :
  reduce_order fs order ->
  tasks (createReduceTasks c fs order) = tasks c ++
    ((fun k => mktask (filter (fun f => reduceId f = k) (Glob fs "m-out-*-*")) taskStatusIdle 0
       TaskTypeReduce) <$> order) /\
  NoDup order /\
  (forall f, f ∈ Glob fs "m-out-*-*" -> reduceId f ∈ order) /\
  (forall k, k ∈ order -> filter (fun f => reduceId f = k) (Glob fs "m-out-*-*") ≠ []).
Proof.
  unfold reduce_order. intros Ho.
  assert (forall k, k ∈ order <-> k ∈ reduceId <$> Glob fs "m-out-*-*") as Hdom.
  { intros k. rewrite Ho, elem_of_elements, group_by_dom, dom_empty_L. set_solver. }
  split_and!.
  - unfold createReduceTasks. simpl. f_equal. apply list_fmap_ext. intros i k Hk.
    rewrite group_by_default, lookup_empty. simpl. by rewrite list_fmap_id.
  - rewrite Ho. apply NoDup_elements.
  - intros f Hf. apply Hdom. by apply list_elem_of_fmap_2.
  - intros k (f & -> & Hf)%Hdom%list_elem_of_fmap E.
    apply (not_elem_of_nil f). rewrite <- E. by apply list_elem_of_filter.
Qed.

(** ** A run with one input file and one reduce task *)

Definition demo_dir : FS := {[ "tempm-out-0-0" := "k:::v" ]}.

(** A worker registered, ran the map task and reported it. *)
Definition demo : sys :=
  mksys (mkCoordinator
           [mktask ["a"] taskStatusCompleted 5 TaskTypeMap;
            mktask ["m-out-0-0"] taskStatusIdle 0 TaskTypeReduce]
           [mkworker 0 true] 0 1 phaseReduce 10 1)
        {[ "m-out-0-0" := "k:::v" ]} [].

(** A worker was given the map task and its files were written. *)
Definition demo_mid (fs : FS) : sys :=
  mksys (mkCoordinator [mktask ["a"] taskStatusInProgress 5 TaskTypeMap]
           [mkworker 0 true] 1 0 phaseMap 10 1) fs [0].

Lemma demo_mid_run {up} fs : rtc (sys_step up) (sys_start ["a"] 1 ∅) (demo_mid fs).
Proof.
  eapply rtc_l; [apply sys_register|].
  eapply rtc_l; [eapply (sys_get up _ 0 5); vm_compute; reflexivity|].
  eapply rtc_l; [apply (sys_files up _ fs)|]. apply rtc_refl.
Qed.

Definition demo_req : TaskDoneReq := mkTaskDoneReq 0 0 ["tempm-out-0-0"].

Lemma job_run {up} : rtc (sys_step up) (sys_start ["a"] 1 ∅) demo.
Proof.
  eapply rtc_r; [apply (demo_mid_run demo_dir)|].
  eapply (sys_done up (demo_mid demo_dir) [] 0 [] demo_req ["0"] _ _ false);
    [reflexivity|reflexivity| |vm_compute; reflexivity].
  unfold reduce_order. replace (elements _) with ["0"] by (vm_compute; reflexivity). done.
Qed.

(** The reduce task was run and reported, and the worker was told to shut down. *)
Definition demo_end : sys :=
  mksys (mkCoordinator
           [mktask ["a"] taskStatusCompleted 5 TaskTypeMap;
            mktask ["m-out-0-0"] taskStatusCompleted 7 TaskTypeReduce]
           [mkworker 1 false] 0 0 phaseShutdown 10 1)
        {[ "m-out-0-0" := "k:::v" ]} [].

Lemma demo_end_run : rtc (sys_step (fun _ => True)) (sys_start ["a"] 1 ∅) demo_end.
Proof.
  etrans; [apply job_run|].
  eapply rtc_l; [eapply (sys_get _ _ 0 7); vm_compute; reflexivity|].
  eapply rtc_l.
  { eapply (sys_done _ _ [] 1 [] (mkTaskDoneReq 0 1 []) ["0"] _ (dir demo) false);
      [reflexivity|reflexivity| |vm_compute; reflexivity].
    unfold reduce_order. replace (elements _) with ["0"] by (vm_compute; reflexivity). done. }
  eapply rtc_l; [eapply (sys_heartbeat _ _ 0); [done|vm_compute; reflexivity]|]. apply rtc_refl.
Qed.

(** ** Claims *)

(** C8: In every reachable state, a worker is given a reduce task only when no map task is idle
    or running, and every input file has been mapped to completion exactly as often as it
    occurs in the input, whatever crashed or timed out before. *)
Theorem reduce_after_all_maps {up} input nReduce fs s w now c' r :
  rtc (sys_step up) (sys_start input nReduce fs) s ->
  GetTask (co s) w now = Ok (c', r) -> res_TaskType r = TaskTypeReduce ->
  active TaskTypeMap (tasks (co s)) = 0 /\
  forall f, countb (completed_for f) (tasks (co s)) = countb (fun g => bool_decide (g = f)) input.
Proof.
  intros Hrun HG Hr. pose proof (inv_run _ _ _ _ Hrun) as Hinv.
  assert (active TaskTypeMap (tasks (co s)) = 0) as Ha.
  { unfold GetTask in HG. destruct (findIdleTask (co s)) as [z [t|]] eqn:E;
      destruct (set_worker_task _ _ _); simplify_eq/=.
    apply findIdleTask_Some in E as (i & _ & Hi & _).
    destruct (inv_types _ _ _ Hinv i t Hi) as [?|[_ Hp]]; [congruence|].
    by apply (inv_reduce _ _ _ Hinv). }
  split; [done|]. intros f. eapply completed_counts; [done| |done]. by eapply no_failed_run.
Qed.

Lemma reduce_after_all_maps_witness :
  active TaskTypeMap (tasks (co demo)) = 0 /\
  forall f, countb (completed_for f) (tasks (co demo)) = countb (fun g => bool_decide (g = f)) ["a"].
Proof.
  eapply (reduce_after_all_maps (up := fun _ => True) ["a"] 1 ∅ demo 0 7);
    [exact (job_run (up := fun _ => True))|vm_compute; reflexivity|reflexivity].
Defined.

(** A task is never with two workers: in every reachable state the tasks still to be
    reported are pairwise different, and [GetTask] hands out an idle task that is not among them
    and marks it in progress with the time it was handed out. *)
Theorem task_assigned_once {up} input nReduce fs s w now c' r :
  rtc (sys_step up) (sys_start input nReduce fs) s ->
  GetTask (co s) w now = Ok (c', r) -> res_TaskType r ≠ TaskTypeNoTask ->
  NoDup (pending s) /\ (Z.to_nat (res_TaskId r) ∉ pending s) /\
  exists t, tasks (co s) !! Z.to_nat (res_TaskId r) = Some t /\ status t = taskStatusIdle /\
    res_Files r = files t /\ res_TaskType r = taskType t /\
    tasks c' = <[Z.to_nat (res_TaskId r) :=
      mktask (files t) taskStatusInProgress now (taskType t)]> (tasks (co s)).
Proof.
  intros Hrun HG Hr. pose proof (inv_run _ _ _ _ Hrun) as Hinv.
  unfold GetTask in HG. destruct (findIdleTask (co s)) as [z [t|]] eqn:E;
    destruct (set_worker_task _ _ _) eqn:Ew; simplify_eq/=.
  apply findIdleTask_Some in E as (i & -> & Hi & Hidle).
  apply set_worker_task_Ok in Ew as (Ht & _). rewrite Nat2Z.id in *.
  split; [apply (inv_nodup _ _ _ Hinv)|]. split; [|by exists t].
  intros (u & Hu & Hst)%(inv_pending _ _ _ Hinv). destruct Hst; congruence.
Qed.

Lemma task_assigned_once_witness :
  NoDup (pending demo) /\ (1 ∉ pending demo).
Proof.
  edestruct (task_assigned_once (up := fun _ => True) ["a"] 1 ∅ demo 0 7) as (H1 & H2 & _);
    [exact (job_run (up := fun _ => True))|vm_compute; reflexivity|done|]. exact (conj H1 H2).
Defined.

(** When [Done] answers true in a reachable state no task is idle or running, every input
    file has been mapped, and exactly the intermediate files [m-out*] have been deleted from the
    working directory. *)
Theorem Done_sound {up} input nReduce fs s now c' fs' :
  rtc (sys_step up) (sys_start input nReduce fs) s -> Done (co s) (dir s) now = (c', fs', true) ->
  Forall (fun t => unfinished t = false) (tasks c') /\
  (forall f, countb (completed_for f) (tasks c') = countb (fun g => bool_decide (g = f)) input) /\
  fs' = filter (fun p => match_pattern "m-out*" p.1 = false) (dir s).
Proof.
  intros Hrun HD. pose proof (inv_run _ _ _ _ Hrun) as Hinv.
  destruct (inv_Done _ _ _ _ _ _ _ _ Hinv HD) as [Hc' Hinv'].
  assert (no_failed c') as Hnf.
  { eapply (no_failed_step (up := up) s (mksys c' fs' (pending s))); [by eapply no_failed_run|].
    by eapply sys_tick. }
  destruct (Done_true _ _ _ _ _ _ _ Hinv HD) as (Hp & Hr & Hfs).
  destruct (inv_reduce _ _ _ Hinv' Hp) as [Hm _]. split_and!.
  - by eapply inv_all_finished.
  - intros f. by eapply completed_counts.
  - done.
Qed.

Lemma Done_sound_witness :
  countb (completed_for "a") (tasks (co demo_end)) = 1.
Proof.
  eapply (Done_sound (up := fun _ => True) ["a"] 1 ∅ demo_end (fun _ => 9%Z));
    [exact demo_end_run|vm_compute; reflexivity].
Defined.

(** [createReduceTasks] assigns every intermediate file to exactly one reduce task: the
    files of the new tasks are a permutation of the files found, two files are in the same task
    exactly when they have the same reducer id, which is [parts[3]] and always in range, no task
    is empty, and the counter grows by the number of tasks. *)
Theorem reduce_tasks_partition_files c fs order :
  reduce_order fs order ->
  exists new, tasks (createReduceTasks c fs order) = tasks c ++ new /\
    concat (files <$> new) ≡ₚ Glob fs "m-out-*-*" /\
    numReduceTasks (createReduceTasks c fs order)
      = (numReduceTasks c + Z.of_nat (length new))%Z /\
    (forall i t, new !! i = Some t -> files t ≠ [] /\ taskType t = TaskTypeReduce /\
       status t = taskStatusIdle) /\
    (forall i j t u f g, new !! i = Some t -> new !! j = Some u -> f ∈ files t -> g ∈ files u ->
       (i = j <-> reduceId f = reduceId g)) /\
    (forall f, f ∈ Glob fs "m-out-*-*" -> Split f "-" !! 3 = Some (reduceId f)).
Proof.
  intros Ho. destruct (createReduceTasks_files c fs order Ho) as (Ht & Hnd & Hin & Hne).
  eexists. split; [exact Ht|]. split_and!.
  - rewrite <- list_fmap_compose. by apply (concat_filter_perm reduceId).
  - rewrite length_fmap. done.
  - intros i t Hi. rewrite list_lookup_fmap in Hi. destruct (order !! i) as [k|] eqn:Hk; [|done].
    injection Hi as <-. split; [|done]. by eapply Hne, list_elem_of_lookup_2.
  - intros i j t u f g Hi Hj Hf Hg. rewrite list_lookup_fmap in Hi, Hj.
    destruct (order !! i) as [k|] eqn:Hk; [|done]. destruct (order !! j) as [l|] eqn:Hl; [|done].
    injection Hi as <-. injection Hj as <-. simpl in *.
    apply list_elem_of_filter in Hf as [<- _]. apply list_elem_of_filter in Hg as [<- _].
    split; [intros ->; congruence|]. intros E. rewrite E in Hk. by eapply NoDup_lookup.
  - intros f [_ Hf]%elem_of_Glob. by apply reduceId_defined.
Qed.

Lemma reduce_tasks_partition_files_witness :
  exists new, tasks (createReduceTasks (co demo) (dir demo) ["0"]) = tasks (co demo) ++ new.
Proof.
  destruct (reduce_tasks_partition_files (co demo) (dir demo) ["0"]) as (new & H & _).
  - unfold reduce_order. replace (elements _) with ["0"] by (vm_compute; reflexivity). reflexivity.
  - exists new. exact H.
Defined.

(** A map task whose temporary files cannot be renamed blocks the job: the error is
    returned after the task was marked completed, so the task is neither counted nor retried,
    and from then on [Done] answers false in every reachable state. *)
Theorem rename_error_blocks_job {up} input nReduce fs s l1 i l2 t req order c' fs' s' now :
  rtc (sys_step up) (sys_start input nReduce fs) s ->
  pending s = l1 ++ i :: l2 -> req_TaskId req = Z.of_nat i ->
  tasks (co s) !! i = Some t -> status t = taskStatusInProgress -> taskType t = TaskTypeMap ->
  TaskDone (co s) (dir s) req order = Ok (c', fs', true) ->
  rtc (sys_step up) (mksys c' fs' (l1 ++ l2)) s' ->
  (Done (co s') (dir s') now).2 = false /\ c_phase (co s') = phaseMap.
Proof.
  intros Hrun Hpend Hid Hi Hst Hty HD Hrun'. pose proof (inv_run _ _ _ _ Hrun) as Hinv.
  rewrite Hpend in Hinv.
  assert (inv input c' (l1 ++ l2) /\ stuck c') as Hs.
  { split; [by eapply inv_TaskDone|]. unfold TaskDone in HD.
    rewrite Hid, (slice_get_lookup _ _ _ Hi), Nat2Z.id in HD. simpl in HD.
    rewrite bool_decide_eq_false_2, Hty in HD by congruence.
    destruct (renameTempFiles _ _) as [fs1 [|]]; [|by case_bool_decide; simplify_eq/=].
    simplify_eq/=. destruct (complete_counts (tasks (co s)) i t Hi Hst) as [Ha _].
    specialize (Ha TaskTypeMap). rewrite Hty, bool_decide_eq_true_2 in Ha by done.
    assert (c_phase (co s) = phaseMap) as Hp.
    { destruct (decide (c_phase (co s) = phaseMap)) as [|Hp]; [done|].
      destruct (inv_reduce _ _ _ Hinv Hp) as [Hz _]. lia. }
    destruct (inv_map _ _ _ Hinv Hp). split; simpl; [done|lia]. }
  assert (inv input (co s') (pending s') /\ stuck (co s')) as [_ [Hp _]].
  { apply (rtc_invariant (sys_step up) (fun s => inv input (co s) (pending s) /\ stuck (co s))
      (mksys c' fs' (l1 ++ l2))); [|done|done]. intros ? ? ? ?. by eapply stuck_step. }
  split; [|done]. unfold Done. rewrite timeoutTasks_tasks. simpl. by rewrite Hp.
Qed.

(** The temporary file of the report does not exist. *)
Lemma rename_error_blocks_job_witness :
  (Done (mkCoordinator [mktask ["a"] taskStatusCompleted 5 TaskTypeMap] [mkworker 0 true]
           1 0 phaseMap 10 1) ∅ (fun _ => 100%Z)).2 = false.
Proof.
  eapply (rename_error_blocks_job (up := fun _ => True) ["a"] 1 ∅ (demo_mid ∅) [] 0 [] _ demo_req [] _ ∅
    (mksys (mkCoordinator [mktask ["a"] taskStatusCompleted 5 TaskTypeMap] [mkworker 0 true]
           1 0 phaseMap 10 1) ∅ [])).
  - exact (demo_mid_run (up := fun _ => True) ∅).
  - reflexivity.
  - reflexivity.
  - reflexivity.
  - reflexivity.
  - reflexivity.
  - vm_compute. reflexivity.
  - apply rtc_refl.
Defined.

(** [Done] waits for every worker that ever registered: a worker that sends no heartbeat,
    for instance because it crashed, keeps [Done] false in every reachable state of the shutdown
    phase, although all tasks are finished. *)
Theorem silent_worker_blocks_Done up input nReduce fs s w now :
  rtc (sys_step up) (sys_start input nReduce fs) s ->
  c_phase (co s) = phaseShutdown -> w < length (workers (co s)) -> ~ up (Z.of_nat w) ->
  (Done (co s) (dir s) now).2 = false /\ Forall (fun t => unfinished t = false) (tasks (co s)).
Proof.
  intros Hrun Hp Hw Hup. pose proof (inv_run _ _ _ _ Hrun) as Hinv.
  assert (silent_running up (co s)) as Hs.
  { apply (rtc_invariant (sys_step up) (fun s => silent_running up (co s))
      (sys_start input nReduce fs)); [apply silent_running_step|by intros ? ? ?|done]. }
  apply lookup_lt_is_Some_2 in Hw as [wk Hwk]. destruct (Hs w wk Hwk) as [|Hr]; [done|]. split.
  - unfold Done. rewrite timeoutTasks_tasks. simpl. rewrite Hp.
    destruct (existsb isRunning (workers (co s))) eqn:E; [done|].
    rewrite <- not_true_iff_false, existsb_exists in E. destruct E. exists wk.
    split; [|done]. apply list_elem_of_In. by eapply list_elem_of_lookup_2.
  - assert (c_phase (co s) ≠ phaseMap) as Hne by by rewrite Hp.
    destruct (inv_reduce _ _ _ Hinv Hne) as [Hm _]. pose proof (inv_shutdown _ _ _ Hinv Hp) as Hr0.
    by eapply inv_all_finished.
Qed.

(** Two workers registered; the second crashed. *)
Definition demo_crash : sys :=
  mksys (mkCoordinator
           [mktask ["a"] taskStatusCompleted 5 TaskTypeMap;
            mktask ["m-out-0-0"] taskStatusCompleted 7 TaskTypeReduce]
           [mkworker 1 true; mkworker 0 true] 0 0 phaseShutdown 10 1)
        {[ "m-out-0-0" := "k:::v" ]} [].

Lemma demo_crash_run : rtc (sys_step (fun w => w = 0%Z)) (sys_start ["a"] 1 ∅) demo_crash.
Proof.
  etrans; [apply job_run|].
  eapply rtc_l; [apply sys_register|].
  eapply rtc_l; [eapply (sys_get _ _ 0 7); vm_compute; reflexivity|].
  eapply rtc_l; [|apply rtc_refl].
  eapply (sys_done _ _ [] 1 [] (mkTaskDoneReq 0 1 []) ["0"] _ (dir demo) false);
    [reflexivity|reflexivity| |vm_compute; reflexivity].
  unfold reduce_order. replace (elements _) with ["0"] by (vm_compute; reflexivity). done.
Qed.

Lemma silent_worker_blocks_Done_witness :
  (Done (co demo_crash) (dir demo_crash) (fun _ => 9%Z)).2 = false.
Proof.
  apply (silent_worker_blocks_Done (fun w => w = 0%Z) ["a"] 1 ∅ demo_crash 1);
    [exact demo_crash_run|reflexivity|simpl; lia|lia].
Defined.
