(* ===== verification/MrWorker.v ===== *)
(** * The MapReduce worker

    Model of [src/src/mr/worker.go]: the map task writes its pairs as lines [key:::value] into
    one file per reducer, the reduce task parses them back, groups them by key and writes one
    line per key.  [mapf] and [reducef] are the application's functions; files are opened and
    written without disk errors; [visit] is the order in which loops visit the keys of Go maps. *)

From S2P Require Import Prelude GoStrings GoUnicode Fnv.
From stdpp Require Import pretty.

(** ** Data *)

Record KeyValue := mkKeyValue { Key : string; Value : string }.
#[export] Instance KeyValue_eq_dec : EqDecision KeyValue.
Proof. solve_decision. Defined.

Definition newline : string := String (Ascii.ascii_of_nat 10) "".

(** ** Operations *)

(** [None]: the file cannot be opened. *)
Definition getFileContent (fs : FS) (filename : string) : option string := fs !! filename.

(** The order in which a loop visits the keys of a map. *)
Definition visits (visit : gset string -> list string) : Prop :=
  forall X, visit X ≡ₚ elements X.

Definition mapKeysToSlice {V} (visit : gset string -> list string) (m : gmap string V) :
    list string := visit (dom m).

Section Tasks.
Context (mapf : string -> string -> list KeyValue) (reducef : string -> list string -> string).
Context (visit : gset string -> list string).

Definition outFilename (taskId nReduce : Z) (kv : KeyValue) : string :=
  "tempm-out-" +:+ pretty taskId +:+ "-" +:+ pretty (Z.rem (ihash (Key kv)) nReduce).

(** [fmt.Fprintf(outFile, "%v:::%v\n", kv.Key, kv.Value)]. *)
Definition write_kv (kv : KeyValue) : string := Key kv +:+ ":::" +:+ Value kv +:+ newline.

(** The loop over the pairs of one input file; [% 0] panics. *)
Definition write_pair (taskId nReduce : Z) (s : FS * gmap string bool) (kv : KeyValue) :
    go (FS * gmap string bool) :=
  if bool_decide (nReduce = 0%Z) then Panic "integer divide by zero"
  else
    let f := outFilename taskId nReduce kv in
    Ok (Append s.1 f (write_kv kv), <[f := true]> s.2).

(** The flag is the returned error: an input file that cannot be read ends the loop. *)
Fixpoint map_files (taskId nReduce : Z) (files : list string) (s : FS * gmap string bool) :
    go (FS * gmap string bool * bool) :=
  match files with
  | [] => Ok (s, false)
  | inFilename :: files =>
      match getFileContent s.1 inFilename with
      | None => Ok (s, true)
      | Some content =>
          let! s := fold_go (write_pair taskId nReduce) (mapf inFilename content) s in
          map_files taskId nReduce files s
      end
  end.

(** The directory, and the files created unless an error is returned. *)
Definition runMapTask (fs : FS) (taskId : Z) (files : list string) (nReduce : Z) :
    go (FS * option (list string)) :=
  let! r := map_files taskId nReduce files (fs, ∅) in
  let '(fs', created, err) := r in
  Ok (fs', if err : bool then None else Some (mapKeysToSlice visit created)).

(** One line of an intermediate file. *)
Definition read_line (m : gmap string (list string)) (line : string) :
    go (gmap string (list string)) :=
  let line := TrimSpace line in
  if bool_decide (line = "") then Ok m
  else
    let parts := Split line ":::" in
    let! key := slice_get parts 0 in
    let! value := slice_get parts 1 in
    Ok (map_append m key value).

Fixpoint read_files (fs : FS) (files : list string) (m : gmap string (list string)) :
    go (option (gmap string (list string))) :=
  match files with
  | [] => Ok (Some m)
  | filename :: files =>
      match getFileContent fs filename with
      | None => Ok None
      | Some content =>
          let! m := fold_go read_line (Split content newline) m in
          read_files fs files m
      end
  end.

(** [fmt.Fprintf(outputFile, "%s %s\n", key, result)]. *)
Definition write_result (m : gmap string (list string)) (key : string) : string :=
  key +:+ " " +:+ reducef key (default [] (m !! key)) +:+ newline.

Definition runReduceTask (fs : FS) (files : list string) : go (FS * option (list string)) :=
  match files with
  | [] => Ok (fs, Some [])
  | file0 :: _ =>
      let! reduceId := slice_get (Split file0 "-") 3 in
      let! r := read_files fs files ∅ in
      match r with
      | None => Ok (fs, None)
      | Some m =>
          let out := "tempmr-out-" +:+ reduceId in
          let step s key := (Append s.1 out (write_result m key), <[out := true]> s.2) in
          let '(fs', filesMap) := foldl step (fs, ∅ : gmap string bool) (visit (dom m)) in
          Ok (fs', Some (mapKeysToSlice visit filesMap))
      end
  end.
End Tasks.

(** ** What the map task writes *)

(** Text of a list of pairs. *)
Definition lines (kvs : list KeyValue) : string := foldr (fun kv s => write_kv kv +:+ s) "" kvs.

Lemma lines_app l1 l2 : lines (l1 ++ l2) = lines l1 +:+ lines l2.
Proof. induction l1 as [|kv l IH]; [done|]. simpl. by rewrite IH, append_assoc. Qed.

(** The pairs that go to file [f]. *)
Definition pairs_for (taskId nReduce : Z) (f : string) (kvs : list KeyValue) : list KeyValue :=
  filter (fun kv => outFilename taskId nReduce kv = f) kvs.

Lemma Append_lookup fs f g text :
  default "" (Append fs f text !! g) =
  default "" (fs !! g) +:+ (if decide (f = g) then text else "").
Proof.
  unfold Append. destruct (decide (f = g)) as [->|Hne].
  - by rewrite lookup_insert_eq.
  - by rewrite lookup_insert_ne, append_nil_r.
Qed.

Lemma Append_is_Some fs f g text : is_Some (Append fs f text !! g) <-> f = g \/ is_Some (fs !! g).
Proof.
  unfold Append. destruct (decide (f = g)) as [->|Hne].
  - rewrite lookup_insert_eq. split; [by left|by eauto].
  - rewrite lookup_insert_ne by done. split; [by right|by intros [?|?]].
Qed.

Lemma write_pairs taskId nReduce kvs s :
  nReduce ≠ 0%Z ->
  exists s', fold_go (write_pair taskId nReduce) kvs s = Ok s' /\
    (forall f, default "" (s'.1 !! f)
       = default "" (s.1 !! f) +:+ lines (pairs_for taskId nReduce f kvs)) /\
    (forall f, is_Some (s'.1 !! f) <->
       f ∈ outFilename taskId nReduce <$> kvs \/ is_Some (s.1 !! f)) /\
    (forall f, is_Some (s'.2 !! f) <->
       f ∈ outFilename taskId nReduce <$> kvs \/ is_Some (s.2 !! f)).
Proof.
  intros Hn. revert s. induction kvs as [|kv kvs IH]; intros s.
  { exists s. split; [done|]. split; [intros f; by rewrite append_nil_r|].
    split; intros f; (split; [by right|intros [[]%elem_of_nil|?]; done]). }
  simpl. unfold write_pair at 1. rewrite bool_decide_eq_false_2 by done. simpl.
  edestruct IH as (s' & Hs & H1 & H2 & H3). exists s'. split; [exact Hs|]. simpl in *.
  split_and!; intros f.
  - rewrite H1, Append_lookup, append_assoc. unfold pairs_for. rewrite filter_cons.
    by destruct (decide (outFilename taskId nReduce kv = f)).
  - rewrite H2, Append_is_Some, elem_of_cons. intuition congruence.
  - rewrite H3, elem_of_cons, lookup_insert_is_Some'. intuition congruence.
Qed.

(** The pairs of a list of input files whose contents are [contents]. *)
Definition emitted (mapf : string -> string -> list KeyValue) (inputs : list (string * string)) :
    list KeyValue :=
  concat ((fun p => mapf p.1 p.2) <$> inputs).

(** An input file is not an output file. *)
Definition not_output (taskId nReduce : Z) (f : string) : Prop :=
  forall kv, outFilename taskId nReduce kv ≠ f.

Lemma pairs_for_none taskId nReduce f kvs :
  not_output taskId nReduce f -> pairs_for taskId nReduce f kvs = [].
Proof.
  intros H. induction kvs as [|kv kvs IH]; [done|]. unfold pairs_for.
  rewrite filter_cons_False by apply H. exact IH.
Qed.

Lemma map_files_spec mapf taskId nReduce inputs s :
  nReduce ≠ 0%Z ->
  (forall p, p ∈ inputs -> s.1 !! p.1 = Some p.2 /\ not_output taskId nReduce p.1) ->
  exists s', map_files mapf taskId nReduce (inputs.*1) s = Ok (s', false) /\
    (forall f, default "" (s'.1 !! f)
       = default "" (s.1 !! f) +:+ lines (pairs_for taskId nReduce f (emitted mapf inputs))) /\
    (forall f, is_Some (s'.1 !! f) <->
       f ∈ outFilename taskId nReduce <$> emitted mapf inputs \/ is_Some (s.1 !! f)) /\
    (forall f, is_Some (s'.2 !! f) <->
       f ∈ outFilename taskId nReduce <$> emitted mapf inputs \/ is_Some (s.2 !! f)).
Proof.
  intros Hn. revert s. induction inputs as [|[f content] inputs IH]; intros s Hin.
  { exists s. split; [done|]. split; [intros f; by rewrite append_nil_r|].
    split; intros f; (split; [by right|intros [[]%elem_of_nil|?]; done]). }
  destruct (Hin (f, content)) as [Hf Hout]; [left|]. simpl in *.
  unfold getFileContent. rewrite Hf.
  destruct (write_pairs taskId nReduce (mapf f content) s Hn) as (s1 & -> & W1 & W2 & W3). simpl.
  edestruct (IH s1) as (s' & Hs & H1 & H2 & H3).
  { intros [g c] Hg. destruct (Hin (g, c)) as [Hgs Hgo]; [by right|]. split; [|done]. simpl in *.
    assert (is_Some (s1.1 !! g)) as [c' Hc'] by (apply W2; right; by eauto).
    pose proof (W1 g) as Hd. rewrite Hc', Hgs in Hd. simpl in Hd.
    replace (pairs_for taskId nReduce g (mapf f content)) with (@nil KeyValue) in Hd.
    - simpl in Hd. rewrite append_nil_r in Hd. congruence.
    - by rewrite pairs_for_none. }
  exists s'. split; [exact Hs|]. unfold emitted in *. simpl.
  split_and!; intros g.
  - rewrite H1, W1. unfold pairs_for. by rewrite filter_app, lines_app, append_assoc.
  - rewrite H2, W2, fmap_app, elem_of_app. tauto.
  - rewrite H3, W3, fmap_app, elem_of_app. tauto.
Qed.

Lemma runMapTask_spec mapf visit fs taskId inputs nReduce :
  visits visit -> nReduce ≠ 0%Z ->
  (forall p, p ∈ inputs -> fs !! p.1 = Some p.2 /\ not_output taskId nReduce p.1) ->
  exists fs' l,
    runMapTask mapf visit fs taskId inputs.*1 nReduce = Ok (fs', Some l) /\ NoDup l /\
    (forall f, f ∈ l <-> f ∈ outFilename taskId nReduce <$> emitted mapf inputs) /\
    (forall f, f ∈ l -> fs' !! f = Some (default "" (fs !! f) +:+
       lines (pairs_for taskId nReduce f (emitted mapf inputs)))) /\
    (forall f, f ∉ l -> fs' !! f = fs !! f).
Proof.
  intros Hv Hn Hin. destruct (map_files_spec mapf taskId nReduce inputs (fs, ∅) Hn Hin)
    as ([fs' created] & Hrun & H1 & H2 & H3). simpl in *.
  assert (forall f, f ∈ visit (dom created) <-> f ∈ outFilename taskId nReduce <$> emitted mapf inputs)
    as Hdom.
  { intros f. rewrite (Hv (dom created)), elem_of_elements, elem_of_dom, H3, lookup_empty.
    split; [intros [?|[? ?]]; done|by left]. }
  exists fs', (visit (dom created)). split; [unfold runMapTask; by rewrite Hrun|].
  split; [rewrite (Hv (dom created)); apply NoDup_elements|]. split_and!; [done|..].
  - intros f Hf. specialize (H1 f). apply Hdom in Hf.
    destruct (proj2 (H2 f)) as [c Hc]; [by left|]. rewrite Hc in *. f_equal. exact H1.
  - intros f Hf. rewrite Hdom in Hf. specialize (H1 f).
    assert (pairs_for taskId nReduce f (emitted mapf inputs) = []) as E.
    { unfold pairs_for. apply list_filter_none. intros kv Hkv Heq. apply Hf. subst f.
      by apply list_elem_of_fmap_2. }
    rewrite E in H1. simpl in H1. rewrite append_nil_r in H1.
    pose proof (H2 f) as Hs. destruct (fs' !! f) as [c|], (fs !! f) as [c'|]; simpl in *;
      [congruence|..|done].
    + destruct (proj1 Hs) as [?|[? ?]]; done.
    + destruct (proj2 Hs) as [? ?]; [right; eauto|done].
Qed.

(** ** Reading the pairs back *)

Definition colon : Ascii.ascii := Ascii.ascii_of_nat 58.
Definition nl : Ascii.ascii := Ascii.ascii_of_nat 10.

(** Pairs the line format can carry: no colon, no line end, no (Unicode) white space at the outer ends. *)
Definition clean (kv : KeyValue) : Prop :=
  count_char colon (Key kv) = 0 /\ count_char colon (Value kv) = 0 /\
  count_char nl (Key kv) = 0 /\ count_char nl (Value kv) = 0 /\
  TrimLeft (Key kv) = Key kv /\ TrimRight (Value kv) = Value kv.

Lemma read_line_pair m kv :
  clean kv ->
  read_line m (Key kv +:+ ":::" +:+ Value kv) = Ok (map_append m (Key kv) (Value kv)).
Proof.
  intros (Hk & Hv & _ & _ & Hl & Hr). unfold read_line.
  pose proof (TrimSpace_sep (Key kv) colon (String colon "") colon (Value kv) Hl Hr) as Ht.
  change (String colon (String colon "" +:+ String colon (Value kv))) with (":::" +:+ Value kv) in Ht.
  rewrite Ht by done. rewrite bool_decide_eq_false_2 by by destruct (Key kv).
  rewrite (Split_first colon "::"), (Split_single colon "::") by done. done.
Qed.

Lemma read_lines kvs m :
  Forall clean kvs -> fold_go read_line (Split (lines kvs) newline) m = Ok (group_by Key Value kvs m).
Proof.
  intros H. revert m. induction H as [|kv kvs Hkv _ IH]; intros m; [done|].
  simpl. replace (write_kv kv +:+ lines kvs)
    with ((Key kv +:+ ":::" +:+ Value kv) +:+ newline +:+ lines kvs)
    by (unfold write_kv; by rewrite !append_assoc).
  pose proof Hkv as (_ & _ & H1 & H2 & _).
  rewrite (Split_first nl ""); [|by rewrite !count_char_app, H1, H2].
  simpl. rewrite read_line_pair by done. simpl. apply IH.
Qed.

Lemma read_files_lines fs files kvss m :
  Forall2 (fun f kvs => fs !! f = Some (lines kvs) /\ Forall clean kvs) files kvss ->
  read_files fs files m = Ok (Some (group_by Key Value (concat kvss) m)).
Proof.
  intros H. revert m. induction H as [|f kvs files kvss [Hf Hc] _ IH]; intros m; [done|].
  simpl. unfold getFileContent. rewrite Hf, read_lines by done. simpl. rewrite IH.
  unfold group_by. by rewrite foldl_app.
Qed.

(** ** What the reduce task writes *)

Definition results (reducef : string -> list string -> string) (m : gmap string (list string))
    (order : list string) : string :=
  foldr (fun k s => write_result reducef m k +:+ s) "" order.

Lemma write_results reducef m out order fs (created : gmap string bool) :
  order ≠ [] ->
  foldl (fun s key => (Append s.1 out (write_result reducef m key), <[out := true]> s.2))
    (fs, created) order
  = (Append fs out (results reducef m order), <[out := true]> created).
Proof.
  revert fs created. induction order as [|k order IH]; intros fs created Hne; [done|]. simpl.
  destruct (decide (order = [])) as [->|Hne'].
  - simpl. by rewrite append_nil_r.
  - rewrite IH by done. unfold Append. rewrite lookup_insert_eq. simpl.
    by rewrite !insert_insert_eq, append_assoc.
Qed.

Lemma visits_singleton visit k : visits visit -> visit {[k]} = [k].
Proof.
  intros Hv. pose proof (Hv {[k]}) as H. rewrite elements_singleton in H.
  by apply Permutation_singleton_r.
Qed.

Lemma runReduceTask_writes reducef visit fs file0 files kvss reduceId :
  visits visit -> Split file0 "-" !! 3 = Some reduceId ->
  Forall2 (fun f kvs => fs !! f = Some (lines kvs) /\ Forall clean kvs) (file0 :: files) kvss ->
  concat kvss ≠ [] ->
  let m := group_by Key Value (concat kvss) ∅ in
  runReduceTask reducef visit fs (file0 :: files) =
    Ok (Append fs ("tempmr-out-" +:+ reduceId) (results reducef m (visit (dom m))),
        Some ["tempmr-out-" +:+ reduceId]).
Proof.
  intros Hv Hs Hf Hne m. unfold runReduceTask.
  change 3%Z with (Z.of_nat 3). rewrite (slice_get_lookup _ _ _ Hs). cbn [go_bind].
  rewrite (read_files_lines _ _ _ _ Hf). cbn [go_bind]. fold m.
  rewrite write_results.
  - unfold mapKeysToSlice. rewrite dom_insert_L, dom_empty_L, union_empty_r_L.
    by rewrite visits_singleton.
  - intros E. pose proof (Hv (dom m)) as Hp. rewrite E in Hp. apply Permutation_nil in Hp.
    apply elements_empty_inv in Hp. unfold m in Hp. rewrite group_by_dom in Hp.
    destruct (concat kvss) as [|kv l]; [done|]. set_solver.
Qed.

(** ** Claims *)

(** C31: The intermediate format is a round trip: a reduce task that reads files holding the
    lines a map task writes for lists of clean pairs gets the pairs back, grouped by key, the
    values of a key in the order of the files and of the lines; it neither panics nor fails. *)
Theorem intermediate_roundtrip fs files kvss :
  Forall2 (fun f kvs => fs !! f = Some (lines kvs) /\ Forall clean kvs) files kvss ->
  exists m, read_files fs files ∅ = Ok (Some m) /\
    forall k, m !! k = if decide (k ∈ Key <$> concat kvss)
                       then Some (Value <$> filter (fun kv => Key kv = k) (concat kvss)) else None.
Proof.
  intros H. eexists. split; [by eapply read_files_lines|]. intros k. destruct (decide _) as [Hk|Hk].
  - by apply group_by_lookup.
  - apply eq_None_not_Some. intros [vs [_ ?]%group_by_lookup]. done.
Qed.

Lemma intermediate_roundtrip_witness :
  exists m, read_files {[ "m-out-0-1" := lines [mkKeyValue "a" "1"; mkKeyValue "b" "1"];
                          "m-out-1-1" := lines [mkKeyValue "a" "1"] ]}
              ["m-out-0-1"; "m-out-1-1"] ∅ = Ok (Some m) /\ m !! "a" = Some ["1"; "1"].
Proof.
  destruct (intermediate_roundtrip
    {[ "m-out-0-1" := lines [mkKeyValue "a" "1"; mkKeyValue "b" "1"];
       "m-out-1-1" := lines [mkKeyValue "a" "1"] ]} ["m-out-0-1"; "m-out-1-1"]
    [[mkKeyValue "a" "1"; mkKeyValue "b" "1"]; [mkKeyValue "a" "1"]]) as (m & Hm & Hk).
  - repeat constructor.
  - exists m. split; [exact Hm|]. rewrite (Hk "a"). vm_compute. reflexivity.
Defined.

(** A map task whose input files exist succeeds: it reports exactly the files it wrote, and
    the file of reducer [r] grows by the lines of exactly the emitted pairs whose key hashes to
    [r], in the order they were emitted; every other file of the directory is unchanged. *)
Theorem runMapTask_partitions mapf visit fs taskId inputs nReduce :
  visits visit -> nReduce ≠ 0%Z ->
  (forall p, p ∈ inputs -> fs !! p.1 = Some p.2 /\ not_output taskId nReduce p.1) ->
  exists fs' l,
    runMapTask mapf visit fs taskId inputs.*1 nReduce = Ok (fs', Some l) /\ NoDup l /\
    (forall f, f ∈ l <-> f ∈ outFilename taskId nReduce <$> emitted mapf inputs) /\
    (forall f, f ∈ l -> fs' !! f = Some (default "" (fs !! f) +:+
       lines (filter (fun kv => outFilename taskId nReduce kv = f) (emitted mapf inputs)))) /\
    (forall f, f ∉ l -> fs' !! f = fs !! f).
Proof. apply runMapTask_spec. Qed.

Lemma runMapTask_partitions_witness :
  exists fs' l, runMapTask (fun _ c => [mkKeyValue c "1"]) elements {[ "in" := "x" ]} 4 ["in"] 10
      = Ok (fs', Some l) /\ NoDup l.
Proof.
  destruct (runMapTask_partitions (fun _ c => [mkKeyValue c "1"]) elements {[ "in" := "x" ]} 4
    [("in", "x")] 10) as (fs' & l & H & Hl & _).
  - intros X. reflexivity.
  - lia.
  - intros p ->%list_elem_of_singleton. split; [reflexivity|]. intros kv. discriminate.
  - exists fs', l. split; [exact H|exact Hl].
Defined.

(** A reduce task that is run again, after an attempt that wrote its temporary file but was
    not reported, appends to that file: the output then holds every line twice. *)
Theorem reduce_rerun_duplicates reducef visit fs file0 files kvss reduceId :
  visits visit -> Split file0 "-" !! 3 = Some reduceId ->
  Forall2 (fun f kvs => fs !! f = Some (lines kvs) /\ Forall clean kvs) (file0 :: files) kvss ->
  concat kvss ≠ [] -> fs !! ("tempmr-out-" +:+ reduceId) = None ->
  let m := group_by Key Value (concat kvss) ∅ in
  let text := results reducef m (visit (dom m)) in
  exists fs1 fs2,
    runReduceTask reducef visit fs (file0 :: files) = Ok (fs1, Some ["tempmr-out-" +:+ reduceId]) /\
    fs1 !! ("tempmr-out-" +:+ reduceId) = Some text /\
    runReduceTask reducef visit fs1 (file0 :: files) = Ok (fs2, Some ["tempmr-out-" +:+ reduceId]) /\
    fs2 !! ("tempmr-out-" +:+ reduceId) = Some (text +:+ text).
Proof.
  intros Hv Hs Hf Hne Hout m text. do 2 eexists.
  split; [by eapply runReduceTask_writes|]. unfold Append at 1. rewrite Hout. simpl.
  split; [by rewrite lookup_insert_eq|]. split.
  - eapply runReduceTask_writes; [done|done| |done].
    eapply Forall2_impl; [exact Hf|]. intros f kvs [Hl Hc]. split; [|done].
    unfold Append. rewrite lookup_insert_ne; [done|]. intros <-. congruence.
  - unfold Append. rewrite lookup_insert_eq. simpl. by rewrite Hout, lookup_insert_eq.
Qed.

Lemma reduce_rerun_duplicates_witness :
  exists fs1 fs2,
    runReduceTask (fun _ _ => "1") elements {[ "m-out-0-7" := lines [mkKeyValue "a" "1"] ]}
      ["m-out-0-7"] = Ok (fs1, Some ["tempmr-out-7"]) /\
    runReduceTask (fun _ _ => "1") elements fs1 ["m-out-0-7"] = Ok (fs2, Some ["tempmr-out-7"]) /\
    fs2 !! "tempmr-out-7" = Some ("a 1" +:+ newline +:+ "a 1" +:+ newline).
Proof.
  destruct (reduce_rerun_duplicates (fun _ _ => "1") elements
    {[ "m-out-0-7" := lines [mkKeyValue "a" "1"] ]} "m-out-0-7" [] [[mkKeyValue "a" "1"]] "7")
    as (fs1 & fs2 & H1 & _ & H2 & H3).
  - intros X. reflexivity.
  - reflexivity.
  - repeat constructor.
  - discriminate.
  - reflexivity.
  - exists fs1, fs2. split; [exact H1|]. split; [exact H2|].
    etransitivity; [exact H3|vm_compute; reflexivity].
Defined.
