(* ===== verification/MrShuffle.v ===== *)
(** * The files between map and reduce

    Lemmas on the files through which map tasks hand their pairs to reduce tasks: the names that
    [src/src/mr/worker.go] and [src/src/mr/coordinator.go] give to temporary, intermediate and output
    files, the renaming of the files of a finished task, and what reduce tasks find when the
    intermediate files hold the pairs [T], whatever tasks have written them. *)

From S2P Require Import Prelude GoStrings Fnv MrCoordinator MrWorker.
From stdpp Require Import pretty.

(** ** File names *)

Definition letter_t : Ascii.ascii := Ascii.ascii_of_nat 116.

Lemma pretty_no_t (z : Z) : (0 <= z)%Z -> count_char letter_t (pretty z) = 0.
Proof.
  intros Hz. apply pretty_chars; [done|]. apply not_digit.
  intros n Hn. do 10 (destruct n as [|n]; [done|]). lia.
Qed.

(** Intermediate and output files. *)
Definition m_name (i r : Z) : string := "m-out-" +:+ pretty i +:+ "-" +:+ pretty r.

Lemma remove_from_app s t : count_char letter_t s = 0 ->
  remove_from "temp" 0 (s +:+ t) = s +:+ remove_from "temp" 0 t.
Proof.
  induction s as [|c s IH]; [done|]. rewrite !append_cons.
  cbn [count_char remove_from String.prefix]. case_bool_decide as Hc; [lia|]. intros H.
  destruct (Ascii.ascii_dec _ c) as [<-|_]; [done|]. by rewrite IH.
Qed.

Lemma remove_from_none s : count_char letter_t s = 0 -> remove_from "temp" 0 s = s.
Proof.
  intros H. rewrite <- (append_nil_r s) at 1. rewrite remove_from_app by done.
  apply append_nil_r.
Qed.

Lemma RemoveAll_m_name i r :
  (0 <= i)%Z -> (0 <= r)%Z -> RemoveAll ("temp" +:+ m_name i r) "temp" = m_name i r.
Proof.
  intros Hi Hr. unfold RemoveAll, m_name.
  change (remove_from "temp" 0 ("temp" +:+ "m-out-" +:+ ?x))
    with ("m-out-" +:+ remove_from "temp" 0 x).
  rewrite remove_from_app by by apply pretty_no_t.
  rewrite remove_from_app by done. by rewrite remove_from_none by by apply pretty_no_t.
Qed.

Lemma RemoveAll_mr_name r :
  (0 <= r)%Z -> RemoveAll ("tempmr-out-" +:+ pretty r) "temp" = "mr-out-" +:+ pretty r.
Proof.
  intros Hr. unfold RemoveAll.
  change (remove_from "temp" 0 ("tempmr-out-" +:+ ?x))
    with ("mr-out-" +:+ remove_from "temp" 0 x).
  by rewrite remove_from_none by by apply pretty_no_t.
Qed.

Lemma Split_m_name i r :
  (0 <= i)%Z -> (0 <= r)%Z -> Split (m_name i r) "-" = ["m"; "out"; pretty i; pretty r].
Proof.
  intros Hi Hr. unfold m_name.
  change ("m-out-" +:+ ?x) with ("m" +:+ "-" +:+ "out" +:+ "-" +:+ x).
  rewrite !(Split_first dash "" "m"), !(Split_first dash "" "out") by done.
  rewrite (Split_first dash "") by by apply pretty_no_dash.
  by rewrite (Split_single dash "") by by apply pretty_no_dash.
Qed.

Lemma reduceId_m_name i r : (0 <= i)%Z -> (0 <= r)%Z -> reduceId (m_name i r) = pretty r.
Proof. intros Hi Hr. unfold reduceId. by rewrite Split_m_name. Qed.

Lemma m_name_inj i r j q :
  (0 <= i)%Z -> (0 <= r)%Z -> (0 <= j)%Z -> (0 <= q)%Z -> m_name i r = m_name j q -> i = j /\ r = q.
Proof.
  intros Hi Hr Hj Hq H. apply (f_equal (fun s => Split s "-")) in H.
  rewrite !Split_m_name in H by done. injection H as H1 H2.
  split; by apply (inj pretty).
Qed.

Lemma pretty_no_slash (z : Z) : (0 <= z)%Z -> count_char slash (pretty z) = 0.
Proof.
  intros Hz. apply pretty_chars; [done|]. apply not_digit.
  intros n Hn. do 10 (destruct n as [|n]; [done|]). lia.
Qed.

Lemma match_m_name i r :
  (0 <= i)%Z -> (0 <= r)%Z -> match_pattern "m-out-*-*" (m_name i r) = true.
Proof.
  intros Hi Hr. unfold m_name. change "m-out-*-*" with ("m-out-" +:+ String star "-*").
  rewrite match_literal by done. apply match_star; [by apply pretty_no_slash|].
  change "-*" with ("-" +:+ "*"). rewrite match_literal by done.
  rewrite <- (append_nil_r (pretty r)). apply match_star; [by apply pretty_no_slash|done].
Qed.

(** ** Renaming the files of a task *)

Lemma renameTempFiles_spec (fs : FS) l :
  NoDup l -> (forall f, f ∈ l -> is_Some (fs !! f)) ->
  (forall f g, f ∈ l -> g ∈ l -> RemoveAll f "temp" ≠ g) ->
  (forall f g, f ∈ l -> g ∈ l -> RemoveAll f "temp" = RemoveAll g "temp" -> f = g) ->
  exists fs', renameTempFiles fs l = (fs', false) /\
    (forall f, f ∈ l -> fs' !! RemoveAll f "temp" = fs !! f) /\
    (forall f, f ∈ l -> fs' !! f = None) /\
    (forall f, f ∉ l -> f ∉ (fun g => RemoveAll g "temp") <$> l -> fs' !! f = fs !! f).
Proof.
  intros Hnd. revert fs. induction Hnd as [|f l Hf Hnd IH]; intros fs Hin Hdis Hinj.
  { exists fs. split_and!; [done|set_solver|set_solver|done]. }
  simpl. unfold Rename. destruct (Hin f) as [c Hc]; [left|]. rewrite Hc.
  set (fs1 := <[RemoveAll f "temp" := c]> (delete f fs)).
  assert (forall g, g ≠ f -> g ≠ RemoveAll f "temp" -> fs1 !! g = fs !! g) as H1.
  { intros g Hg Hg'. unfold fs1. by rewrite lookup_insert_ne, lookup_delete_ne. }
  assert (forall g, g ∈ l -> fs1 !! g = fs !! g) as Hl.
  { intros g Hg. apply H1; [by intros ->|]. intros ->. by apply (Hdis f (RemoveAll f "temp")); [left|right|]. }
  destruct (IH fs1) as (fs' & -> & R1 & R2 & R3).
  - intros g Hg. rewrite Hl by done. apply Hin. by right.
  - intros g h Hg Hh. by apply Hdis; right.
  - intros g h Hg Hh. by apply Hinj; right.
  - assert (forall g, g = f \/ g = RemoveAll f "temp" -> fs' !! g = fs1 !! g) as Hff.
    { intros g Hg. apply R3.
      - intros Hgl. destruct Hg as [->| ->]; [done|]. by apply (Hdis f (RemoveAll f "temp")); [left|right|].
      - intros (h & E & Hh)%list_elem_of_fmap. destruct Hg as [->| ->].
        + by apply (Hdis h f); [right|left|].
        + apply Hf. rewrite (Hinj f h); [done|left|by right|done]. }
    exists fs'. split; [done|]. split_and!.
    + intros g [->|Hg]%elem_of_cons.
      * rewrite Hff by by right. unfold fs1. by rewrite lookup_insert_eq.
      * rewrite R1, Hl by done. done.
    + intros g [->|Hg]%elem_of_cons; [|by apply R2]. rewrite Hff by by left. unfold fs1.
      rewrite lookup_insert_ne, lookup_delete_eq; [done|]. by apply Hdis; left.
    + intros g [Hg1 Hg2]%not_elem_of_cons [Hg3 Hg4]%not_elem_of_cons.
      rewrite R3 by done. by apply H1.
Qed.

(** ** Pairs and their files *)

(** The pairs of [T] that are in file [f]. *)
Definition pairs_of (T : list (string * KeyValue)) (f : string) : list KeyValue :=
  (filter (fun t => t.1 = f) T).*2.

Lemma pairs_of_app T1 T2 f : pairs_of (T1 ++ T2) f = pairs_of T1 f ++ pairs_of T2 f.
Proof. unfold pairs_of. by rewrite filter_app, fmap_app. Qed.

Lemma pairs_of_none T f : f ∉ T.*1 -> pairs_of T f = [].
Proof.
  intros Hf. unfold pairs_of. rewrite list_filter_none; [done|]. intros t Ht <-. apply Hf.
  by apply list_elem_of_fmap_2.
Qed.

(** The intermediate files hold the pairs [T]. *)
Definition mid (T : list (string * KeyValue)) (fs : FS) : Prop :=
  forall f, String.prefix "m-out-" f = true ->
    fs !! f = if decide (f ∈ T.*1) then Some (lines (pairs_of T f)) else None.

(** The intermediate files of a reducer id, and the ids. *)
Definition files_of (fs : FS) (k : string) : list string :=
  filter (fun f => reduceId f = k) (Glob fs "m-out-*-*").

Section Shuffle.
Context (visit : gset string -> list string) (nReduce : Z).

(** The reducer of a key. *)
Definition bucket (key : string) : Z := Z.rem (ihash key) nReduce.

Lemma outFilename_m_name i kv : outFilename i nReduce kv = "temp" +:+ m_name i (bucket (Key kv)).
Proof. reflexivity. Qed.

(** Every pair is in a file of its reducer. *)
Definition tagged (T : list (string * KeyValue)) : Prop :=
  forall t, t ∈ T -> exists i, (0 <= i)%Z /\ t.1 = m_name i (bucket (Key t.2)).

Definition reduce_ids (fs : FS) : list string :=
  visit (dom (group_by reduceId id (Glob fs "m-out-*-*") ∅)).

(** The pairs a reduce task reads, and what it writes. *)
Definition pairs_in (T : list (string * KeyValue)) (fs : FS) (k : string) : list KeyValue :=
  concat (pairs_of T <$> files_of fs k).

Definition grouped (T : list (string * KeyValue)) (fs : FS) (k : string) : gmap string (list string) :=
  group_by Key Value (pairs_in T fs k) ∅.

Definition output (reducef : string -> list string -> string) (T : list (string * KeyValue)) (fs : FS) (k : string) : string :=
  results reducef (grouped T fs k) (visit (dom (grouped T fs k))).

Hypothesis Hvisit : visits visit.
Hypothesis HnReduce : (0 < nReduce)%Z.

Lemma bucket_range key : (0 <= bucket key < nReduce)%Z.
Proof.
  pose proof (ihash_range key). unfold bucket.
  rewrite Z.rem_mod_nonneg by lia. apply Z.mod_pos_bound. lia.
Qed.

Context (T : list (string * KeyValue)) (HT : tagged T).

Lemma tagged_reduceId t : t ∈ T -> reduceId t.1 = pretty (bucket (Key t.2)).
Proof.
  intros (i & Hi & ->)%HT. apply reduceId_m_name; [done|apply bucket_range].
Qed.

Lemma tagged_name f : f ∈ T.*1 -> exists i r, f = m_name i r /\ (0 <= i)%Z /\ (0 <= r)%Z.
Proof.
  intros (t & -> & (i & Hi & ->)%HT)%list_elem_of_fmap. eexists i, _. split; [done|].
  pose proof (bucket_range (Key t.2)). lia.
Qed.

Context (fs : FS) (Hfs : mid T fs).

Lemma mid_lookup f : f ∈ T.*1 -> fs !! f = Some (lines (pairs_of T f)).
Proof.
  intros Hf. rewrite Hfs, decide_True; [done|done|].
  apply tagged_name in Hf as (i & r & -> & _). unfold m_name. apply GoStrings.prefix_app.
Qed.

Lemma Glob_names f : f ∈ Glob fs "m-out-*-*" <-> f ∈ T.*1.
Proof.
  rewrite elem_of_Glob. split.
  - intros [Hs Hm]. apply (match_prefix "m-out-" "*-*") in Hm; [|done]. rewrite Hfs in Hs by done.
    destruct (decide _); [done|by destruct Hs].
  - intros Ht. rewrite mid_lookup by done. split; [done|].
    apply tagged_name in Ht as (i & r & -> & Hi & Hr). by apply match_m_name.
Qed.

Lemma elem_of_files_of f k : f ∈ files_of fs k <-> f ∈ T.*1 /\ reduceId f = k.
Proof. unfold files_of. rewrite list_elem_of_filter, Glob_names. tauto. Qed.

(** The pairs a reduce task reads are those whose key hashes to it. *)
Lemma pairs_in_perm r :
  pairs_in T fs (pretty r) ≡ₚ filter (fun kv => bucket (Key kv) = r) T.*2.
Proof.
  set (P := fun t : string * KeyValue => reduceId t.1 = pretty r).
  assert ((filter P T).*2 = filter (fun kv => bucket (Key kv) = r) T.*2) as <-.
  { apply filter_fmap_snd. intros t Ht. unfold P. rewrite tagged_reduceId by done.
    split; [apply (inj pretty)|by intros ->]. }
  assert (pairs_in T fs (pretty r)
    = (concat ((fun f => filter (fun t => t.1 = f) (filter P T)) <$> files_of fs (pretty r))).*2) as ->.
  { rewrite fmap_concat, <- list_fmap_compose. unfold pairs_in. f_equal. apply list_fmap_ext.
    intros i f Hi%list_elem_of_lookup_2. apply list_elem_of_filter in Hi as [Hi _].
    unfold pairs_of. simpl. f_equal. rewrite list_filter_filter.
    apply list_filter_iff. intros t. unfold P. split; [intros <-; done|by intros []]. }
  apply fmap_Permutation, concat_filter_perm.
  - apply NoDup_filter, NoDup_Glob.
  - intros t [Ht Hin]%list_elem_of_filter. apply elem_of_files_of. split; [|done].
    by apply list_elem_of_fmap_2.
Qed.

Lemma reduce_ids_elem k :
  k ∈ reduce_ids fs <-> exists kv, kv ∈ T.*2 /\ k = pretty (bucket (Key kv)).
Proof.
  unfold reduce_ids.
  rewrite (Hvisit _), elem_of_elements, group_by_dom, dom_empty_L, union_empty_l_L.
  rewrite elem_of_list_to_set, list_elem_of_fmap. setoid_rewrite Glob_names. split.
  - intros (f & -> & (t & -> & Ht)%list_elem_of_fmap). exists t.2.
    split; [by apply list_elem_of_fmap_2|]. by apply tagged_reduceId.
  - intros (kv & (t & -> & Ht)%list_elem_of_fmap & ->). exists t.1.
    split; [by rewrite tagged_reduceId|by apply list_elem_of_fmap_2].
Qed.

Lemma NoDup_reduce_ids : NoDup (reduce_ids fs).
Proof. unfold reduce_ids. rewrite (Hvisit _). apply NoDup_elements. Qed.

(** No more reduce tasks than reducers. *)
Lemma length_reduce_ids : length (reduce_ids fs) <= Z.to_nat nReduce.
Proof.
  rewrite <- (length_seqZ 0 nReduce), <- (length_fmap (pretty (A := Z))).
  apply submseteq_length, NoDup_submseteq; [apply NoDup_reduce_ids|].
  intros k (kv & _ & ->)%reduce_ids_elem. apply list_elem_of_fmap_2, elem_of_seqZ.
  pose proof (bucket_range (Key kv)). lia.
Qed.

(** The files of a reduce task: never none, named after its id, and readable in every directory
    with the same intermediate files. *)
Lemma files_of_spec fs1 k :
  Forall clean T.*2 -> mid T fs1 -> k ∈ reduce_ids fs ->
  exists f fl, files_of fs k = f :: fl /\ Split f "-" !! 3 = Some k /\
    Forall2 (fun f kvs => fs1 !! f = Some (lines kvs) /\ Forall clean kvs) (f :: fl)
      (pairs_of T <$> f :: fl) /\ pairs_in T fs k ≠ [].
Proof.
  intros Hcl Hfs1 (kv & Hkv & ->)%reduce_ids_elem.
  assert (pairs_in T fs (pretty (bucket (Key kv))) ≠ []) as Hne.
  { intros E. pose proof (pairs_in_perm (bucket (Key kv))) as Hp. rewrite E in Hp.
    apply (not_elem_of_nil kv). rewrite Hp. by apply list_elem_of_filter. }
  destruct (files_of fs _) as [|f fl] eqn:E; [unfold pairs_in in Hne; by rewrite E in Hne|].
  exists f, fl. split; [done|]. rewrite <- E. split_and!; [| |done].
  - assert (f ∈ T.*1 /\ reduceId f = pretty (bucket (Key kv))) as [Hft Hid]
      by (apply elem_of_files_of; rewrite E; left).
    apply tagged_name in Hft as (i & r & -> & Hi & Hr0).
    rewrite reduceId_m_name in Hid by lia. rewrite Split_m_name by lia. simpl. by rewrite Hid.
  - apply Forall2_fmap_r, Forall_Forall2_diag, Forall_forall. intros g [Hg Hid]%elem_of_files_of. split.
    + rewrite Hfs1, decide_True; [done|done|].
      apply tagged_name in Hg as (i & r & -> & _). unfold m_name. apply GoStrings.prefix_app.
    + unfold pairs_of. apply Forall_forall. intros kv' (t & -> & [_ Ht]%list_elem_of_filter)%list_elem_of_fmap.
      rewrite Forall_forall in Hcl. by apply Hcl, list_elem_of_fmap_2.
Qed.

(** What an output file holds: the keys of a reducer, and all their values. *)
Lemma output_spec r :
  let m := grouped T fs (pretty r) in
  NoDup (visit (dom m)) /\
  (forall k, k ∈ visit (dom m) <-> k ∈ Key <$> T.*2 /\ bucket k = r) /\
  (forall k, bucket k = r ->
     default [] (m !! k) ≡ₚ Value <$> filter (fun kv => Key kv = k) T.*2).
Proof.
  intros m. pose proof (pairs_in_perm r) as Hp. split_and!.
  - rewrite (Hvisit _). apply NoDup_elements.
  - intros k. rewrite (Hvisit _), elem_of_elements. unfold m, grouped.
    rewrite group_by_dom, dom_empty_L, union_empty_l_L, elem_of_list_to_set, Hp.
    rewrite !list_elem_of_fmap. setoid_rewrite list_elem_of_filter. naive_solver.
  - intros k Hk. unfold m, grouped. rewrite group_by_default, lookup_empty. simpl.
    apply fmap_Permutation. rewrite Hp, list_filter_filter_l; [done|]. by intros kv <-.
Qed.
End Shuffle.
