(* ===== verification/MrJob.v ===== *)
(** * A whole MapReduce job

    The loop of [Worker] in [src/src/mr/worker.go] against the coordinator: a worker asks for a
    task, runs it and reports it, until there is no task; meanwhile [main] of
    [src/src/main/mrcoordinator.go] polls [Done], which gives up tasks that take longer than ten
    seconds.  One worker that does not crash and is in time runs a job to its end, and the output
    files then hold, for every emitted key, the result of the reduce function on all its values. *)

From S2P Require Import Prelude GoStrings Fnv MrCoordinator MrWorker MrShuffle.
From stdpp Require Import pretty.

(** ** The worker's loop *)

Section Worker.
Context (mapf : string -> string -> list KeyValue) (reducef : string -> list string -> string).
Context (visit : gset string -> list string).

(** The request of a finished task; the flag is the error of the call, which is that of the
    handler.  The map that [createReduceTasks] visits, if it is called, is that of the directory
    after the renames. *)
Definition rpcTaskDone (c : Coordinator) (fs : FS) (workerId taskId : Z) (filesCreated : list string) :
    go (Coordinator * FS * bool) :=
  let m := group_by reduceId id (Glob (renameTempFiles fs filesCreated).1 "m-out-*-*") ∅ in
  TaskDone c fs (mkTaskDoneReq workerId taskId filesCreated) (mapKeysToSlice visit m).

(** A case of the switch after its task was run: an error of the task ([None]) or of the report
    is fatal. *)
Definition report (msg : string) (c : Coordinator) (workerId taskId : Z)
    (r : FS * option (list string)) : go (Coordinator * FS) :=
  match r with
  | (_, None) => Fatal msg
  | (fs, Some filesCreated) =>
      let! x := rpcTaskDone c fs workerId taskId filesCreated in
      let '(c, fs, err) := x in
      if err : bool then Fatal "error in rpcTaskDone" else Ok (c, fs)
  end.

(** The polls of [main] while the worker has a task: the readings of the clock in each. *)
Definition polled (polls : list (nat -> Z)) (c : Coordinator) (fs : FS) : Coordinator * FS :=
  foldl (fun s clock => (Done s.1 s.2 clock).1) (c, fs) polls.

(** One turn of the loop, which gets its task at the time [now]; the flag says that a task was run. *)
Definition worker_turn (w now : Z) (polls : list (nat -> Z)) (c : Coordinator) (fs : FS) :
    go (Coordinator * FS * bool) :=
  let! x := GetTask c w now in
  let '(c, res) := x in
  match res_TaskType res with
  | TaskTypeMap =>
      let! r := runMapTask mapf visit fs (res_TaskId res) (res_Files res) (res_NReduce res) in
      let '(c, fs) := polled polls c r.1 in
      let! s := report "error in runMapTask" c w (res_TaskId res) (fs, r.2) in Ok (s, true)
  | TaskTypeReduce =>
      let! r := runReduceTask reducef visit fs (res_Files res) in
      let '(c, fs) := polled polls c r.1 in
      let! s := report "error in runReduceTask" c w (res_TaskId res) (fs, r.2) in Ok (s, true)
  | _ => Ok (c, fs, false)
  end.

(** Turns until there is no task, when the source sleeps before it asks again, or exits; the flag
    says that this was reached.  [now] is the clock at each turn, [polls] the polls during it. *)
Fixpoint worker_loop (fuel : nat) (w : Z) (now : nat -> Z) (polls : nat -> list (nat -> Z))
    (c : Coordinator) (fs : FS) :
    go (Coordinator * FS * bool) :=
  match fuel with
  | 0 => Ok (c, fs, false)
  | S fuel =>
      let! x := worker_turn w (now fuel) (polls fuel) c fs in
      let '(c, fs, ran) := x in
      if ran : bool then worker_loop fuel w now polls c fs else Ok (c, fs, true)
  end.

Definition Worker (fuel : nat) (now : nat -> Z) (polls : nat -> list (nat -> Z)) (c : Coordinator) (fs : FS) :
    go (Coordinator * FS * bool) :=
  let '(c, w) := RegisterWorker c in worker_loop fuel w now polls c fs.
End Worker.

(** No poll comes more than ten seconds after the turn's task was handed out. *)
Definition in_time (now : nat -> Z) (polls : nat -> list (nat -> Z)) : Prop :=
  forall j clock i, clock ∈ polls j -> (clock i <= now j + 10)%Z.

(** ** The coordinator's answers to a lone worker *)

Definition completed (t : task) : Prop := status t = taskStatusCompleted.

Lemma GetTask_next c w now d t rest :
  tasks c = d ++ t :: rest -> Forall completed d -> status t = taskStatusIdle ->
  w < length (workers c) ->
  exists ws, length ws = length (workers c) /\
    GetTask c (Z.of_nat w) now =
      Ok (set_workers (set_tasks c
            (d ++ mktask (files t) taskStatusInProgress now (taskType t) :: rest)) ws,
          mkGetTaskRes (files t) (c_nReduce c) (taskType t) (Z.of_nat (length d))).
Proof.
  intros Hc Hd Ht Hw. apply lookup_lt_is_Some_2 in Hw as [wk Hwk].
  eexists. split; cycle 1.
  - unfold GetTask, findIdleTask. rewrite Hc, list_find_app_r.
    + simpl. rewrite decide_True by done. simpl. rewrite Nat2Z.id.
      unfold set_worker_task. simpl. rewrite (slice_get_lookup _ _ _ Hwk). simpl.
      rewrite insert_app_r_alt, Nat.sub_diag by lia. reflexivity.
    + apply list_find_None. eapply Forall_impl; [exact Hd|]. unfold completed. congruence.
  - by rewrite length_insert.
Qed.

Lemma GetTask_none c w now :
  Forall completed (tasks c) -> w < length (workers c) ->
  exists ws, GetTask c (Z.of_nat w) now =
    Ok (set_workers c ws, mkGetTaskRes [] 0 TaskTypeNoTask 0).
Proof.
  intros Hd [wk Hwk]%lookup_lt_is_Some_2. eexists. unfold GetTask, findIdleTask.
  replace (list_find _ _) with (@None (nat * task)).
  - unfold set_worker_task. rewrite (slice_get_lookup _ _ _ Hwk). reflexivity.
  - symmetry. apply list_find_None. eapply Forall_impl; [exact Hd|]. unfold completed. congruence.
Qed.

(** Polls during a turn whose task is in time find nothing to do. *)
Lemma timeout_none now c l :
  (forall it, it ∈ l -> expired c (now it.1) it.2 = false) -> foldl (timeout_step now) c l = c.
Proof.
  induction l as [|[i t] l IH]; intros H; [done|]. simpl.
  pose proof (H (i, t) (list_elem_of_here _ _)) as E. simpl in E. rewrite E. apply IH. intros it Hit. apply H. by right.
Qed.

Lemma Done_quiet c fs clock d t rest now :
  tasks c = d ++ t :: rest -> Forall completed d -> status t = taskStatusInProgress -> startTime t = now ->
  Forall (fun t => status t = taskStatusIdle) rest -> timeoutSecs c = 10%Z -> c_phase c ≠ phaseShutdown ->
  (forall i, clock i <= now + 10)%Z -> Done c fs clock = (c, fs, false).
Proof.
  intros Hc Hd Ht Hst Hrest Hto Hph Hclock. unfold Done, timeoutTasks. rewrite timeout_none.
  - destruct (c_phase c); [done| |done]. assert (existsb unfinished (tasks c) = true) as ->; [|done].
    apply existsb_exists. exists t. rewrite Hc. split; [apply list_elem_of_In; set_solver|].
    unfold unfinished. rewrite Ht. done.
  - intros [i x] (j & y & [= -> ->] & Hx)%elem_of_lookup_imap. unfold expired. simpl.
    apply list_elem_of_lookup_2 in Hx. rewrite Hc in Hx. rewrite Forall_forall in Hd, Hrest.
    apply elem_of_app in Hx as [Hx|[->|Hx]%elem_of_cons].
    + rewrite bool_decide_eq_false_2; [done|]. rewrite (Hd y Hx). done.
    + rewrite (bool_decide_eq_false_2 (_ < _)%Z), andb_false_r; [done|]. specialize (Hclock j). lia.
    + rewrite bool_decide_eq_false_2; [done|]. rewrite (Hrest y Hx). done.
Qed.

Lemma polled_quiet polls c fs d t rest now :
  tasks c = d ++ t :: rest -> Forall completed d -> status t = taskStatusInProgress -> startTime t = now ->
  Forall (fun t => status t = taskStatusIdle) rest -> timeoutSecs c = 10%Z -> c_phase c ≠ phaseShutdown ->
  (forall clock i, clock ∈ polls -> clock i <= now + 10)%Z -> polled polls c fs = (c, fs).
Proof.
  intros Hc Hd Ht Hst Hrest Hto Hph. unfold polled. induction polls as [|p polls IH]; intros Hp; [done|].
  simpl. erewrite Done_quiet by (done || (intros i; apply Hp; left)). simpl. apply IH. intros q i Hq. apply Hp. by right.
Qed.

(** The coordinator after a report. *)
Definition mark (c : Coordinator) (d : list task) (t : task) (rest : list task) : Coordinator :=
  set_tasks c (d ++ set_status taskStatusCompleted t :: rest).

Lemma report_Ok visit msg c w d t rest fs created fs' :
  tasks c = d ++ t :: rest -> status t = taskStatusInProgress ->
  renameTempFiles fs created = (fs', false) ->
  report visit msg c w (Z.of_nat (length d)) (fs, Some created) =
    let c := mark c d t rest in
    match taskType t with
    | TaskTypeMap =>
        let c := set_counts c (numMapTasks c - 1) (numReduceTasks c) (c_phase c) in
        if bool_decide (numMapTasks c = 0%Z) then
          let c := createReduceTasks c fs'
            (visit (dom (group_by reduceId id (Glob fs' "m-out-*-*") ∅))) in
          Ok (set_counts c (numMapTasks c) (numReduceTasks c) phaseReduce, fs')
        else Ok (c, fs')
    | TaskTypeReduce =>
        let c := set_counts c (numMapTasks c) (numReduceTasks c - 1) (c_phase c) in
        if bool_decide (numReduceTasks c = 0%Z)
        then Ok (set_counts c (numMapTasks c) (numReduceTasks c) phaseShutdown, fs')
        else Ok (c, fs')
    | _ => Ok (c, fs)
    end.
Proof.
  intros Hc Ht Hr. unfold report, rpcTaskDone, TaskDone, mapKeysToSlice, mark. simpl. rewrite Hr, Hc.
  assert ((d ++ t :: rest) !! length d = Some t) as Hl
    by (rewrite lookup_app_r by lia; by rewrite Nat.sub_diag).
  rewrite (slice_get_lookup _ _ _ Hl). simpl. rewrite bool_decide_eq_false_2 by congruence.
  rewrite Nat2Z.id, insert_app_r_alt, Nat.sub_diag by lia. simpl.
  destruct (taskType t); simpl; try done; by case_bool_decide.
Qed.

(** ** The job of a lone worker *)

Section Job.
Context (mapf : string -> string -> list KeyValue) (reducef : string -> list string -> string).
Context (visit : gset string -> list string).
Context (nReduce : Z) (inputs : list (string * string)) (fs0 : FS).

(** The emitted pairs with the files they go to. *)
Local Abbreviation bucket := (bucket nReduce).

Definition tag (i : Z) (p : string * string) : list (string * KeyValue) :=
  (fun kv => (m_name i (bucket (Key kv)), kv)) <$> mapf p.1 p.2.

Definition tags (l : list (string * string)) : list (string * KeyValue) :=
  concat (imap (fun i p => tag (Z.of_nat i) p) l).

(** The files the job writes. *)
Definition own_file (f : string) : bool :=
  String.prefix "m-out-" f || String.prefix "mr-out-" f || String.prefix "temp" f.

(** A directory the job can start in: it holds the input files and none of the job's own. *)
Record ready : Prop := {
  ready_visit : visits visit;
  ready_nReduce : (0 < nReduce)%Z;
  ready_inputs : forall p, p ∈ inputs -> fs0 !! p.1 = Some p.2;
  ready_fresh : forall f, own_file f = true -> fs0 !! f = None
}.

(** The directory when the map tasks of the tagged pairs [T] are done. *)
Definition holds (T : list (string * KeyValue)) (fs : FS) : Prop :=
  forall f, fs !! f = if decide (f ∈ T.*1) then Some (lines (pairs_of T f)) else fs0 !! f.

Hypothesis Hready : ready.

Lemma bucket_nonneg key : (0 <= bucket key)%Z.
Proof. apply bucket_range, (ready_nReduce Hready). Qed.

Lemma elem_of_tag f i p :
  f ∈ (tag i p).*1 <-> exists kv, kv ∈ mapf p.1 p.2 /\ f = m_name i (bucket (Key kv)).
Proof.
  unfold tag. rewrite <- list_fmap_compose, list_elem_of_fmap. naive_solver.
Qed.

Lemma tags_snoc l p : tags (l ++ [p]) = tags l ++ tag (Z.of_nat (length l)) p.
Proof.
  unfold tags. rewrite imap_app, concat_app. simpl. by rewrite Nat.add_0_r, app_nil_r.
Qed.

Lemma elem_of_tags t l :
  t ∈ tags l <-> exists i p, l !! i = Some p /\ t ∈ tag (Z.of_nat i) p.
Proof.
  induction l as [|p l IH] using rev_ind.
  - split; [by intros ?%not_elem_of_nil|]. by intros (i & p & ? & _).
  - rewrite tags_snoc, elem_of_app, IH. split.
    + intros [(i & q & Hi & Ht)|Ht].
      * exists i, q. split; [|done]. by apply lookup_app_l_Some.
      * exists (length l), p. split; [|done]. by apply list_lookup_middle.
    + intros (i & q & Hi & Ht). apply lookup_app_Some in Hi as [Hi|[Hl Hi]]; [left; eauto|].
      right. apply list_lookup_singleton_Some in Hi as [Hi ->].
      by replace (length l) with i by lia.
Qed.

Lemma tags_names f l :
  f ∈ (tags l).*1 -> exists i r, f = m_name (Z.of_nat i) r /\ i < length l /\ (0 <= r)%Z.
Proof.
  intros (t & -> & (i & p & Hi & Ht)%elem_of_tags)%list_elem_of_fmap.
  assert (t.1 ∈ (tag (Z.of_nat i) p).*1) as (kv & _ & ->)%elem_of_tag by by apply list_elem_of_fmap_2.
  exists i, (bucket (Key kv)). split_and!; [done|by eapply lookup_lt_Some|apply bucket_nonneg].
Qed.

Lemma tags_emitted l : (tags l).*2 = emitted mapf l.
Proof.
  induction l as [|p l IH] using rev_ind; [done|].
  rewrite tags_snoc, fmap_app, IH. unfold emitted. rewrite fmap_app, concat_app. simpl.
  rewrite app_nil_r. f_equal. unfold tag. rewrite <- list_fmap_compose. apply list_fmap_id.
Qed.

Lemma pairs_of_tag i p r :
  pairs_of (tag i p) (m_name i r)
  = pairs_for i nReduce ("temp" +:+ m_name i r) (emitted mapf [p]).
Proof.
  unfold pairs_of, tag, pairs_for, emitted. simpl. rewrite app_nil_r.
  induction (mapf p.1 p.2) as [|kv l IH]; [done|]. rewrite fmap_cons, !filter_cons. simpl.
  destruct (decide (m_name i (bucket (Key kv)) = m_name i r)) as [E|E].
  - rewrite decide_True by (by rewrite outFilename_m_name, E). simpl. by f_equal.
  - rewrite decide_False; [done|]. rewrite outFilename_m_name. intros H. apply E. by apply (inj (String.append "temp")) in H.
Qed.

(** ** The map tasks *)

Lemma temp_not_tagged l f : "temp" +:+ f ∉ (tags l).*1.
Proof. intros (i & r & E & _)%tags_names. discriminate. Qed.

Lemma temp_fresh l fs f : holds (tags l) fs -> fs !! ("temp" +:+ f) = None.
Proof.
  intros Hf. rewrite Hf, decide_False by apply temp_not_tagged.
  apply (ready_fresh Hready). unfold own_file. rewrite (GoStrings.prefix_app "temp" f). by rewrite orb_true_r.
Qed.

Lemma input_kept l fs p : p ∈ inputs -> holds (tags l) fs -> fs !! p.1 = Some p.2.
Proof.
  intros Hp Hf. pose proof (ready_inputs Hready p Hp) as Hi. rewrite Hf, decide_False; [done|].
  intros (i & r & E & _)%tags_names. rewrite (ready_fresh Hready) in Hi; [done|]. rewrite E.
  unfold own_file. unfold m_name. by rewrite GoStrings.prefix_app.
Qed.

Lemma input_not_output i p : p ∈ inputs -> not_output i nReduce p.1.
Proof.
  intros Hp kv E. pose proof (ready_inputs Hready p Hp) as Hi.
  rewrite (ready_fresh Hready) in Hi; [done|]. rewrite <- E, outFilename_m_name. unfold own_file.
  rewrite (GoStrings.prefix_app "temp"). by rewrite orb_true_r.
Qed.

(** The temporary files of a map task become its intermediate files. *)
Lemma map_rename i fs1 created p :
  (0 <= i)%Z -> NoDup created ->
  (forall f, f ∈ created <-> f ∈ outFilename i nReduce <$> emitted mapf [p]) ->
  (forall f, f ∈ created -> is_Some (fs1 !! f)) ->
  exists fs2, renameTempFiles fs1 created = (fs2, false) /\
    (forall f, f ∈ (tag i p).*1 -> fs2 !! f = fs1 !! ("temp" +:+ f)) /\
    (forall f, f ∈ created -> fs2 !! f = None) /\
    (forall f, f ∉ created -> f ∉ (tag i p).*1 -> fs2 !! f = fs1 !! f).
Proof.
  intros Hi Hnd Hc Hs.
  assert (forall f, f ∈ created <-> exists g, g ∈ (tag i p).*1 /\ f = "temp" +:+ g) as Hc'.
  { intros f. rewrite Hc. unfold emitted. simpl. rewrite app_nil_r, list_elem_of_fmap.
    setoid_rewrite elem_of_tag. setoid_rewrite outFilename_m_name. naive_solver. }
  assert (forall g, g ∈ (tag i p).*1 -> RemoveAll ("temp" +:+ g) "temp" = g) as Hr.
  { intros g (kv & _ & ->)%elem_of_tag. apply RemoveAll_m_name; [lia|apply bucket_nonneg]. }
  assert (forall g h, g ∈ (tag i p).*1 -> g ≠ "temp" +:+ h) as Ht.
  { intros g h (kv & _ & ->)%elem_of_tag. discriminate. }
  destruct (renameTempFiles_spec fs1 created Hnd Hs) as (fs2 & Hren & R1 & R2 & R3).
  - intros f g (f' & Hf & ->)%Hc' (g' & Hg & ->)%Hc'. rewrite Hr by done. by apply Ht.
  - intros f g (f' & Hf & ->)%Hc' (g' & Hg & ->)%Hc'. rewrite !Hr by done. congruence.
  - exists fs2. split_and!; [done| |done|].
    + intros f Hf. rewrite <- R1 by (apply Hc'; eauto). by rewrite Hr.
    + intros f Hf Hf'. apply R3; [done|].
      intros (g & -> & (g' & Hg & ->)%Hc')%list_elem_of_fmap. rewrite Hr in Hf' by done. done.
Qed.

Lemma map_step l p fs :
  p ∈ inputs -> holds (tags l) fs ->
  exists fs1 created fs2,
    runMapTask mapf visit fs (Z.of_nat (length l)) [p.1] nReduce = Ok (fs1, Some created) /\
    renameTempFiles fs1 created = (fs2, false) /\ holds (tags (l ++ [p])) fs2.
Proof.
  intros Hp Hf. destruct (runMapTask_spec mapf visit fs (Z.of_nat (length l)) [p] nReduce)
    as (fs1 & created & Hrun & Hnd & Hc & H1 & H2).
  { apply (ready_visit Hready). } { pose proof (ready_nReduce Hready). lia. }
  { intros q ->%list_elem_of_singleton. split; [by eapply input_kept|by apply input_not_output]. }
  destruct (map_rename (Z.of_nat (length l)) fs1 created p ltac:(lia) Hnd Hc) as (fs2 & Hren & R1 & R2 & R3).
  { intros f Hin. rewrite H1 by done. done. }
  exists fs1, created, fs2. split_and!; [done|done|]. intros f.
  rewrite tags_snoc, pairs_of_app, fmap_app.
  destruct (decide (f ∈ (tag (Z.of_nat (length l)) p).*1)) as [Ht|Ht].
  - rewrite decide_True by (apply elem_of_app; by right). rewrite R1 by done.
    apply elem_of_tag in Ht as (kv & Hkv & ->).
    rewrite H1; [|apply Hc; rewrite <- outFilename_m_name; apply list_elem_of_fmap_2;
      unfold emitted; simpl; by rewrite app_nil_r].
    rewrite (temp_fresh l fs) by done. rewrite <- pairs_of_tag, (pairs_of_none (tags l)); [done|].
    intros (i & r & E & Hi & Hr)%tags_names. pose proof (bucket_nonneg (Key kv)).
    apply m_name_inj in E; lia.
  - rewrite (pairs_of_none (tag _ _)), app_nil_r by done.
    transitivity (fs !! f); [|rewrite Hf; apply decide_ext; set_solver].
    destruct (decide (f ∈ created)) as [Hcr|Hcr]; [|by rewrite R3, H2].
    rewrite R2 by done. apply Hc in Hcr as (kv & -> & _)%list_elem_of_fmap.
    rewrite outFilename_m_name. by rewrite (temp_fresh l).
Qed.

(** The coordinator when the inputs [l] are mapped and the inputs [rest] are left. *)
Record mapping (w : nat) (c : Coordinator) (l rest : list (string * string)) : Prop := {
  mapping_tasks : exists d, tasks c = d ++ createMapTasks rest.*1 /\ Forall completed d /\
    length d = length l;
  mapping_counts : numMapTasks c = Z.of_nat (length rest) /\ numReduceTasks c = 0%Z;
  mapping_nReduce : c_nReduce c = nReduce;
  mapping_worker : w < length (workers c);
  mapping_phase : c_phase c = phaseMap /\ timeoutSecs c = 10%Z
}.

Definition reduce_task (fs : FS) (k : string) : task :=
  mktask (filter (fun f => reduceId f = k) (Glob fs "m-out-*-*")) taskStatusIdle 0 TaskTypeReduce.

(** The coordinator when the reduce tasks of the ids [order] are left, made from the
    intermediate files of [fs]. *)
Record reducing (w : nat) (fs : FS) (c : Coordinator) (order : list string) : Prop := {
  reducing_tasks : exists d, tasks c = d ++ (reduce_task fs <$> order) /\ Forall completed d;
  reducing_count : numReduceTasks c = Z.of_nat (length order);
  reducing_phase : c_phase c ≠ phaseMap;
  reducing_worker : w < length (workers c);
  reducing_polls : timeoutSecs c = 10%Z /\ (order ≠ [] -> c_phase c = phaseReduce)
}.

Lemma completed_snoc d t : Forall completed d -> Forall completed (d ++ [set_status taskStatusCompleted t]).
Proof. intros Hd. apply Forall_app. split; [done|]. by constructor. Qed.

Lemma idle_map_tasks l : Forall (fun t => status t = taskStatusIdle) (createMapTasks l).
Proof. apply Forall_fmap, Forall_forall. done. Qed.

Lemma map_turn w now polls c fs l p rest :
  (forall clock i, clock ∈ polls -> clock i <= now + 10)%Z -> p ∈ inputs -> mapping w c l (p :: rest) -> holds (tags l) fs ->
  exists c' fs', worker_turn mapf reducef visit (Z.of_nat w) now polls c fs = Ok (c', fs', true) /\
    holds (tags (l ++ [p])) fs' /\
    match rest with
    | [] => reducing w fs' c' (reduce_ids visit fs')
    | _ => mapping w c' (l ++ [p]) rest
    end.
Proof.
  intros Hpolls Hp [(d & Ht & Hd & Hl) [Hm Hr] Hn Hw [Hph Hto]] Hf. simpl in Ht.
  destruct (GetTask_next c w now d _ _ Ht Hd eq_refl Hw) as (ws & Hws & HG).
  destruct (map_step l p fs Hp Hf) as (fs1 & created & fs2 & Hrun & Hren & Hf').
  unfold worker_turn. rewrite HG. cbn -[report polled]. rewrite Hn, Hl, Hrun. cbn -[report polled].
  erewrite polled_quiet; [|reflexivity|exact Hd|reflexivity|reflexivity|apply idle_map_tasks|exact Hto| |exact Hpolls];
    [|simpl; congruence]. rewrite <- Hl.
  erewrite report_Ok; [|reflexivity|reflexivity|exact Hren]. simpl. rewrite Hm.
  case_bool_decide as Hz; simpl in Hz.
  - assert (rest = []) as -> by (destruct rest; [done|simpl in Hz; lia]). simpl.
    do 2 eexists. split; [reflexivity|]. split; [exact Hf'|].
    match goal with |- reducing _ _ (set_counts (createReduceTasks ?c _ _) _ _ _) _ =>
      destruct (createReduceTasks_files c fs2 (reduce_ids visit fs2)) as (Hnew & _) end.
    { apply (ready_visit Hready). }
    split; simpl; [|rewrite Hr; done|done|lia|done]. eexists.
    split; [exact Hnew|]. by apply (completed_snoc d).
  - do 2 eexists. split; [reflexivity|]. split; [exact Hf'|].
    destruct rest as [|q rest]; [simpl in Hz; lia|].
    split; simpl in *; [|split; [lia|done]|done|lia|done].
    exists (d ++ [set_status taskStatusCompleted (mktask [p.1] taskStatusInProgress now TaskTypeMap)]).
    rewrite <- app_assoc. split_and!; [done|by apply completed_snoc|]. rewrite !length_app. simpl. lia.
Qed.

Lemma map_phase w now polls fuel l rest c fs :
  in_time now polls -> inputs = l ++ rest -> rest ≠ [] -> mapping w c l rest -> holds (tags l) fs ->
  exists c' fs', worker_loop mapf reducef visit (length rest + fuel) (Z.of_nat w) now polls c fs
      = worker_loop mapf reducef visit fuel (Z.of_nat w) now polls c' fs' /\
    reducing w fs' c' (reduce_ids visit fs') /\ holds (tags inputs) fs'.
Proof.
  intros Hin. revert l c fs. induction rest as [|p rest IH]; intros l c fs E Hne Hc Hf; [done|].
  assert (p ∈ inputs) as Hp by (rewrite E; set_solver).
  destruct (map_turn w (now (length rest + fuel)) (polls (length rest + fuel)) c fs l p rest
    ltac:(intros ? ?; apply Hin) Hp Hc Hf)
    as (c1 & fs1 & Hturn & Hf1 & Hc1).
  simpl. rewrite Hturn. simpl. destruct rest as [|q rest].
  - exists c1, fs1. rewrite E. done.
  - apply (IH (l ++ [p])); [by rewrite <- app_assoc|done|done|done].
Qed.

(** ** The reduce tasks *)

Lemma tags_tagged l : tagged nReduce (tags l).
Proof.
  intros t (i & p & _ & (kv & -> & _)%list_elem_of_fmap)%elem_of_tags. exists (Z.of_nat i).
  split; [lia|done].
Qed.

Lemma holds_mid l fs : holds (tags l) fs -> mid (tags l) fs.
Proof.
  intros Hf f Hm. rewrite Hf. destruct (decide _); [done|]. apply (ready_fresh Hready).
  unfold own_file. by rewrite Hm.
Qed.

(** The directory when the reduce tasks of the ids [pre] are done, from the directory [fsM]. *)
Definition reduced (fsM : FS) (pre : list string) (fs : FS) : Prop :=
  (forall k, k ∈ pre -> fs !! ("mr-out-" +:+ k) = Some (output visit reducef (tags inputs) fsM k)) /\
  (forall f, f ∉ String.append "mr-out-" <$> pre -> fs !! f = fsM !! f).

Definition cleans : Prop := Forall clean (emitted mapf inputs).

Lemma reduced_mid fsM pre fs : holds (tags inputs) fsM -> reduced fsM pre fs -> mid (tags inputs) fs.
Proof.
  intros Hf%holds_mid [_ Hr] f Hm. rewrite Hr; [by apply Hf|].
  intros (k & -> & _)%list_elem_of_fmap. discriminate.
Qed.

Lemma job_ids fs k :
  holds (tags inputs) fs ->
  k ∈ reduce_ids visit fs <-> exists kv, kv ∈ emitted mapf inputs /\ k = pretty (bucket (Key kv)).
Proof.
  intros Hf. rewrite (reduce_ids_elem visit nReduce) with (T := tags inputs); [by rewrite tags_emitted|..].
  - apply (ready_visit Hready).
  - apply (ready_nReduce Hready).
  - apply tags_tagged.
  - by apply holds_mid.
Qed.

Lemma job_files fsM pre fs k :
  cleans -> holds (tags inputs) fsM -> reduced fsM pre fs -> k ∈ reduce_ids visit fsM ->
  exists f fl, files_of fsM k = f :: fl /\ Split f "-" !! 3 = Some k /\
    Forall2 (fun f kvs => fs !! f = Some (lines kvs) /\ Forall clean kvs) (f :: fl)
      (pairs_of (tags inputs) <$> f :: fl) /\ pairs_in (tags inputs) fsM k ≠ [].
Proof.
  intros Hcl Hf Hr Hk. eapply files_of_spec; [apply (ready_visit Hready)|apply (ready_nReduce Hready)
    |apply tags_tagged|by apply holds_mid|by rewrite tags_emitted|by eapply reduced_mid|done].
Qed.

(** The reduce task of an id writes its output file. *)
Lemma reduce_step fsM pre fs k f fl :
  cleans -> holds (tags inputs) fsM -> reduced fsM pre fs -> k ∈ reduce_ids visit fsM -> k ∉ pre ->
  files_of fsM k = f :: fl ->
  exists fs1 created fs2,
    runReduceTask reducef visit fs (f :: fl) = Ok (fs1, Some created) /\
    renameTempFiles fs1 created = (fs2, false) /\ reduced fsM (pre ++ [k]) fs2.
Proof.
  intros Hcl Hf Hr Hk Hpre E.
  destruct (job_files fsM pre fs k Hcl Hf Hr Hk) as (f' & fl' & E' & Hs & Hread & Hne).
  rewrite E in E'. injection E' as <- <-.
  apply job_ids in Hk as (kv & _ & Hk); [|done].
  assert (RemoveAll ("tempmr-out-" +:+ k) "temp" = "mr-out-" +:+ k) as Hren.
  { rewrite Hk. apply RemoveAll_mr_name, bucket_nonneg. }
  assert (fs !! ("tempmr-out-" +:+ k) = None) as Hfresh.
  { destruct Hr as [_ Hr]. rewrite Hr; [by apply (temp_fresh inputs fsM ("mr-out-" +:+ k))|].
    intros (j & E' & _)%list_elem_of_fmap. discriminate. }
  do 2 eexists. eexists. split; [eapply runReduceTask_writes; [apply (ready_visit Hready)|done|done|]|].
  { unfold pairs_in in Hne. by rewrite E in Hne. }
  simpl. unfold Append at 1, Rename. rewrite lookup_insert_eq, Hren.
  split; [reflexivity|]. rewrite Hfresh, delete_insert_eq, delete_id by done.
  destruct Hr as [Hr1 Hr2]. split.
  - intros j [Hj| ->%list_elem_of_singleton]%elem_of_app.
    + rewrite lookup_insert_ne; [by apply Hr1|]. intros Ej%(inj (String.append _)). by subst.
    + rewrite lookup_insert_eq. f_equal. unfold output, grouped, pairs_in. by rewrite E.
  - intros g Hg. rewrite fmap_app, not_elem_of_app in Hg. destruct Hg as [Hg1 Hg2].
    rewrite lookup_insert_ne; [by apply Hr2|]. set_solver.
Qed.

Lemma reduce_turn w now polls fsM pre fs c k order :
  (forall clock i, clock ∈ polls -> clock i <= now + 10)%Z -> cleans -> holds (tags inputs) fsM -> reduced fsM pre fs -> k ∈ reduce_ids visit fsM -> k ∉ pre ->
  reducing w fsM c (k :: order) ->
  exists c' fs', worker_turn mapf reducef visit (Z.of_nat w) now polls c fs = Ok (c', fs', true) /\
    reducing w fsM c' order /\ reduced fsM (pre ++ [k]) fs'.
Proof.
  intros Hpolls Hcl Hf Hr Hk Hpre [(d & Ht & Hd) Hcount Hphase Hw [Hto Hred]].
  destruct (job_files fsM pre fs k Hcl Hf Hr Hk) as (f & fl & E & _).
  destruct (reduce_step fsM pre fs k f fl) as (fs1 & created & fs2 & Hrun & Hren & Hr'); try done.
  destruct (GetTask_next c w now d _ _ Ht Hd eq_refl Hw) as (ws & Hws & HG).
  unfold worker_turn. rewrite HG. cbn -[report Glob polled]. fold (files_of fsM k).
  rewrite E, Hrun. cbn -[report polled].
  erewrite polled_quiet; [|reflexivity|exact Hd|reflexivity|reflexivity| |exact Hto| |exact Hpolls];
    [|apply Forall_fmap, Forall_forall; done|simpl; by rewrite Hred].
  erewrite report_Ok; [|reflexivity|reflexivity|exact Hren]. simpl. rewrite Hcount.
  case_bool_decide as Hz; (do 2 eexists; split; [reflexivity|]; split; [|exact Hr']).
  - simpl in Hz. assert (order = []) as -> by (destruct order; [done|simpl in Hz; lia]).
    split; simpl; [|simpl in *; lia|done|lia|done]. eexists (d ++ [_]).
    split; [rewrite <- app_assoc; reflexivity|by apply completed_snoc].
  - split; simpl; [|simpl in *; lia|done|lia|split; [done|by rewrite Hred]]. eexists (d ++ [_]).
    split; [rewrite <- app_assoc; reflexivity|by apply completed_snoc].
Qed.

Lemma reduce_phase w now polls fuel fsM pre fs c order :
  in_time now polls -> cleans -> holds (tags inputs) fsM -> reduced fsM pre fs -> reduce_ids visit fsM = pre ++ order ->
  reducing w fsM c order ->
  exists c' fs',
    worker_loop mapf reducef visit (length order + S fuel) (Z.of_nat w) now polls c fs = Ok (c', fs', true) /\
    Forall completed (tasks c') /\ c_phase c' ≠ phaseMap /\ reduced fsM (reduce_ids visit fsM) fs'.
Proof.
  intros Hin Hcl Hf. revert pre fs c. induction order as [|k order IH]; intros pre fs c Hr E Hc.
  - destruct Hc as [(d & Ht & Hd) _ Hphase Hw _]. rewrite app_nil_r in Ht, E.
    destruct (GetTask_none c w (now fuel)) as [ws HG]; [by rewrite Ht|done|].
    simpl. unfold worker_turn. rewrite HG. simpl. do 2 eexists. split; [reflexivity|]. simpl.
    rewrite Ht, E. done.
  - assert (NoDup (reduce_ids visit fsM)) as Hnd
      by (unfold reduce_ids; rewrite (ready_visit Hready _); apply NoDup_elements).
    destruct (reduce_turn w (now (length order + S fuel)) (polls (length order + S fuel)) fsM pre fs c k order)
      as (c1 & fs1 & Hturn & Hc1 & Hr1); try done.
    { intros ? ?; apply Hin. }
    { rewrite E. set_solver. }
    { rewrite E in Hnd. apply NoDup_app in Hnd as (_ & Hnd & _). intros Hk. apply (Hnd k Hk). left. }
    cbn [length Nat.add worker_loop]. rewrite Hturn. simpl.
    apply (IH (pre ++ [k])); [done|by rewrite <- app_assoc|done].
Qed.

End Job.

(** The whole job.  [M r] is what the reduce task of reducer [r] has grouped. *)
Lemma job_spec mapf reducef visit nReduce inputs fs now polls fuel :
  in_time now polls -> ready visit nReduce inputs fs -> inputs ≠ [] -> Forall clean (emitted mapf inputs) ->
  length inputs + Z.to_nat nReduce < fuel ->
  exists c' fs' (M : Z -> gmap string (list string)),
    Worker mapf reducef visit fuel now polls (MakeCoordinator inputs.*1 nReduce) fs
      = Ok (c', fs', true) /\
    Forall completed (tasks c') /\ c_phase c' ≠ phaseMap /\
    (forall r, NoDup (visit (dom (M r))) /\
       (forall k, k ∈ visit (dom (M r)) <->
          k ∈ Key <$> emitted mapf inputs /\ bucket nReduce k = r) /\
       (forall k, bucket nReduce k = r -> default [] (M r !! k)
          ≡ₚ Value <$> filter (fun kv => Key kv = k) (emitted mapf inputs))) /\
    (forall kv, kv ∈ emitted mapf inputs -> let r := bucket nReduce (Key kv) in
       fs' !! ("mr-out-" +:+ pretty r) = Some (results reducef (M r) (visit (dom (M r))))) /\
    (forall f, String.prefix "m-out-" f = false ->
       (forall kv, kv ∈ emitted mapf inputs -> f ≠ "mr-out-" +:+ pretty (bucket nReduce (Key kv))) ->
       fs' !! f = fs !! f).
Proof.
  intros Hin Hready Hne Hcl Hfuel. unfold Worker. simpl.
  destruct (map_phase mapf reducef visit nReduce inputs fs Hready 0 now polls (fuel - length inputs)
    [] inputs (RegisterWorker (MakeCoordinator inputs.*1 nReduce)).1 fs)
    as (c1 & fsM & Hloop & Hc1 & HfM); [done|done|done| |done|].
  { split; simpl; [|split; [by rewrite length_fmap|done]|done|lia|done]. by exists []. }
  pose proof (length_reduce_ids visit nReduce (ready_visit _ _ _ _ Hready) (ready_nReduce _ _ _ _ Hready)
    (tags mapf nReduce inputs) ltac:(by eapply tags_tagged) fsM ltac:(by eapply holds_mid)) as Hids.
  destruct (reduce_phase mapf reducef visit nReduce inputs fs Hready 0 now polls
    (fuel - length inputs - length (reduce_ids visit fsM) - 1) fsM [] fsM c1 (reduce_ids visit fsM))
    as (c' & fs' & Hloop' & Ht & Hp & Hout & Hrest); [done|done|done|by split; [set_solver|]|done|done|].
  exists c', fs', (fun r => grouped (tags mapf nReduce inputs) fsM (pretty r)).
  split; [|split; [done|split; [done|split; [|split]]]].
  - replace fuel with (length inputs + (fuel - length inputs)) by lia.
    simpl in Hloop. rewrite Hloop. rewrite <- Hloop'. f_equal. lia.
  - intros r. rewrite <- (tags_emitted mapf nReduce inputs).
    apply (output_spec visit nReduce (ready_visit _ _ _ _ Hready) (ready_nReduce _ _ _ _ Hready)
      (tags mapf nReduce inputs)); [by eapply tags_tagged|by eapply holds_mid].
  - intros kv Hkv. apply Hout.
    apply (job_ids mapf visit nReduce inputs fs Hready); [done|by exists kv].
  - intros f Hf1 Hf2. rewrite Hrest, HfM, decide_False; [done| |].
    + intros (i & r & -> & _)%(tags_names mapf reducef visit nReduce inputs fs Hready).
      unfold m_name in Hf1. by rewrite GoStrings.prefix_app in Hf1.
    + intros (k & -> & (kv & Hkv & ->)%(job_ids mapf visit nReduce inputs fs Hready))
        %list_elem_of_fmap; [|done]. by apply (Hf2 kv).
Qed.

(** ** Claims *)

(** C9: A job run by one worker that does not crash ends, with the right output.  Conditions: the
    directory holds the input files and none of the job's own; no task is polled by [main] more than
    ten seconds after it was handed out ([in_time]; polls of [Done] before that may come at any time);
    the emitted pairs are clean, that is without colons and line ends and with no Unicode white space
    at the outer ends.  Then the worker registers and runs all map and reduce tasks within one turn per
    input file and per reducer, without an error or a panic, and no task is given up;
    every task is then completed, and the output file of a reducer has one line per emitted key
    that hashes to it, with the result of the reduce function on all the values emitted for the
    key by all map tasks (their order is that of the files).  Nothing else of the directory
    changes but the intermediate files. *)
Theorem single_worker_job mapf reducef visit nReduce inputs fs now polls fuel :
  in_time now polls -> ready visit nReduce inputs fs -> inputs ≠ [] -> Forall clean (emitted mapf inputs) ->
  length inputs + Z.to_nat nReduce < fuel ->
  exists c' fs',
    Worker mapf reducef visit fuel now polls (MakeCoordinator inputs.*1 nReduce) fs
      = Ok (c', fs', true) /\
    Forall (fun t => status t = taskStatusCompleted) (tasks c') /\ c_phase c' ≠ phaseMap /\
    (forall kv, kv ∈ emitted mapf inputs -> exists m order,
       let r := Z.rem (ihash (Key kv)) nReduce in
       fs' !! ("mr-out-" +:+ pretty r) = Some (results reducef m order) /\ NoDup order /\
       (forall k, k ∈ order <-> k ∈ Key <$> emitted mapf inputs /\ Z.rem (ihash k) nReduce = r) /\
       (forall k, k ∈ order ->
          default [] (m !! k) ≡ₚ Value <$> filter (fun kv => Key kv = k) (emitted mapf inputs))) /\
    (forall f, String.prefix "m-out-" f = false ->
       (forall kv, kv ∈ emitted mapf inputs ->
          f ≠ "mr-out-" +:+ pretty (Z.rem (ihash (Key kv)) nReduce)) -> fs' !! f = fs !! f).
Proof.
  intros Hin Hready Hne Hcl Hfuel.
  destruct (job_spec mapf reducef visit nReduce inputs fs now polls fuel Hin Hready Hne Hcl Hfuel)
    as (c' & fs' & M & Hrun & Ht & Hp & HM & Hout & Hrest).
  exists c', fs'. split_and!; [done|done|done| |done].
  intros kv Hkv. destruct (HM (bucket nReduce (Key kv))) as (H1 & H2 & H3).
  do 2 eexists. split; [by apply Hout|]. split_and!; [done|done|].
  intros k Hk. apply H3. by apply H2.
Qed.

(** Two input files with the same word. *)
Definition count_map (_ content : string) : list KeyValue := [mkKeyValue content "1"].
Definition count_reduce (_ : string) (values : list string) : string := pretty (length values).
Definition two_files : list (string * string) := [("pg1", "x"); ("pg2", "x")].
Definition two_files_dir : FS := {[ "pg1" := "x"; "pg2" := "x" ]}.

Example two_files_run :
  match Worker count_map count_reduce elements 6 (fun _ => 0%Z) (fun _ => [])
          (MakeCoordinator ["pg1"; "pg2"] 3) two_files_dir with
  | Ok (_, fs, ended) => (ended, fs !! "mr-out-1")
  | _ => (false, None)
  end = (true, Some ("x 2" +:+ newline)).
Proof. vm_compute. reflexivity. Qed.

Lemma two_files_ready : ready elements 3 two_files two_files_dir.
Proof.
  split; [by intros X|lia| |].
  - intros p [->|[->|[]%elem_of_nil]%elem_of_cons]%elem_of_cons; reflexivity.
  - intros f Hf. unfold two_files_dir. rewrite lookup_insert_ne, lookup_singleton_ne; [done|..];
      intros <-; discriminate.
Qed.

Lemma single_worker_job_witness :
  exists c' fs', Worker count_map count_reduce elements 6 (fun _ => 0%Z) (fun _ => [fun _ => 7%Z])
      (MakeCoordinator ["pg1"; "pg2"] 3) two_files_dir = Ok (c', fs', true) /\
    Forall (fun t => status t = taskStatusCompleted) (tasks c') /\ fs' !! "pg1" = Some "x".
Proof.
  destruct (single_worker_job count_map count_reduce elements 3 two_files two_files_dir
    (fun _ => 0%Z) (fun _ => [fun _ => 7%Z]) 6) as (c' & fs' & H1 & H2 & _ & _ & H3).
  - intros j clock i ->%list_elem_of_singleton. lia.
  - exact two_files_ready.
  - discriminate.
  - repeat constructor.
  - simpl. lia.
  - exists c', fs'. split; [exact H1|]. split; [exact H2|].
    rewrite H3; [reflexivity|reflexivity|]. intros kv _. discriminate.
Defined.
