(* ===== verification/MrCluster.v ===== *)
(** * A MapReduce job with many workers

    The processes of a job: the coordinator of [src/src/mr/coordinator.go], polled by its main
    program, and any number of workers that run [Worker] of [src/src/mr/worker.go], interleaved at the
    granularity of RPCs and of single file operations.  Workers start and crash at any time, tasks
    time out and are given to others.  When the job is done and no reduce task has timed out, the
    output files hold the right lines. *)

From S2P Require Import Prelude GoStrings Fnv MrCoordinator MrWorker MrShuffle MrJob.
From stdpp Require Import pretty.

(** ** Workers *)

(** Where a worker is: at the head of its loop; in [runMapTask] with the files to read, the pairs of
    the current file to write and the files created; in [runReduceTask] reading or writing; about to
    report; or its process has ended. *)
Inductive wstate :=
| WHead
| WMap (id : nat) (n : Z) (todo : list string) (kvs : list KeyValue) (made : gmap string bool)
| WGather (id : nat) (rid : string) (todo : list string) (m : gmap string (list string))
| WWrite (id : nat) (rid : string) (m : gmap string (list string)) (keys : list string)
    (made : gmap string bool)
| WReport (id : nat) (created : list string)
| WExit.

(** The first part of [runReduceTask]. *)
Definition start_reduce (id : nat) (files : list string) : wstate :=
  match files with
  | [] => WReport id []
  | file0 :: _ =>
      match slice_get (Split file0 "-") 3 with
      | Ok rid => WGather id rid files ∅
      | _ => WExit
      end
  end.

(** The [switch] of [Worker] on the answer to [rpcGetTask]. *)
Definition start_task (res : GetTaskRes) : wstate :=
  match res_TaskType res with
  | TaskTypeMap => WMap (Z.to_nat (res_TaskId res)) (res_NReduce res) (res_Files res) [] ∅
  | TaskTypeReduce => start_reduce (Z.to_nat (res_TaskId res)) (res_Files res)
  | TaskTypeNoTask => WHead
  | TaskTypeShutdown => WExit
  end.

Definition reduce_temp (rid : string) : string := "tempmr-out-" +:+ rid.

Section Cluster.
Context (mapf : string -> string -> list KeyValue) (reducef : string -> list string -> string).

(** A step of worker [w].  Orders in which Go visits maps are free.  A panic ends the process, as
    [ws_crash] does at any point. *)
Inductive worker_step (w : nat) : Coordinator * FS * wstate -> Coordinator * FS * wstate -> Prop :=
| ws_get c fs now c' res :
    GetTask c (Z.of_nat w) now = Ok (c', res) ->
    worker_step w (c, fs, WHead) (c', fs, start_task res)
| ws_map_read c fs id n f todo made :
    worker_step w (c, fs, WMap id n (f :: todo) [] made)
      (c, fs, match getFileContent fs f with
              | Some content => WMap id n todo (mapf f content) made
              | None => WExit
              end)
| ws_map_write c fs id n todo kv kvs made fs' made' :
    write_pair (Z.of_nat id) n (fs, made) kv = Ok (fs', made') ->
    worker_step w (c, fs, WMap id n todo (kv :: kvs) made) (c, fs', WMap id n todo kvs made')
| ws_map_end c fs id n made l :
    l ≡ₚ elements (dom made) ->
    worker_step w (c, fs, WMap id n [] [] made) (c, fs, WReport id l)
| ws_reduce_read c fs id rid f todo m content m' :
    getFileContent fs f = Some content -> fold_go read_line (Split content newline) m = Ok m' ->
    worker_step w (c, fs, WGather id rid (f :: todo) m) (c, fs, WGather id rid todo m')
| ws_reduce_group c fs id rid m keys :
    keys ≡ₚ elements (dom m) ->
    worker_step w (c, fs, WGather id rid [] m) (c, fs, WWrite id rid m keys ∅)
| ws_reduce_write c fs id rid m k keys made :
    worker_step w (c, fs, WWrite id rid m (k :: keys) made)
      (c, Append fs (reduce_temp rid) (write_result reducef m k),
       WWrite id rid m keys (<[reduce_temp rid := true]> made))
| ws_reduce_end c fs id rid m made l :
    l ≡ₚ elements (dom made) ->
    worker_step w (c, fs, WWrite id rid m [] made) (c, fs, WReport id l)
| ws_report c fs id l order c' fs' err :
    TaskDone c fs (mkTaskDoneReq (Z.of_nat w) (Z.of_nat id) l) order = Ok (c', fs', err) ->
    reduce_order fs' order ->
    worker_step w (c, fs, WReport id l) (c', fs', if err : bool then WExit else WHead)
| ws_beat c fs p c' b :
    p ≠ WExit -> Heartbeat c (Z.of_nat w) = Ok (c', b) ->
    worker_step w (c, fs, p) (c', fs, if b : bool then WExit else p)
| ws_crash c fs p : worker_step w (c, fs, p) (c, fs, WExit).

(** The worker with the id [w] is the [w]-th that registered. *)
Record cluster := mkcluster { cl_co : Coordinator; cl_fs : FS; cl_ws : list wstate }.

Inductive cl_step : cluster -> cluster -> Prop :=
| cl_register s :
    cl_step s (mkcluster (RegisterWorker (cl_co s)).1 (cl_fs s) (cl_ws s ++ [WHead]))
| cl_worker s w p c' fs' p' :
    cl_ws s !! w = Some p -> worker_step w (cl_co s, cl_fs s, p) (c', fs', p') ->
    cl_step s (mkcluster c' fs' (<[w := p']> (cl_ws s)))
| cl_poll s now c' fs' :
    Done (cl_co s) (cl_fs s) now = (c', fs', false) ->
    cl_step s (mkcluster c' fs' (cl_ws s)).

Definition cl_start (input : list string) (nReduce : Z) (fs : FS) : cluster :=
  mkcluster (MakeCoordinator input nReduce) fs [].
End Cluster.

(** ** The tasks that workers hold *)

Definition task_of (p : wstate) : option nat :=
  match p with
  | WHead | WExit => None
  | WMap id _ _ _ _ | WGather id _ _ _ | WWrite id _ _ _ _ | WReport id _ => Some id
  end.

Definition held (ws : list wstate) : list nat := omap task_of ws.

Lemma held_app ws1 ws2 : held (ws1 ++ ws2) = held ws1 ++ held ws2.
Proof. unfold held. apply omap_app. Qed.

Lemma held_insert ws w p p' :
  ws !! w = Some p ->
  exists l1 l2, held ws = l1 ++ option_list (task_of p) ++ l2 /\
    held (<[w := p']> ws) = l1 ++ option_list (task_of p') ++ l2.
Proof.
  intros (ws1 & ws2 & -> & ->)%list_elem_of_split_length. exists (held ws1), (held ws2).
  rewrite insert_app_r_alt, Nat.sub_diag by lia. rewrite !held_app. simpl.
  unfold held. simpl. split; f_equal; by destruct (task_of _).
Qed.

Lemma elem_of_held ws i : i ∈ held ws <-> exists w p, ws !! w = Some p /\ task_of p = Some i.
Proof.
  unfold held. rewrite list_elem_of_omap. setoid_rewrite list_elem_of_lookup. naive_solver.
Qed.

Lemma held_distinct ws w w' p p' i :
  NoDup (held ws) -> ws !! w = Some p -> ws !! w' = Some p' ->
  task_of p = Some i -> task_of p' = Some i -> w = w'.
Proof.
  revert w w'. induction ws as [|q ws IH]; intros w w' Hnd Hw Hw' Hp Hp'; [done|].
  change (held (q :: ws)) with (held ([q] ++ ws)) in Hnd. rewrite held_app in Hnd.
  apply NoDup_app in Hnd as (_ & Hd & Hnd).
  assert (forall v u, ws !! v = Some u -> task_of u = Some i -> i ∈ held ws) as Hin
    by (intros v u ? ?; apply elem_of_held; eauto).
  assert (task_of q = Some i -> i ∈ held [q]) as Hq by (unfold held; simpl; intros ->; left).
  destruct w, w'; simplify_eq/=; [done|..].
  - exfalso. eapply Hd; eauto.
  - exfalso. eapply Hd; eauto.
  - f_equal. by apply IH.
Qed.

Lemma inv_perm input c l l' : l ≡ₚ l' -> inv input c l -> inv input c l'.
Proof.
  intros Hl [H1 H2 H3 H4 H5 H6 H7]. split; try done; [by rewrite <- Hl|].
  intros i Hi. apply H3. by rewrite Hl.
Qed.

Lemma start_reduce_task i files : task_of (start_reduce i files) = Some i \/ start_reduce i files = WExit.
Proof.
  unfold start_reduce. destruct files as [|f l]; [by left|].
  destruct (slice_get _ _); [by left|by right|by right].
Qed.

(** The cluster refines the system of [MrCoordinator], whose directory changes at any time: the
    tasks held by workers are its pending tasks. *)
Definition seen (s : cluster) (pend : list nat) : sys := mksys (cl_co s) (cl_fs s) pend.

Definition heard (w : Z) : Prop := True.

Lemma sim_drop c fs l1 o l2 :
  rtc (sys_step heard) (mksys c fs (l1 ++ option_list o ++ l2)) (mksys c fs (l1 ++ l2)).
Proof.
  destruct o as [i|]; [|done]. apply rtc_once. by eapply (sys_crash heard (mksys c fs (l1 ++ i :: l2)) l1 i l2).
Qed.

Lemma sim_files c fs fs' pend : rtc (sys_step heard) (mksys c fs pend) (mksys c fs' pend).
Proof. apply rtc_once. apply (sys_files heard (mksys c fs pend)). Qed.

(** A step of a worker with the task [o], between the tasks [l1] and [l2] of the others. *)
Lemma sim_worker mapf reducef w c fs p c' fs' p' l1 l2 :
  worker_step mapf reducef w (c, fs, p) (c', fs', p') ->
  exists pend, pend ≡ₚ l1 ++ option_list (task_of p') ++ l2 /\
    rtc (sys_step heard) (mksys c fs (l1 ++ option_list (task_of p) ++ l2)) (mksys c' fs' pend).
Proof.
  intros Hs. inversion Hs; subst; simpl; try (eexists; split; [reflexivity|apply sim_files]).
  - assert (rtc (sys_step heard) (mksys c fs' (l1 ++ l2)) (mksys c' fs' (if bool_decide
      (res_TaskType res = TaskTypeNoTask) then l1 ++ l2 else Z.to_nat (res_TaskId res) :: l1 ++ l2))) as Hget
      by (apply rtc_once; by eapply (sys_get heard (mksys c fs' (l1 ++ l2)))).
    assert (rtc (sys_step heard) (mksys c' fs' (Z.to_nat (res_TaskId res) :: l1 ++ l2))
      (mksys c' fs' (l1 ++ l2))) as Hdrop by apply (sim_drop c' fs' [] (Some _)).
    unfold start_task. destruct (res_TaskType res); simpl in *.
    + eexists. split; [|exact Hget]. by rewrite <- Permutation_middle.
    + destruct (start_reduce_task (Z.to_nat (res_TaskId res)) (res_Files res)) as [-> | ->]; simpl.
      * eexists. split; [|exact Hget]. by rewrite <- Permutation_middle.
      * eexists. split; [reflexivity|]. by etrans.
    + eexists. split; [reflexivity|exact Hget].
    + eexists. split; [reflexivity|]. by etrans.
  - destruct (getFileContent _ _); (eexists; split; [reflexivity|]); [apply sim_files|].
    apply (sim_drop c' fs' l1 (Some id)).
  - exists (l1 ++ l2). split; [by destruct err|]. apply rtc_once.
    by eapply (sys_done heard (mksys c fs (l1 ++ id :: l2)) l1 id l2 (mkTaskDoneReq (Z.of_nat w) (Z.of_nat id) l)).
  - assert (rtc (sys_step heard) (mksys c fs' (l1 ++ option_list (task_of p) ++ l2))
      (mksys c' fs' (l1 ++ option_list (task_of p) ++ l2))) as Hb
      by (apply rtc_once; by eapply (sys_heartbeat heard (mksys c fs' _) (Z.of_nat w))).
    destruct b; [|by eexists]. eexists. split; [reflexivity|]. etrans; [exact Hb|apply sim_drop].
  - eexists. split; [reflexivity|]. apply sim_drop.
Qed.

Lemma perm_middle_option (pend l1 l2 : list nat) o :
  pend ≡ₚ l1 ++ option_list o ++ l2 ->
  exists k1 k2, pend = k1 ++ option_list o ++ k2 /\ k1 ++ k2 ≡ₚ l1 ++ l2.
Proof.
  destruct o as [i|]; simpl; intros Hp; [|by exists [], pend].
  assert (i ∈ pend) as (k1 & k2 & ->)%list_elem_of_split by (rewrite Hp; set_solver).
  exists k1, k2. split; [done|]. rewrite <- !Permutation_middle in Hp. by apply Permutation_cons_inv in Hp.
Qed.

Lemma cl_sim mapf reducef s s' pend :
  cl_step mapf reducef s s' -> pend ≡ₚ held (cl_ws s) ->
  exists pend', pend' ≡ₚ held (cl_ws s') /\ rtc (sys_step heard) (seen s pend) (seen s' pend').
Proof.
  intros Hs Hp. destruct Hs as [s|s w p c' fs' p' Hw Hs|s now c' fs' Hd]; unfold seen; simpl.
  - exists pend. rewrite held_app, app_nil_r. split; [done|]. apply rtc_once, (sys_register heard (seen s pend)).
  - destruct (held_insert _ w p p' Hw) as (l1 & l2 & E1 & E2). rewrite E2. rewrite E1 in Hp.
    apply perm_middle_option in Hp as (k1 & k2 & -> & Hk).
    destruct (sim_worker _ _ _ _ _ _ _ _ _ k1 k2 Hs) as (pend & Hpend & Hrun).
    exists pend. split; [|done]. rewrite Hpend, !(Permutation_app_comm _ (_ ++ _)), <- !app_assoc.
    by rewrite (Permutation_app_comm k2), (Permutation_app_comm l2), Hk.
  - exists pend. split; [done|]. apply rtc_once. by eapply (sys_tick heard (seen s pend)).
Qed.

Lemma cl_run_sim mapf reducef input nReduce fs s :
  rtc (cl_step mapf reducef) (cl_start input nReduce fs) s ->
  exists pend, pend ≡ₚ held (cl_ws s) /\ rtc (sys_step heard) (sys_start input nReduce fs) (seen s pend).
Proof.
  apply (rtc_ind_r (fun s => exists pend, pend ≡ₚ held (cl_ws s) /\
    rtc (sys_step heard) (sys_start input nReduce fs) (seen s pend))).
  - by exists [].
  - intros s1 s2 _ Hs (pend & Hp & Hrun). destruct (cl_sim _ _ _ _ _ Hs Hp) as (pend' & Hp' & Hrun').
    exists pend'. split; [done|by etrans].
Qed.

Lemma inv_cl_run mapf reducef input nReduce fs s :
  rtc (cl_step mapf reducef) (cl_start input nReduce fs) s ->
  inv input (cl_co s) (held (cl_ws s)) /\ no_failed (cl_co s).
Proof.
  intros (pend & Hp & Hrun)%cl_run_sim. split.
  - eapply inv_perm; [exact Hp|]. apply (inv_run _ _ _ _ Hrun).
  - apply (no_failed_run _ _ _ _ Hrun).
Qed.

Lemma inv_cl_step mapf reducef input s s' :
  cl_step mapf reducef s s' -> inv input (cl_co s) (held (cl_ws s)) ->
  inv input (cl_co s') (held (cl_ws s')).
Proof.
  intros Hs Hinv. destruct (cl_sim _ _ _ _ _ Hs (Permutation_refl _)) as (pend & Hp & Hrun).
  eapply inv_perm; [exact Hp|].
  apply (rtc_invariant (sys_step heard) (fun s => inv input (co s) (pending s)) _ (seen s' pend)) in Hrun;
    [done| |done]. intros ? ? ? ?. by eapply inv_step.
Qed.

(** ** What the directory holds *)

(** The text of a file to which lines were appended, if any. *)
Definition as_file (kvs : list KeyValue) : option string :=
  match kvs with [] => None | _ => Some (lines kvs) end.

(** A task that lost a reduce attempt: what a second attempt appends is added to the first. *)
Definition no_lost (ts : list task) : Prop :=
  forall i t, ts !! i = Some t -> taskType t = TaskTypeReduce -> status t ≠ taskStatusTimedOut.

Section Files.
Context (mapf : string -> string -> list KeyValue) (reducef : string -> list string -> string).
Context (nReduce : Z) (inputs : list (string * string)) (fs0 : FS).
Hypothesis Hready : ready elements nReduce inputs fs0.
Hypothesis Hclean : Forall clean (emitted mapf inputs).

Local Abbreviation bucket := (bucket nReduce).

(** The pairs of the files of a map task, and those that go to reducer [r]. *)
Definition file_pairs (l : list string) : list KeyValue :=
  concat ((fun f => mapf f (default "" (fs0 !! f))) <$> l).

Definition chunk (kvs : list KeyValue) (r : Z) : list KeyValue :=
  filter (fun kv => bucket (Key kv) = r) kvs.

(** The temporary and the intermediate files of map task [i]. *)
Definition map_temp (i : nat) (r : Z) : string := "temp" +:+ m_name (Z.of_nat i) r.

Definition temps (i : nat) (kvs : list KeyValue) (fs : FS) : Prop :=
  forall r, (0 <= r)%Z -> fs !! map_temp i r = as_file (chunk kvs r).

Definition temp_names (i : nat) (kvs : list KeyValue) : gset string :=
  list_to_set ((fun kv => map_temp i (bucket (Key kv))) <$> kvs).

Definition tag_pairs (i : nat) (kvs : list KeyValue) : list (string * KeyValue) :=
  (fun kv => (m_name (Z.of_nat i) (bucket (Key kv)), kv)) <$> kvs.

Definition mapped_task (t : task) : bool :=
  bool_decide (taskType t = TaskTypeMap) && bool_decide (status t = taskStatusCompleted).

(** The pairs of the completed map tasks, with their files. *)
Definition mapped (ts : list task) : list (string * KeyValue) :=
  concat (imap (fun i t => if mapped_task t then tag_pairs i (file_pairs (files t)) else []) ts).

(** The reducer id of a reduce task, and what it has to write. *)
Definition task_key (t : task) : string :=
  default "" (head (files t) ≫= fun f => Split f "-" !! 3).

Definition written_as (m : gmap string (list string)) (text : option string) : Prop :=
  exists order, order ≡ₚ elements (dom m) /\ text = Some (results reducef m order).

(** What a worker knows of the files of its task; [T] and [fsM] are the intermediate pairs and the
    directory from which the reduce tasks were made. *)
Definition worker_ok (T : list (string * KeyValue)) (fsM : FS) (ts : list task) (fs : FS)
    (p : wstate) : Prop :=
  match p with
  | WHead | WExit => True
  | WMap i n todo kvs made =>
      n = nReduce /\ exists t pre rd, ts !! i = Some t /\ taskType t = TaskTypeMap /\
        files t = rd ++ todo /\ file_pairs rd = pre ++ kvs /\ temps i pre fs /\
        dom made = temp_names i pre
  | WGather i rid todo m =>
      exists t rd, ts !! i = Some t /\ taskType t = TaskTypeReduce /\ rid = task_key t /\
        files t = rd ++ todo /\ m = group_by Key Value (concat (pairs_of T <$> rd)) ∅ /\
        fs !! reduce_temp rid = None
  | WWrite i rid m keys made =>
      exists t pre, ts !! i = Some t /\ taskType t = TaskTypeReduce /\ rid = task_key t /\
        m = grouped T fsM rid /\ pre ++ keys ≡ₚ elements (dom m) /\
        (if decide (pre = []) then fs !! reduce_temp rid = None /\ dom made = ∅
         else fs !! reduce_temp rid = Some (results reducef m pre) /\
              dom made = {[ reduce_temp rid ]})
  | WReport i l =>
      exists t, ts !! i = Some t /\
        ((taskType t = TaskTypeMap /\ l ≡ₚ elements (temp_names i (file_pairs (files t))) /\
          temps i (file_pairs (files t)) fs) \/
         (taskType t = TaskTypeReduce /\ l = [reduce_temp (task_key t)] /\
          written_as (grouped T fsM (task_key t)) (fs !! reduce_temp (task_key t))))
  end.

Record finv (fsM : FS) (c : Coordinator) (fs : FS) (ws : list wstate) : Prop := {
  fi_nReduce : c_nReduce c = nReduce;
  fi_inputs : forall p, p ∈ inputs -> fs !! p.1 = Some p.2;
  fi_mid : mid (mapped (tasks c)) fs;
  fi_fresh : forall i, (forall t, tasks c !! i = Some t -> status t = taskStatusIdle) -> temps i [] fs;
  fi_map : forall i t, tasks c !! i = Some t -> taskType t = TaskTypeMap ->
    exists p, p ∈ inputs /\ files t = [p.1];
  fi_workers : forall w p, ws !! w = Some p -> worker_ok (mapped (tasks c)) fsM (tasks c) fs p;
  fi_midM : c_phase c ≠ phaseMap -> mid (mapped (tasks c)) fsM;
  fi_reduce : forall i t, tasks c !! i = Some t -> taskType t = TaskTypeReduce ->
    task_key t ∈ reduce_ids elements fsM /\ files t = files_of fsM (task_key t) /\
    (status t = taskStatusIdle -> fs !! reduce_temp (task_key t) = None) /\
    (status t = taskStatusCompleted ->
       written_as (grouped (mapped (tasks c)) fsM (task_key t)) (fs !! ("mr-out-" +:+ task_key t)));
  fi_distinct : forall i j t u, tasks c !! i = Some t -> tasks c !! j = Some u ->
    taskType t = TaskTypeReduce -> taskType u = TaskTypeReduce -> task_key t = task_key u -> i = j;
  fi_all : c_phase c ≠ phaseMap -> forall k, k ∈ reduce_ids elements fsM ->
    exists i t, tasks c !! i = Some t /\ taskType t = TaskTypeReduce /\ task_key t = k;
  fi_absent : forall k, (forall i t, tasks c !! i = Some t -> taskType t = TaskTypeReduce -> task_key t ≠ k) ->
    fs !! reduce_temp k = None /\ fs !! ("mr-out-" +:+ k) = None
}.

(** ** Names of files do not clash *)

Lemma bucket_pos key : (0 <= bucket key)%Z.
Proof. apply bucket_range, (ready_nReduce _ _ _ _ Hready). Qed.

Lemma map_temp_inj i j r q :
  (0 <= r)%Z -> (0 <= q)%Z -> map_temp i r = map_temp j q -> i = j /\ r = q.
Proof.
  intros Hr Hq H. apply (inj (String.append "temp")), m_name_inj in H; [|lia..]. lia.
Qed.

Lemma map_temp_reduce_temp i r k : map_temp i r ≠ reduce_temp k.
Proof. discriminate. Qed.

Lemma input_own p f : p ∈ inputs -> own_file f = true -> f ≠ p.1.
Proof.
  intros Hp Hf ->. pose proof (ready_inputs _ _ _ _ Hready p Hp) as H.
  by rewrite (ready_fresh _ _ _ _ Hready) in H.
Qed.

Lemma own_map_temp i r : own_file (map_temp i r) = true.
Proof. unfold own_file, map_temp. rewrite (GoStrings.prefix_app "temp"). by rewrite orb_true_r. Qed.

Lemma own_reduce_temp k : own_file (reduce_temp k) = true.
Proof.
  unfold own_file. change (reduce_temp k) with ("temp" +:+ "mr-out-" +:+ k).
  rewrite (GoStrings.prefix_app "temp"). by rewrite orb_true_r.
Qed.

Lemma own_mr_out k : own_file ("mr-out-" +:+ k) = true.
Proof. unfold own_file. rewrite (GoStrings.prefix_app "mr-out-"). by rewrite orb_true_r. Qed.

Lemma temp_not_mid i r : String.prefix "m-out-" (map_temp i r) = false.
Proof. done. Qed.

(** ** The intermediate pairs *)

Lemma elem_of_mapped t ts :
  t ∈ mapped ts <-> exists i u, ts !! i = Some u /\ mapped_task u = true /\
    t ∈ tag_pairs i (file_pairs (files u)).
Proof.
  unfold mapped. rewrite elem_of_concat. split.
  - intros (l & (i & u & -> & Hi)%elem_of_lookup_imap & Ht). destruct (mapped_task u) eqn:E; [|set_solver].
    eauto.
  - intros (i & u & Hi & Hm & Ht). eexists. split; [|exact Ht]. apply elem_of_lookup_imap.
    exists i, u. by rewrite Hm.
Qed.

Lemma mapped_tagged ts : tagged nReduce (mapped ts).
Proof.
  intros t (i & u & _ & _ & (kv & -> & _)%list_elem_of_fmap)%elem_of_mapped.
  exists (Z.of_nat i). split; [lia|done].
Qed.

(** Updates that do not touch completed map tasks. *)
Lemma mapped_insert ts i t t' :
  ts !! i = Some t -> mapped_task t = false -> mapped_task t' = false ->
  mapped (<[i := t']> ts) = mapped ts.
Proof.
  intros Hi Ht Ht'. unfold mapped. f_equal.
  rewrite <- (list_insert_id ts i t Hi) at 2. apply list_eq. intros j. rewrite !list_lookup_imap.
  destruct (decide (i = j)) as [<-|Hne]; [|by rewrite !list_lookup_insert_ne].
  rewrite !list_lookup_insert_eq by by eapply lookup_lt_Some. simpl. by rewrite Ht, Ht'.
Qed.

Lemma mapped_app ts new :
  Forall (fun t => mapped_task t = false) new -> mapped (ts ++ new) = mapped ts.
Proof.
  intros Hn. unfold mapped. rewrite imap_app, concat_app.
  replace (concat (imap _ new)) with (@nil (string * KeyValue)); [by rewrite app_nil_r|].
  symmetry. apply elem_of_nil_inv. intros t (l & (i & u & -> & Hi)%elem_of_lookup_imap & Ht)%elem_of_concat.
  rewrite Forall_forall in Hn. rewrite Hn in Ht by by eapply list_elem_of_lookup_2. set_solver.
Qed.

(** A map task that completes adds its pairs. *)
Lemma mapped_complete ts i t t' :
  ts !! i = Some t -> mapped_task t = false -> mapped_task t' = true ->
  mapped (<[i := t']> ts) ≡ₚ tag_pairs i (file_pairs (files t')) ++ mapped ts.
Proof.
  intros Hi Ht Ht'. apply list_elem_of_split_length in Hi as (l1 & l2 & -> & ->).
  rewrite insert_app_r_alt, Nat.sub_diag by lia. unfold mapped.
  rewrite !imap_app, !concat_app. simpl. rewrite Nat.add_0_r, Ht, Ht'. simpl. solve_Permutation.
Qed.

Definition map_pairs (ts : list task) (i : nat) : list KeyValue :=
  match ts !! i with
  | Some t => if mapped_task t then file_pairs (files t) else []
  | None => []
  end.

Lemma pairs_of_tag_pairs i j kvs r :
  (0 <= r)%Z ->
  pairs_of (tag_pairs i kvs) (m_name (Z.of_nat j) r) = if decide (i = j) then chunk kvs r else [].
Proof.
  intros Hr. unfold pairs_of, tag_pairs, chunk.
  induction kvs as [|kv kvs IH]; [by case_decide|]. rewrite fmap_cons, !filter_cons. simpl.
  pose proof (bucket_pos (Key kv)). destruct (decide (i = j)) as [->|Hne].
  - destruct (decide (bucket (Key kv) = r)) as [Hb|Hb].
    + rewrite decide_True by by rewrite Hb. rewrite fmap_cons. simpl. by f_equal.
    + rewrite decide_False; [done|]. intros E. apply m_name_inj in E; lia.
  - rewrite decide_False; [done|]. intros E. apply m_name_inj in E; lia.
Qed.

Lemma pairs_of_mapped ts i r :
  (0 <= r)%Z -> pairs_of (mapped ts) (m_name (Z.of_nat i) r) = chunk (map_pairs ts i) r.
Proof.
  intros Hr. unfold map_pairs. induction ts as [|t ts IH] using rev_ind; [done|].
  unfold mapped. rewrite imap_app, concat_app, pairs_of_app. fold (mapped ts). rewrite IH. simpl.
  rewrite Nat.add_0_r, app_nil_r.
  destruct (decide (i = length ts)) as [->|Hne].
  - rewrite lookup_ge_None_2, list_lookup_middle by done. simpl.
    destruct (mapped_task t); [|done]. by rewrite pairs_of_tag_pairs, decide_True.
  - assert (pairs_of (if mapped_task t then tag_pairs (length ts) (file_pairs (files t)) else [])
      (m_name (Z.of_nat i) r) = []) as ->.
    { destruct (mapped_task t); [|done]. by rewrite pairs_of_tag_pairs, decide_False. }
    rewrite app_nil_r. destruct (decide (i < length ts)).
    + by rewrite lookup_app_l.
    + rewrite !lookup_ge_None_2; [done|rewrite length_app; simpl; lia|lia].
Qed.

Lemma elem_of_pairs_of T f : f ∈ T.*1 <-> pairs_of T f ≠ [].
Proof.
  split.
  - intros (t & -> & Ht)%list_elem_of_fmap E. apply fmap_nil_inv in E.
    apply (not_elem_of_nil t). rewrite <- E. by apply list_elem_of_filter.
  - intros Hne. destruct (decide (f ∈ T.*1)) as [|Hn]; [done|]. by rewrite pairs_of_none in Hne.
Qed.

(** [mid] for the completed map tasks, by the names of the files. *)
Lemma mid_mapped ts fs :
  mid (mapped ts) fs <->
  (forall i r, (0 <= r)%Z -> fs !! m_name (Z.of_nat i) r = as_file (chunk (map_pairs ts i) r)) /\
  (forall f, String.prefix "m-out-" f = true ->
     (forall i r, (0 <= r)%Z -> f ≠ m_name (Z.of_nat i) r) -> fs !! f = None).
Proof.
  assert (forall i r, (0 <= r)%Z ->
    (if decide (m_name (Z.of_nat i) r ∈ (mapped ts).*1)
     then Some (lines (pairs_of (mapped ts) (m_name (Z.of_nat i) r))) else None)
    = as_file (chunk (map_pairs ts i) r)) as Heq.
  { intros i r Hr. rewrite <- pairs_of_mapped by done.
    destruct (decide _) as [H|H]; rewrite elem_of_pairs_of in H.
    - by destruct (pairs_of _ _).
    - by destruct (pairs_of _ _); [|destruct H]. }
  split.
  - intros Hm. split.
    + intros i r Hr. rewrite Hm, Heq by (done || apply GoStrings.prefix_app). done.
    + intros f Hp Hf. rewrite Hm by done. apply decide_False. intros Hin.
      apply (tagged_name nReduce (ready_nReduce _ _ _ _ Hready) _ (mapped_tagged ts)) in Hin
        as (i & r & -> & Hi & Hr).
      apply (Hf (Z.to_nat i) r); [done|]. by rewrite Z2Nat.id.
  - intros [H1 H2] f Hp. destruct (decide (f ∈ (mapped ts).*1)) as [Hin|Hin].
    + pose proof Hin as (i & r & -> & Hi & Hr)%(tagged_name nReduce (ready_nReduce _ _ _ _ Hready) _
        (mapped_tagged ts)). apply Z_of_nat_complete in Hi as [j ->].
      rewrite H1, <- Heq by done. by rewrite decide_True.
    + destruct (fs !! f) as [text|] eqn:E; [exfalso|done]. rewrite H2 in E; [done|done|].
      intros i r Hr ->. rewrite H1, <- Heq, decide_False in E by done. done.
Qed.

(** ** Frames *)

(** A worker's knowledge survives changes that leave its task and its files alone. *)
Lemma worker_ok_mono T fsM ts fs T' fsM' ts' fs' p :
  worker_ok T fsM ts fs p ->
  (forall i t, task_of p = Some i -> ts !! i = Some t -> exists t', ts' !! i = Some t' /\
     files t' = files t /\ taskType t' = taskType t) ->
  (forall i t, task_of p = Some i -> ts !! i = Some t -> taskType t = TaskTypeMap ->
     forall r, (0 <= r)%Z -> fs' !! map_temp i r = fs !! map_temp i r) ->
  (forall i t, task_of p = Some i -> ts !! i = Some t -> taskType t = TaskTypeReduce ->
     T' = T /\ fsM' = fsM /\ fs' !! reduce_temp (task_key t) = fs !! reduce_temp (task_key t)) ->
  worker_ok T' fsM' ts' fs' p.
Proof.
  intros Hp Ht Hm Hr. destruct p as [|i n todo kvs made|i rid todo m|i rid m keys made|i l|]; simpl in *;
    try done.
  - destruct Hp as (-> & t & pre & rd & Hi & Hty & Hf & Hpre & Htmp & Hmade). split; [done|].
    destruct (Ht i t eq_refl Hi) as (t' & Hi' & Ef & Ety). exists t', pre, rd.
    rewrite Ef, Ety. split_and!; try done. intros r Hr0. rewrite (Hm i t) by done. by apply Htmp.
  - destruct Hp as (t & rd & Hi & Hty & -> & Hf & -> & Htmp).
    destruct (Ht i t eq_refl Hi) as (t' & Hi' & Ef & Ety).
    destruct (Hr i t eq_refl Hi Hty) as (-> & -> & Ht').
    exists t', rd. unfold task_key in *. rewrite Ef, Ety, Ht'. done.
  - destruct Hp as (t & pre & Hi & Hty & -> & Hm' & Hk & Htmp).
    destruct (Ht i t eq_refl Hi) as (t' & Hi' & Ef & Ety).
    destruct (Hr i t eq_refl Hi Hty) as (-> & -> & Ht').
    exists t', pre. unfold task_key in *. rewrite Ef, Ety, Ht'. done.
  - destruct Hp as (t & Hi & Hp). destruct (Ht i t eq_refl Hi) as (t' & Hi' & Ef & Ety). exists t'.
    split; [done|]. unfold task_key in *. rewrite Ef, Ety.
    destruct Hp as [(Hty & Hl & Htmp)|(Hty & Hl & Hw)]; [left|right].
    + split_and!; try done. intros r Hr0. rewrite (Hm i t) by done. by apply Htmp.
    + destruct (Hr i t eq_refl Hi Hty) as (-> & -> & ->). done.
Qed.

(** The file names that no other task touches. *)
Definition only_task (i : nat) (t : task) (fs fs' : FS) : Prop :=
  forall f, (taskType t = TaskTypeMap -> forall r, (0 <= r)%Z -> f ≠ map_temp i r) ->
    (taskType t = TaskTypeReduce -> f ≠ reduce_temp (task_key t) /\ f ≠ "mr-out-" +:+ task_key t) ->
    fs' !! f = fs !! f.

Lemma only_task_inputs i t fs fs' p :
  only_task i t fs fs' -> p ∈ inputs -> fs' !! p.1 = fs !! p.1.
Proof.
  intros Ho Hp. apply Ho; intros _; [intros r Hr|split]; intros E; symmetry in E; revert E.
  - apply input_own; [done|apply own_map_temp].
  - apply input_own; [done|apply own_reduce_temp].
  - apply input_own; [done|apply own_mr_out].
Qed.

Lemma only_task_mid i t fs fs' T : only_task i t fs fs' -> mid T fs -> mid T fs'.
Proof.
  intros Ho Hm f Hf. rewrite Ho; [by apply Hm|..]; intros _; [intros r Hr|split]; intros ->; done.
Qed.

Lemma only_task_refl i t fs : only_task i t fs fs.
Proof. by intros f _ _. Qed.

Lemma only_task_temp i t fs fs' j r :
  only_task i t fs fs' -> i ≠ j -> (0 <= r)%Z -> fs' !! map_temp j r = fs !! map_temp j r.
Proof.
  intros Ho Hne Hr. apply Ho; intros _; [|by split; [apply map_temp_reduce_temp|]].
  intros q Hq E. apply map_temp_inj in E; lia.
Qed.

Lemma only_task_reduce i t fs fs' k :
  only_task i t fs fs' -> (taskType t = TaskTypeReduce -> k ≠ task_key t) ->
  fs' !! reduce_temp k = fs !! reduce_temp k.
Proof.
  intros Ho Hk. apply Ho; [by intros _ r _ ?|]. intros Hty. split; [|done]. intros E.
  by apply (Hk Hty), (inj (String.append "tempmr-out-")).
Qed.

(** The states of a task that a worker holds. *)
Definition running (t : task) : Prop :=
  status t = taskStatusInProgress \/ status t = taskStatusTimedOut.

Lemma running_not_idle t : running t -> status t ≠ taskStatusIdle.
Proof. intros [E|E]; congruence. Qed.

Lemma running_not_mapped t : running t -> mapped_task t = false.
Proof. unfold mapped_task. intros [E|E]; rewrite E; apply andb_false_r. Qed.

(** A step of the worker that holds task [i], on its own files. *)
Lemma finv_own fsM c fs ws w p p' i t fs' :
  finv fsM c fs ws -> NoDup (held ws) -> ws !! w = Some p -> task_of p = Some i ->
  tasks c !! i = Some t -> running t -> only_task i t fs fs' ->
  worker_ok (mapped (tasks c)) fsM (tasks c) fs' p' ->
  finv fsM c fs' (<[w := p']> ws).
Proof.
  intros [H1 H2 H3 H4 H5 H6 H7 H8 H9 H10 H11] Hnd Hw Hp Hi Hst Ho Hp'. split; try done.
  - intros q Hq. rewrite (only_task_inputs i t fs fs') by done. by apply H2.
  - by eapply only_task_mid.
  - intros j Hj r Hr. rewrite (only_task_temp i t fs fs'); [by apply H4|done| |done].
    intros <-. apply (running_not_idle t Hst), Hj, Hi.
  - intros v q [(<- & <- & _)|[Hne Hv]]%list_lookup_insert_Some; [done|].
    eapply worker_ok_mono; [by apply (H6 v)|by eauto|..].
    + intros j u Hj Hu _ r Hr. rewrite (only_task_temp i t fs fs'); [done|done| |done].
      intros <-. apply Hne. by eapply held_distinct.
    + intros j u Hj Hu Hty. split_and!; [done|done|]. eapply only_task_reduce; [done|].
      intros Hty' E. apply Hne. eapply held_distinct; [done..|]. rewrite Hj. f_equal. by eapply H9.
  - intros j u Hj Hty. destruct (H8 j u Hj Hty) as (K1 & K2 & K3 & K4). split_and!; [done|done|..].
    + intros Hidle. rewrite (only_task_reduce i t fs fs'); [by apply K3|done|].
      intros Hty' E. assert (j = i) as -> by by eapply H9.
      simplify_eq. by apply (running_not_idle t).
    + intros Hcomp. rewrite Ho; [by apply K4|by intros _ r _|]. intros Hty'. split; [done|].
      intros E%(inj (String.append "mr-out-")). assert (j = i) as -> by by eapply H9.
      simplify_eq. by destruct Hst; congruence.
  - intros k Hk. assert (taskType t = TaskTypeReduce -> k ≠ task_key t) as Hne
      by (intros Hty ->; by apply (Hk i t)).
    rewrite (only_task_reduce i t fs fs') by done. rewrite Ho; [by apply H11|by intros _ r _|].
    intros Hty. split; [done|]. intros E%(inj (String.append "mr-out-")). by apply Hne.
Qed.

Lemma finv_ws fsM c fs ws w p' :
  finv fsM c fs ws -> worker_ok (mapped (tasks c)) fsM (tasks c) fs p' ->
  finv fsM c fs (<[w := p']> ws).
Proof.
  intros [H1 H2 H3 H4 H5 H6 H7 H8 H9 H10 H11] Hp'. split; try done.
  intros v q [(<- & <- & _)|[Hne Hv]]%list_lookup_insert_Some; [done|by eapply H6].
Qed.

(** Changes of the coordinator that keep tasks, phase and number of reducers. *)
Lemma finv_co fsM c c' fs ws :
  tasks c' = tasks c -> c_phase c' = c_phase c -> c_nReduce c' = c_nReduce c ->
  finv fsM c fs ws -> finv fsM c' fs ws.
Proof.
  intros Et Ep En [H1 H2 H3 H4 H5 H6 H7 H8 H9 H10 H11].
  split; rewrite ?Et, ?Ep, ?En; done.
Qed.

(** ** Steps inside a map task *)

Lemma chunk_snoc kvs kv r :
  chunk (kvs ++ [kv]) r = if decide (bucket (Key kv) = r) then chunk kvs r ++ [kv] else chunk kvs r.
Proof.
  unfold chunk. rewrite filter_app, filter_cons, filter_nil.
  destruct (decide _); [done|by rewrite app_nil_r].
Qed.

Lemma as_file_snoc kvs kv :
  as_file (kvs ++ [kv]) = Some (default "" (as_file kvs) +:+ write_kv kv).
Proof.
  unfold as_file. destruct kvs as [|x l]; [simpl; by rewrite append_nil_r|].
  rewrite lines_app. simpl. by rewrite append_nil_r.
Qed.

(** Appending a line to the file of its reducer. *)
Lemma temps_append i kvs kv fs :
  temps i kvs fs -> temps i (kvs ++ [kv]) (Append fs (map_temp i (bucket (Key kv))) (write_kv kv)).
Proof.
  intros Ht r Hr. rewrite chunk_snoc. pose proof (bucket_pos (Key kv)). unfold Append.
  destruct (decide (bucket (Key kv) = r)) as [->|Hne].
  - rewrite lookup_insert_eq, as_file_snoc. f_equal. by rewrite Ht.
  - rewrite lookup_insert_ne; [by apply Ht|]. intros E. apply map_temp_inj in E; lia.
Qed.

Lemma temp_names_snoc i kvs kv :
  temp_names i (kvs ++ [kv]) = {[ map_temp i (bucket (Key kv)) ]} ∪ temp_names i kvs.
Proof.
  unfold temp_names. rewrite fmap_app, list_to_set_app_L. simpl. set_solver.
Qed.

Lemma only_task_append_map i t fs r text :
  taskType t = TaskTypeMap -> (0 <= r)%Z -> only_task i t fs (Append fs (map_temp i r) text).
Proof.
  intros Hty Hr f Hf _. unfold Append. apply lookup_insert_ne. intros <-. by apply (Hf Hty r Hr).
Qed.

Lemma only_task_append_reduce i t fs text :
  taskType t = TaskTypeReduce -> only_task i t fs (Append fs (reduce_temp (task_key t)) text).
Proof. intros Hty f _ Hf. unfold Append. apply lookup_insert_ne. intros <-. by destruct (Hf Hty). Qed.

(** ** Steps of workers inside their tasks *)

Lemma file_pairs_input p : p ∈ inputs -> file_pairs [p.1] = mapf p.1 p.2.
Proof.
  intros Hp. unfold file_pairs. simpl. by rewrite (ready_inputs _ _ _ _ Hready p Hp), app_nil_r.
Qed.

Lemma mapped_clean ts :
  (forall i t, ts !! i = Some t -> taskType t = TaskTypeMap -> exists p, p ∈ inputs /\ files t = [p.1]) ->
  Forall clean (mapped ts).*2.
Proof.
  intros Hm. apply Forall_forall. intros kv (t & -> & (i & u & Hi & Hu & Ht)%elem_of_mapped)%list_elem_of_fmap.
  unfold mapped_task in Hu. apply andb_true_iff in Hu as [Hty%bool_decide_eq_true_1 _].
  destruct (Hm i u Hi Hty) as (p & Hp & Ef). rewrite Ef, file_pairs_input in Ht by done.
  apply list_elem_of_fmap in Ht as (kv & -> & Hkv). simpl.
  rewrite Forall_forall in Hclean. apply Hclean. unfold emitted. apply elem_of_concat.
  exists (mapf p.1 p.2). split; [|done]. by apply (list_elem_of_fmap_2 (fun p => mapf p.1 p.2)).
Qed.

(** A reduce task has files, named after its reducer, with pairs in them. *)
Lemma reduce_files fsM c fs ws i t :
  finv fsM c fs ws -> c_phase c ≠ phaseMap -> tasks c !! i = Some t -> taskType t = TaskTypeReduce ->
  exists f fl, files t = f :: fl /\ Split f "-" !! 3 = Some (task_key t) /\
    pairs_in (mapped (tasks c)) fsM (task_key t) ≠ [].
Proof.
  intros Hf Hp Hi Hty. destruct (fi_reduce _ _ _ _ Hf i t Hi Hty) as (Hk & -> & _).
  destruct (files_of_spec elements nReduce (ready_visit _ _ _ _ Hready) (ready_nReduce _ _ _ _ Hready)
    (mapped (tasks c)) (mapped_tagged _) fsM (fi_midM _ _ _ _ Hf Hp) fs (task_key t))
    as (f & fl & H1 & H2 & _ & H3); [by eapply mapped_clean, fi_map|apply (fi_mid _ _ _ _ Hf)|done|].
  eauto.
Qed.

Section WorkerSteps.
Context (fsM : FS) (c : Coordinator) (fs : FS) (ws : list wstate) (w : nat) (i : nat).
Hypothesis Hf : finv fsM c fs ws.
Hypothesis Hnd : NoDup (held ws).
Hypothesis Hheld : forall t, tasks c !! i = Some t -> running t.
Hypothesis Hphase : forall t, tasks c !! i = Some t -> taskType t = TaskTypeReduce -> c_phase c ≠ phaseMap.

Lemma step_map_read n f todo made :
  ws !! w = Some (WMap i n (f :: todo) [] made) ->
  exists content, fs !! f = Some content /\
    finv fsM c fs (<[w := WMap i n todo (mapf f content) made]> ws).
Proof.
  intros Hw. pose proof (fi_workers _ _ _ _ Hf _ _ Hw) as (-> & t & pre & rd & Hi & Hty & Et & Hpre & Htmp & Hmade).
  destruct (fi_map _ _ _ _ Hf i t Hi Hty) as (p & Hp & Efs).
  assert (rd = [] /\ f = p.1 /\ todo = []) as (-> & -> & ->).
  { rewrite Efs in Et. destruct rd as [|? [|? ?]]; simplify_eq/=. done. }
  rewrite (fi_inputs _ _ _ _ Hf p Hp). exists p.2. split; [done|].
  eapply finv_own; [done..|by eauto|apply only_task_refl|]. simpl. split; [done|].
  exists t, pre, [p.1]. split_and!; try done. rewrite file_pairs_input by done.
  unfold file_pairs in Hpre. simpl in Hpre. symmetry in Hpre. apply app_eq_nil in Hpre as [-> _]. done.
Qed.

Lemma step_map_write n todo kv kvs made fs' made' :
  ws !! w = Some (WMap i n todo (kv :: kvs) made) ->
  write_pair (Z.of_nat i) n (fs, made) kv = Ok (fs', made') ->
  finv fsM c fs' (<[w := WMap i n todo kvs made']> ws).
Proof.
  intros Hw Hwr. pose proof (fi_workers _ _ _ _ Hf _ _ Hw)
    as (-> & t & pre & rd & Hi & Hty & Et & Hpre & Htmp & Hmade).
  unfold write_pair in Hwr. case_bool_decide; [done|]. simplify_eq/=.
  rewrite outFilename_m_name. fold (map_temp i (bucket (Key kv))).
  eapply finv_own; [done..|by eauto|by apply only_task_append_map, bucket_pos|].
  simpl. split; [done|]. exists t, (pre ++ [kv]), rd. split_and!; try done.
  - by rewrite <- app_assoc.
  - by apply temps_append.
  - by rewrite temp_names_snoc, dom_insert_L, Hmade.
Qed.

Lemma step_map_end n made l :
  ws !! w = Some (WMap i n [] [] made) -> l ≡ₚ elements (dom made) ->
  finv fsM c fs (<[w := WReport i l]> ws).
Proof.
  intros Hw Hl. pose proof (fi_workers _ _ _ _ Hf _ _ Hw)
    as (-> & t & pre & rd & Hi & Hty & Et & Hpre & Htmp & Hmade).
  eapply finv_own; [done..|by eauto|apply only_task_refl|]. simpl. exists t. split; [done|]. left.
  rewrite app_nil_r in Et, Hpre. rewrite Et, Hpre. rewrite Hmade in Hl. done.
Qed.

Lemma step_reduce_read rid f todo m content m' :
  ws !! w = Some (WGather i rid (f :: todo) m) -> fs !! f = Some content ->
  fold_go read_line (Split content newline) m = Ok m' ->
  finv fsM c fs (<[w := WGather i rid todo m']> ws).
Proof.
  intros Hw Hc Hm. pose proof (fi_workers _ _ _ _ Hf _ _ Hw) as (t & rd & Hi & Hty & -> & Et & -> & Htmp).
  destruct (fi_reduce _ _ _ _ Hf i t Hi Hty) as (Hk & Efs & _).
  eapply finv_own; [done..|by eauto|apply only_task_refl|]. simpl.
  exists t, (rd ++ [f]). split_and!; try done; [by rewrite <- app_assoc|].
  assert (f ∈ (mapped (tasks c)).*1) as Hin.
  { eapply (elem_of_files_of nReduce (ready_nReduce _ _ _ _ Hready)); [apply mapped_tagged
      |by eapply (fi_midM _ _ _ _ Hf), Hphase|]. rewrite <- Efs, Et. apply elem_of_app. right. left. }
  rewrite (mid_lookup nReduce (ready_nReduce _ _ _ _ Hready) (mapped (tasks c)) (mapped_tagged _) fs
    (fi_mid _ _ _ _ Hf) f Hin) in Hc. injection Hc as <-.
  rewrite read_lines in Hm.
  - injection Hm as <-. rewrite fmap_app, concat_app. simpl. rewrite app_nil_r.
    unfold group_by. by rewrite foldl_app.
  - apply Forall_forall. intros kv (u & -> & [_ Hu]%list_elem_of_filter)%list_elem_of_fmap.
    pose proof (mapped_clean (tasks c) (fi_map _ _ _ _ Hf)) as Hcl. rewrite Forall_forall in Hcl.
    by apply Hcl, list_elem_of_fmap_2.
Qed.

Lemma step_reduce_group rid m keys :
  ws !! w = Some (WGather i rid [] m) -> keys ≡ₚ elements (dom m) ->
  finv fsM c fs (<[w := WWrite i rid m keys ∅]> ws).
Proof.
  intros Hw Hk. pose proof (fi_workers _ _ _ _ Hf _ _ Hw) as (t & rd & Hi & Hty & -> & Et & -> & Htmp).
  destruct (fi_reduce _ _ _ _ Hf i t Hi Hty) as (_ & Efs & _).
  eapply finv_own; [done..|by eauto|apply only_task_refl|]. simpl.
  exists t, []. rewrite app_nil_r in Et. split_and!; try done.
  unfold grouped, pairs_in. by rewrite <- Efs, Et.
Qed.

Lemma results_snoc m pre k :
  results reducef m (pre ++ [k]) = results reducef m pre +:+ write_result reducef m k.
Proof.
  unfold results. induction pre as [|x pre IH]; simpl; [by rewrite append_nil_r|].
  by rewrite IH, append_assoc.
Qed.

Lemma step_reduce_write rid m k keys made :
  ws !! w = Some (WWrite i rid m (k :: keys) made) ->
  finv fsM c (Append fs (reduce_temp rid) (write_result reducef m k))
    (<[w := WWrite i rid m keys (<[reduce_temp rid := true]> made)]> ws).
Proof.
  intros Hw. pose proof (fi_workers _ _ _ _ Hf _ _ Hw) as (t & pre & Hi & Hty & -> & Hm & Hp & Htmp).
  eapply finv_own; [done..|by eauto|by apply only_task_append_reduce|]. simpl.
  exists t, (pre ++ [k]). split_and!; try done; [by rewrite <- app_assoc|].
  rewrite decide_False by by intros [_ ?]%app_eq_nil. unfold Append. rewrite lookup_insert_eq, dom_insert_L.
  rewrite results_snoc. destruct (decide (pre = [])) as [->|Hne]; destruct Htmp as [-> ->]; simpl.
  - split; [done|set_solver].
  - split; [done|set_solver].
Qed.

Lemma step_reduce_end rid m made l :
  ws !! w = Some (WWrite i rid m [] made) -> l ≡ₚ elements (dom made) ->
  finv fsM c fs (<[w := WReport i l]> ws).
Proof.
  intros Hw Hl. pose proof (fi_workers _ _ _ _ Hf _ _ Hw) as (t & pre & Hi & Hty & -> & -> & Hp & Htmp).
  destruct (fi_reduce _ _ _ _ Hf i t Hi Hty) as (Hk & Efs & _).
  eapply finv_own; [done..|by eauto|apply only_task_refl|]. simpl.
  exists t. split; [done|]. right. rewrite app_nil_r in Hp.
  rewrite decide_False in Htmp.
  - destruct Htmp as [Htmp Hmade]. rewrite Hmade, elements_singleton in Hl.
    split_and!; [done|by apply Permutation_singleton_r|]. exists pre. by rewrite Htmp.
  - intros ->. symmetry in Hp. apply Permutation_nil_r, elements_empty_inv in Hp.
    destruct (reduce_files fsM c fs ws i t Hf (Hphase t Hi Hty) Hi Hty) as (f & fl & _ & _ & Hne).
    apply Hne. unfold grouped in Hp. rewrite group_by_dom in Hp.
    destruct (pairs_in _ _ _) as [|kv l']; [done|]. set_solver.
Qed.
End WorkerSteps.

(** ** Steps of the coordinator *)

(** A task changes its status: it is handed out, times out or, a reduce task, completes. *)
Lemma finv_task fsM c c' fs ws i t t' :
  finv fsM c fs ws -> tasks c !! i = Some t -> tasks c' = <[i := t']> (tasks c) ->
  files t' = files t -> taskType t' = taskType t -> status t' ≠ taskStatusIdle ->
  mapped_task t = false -> mapped_task t' = false ->
  c_nReduce c' = c_nReduce c -> (c_phase c' = phaseMap <-> c_phase c = phaseMap) ->
  (taskType t = TaskTypeReduce -> status t' = taskStatusCompleted ->
     written_as (grouped (mapped (tasks c)) fsM (task_key t)) (fs !! ("mr-out-" +:+ task_key t))) ->
  finv fsM c' fs ws.
Proof.
  intros [H1 H2 H3 H4 H5 H6 H7 H8 H9 H10 H11] Hi Et Ef Ety Hst Hm Hm' En Ep Hout.
  assert (task_key t' = task_key t) as Ek by (unfold task_key; by rewrite Ef).
  assert (mapped (tasks c') = mapped (tasks c)) as Em by by rewrite Et; eapply mapped_insert.
  assert (forall j u, tasks c' !! j = Some u -> exists v, tasks c !! j = Some v /\ files u = files v /\
    taskType u = taskType v /\ ((i = j /\ u = t' /\ v = t) \/ u = v)) as Hback.
  { intros j u. rewrite Et. intros [(<- & <- & _)|[_ Hj]]%list_lookup_insert_Some; naive_solver. }
  assert (forall j u, tasks c !! j = Some u -> exists v, tasks c' !! j = Some v /\ files v = files u /\
    taskType v = taskType u) as Hforth.
  { intros j u Hj. rewrite Et. destruct (decide (i = j)) as [<-|Hne].
    - rewrite list_lookup_insert_eq by by eapply lookup_lt_Some. simplify_eq. eauto.
    - rewrite list_lookup_insert_ne by done. eauto. }
  split; rewrite ?Em, ?Ep, ?En; try done.
  - intros j Hj. apply H4. intros u Hu. destruct (decide (i = j)) as [<-|Hne].
    + destruct Hst. apply Hj. rewrite Et. apply list_lookup_insert_eq. by eapply lookup_lt_Some.
    + apply Hj. by rewrite Et, list_lookup_insert_ne.
  - intros j u (v & Hv & -> & -> & _)%Hback. by eapply H5.
  - intros w p Hw. eapply worker_ok_mono; [by eapply H6|by eauto|done|done].
  - intros j u (v & Hv & Efu & Etu & Hc)%Hback. unfold task_key. rewrite Efu, Etu. fold (task_key v).
    intros Hty. destruct (H8 j v Hv Hty) as (K1 & K2 & K3 & K4). split_and!; [done|done|..].
    + destruct Hc as [(-> & -> & ->)| ->]; done.
    + destruct Hc as [(-> & -> & ->)| ->]; [by apply Hout|done].
  - intros j k u v (u' & Hu & Efu & Etu & _)%Hback (v' & Hv & Efv & Etv & _)%Hback.
    unfold task_key. rewrite Efu, Etu, Efv, Etv. by apply H9.
  - intros Hp k Hk. destruct (H10 Hp k Hk) as (j & u & Hj & Hu & <-).
    destruct (Hforth j u Hj) as (v & Hv & Efv & Etv). exists j, v. unfold task_key. by rewrite Efv, Etv.
  - intros k Hk. apply H11. intros j u Hj Hty. destruct (Hforth j u Hj) as (v & Hv & Efv & Etv).
    intros <-. apply (Hk j v); [done|congruence|]. unfold task_key. by rewrite Efv.
Qed.

(** Idle map tasks are added: the retries of those that timed out. *)
Lemma finv_append fsM c c' fs ws t :
  finv fsM c fs ws -> tasks c' = tasks c ++ [t] -> taskType t = TaskTypeMap ->
  status t = taskStatusIdle -> (exists p, p ∈ inputs /\ files t = [p.1]) ->
  c_nReduce c' = c_nReduce c -> c_phase c' = c_phase c -> finv fsM c' fs ws.
Proof.
  intros [H1 H2 H3 H4 H5 H6 H7 H8 H9 H10 H11] Et Hty Hst Hp En Ep.
  assert (mapped (tasks c') = mapped (tasks c)) as Em.
  { rewrite Et. apply mapped_app. constructor; [|done]. unfold mapped_task. rewrite Hst. apply andb_false_r. }
  assert (forall j u, tasks c' !! j = Some u -> tasks c !! j = Some u \/ u = t) as Hback.
  { intros j u. rewrite Et. intros [Hj|[_ Hj]]%lookup_app_Some; [by left|].
    apply list_lookup_singleton_Some in Hj as [_ <-]. by right. }
  assert (forall j u, tasks c !! j = Some u -> tasks c' !! j = Some u) as Hforth.
  { intros j u Hj. rewrite Et. by apply lookup_app_l_Some. }
  split; rewrite ?Em, ?Ep, ?En; try done.
  - intros j Hj. apply H4. intros u Hu. by apply Hj, Hforth.
  - intros j u [Hj| ->]%Hback; [by eapply H5|done].
  - intros w p Hw. eapply worker_ok_mono; [by eapply H6|by eauto|done|done].
  - intros j u [Hj| ->]%Hback; [by eapply H8|congruence].
  - intros j k u v [Hj| ->]%Hback; [|congruence]. intros [Hk| ->]%Hback; [by eapply H9|congruence].
  - intros Hph k Hk. destruct (H10 Hph k Hk) as (j & u & Hj & Hu & Eu). exists j, u. auto.
  - intros k Hk. apply H11. eauto.
Qed.

(** ** Reports *)

Lemma chunk_elem kvs r : chunk kvs r ≠ [] <-> exists kv, kv ∈ kvs /\ bucket (Key kv) = r.
Proof.
  unfold chunk. split.
  - destruct (filter _ kvs) as [|kv l] eqn:E; [done|]. intros _. exists kv.
    assert (kv ∈ filter (fun kv => bucket (Key kv) = r) kvs) as Hkv by (rewrite E; left).
    apply list_elem_of_filter in Hkv. tauto.
  - intros (kv & Hkv & Hb) E. apply (not_elem_of_nil kv). rewrite <- E. by apply list_elem_of_filter.
Qed.

Lemma elem_of_temp_names i kvs l f :
  l ≡ₚ elements (temp_names i kvs) ->
  f ∈ l <-> exists r, (0 <= r)%Z /\ chunk kvs r ≠ [] /\ f = map_temp i r.
Proof.
  intros ->. unfold temp_names. rewrite elem_of_elements, elem_of_list_to_set, list_elem_of_fmap.
  setoid_rewrite chunk_elem. split.
  - intros (kv & -> & Hkv). pose proof (bucket_pos (Key kv)). naive_solver.
  - naive_solver.
Qed.

Lemma temps_created i kvs fs l :
  temps i kvs fs -> l ≡ₚ elements (temp_names i kvs) ->
  NoDup l /\ forall f, f ∈ l -> is_Some (fs !! f).
Proof.
  intros Ht Hl. split; [rewrite Hl; apply NoDup_elements|].
  intros f (r & Hr & Hne & ->)%(elem_of_temp_names i kvs l f Hl). rewrite Ht by done.
  by destruct (chunk kvs r).
Qed.

(** The report of a map task renames its files. *)
Lemma rename_temps i kvs fs l :
  temps i kvs fs -> l ≡ₚ elements (temp_names i kvs) ->
  exists fs', renameTempFiles fs l = (fs', false) /\ temps i [] fs' /\
    (forall r, (0 <= r)%Z -> chunk kvs r ≠ [] ->
       fs' !! m_name (Z.of_nat i) r = as_file (chunk kvs r)) /\
    (forall f, (forall r, (0 <= r)%Z -> f ≠ map_temp i r) ->
       (forall r, (0 <= r)%Z -> chunk kvs r ≠ [] -> f ≠ m_name (Z.of_nat i) r) -> fs' !! f = fs !! f).
Proof.
  intros Ht Hl. destruct (temps_created i kvs fs l Ht Hl) as [Hnd Hs].
  pose proof (fun f => elem_of_temp_names i kvs l f Hl) as Hin.
  assert (forall r, (0 <= r)%Z -> RemoveAll (map_temp i r) "temp" = m_name (Z.of_nat i) r) as Hr.
  { intros r Hr. apply RemoveAll_m_name; lia. }
  destruct (renameTempFiles_spec fs l Hnd Hs) as (fs' & Hren & R1 & R2 & R3).
  - intros f g (r & Hr0 & _ & ->)%Hin (q & Hq & _ & ->)%Hin. rewrite Hr by done. discriminate.
  - intros f g (r & Hr0 & _ & ->)%Hin (q & Hq & _ & ->)%Hin. rewrite !Hr by done.
    intros E. apply m_name_inj in E; [|lia..]. by destruct E as [_ ->].
  - assert (forall f, f ∉ l -> (forall r, (0 <= r)%Z -> chunk kvs r ≠ [] -> f ≠ m_name (Z.of_nat i) r) ->
      fs' !! f = fs !! f) as Hrest.
    { intros f Hf Hf'. apply R3; [done|]. intros (g & -> & (r & Hr0 & Hne & ->)%Hin)%list_elem_of_fmap.
      rewrite Hr in Hf' by done. by apply (Hf' r). }
    exists fs'. split_and!; [done|..].
    + intros r Hr0. destruct (decide (map_temp i r ∈ l)) as [Hl'|Hl']; [by rewrite R2|].
      rewrite Hrest, Ht; [|done|done|by intros; discriminate].
      destruct (decide (chunk kvs r = [])) as [->|Hne]; [done|]. destruct Hl'. apply Hin. eauto.
    + intros r Hr0 Hne. rewrite <- Ht, <- R1, Hr by (done || apply Hin; eauto). done.
    + intros f Hf Hf'. apply Hrest; [|done]. intros (r & Hr0 & _ & ->)%Hin. by apply (Hf r).
Qed.

(** The report of a map task that has timed out removes its files. *)
Lemma remove_temps i t kvs fs l :
  taskType t = TaskTypeMap -> temps i kvs fs -> l ≡ₚ elements (temp_names i kvs) ->
  exists fs', removeFiles fs l = (fs', false) /\ only_task i t fs fs'.
Proof.
  intros Hty Ht Hl. destruct (temps_created i kvs fs l Ht Hl) as [Hnd Hs].
  eexists. split; [by apply removeFiles_all|]. intros f Hf _.
  apply option_eq. intros x. rewrite map_lookup_filter_Some. simpl.
  split; [by intros []|]. intros Hx. split; [done|].
  intros (r & Hr & _ & ->)%(elem_of_temp_names i kvs l f Hl). by apply (Hf Hty r).
Qed.

Lemma map_pairs_complete ts i t j :
  ts !! i = Some t -> taskType t = TaskTypeMap ->
  map_pairs (<[i := set_status taskStatusCompleted t]> ts) j =
    if decide (i = j) then file_pairs (files t) else map_pairs ts j.
Proof.
  intros Hi Hty. unfold map_pairs. destruct (decide (i = j)) as [<-|Hne].
  - rewrite list_lookup_insert_eq by by eapply lookup_lt_Some. unfold mapped_task. simpl.
    by rewrite bool_decide_eq_true_2.
  - by rewrite list_lookup_insert_ne.
Qed.

(** A map task completes. *)
Lemma finv_map_done fsM c c' fs fs' ws i t l w p' :
  finv fsM c fs ws -> NoDup (held ws) -> (forall j u, tasks c !! j = Some u -> taskType u = TaskTypeMap) ->
  ws !! w = Some (WReport i l) -> tasks c !! i = Some t -> running t ->
  tasks c' = <[i := set_status taskStatusCompleted t]> (tasks c) ->
  c_phase c' = phaseMap -> c_nReduce c' = c_nReduce c -> task_of p' = None ->
  (forall r, (0 <= r)%Z -> chunk (file_pairs (files t)) r ≠ [] ->
     fs' !! m_name (Z.of_nat i) r = as_file (chunk (file_pairs (files t)) r)) ->
  (forall f, (forall r, (0 <= r)%Z -> f ≠ map_temp i r) ->
     (forall r, (0 <= r)%Z -> chunk (file_pairs (files t)) r ≠ [] -> f ≠ m_name (Z.of_nat i) r) ->
     fs' !! f = fs !! f) ->
  finv fsM c' fs' (<[w := p']> ws).
Proof.
  intros [H1 H2 H3 H4 H5 H6 H7 H8 H9 H10 H11] Hnd Hmap Hw Hi Hst Et Ep En Hp' R1 R2.
  assert (forall j u, tasks c' !! j = Some u -> exists v, tasks c !! j = Some v /\ files u = files v /\
    taskType u = TaskTypeMap /\ (i = j \/ u = v)) as Hback.
  { intros j u. rewrite Et. intros [(<- & <- & _)|[_ Hj]]%list_lookup_insert_Some;
      [exists t|exists u]; split_and!; simpl; eauto. }
  assert (forall j r, i ≠ j -> (0 <= r)%Z -> fs' !! map_temp j r = fs !! map_temp j r) as Htemp.
  { intros j r Hne Hr. apply R2; [|done]. intros q Hq E. apply map_temp_inj in E; lia. }
  split; rewrite ?En; try done.
  - intros p Hp. rewrite R2; [by apply H2|..]; intros r Hr; [|intros _]; intros E; symmetry in E; revert E;
      (apply input_own; [done|]); [apply own_map_temp|]. unfold own_file, m_name. by rewrite GoStrings.prefix_app.
  - apply mid_mapped in H3 as [M1 M2]. apply mid_mapped. rewrite Et. split.
    + intros j r Hr. rewrite map_pairs_complete by eauto. destruct (decide (i = j)) as [<-|Hne].
      * destruct (decide (chunk (file_pairs (files t)) r = [])) as [E|E]; [|by apply R1].
        rewrite R2; [|done|].
        -- rewrite M1 by done. unfold map_pairs. rewrite Hi, running_not_mapped, E by done. done.
        -- intros q Hq Hne Eq. apply m_name_inj in Eq; [|lia..]. destruct Eq as [_ ->]. done.
      * rewrite R2; [by apply M1|done|]. intros q Hq _ E. apply m_name_inj in E; lia.
    + intros f Hpre Hf. rewrite R2; [by apply M2|by intros r _ ->|]. intros r Hr _. by apply Hf.
  - intros j Hj r Hr. destruct (decide (i = j)) as [<-|Hne].
    + assert (status (set_status taskStatusCompleted t) = taskStatusIdle); [|done].
      apply Hj. rewrite Et. apply list_lookup_insert_eq. by eapply lookup_lt_Some.
    + rewrite Htemp by done. apply H4; [|done]. intros u Hu. apply Hj. by rewrite Et, list_lookup_insert_ne.
  - intros j u (v & Hv & -> & _ & _)%Hback _. eauto.
  - intros v q [(<- & <- & _)|[Hne Hv]]%list_lookup_insert_Some; [by destruct p'|].
    eapply worker_ok_mono; [by apply (H6 v)|..].
    + intros j u Hj Hu. destruct (decide (i = j)) as [<-|Hij].
      * simplify_eq. exists (set_status taskStatusCompleted t). rewrite Et.
        rewrite list_lookup_insert_eq by by eapply lookup_lt_Some. done.
      * exists u. by rewrite Et, list_lookup_insert_ne.
    + intros j u Hj Hu _ r Hr. apply Htemp; [|done]. intros <-. apply Hne. by eapply held_distinct.
    + intros j u _ Hu Hty. specialize (Hmap j u Hu). congruence.
  - intros j u (v & _ & _ & Hty & _)%Hback. congruence.
  - intros j k u v (u' & _ & _ & Hty & _)%Hback _ ?. congruence.
  - intros k _. rewrite !R2 by by intros r _ ?. apply H11. intros j u Hu Hty.
    specialize (Hmap j u Hu). congruence.
Qed.

(** The last map task completed: the reduce tasks are made from the directory. *)
Lemma finv_create fsM c c' fs ws order :
  finv fsM c fs ws -> (forall j u, tasks c !! j = Some u -> taskType u = TaskTypeMap) ->
  reduce_order fs order ->
  tasks c' = tasks c ++ ((fun k => mktask (files_of fs k) taskStatusIdle 0 TaskTypeReduce) <$> order) ->
  (forall k, k ∈ order -> files_of fs k ≠ []) ->
  c_nReduce c' = c_nReduce c -> finv fs c' fs ws.
Proof.
  intros [H1 H2 H3 H4 H5 H6 H7 H8 H9 H10 H11] Hmap Ho Et Hne En.
  set (mk k := mktask (files_of fs k) taskStatusIdle 0 TaskTypeReduce) in *.
  assert (forall k, k ∈ order -> task_key (mk k) = k) as Hkey.
  { intros k Hk. unfold task_key, mk. simpl. specialize (Hne k Hk).
    destruct (files_of fs k) as [|f l] eqn:E; [done|]. simpl.
    assert (f ∈ files_of fs k) as [Hf _]%list_elem_of_filter by (rewrite E; left). done. }
  assert (forall k, k ∈ order <-> k ∈ reduce_ids elements fs) as Hids by (intros k; by rewrite Ho).
  assert (mapped (tasks c') = mapped (tasks c)) as Em.
  { rewrite Et. apply mapped_app, Forall_fmap, Forall_true. done. }
  assert (forall j u, tasks c' !! j = Some u -> tasks c !! j = Some u \/
    exists k, order !! (j - length (tasks c)) = Some k /\ length (tasks c) <= j /\ u = mk k) as Hback.
  { intros j u. rewrite Et. intros [Hj|[Hle Hj]]%lookup_app_Some; [by left|right].
    rewrite list_lookup_fmap in Hj. destruct (order !! _) as [k|]; simplify_eq/=. eauto. }
  assert (forall j u, tasks c !! j = Some u -> tasks c' !! j = Some u) as Hforth.
  { intros j u Hj. rewrite Et. by apply lookup_app_l_Some. }
  assert (forall j u, tasks c' !! j = Some u -> taskType u = TaskTypeReduce ->
    exists k, order !! (j - length (tasks c)) = Some k /\ length (tasks c) <= j /\ u = mk k) as Hred.
  { intros j u [Hj|?]%Hback Hty; [|done]. specialize (Hmap j u Hj). congruence. }
  assert (forall k, fs !! reduce_temp k = None /\ fs !! ("mr-out-" +:+ k) = None) as Habs.
  { intros k. apply H11. intros j u Hj Hty. specialize (Hmap j u Hj). congruence. }
  split; rewrite ?Em, ?En; try done.
  - intros j Hj. apply H4. intros u Hu. by apply Hj, Hforth.
  - intros j u [Hj|(k & _ & _ & ->)]%Hback; [by eapply H5|done].
  - intros w p Hw. eapply worker_ok_mono; [by eapply H6|by eauto|done|].
    intros j u _ Hj Hty. specialize (Hmap j u Hj). congruence.
  - intros j u Hj Hty. destruct (Hred j u Hj Hty) as (k & Hk & _ & ->).
    apply list_elem_of_lookup_2 in Hk. rewrite Hkey by done. split_and!; [by apply Hids|done|by intros _; apply Habs|done].
  - intros j j' u v Hj Hj' Hu Hv E. destruct (Hred j u Hj Hu) as (k & Hk & Hle & ->).
    destruct (Hred j' v Hj' Hv) as (k' & Hk' & Hle' & ->).
    rewrite !Hkey in E by by eapply list_elem_of_lookup_2. subst k'.
    assert (NoDup order) as Hnd by (rewrite Ho; apply NoDup_elements).
    pose proof (NoDup_lookup order _ _ k Hnd Hk Hk'). lia.
  - intros _ k Hk%Hids. pose proof Hk as [j Hj]%list_elem_of_lookup. exists (length (tasks c) + j), (mk k).
    split_and!; [|done|by apply Hkey]. rewrite Et, lookup_app_r by lia.
    replace (length (tasks c) + j - length (tasks c)) with j by lia. by rewrite list_lookup_fmap, Hj.
Qed.

(** A reduce task completes: its file is renamed. *)
Lemma rename_output fsM c fs ws i t :
  finv fsM c fs ws -> c_phase c ≠ phaseMap -> tasks c !! i = Some t -> taskType t = TaskTypeReduce ->
  is_Some (fs !! reduce_temp (task_key t)) ->
  exists fs', renameTempFiles fs [reduce_temp (task_key t)] = (fs', false) /\ only_task i t fs fs' /\
    fs' !! ("mr-out-" +:+ task_key t) = fs !! reduce_temp (task_key t).
Proof.
  intros Hf Hp Hi Hty Hs. destruct (fi_reduce _ _ _ _ Hf i t Hi Hty) as (Hk & _).
  apply (reduce_ids_elem elements nReduce (ready_visit _ _ _ _ Hready) (ready_nReduce _ _ _ _ Hready)
    (mapped (tasks c)) (mapped_tagged _) fsM (fi_midM _ _ _ _ Hf Hp)) in Hk as (kv & _ & Ek).
  assert (RemoveAll (reduce_temp (task_key t)) "temp" = "mr-out-" +:+ task_key t) as Hr.
  { rewrite Ek. apply RemoveAll_mr_name, bucket_pos. }
  destruct Hs as [x Hx]. cbn [renameTempFiles]. unfold Rename. rewrite Hx, Hr.
  eexists. split_and!; [reflexivity|..].
  - intros f _ Hf'. destruct (Hf' Hty). by rewrite lookup_insert_ne, lookup_delete_ne.
  - apply lookup_insert_eq.
Qed.

(** While a map task is unfinished there are no reduce tasks. *)
Lemma map_running c pend i t :
  inv inputs.*1 c pend -> tasks c !! i = Some t -> taskType t = TaskTypeMap -> unfinished t = true ->
  c_phase c = phaseMap /\ forall j u, tasks c !! j = Some u -> taskType u = TaskTypeMap.
Proof.
  intros Hinv Hi Hty Hu. assert (c_phase c = phaseMap) as Hp.
  { destruct (decide (c_phase c = phaseMap)) as [|Hp]; [done|].
    destruct (inv_reduce _ _ _ Hinv Hp) as [Hz _]. pose proof (active_pos _ _ _ _ Hi Hty Hu). lia. }
  split; [done|]. intros j u Hj. by destruct (inv_types _ _ _ Hinv j u Hj) as [|[]].
Qed.

Lemma reduce_phase_of c pend i t :
  inv inputs.*1 c pend -> tasks c !! i = Some t -> taskType t = TaskTypeReduce -> c_phase c ≠ phaseMap.
Proof. intros Hinv Hi Hty. destruct (inv_types _ _ _ Hinv i t Hi) as [?|[_ ?]]; congruence. Qed.

Section Report.
Context (fsM : FS) (c : Coordinator) (fs : FS) (ws : list wstate) (w i : nat) (l : list string) (t : task).
Hypothesis Hf : finv fsM c fs ws.
Hypothesis Hinv : inv inputs.*1 c (held ws).
Hypothesis Hw : ws !! w = Some (WReport i l).
Hypothesis Hi : tasks c !! i = Some t.

Lemma report_running : running t.
Proof.
  destruct (inv_pending _ _ _ Hinv i) as (u & Hu & Hst); [apply elem_of_held; by exists w, (WReport i l)|].
  simplify_eq. done.
Qed.

Lemma report_map p' :
  taskType t = TaskTypeMap -> status t = taskStatusInProgress -> task_of p' = None ->
  exists fs', renameTempFiles fs l = (fs', false) /\
    forall c', tasks c' = <[i := set_status taskStatusCompleted t]> (tasks c) ->
      c_phase c' = phaseMap -> c_nReduce c' = c_nReduce c -> finv fsM c' fs' (<[w := p']> ws).
Proof.
  intros Hty Hst Hp'. pose proof (fi_workers _ _ _ _ Hf _ _ Hw) as (t' & Hi' & Hok). simplify_eq.
  destruct Hok as [(_ & Hl & Htmp)|(? & _)]; [|congruence].
  destruct (map_running c (held ws) i t) as [Hp Hall]; [done..|unfold unfinished; by rewrite Hst|].
  destruct (rename_temps i _ fs l Htmp Hl) as (fs' & Hren & _ & R1 & R2).
  exists fs'. split; [done|]. intros c' Et Ep En.
  eapply finv_map_done; [done|apply (inv_nodup _ _ _ Hinv)|done|done|done|apply report_running|done..].
Qed.

Lemma report_reduce p' :
  taskType t = TaskTypeReduce -> status t = taskStatusInProgress -> task_of p' = None ->
  exists fs', renameTempFiles fs l = (fs', false) /\
    forall c', tasks c' = <[i := set_status taskStatusCompleted t]> (tasks c) ->
      c_phase c' ≠ phaseMap -> c_nReduce c' = c_nReduce c -> finv fsM c' fs' (<[w := p']> ws).
Proof.
  intros Hty Hst Hp'. pose proof (fi_workers _ _ _ _ Hf _ _ Hw) as (t' & Hi' & Hok). simplify_eq.
  pose proof (reduce_phase_of c _ i t Hinv Hi Hty) as Hp.
  destruct Hok as [(? & _)|(_ & El & Hwr)]; [congruence|]. rewrite El.
  destruct (rename_output fsM c fs ws i t) as (fs' & Hren & Hown & Hout); [done..| |].
  { by destruct Hwr as (order & _ & ->). }
  exists fs'. split; [done|]. intros c' Et Ep En.
  assert (finv fsM c fs' (<[w := p']> ws)) as Hf'.
  { eapply finv_own; [done|apply (inv_nodup _ _ _ Hinv)|done|done|done|apply report_running|done|].
    by destruct p'. }
  eapply (finv_task fsM c c' fs' _ i t); [done|done|done|done|done|done|..|done| |].
  - apply running_not_mapped, report_running.
  - unfold mapped_task. simpl. by rewrite Hty.
  - tauto.
  - intros _ _. by rewrite Hout.
Qed.

Lemma report_timed_out p' :
  taskType t = TaskTypeMap -> task_of p' = None ->
  exists fs', removeFiles fs l = (fs', false) /\ finv fsM c fs' (<[w := p']> ws).
Proof.
  intros Hty Hp'. pose proof (fi_workers _ _ _ _ Hf _ _ Hw) as (t' & Hi' & Hok). simplify_eq.
  destruct Hok as [(_ & Hl & Htmp)|(? & _)]; [|congruence].
  destruct (remove_temps i t _ fs l Hty Htmp Hl) as (fs' & Hrem & Hown). exists fs'. split; [done|].
  eapply finv_own; [done|apply (inv_nodup _ _ _ Hinv)|done|done|done|apply report_running|done|].
  by destruct p'.
Qed.

(** Every report of a worker. *)
Lemma finv_TaskDone req order c' fs' err :
  no_lost (tasks c) -> req_TaskId req = Z.of_nat i -> req_FilesCreated req = l ->
  TaskDone c fs req order = Ok (c', fs', err) -> reduce_order fs' order ->
  err = false /\ exists fsM', finv fsM' c' fs' (<[w := WHead]> ws).
Proof.
  intros Hlost Hid Hcr H Ho. pose proof report_running as Hst.
  unfold TaskDone in H. rewrite Hid, (slice_get_lookup _ _ _ Hi), Nat2Z.id, Hcr in H. simpl in H.
  case_bool_decide as Hto.
  { destruct (inv_types _ _ _ Hinv i t Hi) as [Hty|[Hty _]]; [|by destruct (Hlost i t Hi Hty)].
    destruct (report_timed_out WHead) as (fs1 & E & Hf'); [done..|]. rewrite E in H.
    simplify_eq. split; [done|]. by exists fsM. }
  destruct Hst as [Hst|?]; [|done].
  destruct (inv_types _ _ _ Hinv i t Hi) as [Hty|[Hty Hp]]; rewrite Hty in H.
  - destruct (report_map WHead) as (fs1 & E & Hf'); [done..|]. rewrite E in H.
    destruct (map_running c (held ws) i t) as [Hp Hall]; [done..|unfold unfinished; by rewrite Hst|].
    case_bool_decide; simplify_eq; (split; [done|]); [|exists fsM; by apply Hf'].
    exists fs'. specialize (Hf' (set_tasks c (<[i := set_status taskStatusCompleted t]> (tasks c))) eq_refl Hp eq_refl).
    match goal with |- finv _ (set_counts (createReduceTasks ?c _ _) _ _ _) _ _ =>
      destruct (createReduceTasks_files c fs' order Ho) as (Hnew & _ & _ & Hne) end.
    eapply finv_create; [exact Hf'| |exact Ho|exact Hnew|exact Hne|done].
    intros j u [(<- & <- & _)|[_ Hj]]%list_lookup_insert_Some; [done|by eapply Hall].
  - destruct (report_reduce WHead) as (fs1 & E & Hf'); [done..|]. rewrite E in H.
    case_bool_decide; simplify_eq; (split; [done|]); exists fsM; by apply Hf'.
Qed.
End Report.

(** ** The other calls and the polls *)

Lemma idle_not_mapped t : status t = taskStatusIdle -> mapped_task t = false.
Proof. unfold mapped_task. intros ->. apply andb_false_r. Qed.

(** What a worker knows when it is given an idle task. *)
Lemma start_task_ok fsM c fs ws pend i t now :
  finv fsM c fs ws -> inv inputs.*1 c pend -> tasks c !! i = Some t -> status t = taskStatusIdle ->
  worker_ok (mapped (tasks c)) fsM
    (<[i := mktask (files t) taskStatusInProgress now (taskType t)]> (tasks c)) fs
    (start_task (mkGetTaskRes (files t) (c_nReduce c) (taskType t) (Z.of_nat i))).
Proof.
  intros Hf Hinv Hi Hst. pose proof (lookup_lt_Some _ _ _ Hi) as Hlt. unfold start_task. simpl.
  destruct (inv_types _ _ _ Hinv i t Hi) as [Hty|[Hty Hp]]; rewrite Hty, Nat2Z.id; simpl.
  - split; [apply (fi_nReduce _ _ _ _ Hf)|]. eexists _, [], [].
    split; [by apply list_lookup_insert_eq|]. split_and!; try done.
    apply (fi_fresh _ _ _ _ Hf). intros u Hu. congruence.
  - destruct (reduce_files fsM c fs ws i t Hf Hp Hi Hty) as (f & fl & Ef & Hs & _).
    unfold start_reduce. rewrite Ef. change 3%Z with (Z.of_nat 3). rewrite (slice_get_lookup _ _ _ Hs).
    simpl. eexists _, []. split; [by apply list_lookup_insert_eq|].
    destruct (fi_reduce _ _ _ _ Hf i t Hi Hty) as (_ & _ & Hn & _).
    split_and!; [done| |done|done|by apply Hn]. unfold task_key. simpl. by rewrite Ef.
Qed.

Lemma finv_GetTask fsM c fs ws w now c' res :
  finv fsM c fs ws -> inv inputs.*1 c (held ws) -> GetTask c (Z.of_nat w) now = Ok (c', res) ->
  finv fsM c' fs (<[w := start_task res]> ws).
Proof.
  intros Hf Hinv H. unfold GetTask in H. destruct (findIdleTask c) as [z [t|]] eqn:E.
  - apply findIdleTask_Some in E as (i & -> & Hi & Hidle). rewrite Nat2Z.id in H.
    pose proof (start_task_ok fsM c fs ws (held ws) i t now Hf Hinv Hi Hidle) as Hok.
    pose proof (idle_not_mapped t Hidle) as Hm.
    assert (mapped_task (mktask (files t) taskStatusInProgress now (taskType t)) = false) as Hm'
      by (apply running_not_mapped; by left).
    unfold set_worker_task in H. go_inv. simpl in *.
    apply finv_ws; simpl; [by eapply (finv_task fsM c _ fs ws i t)|].
    rewrite (mapped_insert _ i t) by done. exact Hok.
  - unfold set_worker_task in H. go_inv. apply finv_ws; [|done]. by apply (finv_co fsM c).
Qed.

Lemma finv_timeout_step fsM fs ws pend now c i t :
  finv fsM c fs ws -> inv inputs.*1 c pend -> tasks c !! i = Some t ->
  no_lost (tasks (timeout_step now c (i, t))) -> finv fsM (timeout_step now c (i, t)) fs ws.
Proof.
  intros Hf Hinv Hi Hlost. simpl in *. destruct (expired c (now i) t) eqn:Ee; [|done].
  unfold expired in Ee. apply andb_true_iff in Ee as [Hst%bool_decide_eq_true_1 _].
  rewrite Hi in *. simpl in *. set (t1 := set_status taskStatusTimedOut t) in *.
  assert (mapped_task t = false) by (apply running_not_mapped; by left).
  assert (mapped_task t1 = false) by (apply running_not_mapped; by right).
  assert (finv fsM (set_tasks c (<[i := t1]> (tasks c))) fs ws) as Hf1
    by by eapply (finv_task fsM c _ fs ws i t t1).
  destruct (inv_types _ _ _ Hinv i t Hi) as [Hty|[Hty _]].
  - eapply finv_append; [exact Hf1|done..| |done|done]. by apply (fi_map _ _ _ _ Hf i t).
  - destruct (Hlost i t1); [|done|done]. apply lookup_app_l_Some, list_lookup_insert_eq.
    by eapply lookup_lt_Some.
Qed.

(** ** Lost reduce attempts are never forgotten *)

Definition keeps_lost (ts ts' : list task) : Prop :=
  forall i t, ts !! i = Some t -> taskType t = TaskTypeReduce -> status t = taskStatusTimedOut ->
    exists t', ts' !! i = Some t' /\ taskType t' = TaskTypeReduce /\ status t' = taskStatusTimedOut.

Lemma keeps_lost_refl ts : keeps_lost ts ts.
Proof. intros i t Hi Hty Hst. eauto. Qed.

Lemma no_lost_back ts ts' : keeps_lost ts ts' -> no_lost ts' -> no_lost ts.
Proof. intros Hk Hl i t Hi Hty Hst. destruct (Hk i t Hi Hty Hst) as (t' & Hi' & Hty' & ?). by apply (Hl i t'). Qed.

Lemma keeps_lost_update ts i t t' new :
  ts !! i = Some t -> status t ≠ taskStatusTimedOut -> keeps_lost ts (<[i := t']> ts ++ new).
Proof.
  intros Hi Hst j u Hj Hty Hu. exists u. split; [|done]. apply lookup_app_l_Some.
  rewrite list_lookup_insert_ne; [done|]. intros ->. congruence.
Qed.

Lemma keeps_lost_insert ts i t t' :
  ts !! i = Some t -> status t ≠ taskStatusTimedOut -> keeps_lost ts (<[i := t']> ts).
Proof. intros Hi Hst. rewrite <- (app_nil_r (<[i := t']> ts)). by eapply keeps_lost_update. Qed.

Lemma keeps_lost_GetTask c w now c' r : GetTask c w now = Ok (c', r) -> keeps_lost (tasks c) (tasks c').
Proof.
  intros H. unfold GetTask in H. destruct (findIdleTask c) as [z [t|]] eqn:E;
    unfold set_worker_task in H; go_inv; simpl; [|apply keeps_lost_refl].
  apply findIdleTask_Some in E as (i & -> & Hi & Hidle). rewrite Nat2Z.id.
  eapply keeps_lost_insert; [done|congruence].
Qed.

Lemma keeps_lost_TaskDone c fs req order c' fs' err :
  TaskDone c fs req order = Ok (c', fs', err) -> keeps_lost (tasks c) (tasks c').
Proof.
  unfold TaskDone. intros H. destruct (slice_get (tasks c) (req_TaskId req)) as [t| |] eqn:E; simpl in H; [|done..].
  apply slice_get_Ok in E as [_ Hi].
  case_bool_decide; [destruct (removeFiles _ _); simplify_eq; apply keeps_lost_refl|].
  destruct (taskType t); try destruct (renameTempFiles _ _) as [fs1 [|]];
    try case_bool_decide; simplify_eq/=; by (eapply keeps_lost_insert || eapply keeps_lost_update).
Qed.

Lemma keeps_lost_timeout_step now c i t :
  tasks c !! i = Some t -> keeps_lost (tasks c) (tasks (timeout_step now c (i, t))).
Proof.
  intros Hi. simpl. destruct (expired c (now i) t) eqn:Ee; [|apply keeps_lost_refl].
  unfold expired in Ee. apply andb_true_iff in Ee as [Hst%bool_decide_eq_true_1 _].
  rewrite Hi. eapply keeps_lost_update; [done|congruence].
Qed.

(** ** The invariant of the cluster *)

Definition cl_inv (s : cluster) : Prop :=
  inv inputs.*1 (cl_co s) (held (cl_ws s)) /\
  (no_lost (tasks (cl_co s)) -> exists fsM, finv fsM (cl_co s) (cl_fs s) (cl_ws s)).

Lemma finv_timeoutTasks fs ws now c :
  inv inputs.*1 c (held ws) -> (no_lost (tasks c) -> exists fsM, finv fsM c fs ws) ->
  no_lost (tasks (timeoutTasks c now)) -> exists fsM, finv fsM (timeoutTasks c now) fs ws.
Proof.
  intros Hinv Hf. apply (timeout_loop now (fun c => inv inputs.*1 c (held ws) /\
    (no_lost (tasks c) -> exists fsM, finv fsM c fs ws))); [|done].
  clear c Hinv Hf. intros c i t Hi [Hinv Hf]. split; [by apply inv_timeout_step|]. intros Hl.
  destruct Hf as [fsM Hf]; [eapply no_lost_back; [by eapply keeps_lost_timeout_step|done]|].
  exists fsM. by eapply finv_timeout_step.
Qed.

Lemma worker_ok_none T fsM ts fs p : task_of p = None -> worker_ok T fsM ts fs p.
Proof. by destruct p. Qed.

(** A step of a worker. *)
Lemma finv_worker fsM c fs ws w p c' fs' p' :
  finv fsM c fs ws -> inv inputs.*1 c (held ws) -> no_lost (tasks c) -> ws !! w = Some p ->
  worker_step mapf reducef w (c, fs, p) (c', fs', p') ->
  exists fsM', finv fsM' c' fs' (<[w := p']> ws).
Proof.
  intros Hf Hinv Hlost Hw Hs.
  assert (forall i t, task_of p = Some i -> tasks c !! i = Some t -> running t) as Hrun.
  { intros i t Hpi Hi. destruct (inv_pending _ _ _ Hinv i) as (u & Hu & Hst);
      [apply elem_of_held; eauto|]. by simplify_eq. }
  pose proof (fun i t => reduce_phase_of c (held ws) i t Hinv) as Hph.
  pose proof (inv_nodup _ _ _ Hinv) as Hnd.
  inversion Hs; subst; simpl in *.
  - exists fsM. by eapply finv_GetTask.
  - exists fsM. edestruct step_map_read as (content & Hc & Hf'); eauto.
    unfold getFileContent. by rewrite Hc.
  - exists fsM. eapply step_map_write; eauto.
  - exists fsM. eapply step_map_end; eauto.
  - exists fsM. eapply step_reduce_read; eauto.
  - exists fsM. eapply step_reduce_group; eauto.
  - exists fsM. eapply step_reduce_write; eauto.
  - exists fsM. eapply step_reduce_end; eauto.
  - destruct (inv_pending _ _ _ Hinv id) as (t & Hi & _); [apply elem_of_held; by exists w, (WReport id l)|].
    edestruct finv_TaskDone as [-> Hf']; eauto; done.
  - exists fsM. apply finv_ws.
    + unfold Heartbeat in *. case_bool_decide; [|by simplify_eq/=].
      destruct (slice_get _ _); simplify_eq/=. by apply (finv_co fsM c).
    + destruct b; [done|]. assert (tasks c' = tasks c) as -> by by eapply Heartbeat_same.
      by apply (fi_workers _ _ _ _ Hf w).
  - exists fsM. by apply finv_ws.
Qed.

Lemma keeps_lost_step s s' :
  cl_step mapf reducef s s' -> keeps_lost (tasks (cl_co s)) (tasks (cl_co s')) \/
  exists now, cl_co s' = timeoutTasks (cl_co s) now /\ cl_fs s' = cl_fs s /\ cl_ws s' = cl_ws s.
Proof.
  intros Hs. destruct Hs as [s|s w p c' fs' p' Hw Hs|s now c' fs' Hd]; simpl; [left|left|right].
  - apply keeps_lost_refl.
  - inversion Hs; subst; try apply keeps_lost_refl.
    + by eapply keeps_lost_GetTask.
    + by eapply keeps_lost_TaskDone.
    + assert (tasks c' = tasks (cl_co s)) as -> by by eapply Heartbeat_same. apply keeps_lost_refl.
  - exists now. unfold Done in Hd. by repeat case_match; simplify_eq.
Qed.

Lemma cl_inv_step s s' : cl_inv s -> cl_step mapf reducef s s' -> cl_inv s'.
Proof.
  intros [Hinv Hf] Hs. split; [by eapply inv_cl_step|]. intros Hlost.
  destruct (keeps_lost_step s s' Hs) as [Hk|(now & E1 & E2 & E3)].
  - pose proof (no_lost_back _ _ Hk Hlost) as Hl. destruct (Hf Hl) as [fsM Hf'].
    destruct Hs as [s|s w p c' fs' p' Hw Hs|s now c' fs' Hd]; simpl in *.
    + exists fsM. eapply (finv_co fsM (cl_co s)); [done..|].
      destruct Hf' as [H1 H2 H3 H4 H5 H6 H7 H8 H9 H10 H11]. split; try done.
      intros w p [Hw|[_ Hw]]%lookup_app_Some; [by eapply H6|].
      by apply list_lookup_singleton_Some in Hw as [_ <-].
    + by eapply finv_worker.
    + assert (c' = timeoutTasks (cl_co s) now /\ fs' = cl_fs s) as [-> ->]
        by (unfold Done in Hd; by repeat case_match; simplify_eq).
      by apply finv_timeoutTasks.
  - rewrite E1, E2, E3 in *. by apply finv_timeoutTasks.
Qed.

(** The start. *)
Lemma finv_start : finv fs0 (MakeCoordinator inputs.*1 nReduce) fs0 [].
Proof.
  assert (forall i t, createMapTasks inputs.*1 !! i = Some t ->
    taskType t = TaskTypeMap /\ exists p, p ∈ inputs /\ t = mktask [p.1] taskStatusIdle 0 TaskTypeMap) as Ht.
  { intros i t Hi%list_elem_of_lookup_2. unfold createMapTasks in Hi.
    apply list_elem_of_fmap in Hi as (f & -> & (p & -> & Hp)%list_elem_of_fmap). eauto. }
  assert (forall T, T = mapped (createMapTasks inputs.*1) -> T = []) as Hm.
  { intros T ->. apply elem_of_nil_inv. intros x (i & u & (_ & p & _ & ->)%Ht & ? & _)%elem_of_mapped. done. }
  split; simpl; try done.
  - apply (ready_inputs _ _ _ _ Hready).
  - rewrite (Hm _ eq_refl). intros f Hf. rewrite decide_False by apply not_elem_of_nil.
    apply (ready_fresh _ _ _ _ Hready). unfold own_file. by rewrite Hf.
  - intros i _ r Hr. apply (ready_fresh _ _ _ _ Hready), own_map_temp.
  - intros i t (_ & p & Hp & ->)%Ht _. eauto.
  - intros i t (_ & p & Hp & ->)%Ht. done.
  - intros i j t u (_ & p & Hp & ->)%Ht. done.
  - intros k _. split; apply (ready_fresh _ _ _ _ Hready); [apply own_reduce_temp|apply own_mr_out].
Qed.

Lemma cl_inv_run s : rtc (cl_step mapf reducef) (cl_start inputs.*1 nReduce fs0) s -> cl_inv s.
Proof.
  apply (rtc_invariant (cl_step mapf reducef) cl_inv); [apply cl_inv_step|]. split; simpl.
  - apply inv_start.
  - intros _. exists fs0. apply finv_start.
Qed.

(** ** The end of a job *)

(** The input files of the completed map tasks. *)
Definition done_files (ts : list task) : list string :=
  omap (fun t => if mapped_task t then head (files t) else None) ts.

Definition one_input (t : task) : Prop :=
  taskType t = TaskTypeMap -> exists f, files t = [f].

Lemma mapped_task_map t : mapped_task t = true -> taskType t = TaskTypeMap.
Proof. unfold mapped_task. intros [E%bool_decide_eq_true_1 _]%andb_true_iff. done. Qed.

Lemma mapped_files ts : Forall one_input ts -> (mapped ts).*2 = file_pairs (done_files ts).
Proof.
  induction ts as [|t ts IH] using rev_ind; [done|]. intros [Hts Ht]%Forall_app.
  unfold mapped, done_files. rewrite imap_app, omap_app, concat_app, fmap_app. fold (mapped ts) (done_files ts).
  rewrite IH by done. unfold file_pairs. rewrite fmap_app, concat_app. f_equal. simpl.
  rewrite app_nil_r, Nat.add_0_r. destruct (mapped_task t) eqn:E; [|done].
  apply Forall_cons_1 in Ht as [Ht _]. destruct (Ht (mapped_task_map t E)) as [f Ef]. rewrite Ef. simpl.
  unfold tag_pairs. rewrite <- list_fmap_compose. apply list_fmap_id.
Qed.

Lemma done_files_count ts f :
  Forall one_input ts ->
  countb (fun g => bool_decide (g = f)) (done_files ts) = countb (completed_for f) ts.
Proof.
  induction 1 as [|t ts Ht _ IH]; [done|]. unfold done_files in *. simpl. rewrite countb_cons, <- IH.
  unfold completed_for. destruct (mapped_task t) eqn:E.
  - destruct (Ht (mapped_task_map t E)) as [g Eg]. rewrite Eg. simpl. rewrite countb_cons. f_equal.
    unfold mapped_task in E. apply andb_true_iff in E as [-> ->]. rewrite andb_true_r. simpl.
    rewrite !bool_decide_decide. destruct (decide (g = f)), (decide ([g] = [f])); naive_solver.
  - unfold mapped_task in E. destruct (bool_decide (taskType t = TaskTypeMap)); [|done]. simpl in *.
    by rewrite E, andb_false_r.
Qed.

Lemma file_pairs_perm l l' : l ≡ₚ l' -> file_pairs l ≡ₚ file_pairs l'.
Proof.
  unfold file_pairs. induction 1; simpl; [done|by f_equiv| |by etrans].
  rewrite !app_assoc. f_equiv. apply Permutation_app_comm.
Qed.

Lemma emitted_file_pairs : emitted mapf inputs = file_pairs inputs.*1.
Proof.
  unfold emitted, file_pairs. f_equal. rewrite <- list_fmap_compose. apply list_fmap_ext.
  intros i p Hp%list_elem_of_lookup_2. simpl. by rewrite (ready_inputs _ _ _ _ Hready p Hp).
Qed.

(** When all map tasks are done, their pairs are those of all input files. *)
Lemma mapped_emitted fsM c fs ws pend :
  finv fsM c fs ws -> inv inputs.*1 c pend -> no_failed c -> c_phase c ≠ phaseMap ->
  (mapped (tasks c)).*2 ≡ₚ emitted mapf inputs.
Proof.
  intros Hf Hinv Hnf Hp. destruct (inv_reduce _ _ _ Hinv Hp) as [Ha _].
  assert (Forall one_input (tasks c)) as Hone.
  { apply Forall_lookup_2. intros i t Hi Hty. destruct (fi_map _ _ _ _ Hf i t Hi Hty) as (p & _ & ->). eauto. }
  rewrite mapped_files, emitted_file_pairs by done. apply file_pairs_perm, countb_perm. intros f.
  rewrite done_files_count by done. by eapply completed_counts.
Qed.

(** The output of a reducer in the end; a reducer without keys has no file. *)
Definition reducer_output (fs : FS) (m : gmap string (list string)) (order : list string) (r : Z) : Prop :=
  NoDup order /\
  (forall k, k ∈ order <-> k ∈ Key <$> emitted mapf inputs /\ bucket k = r) /\
  (forall k, bucket k = r ->
     default [] (m !! k) ≡ₚ Value <$> filter (fun kv => Key kv = k) (emitted mapf inputs)) /\
  fs !! ("mr-out-" +:+ pretty r) =
    match order with [] => None | _ => Some (results reducef m order) end.

Lemma cluster_output fsM c fs ws pend r :
  finv fsM c fs ws -> inv inputs.*1 c pend -> no_failed c -> c_phase c ≠ phaseMap ->
  active TaskTypeReduce (tasks c) = 0 -> no_lost (tasks c) ->
  exists order, reducer_output fs (grouped (mapped (tasks c)) fsM (pretty r)) order r.
Proof.
  intros Hf Hinv Hnf Hp Hz Hlost. pose proof (mapped_emitted fsM c fs ws pend Hf Hinv Hnf Hp) as Hem.
  pose proof (fi_midM _ _ _ _ Hf Hp) as HM.
  destruct (output_spec elements nReduce (ready_visit _ _ _ _ Hready) (ready_nReduce _ _ _ _ Hready)
    (mapped (tasks c)) (mapped_tagged _) fsM HM r) as (O1 & O2 & O3).
  set (m := grouped (mapped (tasks c)) fsM (pretty r)) in *.
  assert (exists order, order ≡ₚ elements (dom m) /\ fs !! ("mr-out-" +:+ pretty r) =
    match order with [] => None | _ => Some (results reducef m order) end) as (order & Ho & Hfs).
  { pose proof (reduce_ids_elem elements nReduce (ready_visit _ _ _ _ Hready) (ready_nReduce _ _ _ _ Hready)
      (mapped (tasks c)) (mapped_tagged _) fsM HM) as Hids.
    destruct (decide (pretty r ∈ reduce_ids elements fsM)) as [Hin|Hin].
    - destruct (fi_all _ _ _ _ Hf Hp (pretty r) Hin) as (i & t & Hi & Hty & Ek).
      destruct (fi_reduce _ _ _ _ Hf i t Hi Hty) as (_ & _ & _ & Hout). rewrite Ek in Hout.
      destruct Hout as (order & Ho & Hfs).
      { assert (status t ≠ taskStatusFailed) as Hnf' by (by eapply Forall_lookup_1 in Hnf).
        pose proof (Hlost i t Hi Hty) as Hl.
        assert (unfinished t = false) as Hu.
        { apply not_true_iff_false. intros Hu. pose proof (active_pos _ _ _ _ Hi Hty Hu). lia. }
        unfold unfinished in Hu. by destruct (status t). }
      exists order. split; [done|]. apply Hids in Hin as (kv & Hkv & E%(inj pretty)).
      assert (Key kv ∈ order) by (rewrite Ho; apply O2; split; [by apply list_elem_of_fmap_2|done]).
      by destruct order; [set_solver|].
    - exists []. split.
      + symmetry. apply Permutation_nil_r, elem_of_nil_inv. intros k [(kv & -> & Hkv)%list_elem_of_fmap Hk]%O2.
        apply Hin, Hids. exists kv. by rewrite Hk.
      + apply (fi_absent _ _ _ _ Hf). intros i t Hi Hty E. apply Hin. rewrite <- E.
        by apply (fi_reduce _ _ _ _ Hf i t). }
  exists order. split_and!; [by rewrite Ho| | |done].
  - intros k. by rewrite Ho, O2, Hem.
  - intros k Hk. by rewrite O3, Hem.
Qed.

(** All of this for a run. *)
Lemma cluster_end s now c' fs' :
  rtc (cl_step mapf reducef) (cl_start inputs.*1 nReduce fs0) s ->
  Done (cl_co s) (cl_fs s) now = (c', fs', true) -> no_lost (tasks c') ->
  exists M, forall r, exists order, reducer_output fs' (M r) order r.
Proof.
  intros Hrun HD Hlost. destruct (inv_cl_run _ _ _ _ _ _ Hrun) as [Hinv Hnf].
  destruct (cl_inv_run s Hrun) as [_ Hf].
  destruct (inv_Done _ _ _ _ _ _ _ _ Hinv HD) as [Ec Hinv'].
  destruct (Done_true _ _ _ _ _ _ _ Hinv HD) as (Hp & Hz & ->). rewrite Ec in *.
  apply (no_failed_timeout now) in Hnf.
  destruct (finv_timeoutTasks (cl_fs s) (cl_ws s) now (cl_co s) Hinv Hf Hlost) as [fsM Hf'].
  exists (fun r => grouped (mapped (tasks (timeoutTasks (cl_co s) now))) fsM (pretty r)). intros r.
  destruct (cluster_output fsM _ _ _ _ r Hf' Hinv' Hnf Hp Hz Hlost) as (order & O1 & O2 & O3 & O4).
  exists order. split_and!; [done|done|done|]. rewrite <- O4. apply option_eq. intros x.
  rewrite map_lookup_filter_Some. simpl. split; [by intros []|]. intros Hx. split; [done|reflexivity].
Qed.
End Files.
(** ** A run with a slow worker

    Worker 0 takes the map task and is slow; the task times out and worker 1 runs it again; worker 0
    reports too late, runs the reduce task, and both workers are told to stop. *)

Definition run_co (ts : list task) (ws : list worker) (nm nr : Z) (ph : phase) : Coordinator :=
  mkCoordinator ts ws nm nr ph 10 10.

Definition map0 (st : taskStatus) : task := mktask ["pg1"] st 0 TaskTypeMap.
Definition map1 (st : taskStatus) : task := mktask ["pg1"] st 20 TaskTypeMap.
Definition red2 (st : taskStatus) : task := mktask ["m-out-1-7"] st 21 TaskTypeReduce.

(** The coordinator when the task was handed out, timed out, was handed out again and was reported;
    when the reduce task was handed out and reported; and when [n] workers were told to stop. *)
Definition co1 := run_co [map0 taskStatusInProgress] [mkworker 0 true; mkworker 0 true] 1 0 phaseMap.
Definition co2 := run_co [map0 taskStatusTimedOut; mktask ["pg1"] taskStatusIdle 0 TaskTypeMap]
  [mkworker 0 true; mkworker 0 true] 1 0 phaseMap.
Definition co3 := run_co [map0 taskStatusTimedOut; map1 taskStatusInProgress]
  [mkworker 0 true; mkworker 1 true] 1 0 phaseMap.
Definition co4 := run_co [map0 taskStatusTimedOut; map1 taskStatusCompleted;
    mktask ["m-out-1-7"] taskStatusIdle 0 TaskTypeReduce]
  [mkworker 0 true; mkworker 1 true] 0 1 phaseReduce.
Definition co5 := run_co [map0 taskStatusTimedOut; map1 taskStatusCompleted; red2 taskStatusInProgress]
  [mkworker 2 true; mkworker 1 true] 0 1 phaseReduce.
Definition co6 (up0 up1 : bool) :=
  run_co [map0 taskStatusTimedOut; map1 taskStatusCompleted; red2 taskStatusCompleted]
    [mkworker 2 up0; mkworker 1 up1] 0 0 phaseShutdown.

Definition x_line : string := write_kv (mkKeyValue "x" "1").
Definition dir0 : FS := {[ "pg1" := "x" ]}.
Definition dir1 : FS := <["tempm-out-0-7" := x_line]> dir0.
Definition dir2 : FS := <["tempm-out-1-7" := x_line]> dir1.
Definition dir3 : FS := <["m-out-1-7" := x_line]> dir1.
Definition dir4 : FS := <["m-out-1-7" := x_line]> dir0.
Definition dir5 : FS := <["tempmr-out-7" := "x 1" +:+ newline]> dir4.
Definition dir6 : FS := <["mr-out-7" := "x 1" +:+ newline]> dir4.

Definition made (f : string) : gmap string bool := {[ f := true ]}.
Definition x_group : gmap string (list string) := {[ "x" := ["1"] ]}.

Definition after_map (i : nat) : wstate := WMap i 10 [] [] (made ("tempm-out-" +:+ pretty i +:+ "-7")).
Definition after_reduce : wstate := WWrite 2 "7" x_group [] (made "tempmr-out-7").

Lemma cl_worker_to mapf reducef c fs ws w p c' fs' p' ws' :
  ws !! w = Some p -> worker_step mapf reducef w (c, fs, p) (c', fs', p') -> ws' = <[w := p']> ws ->
  cl_step mapf reducef (mkcluster c fs ws) (mkcluster c' fs' ws').
Proof. intros Hw Hs ->. by eapply (cl_worker _ _ (mkcluster c fs ws)). Qed.

Ltac calc := match goal with |- _ = ?y => vm_cast_no_check (eq_refl y) end.
Ltac calc_perm := match goal with |- ?l ≡ₚ ?l' => replace l' with l by calc; reflexivity end.
(** Worker [w] goes to the state [p'] and the others to [c'], [fs']. *)
Ltac worker_does w c' fs' p' tac :=
  eapply rtc_l; [eapply (cl_worker_to _ _ _ _ _ w _ c' fs' p'); [reflexivity|tac|reflexivity]|];
  cbn [insert list_insert].

Lemma slow_map ws w i (fs fs' : FS) c :
  ws !! w = Some (WMap i 10 ["pg1"] [] ∅) -> fs !! "pg1" = Some "x" ->
  write_pair (Z.of_nat i) 10 (fs, ∅) (mkKeyValue "x" "1")
    = Ok (fs', made ("tempm-out-" +:+ pretty i +:+ "-7")) ->
  rtc (cl_step count_map count_reduce) (mkcluster c fs ws) (mkcluster c fs' (<[w := after_map i]> ws)).
Proof.
  intros Hw Hfs Hwr. eapply rtc_l.
  { eapply cl_worker_to; [exact Hw|apply ws_map_read|reflexivity]. }
  unfold getFileContent. rewrite Hfs. apply rtc_once. eapply cl_worker_to.
  - apply list_lookup_insert_eq. by eapply lookup_lt_Some.
  - by apply ws_map_write.
  - by rewrite list_insert_insert_eq.
Qed.

Lemma slow_run_late :
  rtc (cl_step count_map count_reduce) (cl_start ["pg1"] 10 dir0)
    (mkcluster co4 dir3 [WReport 0 ["tempm-out-0-7"]; WHead]).
Proof.
  eapply rtc_l; [apply cl_register|]. eapply rtc_l; [apply cl_register|].
  worker_does 0 co1 dir0 (WMap 0 10 ["pg1"] [] ∅) ltac:(apply (ws_get _ _ 0 _ _ 0 _ (mkGetTaskRes ["pg1"] 10 TaskTypeMap 0)); calc).
  etrans; [apply (slow_map _ 0 0 dir0 dir1 co1); [reflexivity|calc|calc]|]. cbn [insert list_insert].
  eapply rtc_l; [apply (cl_poll _ _ (mkcluster co1 dir1 [after_map 0; WHead]) (fun _ => 20%Z) co2 dir1); calc|].
  worker_does 1 co3 dir1 (WMap 1 10 ["pg1"] [] ∅) ltac:(apply (ws_get _ _ 1 _ _ 20 _ (mkGetTaskRes ["pg1"] 10 TaskTypeMap 1)); calc).
  etrans; [apply (slow_map _ 1 1 dir1 dir2 co3); [reflexivity|calc|calc]|]. cbn [insert list_insert].
  worker_does 1 co3 dir2 (WReport 1 ["tempm-out-1-7"]) ltac:(apply ws_map_end; calc_perm).
  worker_does 1 co4 dir3 WHead ltac:(apply (ws_report _ _ _ _ _ _ _ ["7"] _ _ false); [calc|unfold reduce_order; calc_perm]).
  worker_does 0 co4 dir3 (WReport 0 ["tempm-out-0-7"]) ltac:(apply ws_map_end; calc_perm).
  apply rtc_refl.
Qed.

Lemma slow_run :
  rtc (cl_step count_map count_reduce) (cl_start ["pg1"] 10 dir0)
    (mkcluster (co6 false false) dir6 [WExit; WExit]).
Proof.
  etrans; [apply slow_run_late|].
  worker_does 0 co4 dir4 WHead ltac:(apply (ws_report _ _ _ _ _ _ _ ["7"] _ _ false); [calc|unfold reduce_order; calc_perm]).
  worker_does 0 co5 dir4 (WGather 2 "7" ["m-out-1-7"] ∅)
    ltac:(apply (ws_get _ _ 0 _ _ 21 _ (mkGetTaskRes ["m-out-1-7"] 10 TaskTypeReduce 2)); calc).
  worker_does 0 co5 dir4 (WGather 2 "7" [] x_group) ltac:(apply (ws_reduce_read _ _ _ _ _ _ _ _ _ _ x_line); calc).
  worker_does 0 co5 dir4 (WWrite 2 "7" x_group ["x"] ∅) ltac:(apply ws_reduce_group; calc_perm).
  worker_does 0 co5 dir5 after_reduce ltac:(apply ws_reduce_write).
  worker_does 0 co5 dir5 (WReport 2 ["tempmr-out-7"]) ltac:(apply ws_reduce_end; calc_perm).
  worker_does 0 (co6 true true) dir6 WHead
    ltac:(apply (ws_report _ _ _ _ _ _ _ ["7"] _ _ false); [calc|unfold reduce_order; calc_perm]).
  worker_does 0 (co6 false true) dir6 WExit ltac:(apply (ws_beat _ _ _ _ _ _ _ true); [done|calc]).
  worker_does 1 (co6 false false) dir6 WExit ltac:(apply (ws_beat _ _ _ _ _ _ _ true); [done|calc]).
  apply rtc_refl.
Qed.

Lemma dir0_ready : ready elements 10 [("pg1", "x")] dir0.
Proof.
  split; [by intros X|lia| |].
  - intros p ->%list_elem_of_singleton. reflexivity.
  - intros f Hf. unfold dir0. rewrite lookup_singleton_ne; [done|]. intros <-. discriminate.
Qed.

Lemma co4_no_lost : no_lost (tasks co4).
Proof. intros [|[|[|i]]] t; simpl; intros; by simplify_eq. Qed.

Lemma co6_no_lost up0 up1 : no_lost (tasks (co6 up0 up1)).
Proof. intros [|[|[|i]]] t; simpl; intros; by simplify_eq. Qed.

(** ** Claims *)

(** C3: A job run by any number of workers is right, whatever they do between themselves: started in a
    directory with the input files and none of the job's own, and with a map function whose pairs are
    clean (no colon, no line end, no Unicode white space at the outer ends), workers register, ask for tasks, read and
    write single files, report, crash and are slow in any interleaving, and map tasks time out and are
    run again by others.  When [Done] tells the main program that the job is over and no reduce task has
    timed out, the output file of every reducer with emitted keys has one line per key that hashes to it,
    with the result of the reduce function on the values of all the pairs emitted for that key by the
    map function on the input files, each counted once. *)
Theorem cluster_job mapf reducef nReduce inputs fs s now c' fs' :
  ready elements nReduce inputs fs -> Forall clean (emitted mapf inputs) ->
  rtc (cl_step mapf reducef) (cl_start inputs.*1 nReduce fs) s ->
  Done (cl_co s) (cl_fs s) now = (c', fs', true) -> no_lost (tasks c') ->
  forall kv, kv ∈ emitted mapf inputs -> exists m order,
    let r := Z.rem (ihash (Key kv)) nReduce in
    fs' !! ("mr-out-" +:+ pretty r) = Some (results reducef m order) /\ NoDup order /\
    (forall k, k ∈ order <-> k ∈ Key <$> emitted mapf inputs /\ Z.rem (ihash k) nReduce = r) /\
    (forall k, k ∈ order ->
       default [] (m !! k) ≡ₚ Value <$> filter (fun kv => Key kv = k) (emitted mapf inputs)).
Proof.
  intros Hready Hclean Hrun HD Hlost kv Hkv.
  destruct (cluster_end mapf reducef nReduce inputs fs Hready Hclean s now c' fs' Hrun HD Hlost) as [M HM].
  destruct (HM (bucket nReduce (Key kv))) as (order & O1 & O2 & O3 & O4).
  exists (M (bucket nReduce (Key kv))), order. split_and!; [|done|done|].
  - assert (Key kv ∈ order) by (apply O2; split; [by apply list_elem_of_fmap_2|done]).
    by destruct order; [set_solver|].
  - intros k Hk. by apply O3, O2.
Qed.

Lemma cluster_job_witness :
  exists c' fs', Done (co6 false false) dir6 (fun _ => 22%Z) = (c', fs', true) /\
    exists m order, fs' !! "mr-out-7" = Some (results count_reduce m order) /\
      default [] (m !! "x") ≡ₚ ["1"].
Proof.
  assert (Done (co6 false false) dir6 (fun _ => 22%Z)
    = (co6 false false, delete "m-out-1-7" dir6, true)) as HD by calc.
  do 2 eexists. split; [exact HD|].
  destruct (cluster_job count_map count_reduce 10 [("pg1", "x")] dir0 _ _ _ _ dir0_ready
    ltac:(repeat constructor) slow_run HD (co6_no_lost false false) (mkKeyValue "x" "1"))
    as (m & order & Hfs & _ & Hk & Hv); [left|].
  exists m, order. split; [exact Hfs|]. apply Hv, Hk. split; [left|reflexivity].
Defined.

(** C14: As long as no reduce task has timed out, no report of a worker fails: whatever the
    interleaving, the files a worker says it created are there to be renamed, or to be removed when the
    task was given to another worker in the meantime. *)
Theorem cluster_reports mapf reducef nReduce inputs fs s w id l order c' fs' err :
  ready elements nReduce inputs fs -> Forall clean (emitted mapf inputs) ->
  rtc (cl_step mapf reducef) (cl_start inputs.*1 nReduce fs) s -> no_lost (tasks (cl_co s)) ->
  cl_ws s !! w = Some (WReport id l) -> reduce_order fs' order ->
  TaskDone (cl_co s) (cl_fs s) (mkTaskDoneReq (Z.of_nat w) (Z.of_nat id) l) order = Ok (c', fs', err) ->
  err = false.
Proof.
  intros Hready Hclean Hrun Hlost Hw Ho HT.
  destruct (cl_inv_run mapf reducef nReduce inputs fs Hready Hclean s Hrun) as [Hinv Hf].
  destruct (Hf Hlost) as [fsM Hf']. destruct (inv_pending _ _ _ Hinv id) as (t & Hi & _).
  { apply elem_of_held. by exists w, (WReport id l). }
  by edestruct (finv_TaskDone mapf reducef nReduce inputs fs Hready Hclean) as [E _]; eauto.
Qed.

(** The late report of the slow worker. *)
Lemma cluster_reports_witness :
  exists c' fs' err,
    TaskDone co4 dir3 (mkTaskDoneReq 0 0 ["tempm-out-0-7"]) ["7"] = Ok (c', fs', err) /\ err = false.
Proof.
  assert (TaskDone co4 dir3 (mkTaskDoneReq 0 0 ["tempm-out-0-7"]) ["7"] = Ok (co4, dir4, false)) as HT by calc.
  do 3 eexists. split; [exact HT|].
  eapply (cluster_reports count_map count_reduce 10 [("pg1", "x")] dir0 _ 0 0 ["tempm-out-0-7"] ["7"] co4 dir4);
    [exact dir0_ready|repeat constructor|exact slow_run_late|exact co4_no_lost|reflexivity| |exact HT].
  unfold reduce_order. calc_perm.
Defined.
