(* ===== verification/MrMain.v ===== *)
(** * The end of a MapReduce job

    Model of the processes around a job: [main] of [src/src/main/mrcoordinator.go], which polls
    [Done] until the job has finished, and the goroutine [heartbeat] of [src/src/mr/worker.go] with
    the RPC wrappers of that file, which ends the worker.  When all tasks of a job are completed,
    both processes end: the worker on the answer to a heartbeat, or because the coordinator can no
    longer be reached. *)

From S2P Require Import Prelude GoStrings Fnv MrCoordinator MrWorker MrShuffle MrJob.
From stdpp Require Import pretty.

(** ** RPC wrappers of [worker.go] *)

(** What a call over the socket meets: no coordinator, an error of the call, an answer. *)
Inductive outcome (A : Type) :=
| DialError
| CallError
| Answered (res : A).
Arguments DialError {A}.
Arguments CallError {A}.
Arguments Answered {A} _.

(** [None] is the result false. *)
Definition call {A} (o : outcome A) : go (option A) :=
  match o with
  | DialError => Fatal "dialing:"
  | CallError => Ok None
  | Answered res => Ok (Some res)
  end.

(** The flag is the error. *)
Definition rpcRegisterWorker (o : outcome Z) : go (Z * bool) :=
  let! r := call o in
  match r with Some w => Ok (w, false) | None => Ok (0%Z, true) end.

Definition rpcGetTask (o : outcome GetTaskRes) : go (GetTaskRes * bool) :=
  let! r := call o in
  match r with Some res => Ok (res, false) | None => Ok (mkGetTaskRes [] 0 TaskTypeMap 0, true) end.

Definition rpcHeartbeat (o : outcome bool) : go (bool * bool) :=
  let! r := call o in
  match r with Some shouldShutDown => Ok (shouldShutDown, false) | None => Ok (false, true) end.

(** One turn of [heartbeat]: whether the process exits. *)
Definition heartbeat (o : outcome bool) : go bool :=
  let! r := rpcHeartbeat o in
  let '(shouldShutDown, err) := r in
  if err : bool then Fatal "Error in rpcHeartbeat" else Ok shouldShutDown.

(** ** Messages of [rpc.go] as they are printed *)

Definition TaskType_int (t : TaskType) : Z :=
  match t with TaskTypeMap => 0 | TaskTypeReduce => 1 | TaskTypeNoTask => 2 | TaskTypeShutdown => 3 end.

Definition RegisterWorkerRes_String (WorkerId : Z) : string := "{WorkerId: " +:+ pretty WorkerId +:+ "}".

Definition GetTaskReq_String (WorkerId : Z) : string := "{WorkerId: " +:+ pretty WorkerId +:+ "}".

Definition GetTaskRes_String (r : GetTaskRes) : string :=
  "{Files: [" +:+ Join_strings (res_Files r) ", " +:+ "], NReduce: " +:+ pretty (res_NReduce r)
  +:+ ", TaskType: " +:+ pretty (TaskType_int (res_TaskType r)) +:+ ", TaskId: " +:+ pretty (res_TaskId r) +:+ "}".

Definition TaskDoneReq_String (r : TaskDoneReq) : string :=
  "{WorkerId: " +:+ pretty (req_WorkerId r) +:+ ", TaskId: " +:+ pretty (req_TaskId r)
  +:+ ", FilesCreated: [" +:+ Join_strings (req_FilesCreated r) ", " +:+ "]}".

(** The socket of the user [uid]. *)
Definition coordinatorSock (uid : Z) : string := "/var/tmp/5840-mr-" +:+ pretty uid.

(** Two users have two sockets. *)
#[export] Instance coordinatorSock_inj : Inj (=) (=) coordinatorSock.
Proof. intros u u' E. by apply (inj (String.append _)), (inj pretty) in E. Qed.

(** ** The processes *)

(** The coordinator with its directory, and whether its process and that of worker 0 run. *)
Record procs := mkprocs { pc : Coordinator; pfs : FS; co_up : bool; wk_up : bool }.

(** A call of a handler by the worker. *)
Definition reach {A} (up : bool) (r : A) : outcome A := if up then Answered r else DialError.

(** The process goes on unless the turn exits or fails. *)
Definition stays (r : go bool) : bool := match r with Ok b => negb b | _ => false end.

Inductive proc_step : procs -> procs -> Prop :=
| ps_main c fs wk now c' fs' done :
    (** [main] polls [Done]; when it answers true the process ends *)
    Done c fs now = (c', fs', done) ->
    proc_step (mkprocs c fs true wk) (mkprocs c' fs' (negb done) wk)
| ps_heartbeat c fs c' b :
    (** the coordinator answers a heartbeat *)
    Heartbeat c 0 = Ok (c', b) ->
    proc_step (mkprocs c fs true true) (mkprocs c' fs true (stays (heartbeat (reach true b))))
| ps_heartbeat_lost c fs b :
    (** nobody listens on the socket *)
    proc_step (mkprocs c fs false true) (mkprocs c fs false (stays (heartbeat (reach false b))))
| ps_ask c fs now c' res :
    (** the worker asks for a task and there is none *)
    GetTask c 0 now = Ok (c', res) -> rpcGetTask (Answered res) = Ok (res, false) ->
    res_TaskType res = TaskTypeNoTask ->
    proc_step (mkprocs c fs true true) (mkprocs c' fs true true)
| ps_ask_lost c fs res :
    rpcGetTask (reach false res) = Fatal "dialing:" ->
    proc_step (mkprocs c fs false true) (mkprocs c fs false false).

(** ** After the job *)

Section Ends.
(** The directory when the last task is completed. *)
Context (fs0 : FS).

Record ending (p : procs) : Prop := {
  end_tasks : Forall completed (tasks (pc p));
  end_phase : c_phase (pc p) ≠ phaseMap;
  end_workers : length (workers (pc p)) = 1;
  end_fs : pfs p = if co_up p then fs0 else (deleteFiles fs0 "m-out*").1;
  end_left : co_up p = true -> wk_up p = false ->
    Forall (fun w => isRunning w = false) (workers (pc p))
}.

(** Completed tasks do not time out. *)
Lemma timeoutTasks_completed c now : Forall completed (tasks c) -> timeoutTasks c now = c.
Proof.
  intros Hc. unfold timeoutTasks. revert Hc. generalize (tasks c) at 1 2. intros l.
  assert (forall k, Forall completed l ->
    foldl (timeout_step now) c (imap (fun i t => (k + i, t)) l) = c) as H; [|apply (H 0)].
  induction l as [|t l IH]; intros k Hl; [done|]. apply Forall_cons in Hl as [Ht Hl]. simpl.
  unfold expired. rewrite Ht, (bool_decide_eq_false_2 (taskStatusCompleted = taskStatusInProgress)) by done.
  simpl. replace (imap ((fun i t => (k + i, t)) ∘ S) l) with (imap (fun i t => (S k + i, t)) l)
    by (apply imap_ext; intros; simpl; f_equal; lia). by apply IH.
Qed.

Lemma completed_finished ts : Forall completed ts -> existsb unfinished ts = false.
Proof.
  induction 1 as [|t ts Ht _ IH]; [done|]. simpl. rewrite IH. unfold unfinished. by rewrite Ht.
Qed.

(** What a poll answers when all tasks are completed. *)
Lemma Done_completed c fs now :
  Forall completed (tasks c) -> c_phase c ≠ phaseMap ->
  Done c fs now =
  if bool_decide (c_phase c = phaseShutdown) && existsb isRunning (workers c) then (c, fs, false)
  else (c, (deleteFiles fs "m-out*").1, true).
Proof.
  intros Ht Hp. unfold Done. rewrite timeoutTasks_completed by done.
  destruct (c_phase c) eqn:E; [done| |].
  - rewrite completed_finished by done. by rewrite bool_decide_eq_false_2.
  - rewrite bool_decide_eq_true_2 by done. simpl. by destruct (existsb isRunning (workers c)).
Qed.

Lemma none_running ws : Forall (fun w => isRunning w = false) ws -> existsb isRunning ws = false.
Proof. induction 1 as [|w ws Hw _ IH]; [done|]. simpl. by rewrite Hw, IH. Qed.

Lemma Heartbeat_cases c c' b :
  length (workers c) = 1 -> Heartbeat c 0 = Ok (c', b) ->
  tasks c' = tasks c /\ c_phase c' = c_phase c /\ length (workers c') = 1 /\
  b = bool_decide (c_phase c = phaseShutdown) /\
  (b = true -> Forall (fun w => isRunning w = false) (workers c')).
Proof.
  unfold Heartbeat. intros Hl E. destruct (workers c) as [|wk [|]] eqn:Ew; try done.
  case_bool_decide; simplify_eq/=; [|by rewrite Ew].
  split_and!; try done. intros _. by repeat constructor.
Qed.

Lemma ending_step p p' : ending p -> proc_step p p' -> ending p'.
Proof.
  intros [E1 E2 E3 E4 E5] Hstep. destruct Hstep as [c fs wk now c' fs' d Hd|c fs c' b Hb|c fs b|
    c fs now c' res Hg Hr Ht|c fs res Hr]; simpl in *.
  - rewrite Done_completed in Hd by done.
    destruct (_ && _) eqn:Eb; injection Hd as <- <- <-; split; simpl; try done. by rewrite E4.
  - destruct (Heartbeat_cases c c' b E3 Hb) as (T & P & W & -> & R).
    split; simpl; rewrite ?T, ?P; try done. intros _. rewrite negb_false_iff. exact R.
  - by split.
  - unfold GetTask in Hg. destruct (findIdleTask c) as [id [t|]] eqn:Ef.
    + apply findIdleTask_Some in Ef as (i & _ & Hi & Hs). rewrite Forall_lookup in E1.
      specialize (E1 i t Hi). unfold completed in E1. congruence.
    + go_inv. unfold set_worker_task in E. go_inv.
      split; simpl; try done. by rewrite length_insert.
  - by split.
Qed.

(** Both processes can end, in at most two steps. *)
Lemma ending_ends p :
  ending p -> exists k p', k <= 2 /\ nsteps proc_step k p p' /\ co_up p' = false /\ wk_up p' = false.
Proof.
  destruct p as [c fs up wk]. intros [E1 E2 E3 E4 E5]. simpl in *.
  assert (forall c fs, exists k p', k <= 1 /\ nsteps proc_step k (mkprocs c fs false wk) p' /\
    co_up p' = false /\ wk_up p' = false) as Hdown.
  { intros c0 fs1. destruct wk.
    - exists 1, (mkprocs c0 fs1 false false). split; [lia|]. split; [|done].
      eapply nsteps_l; [by apply (ps_ask_lost _ _ (mkGetTaskRes [] 0 TaskTypeMap 0))|apply nsteps_O].
    - exists 0. eexists. split; [lia|]. split; [apply nsteps_O|done]. }
  destruct up; [|destruct (Hdown c fs) as (k & p' & ? & ?); exists k, p'; split; [lia|done]].
  destruct (existsb isRunning (workers c) && bool_decide (c_phase c = phaseShutdown)) eqn:Er.
  - apply andb_true_iff in Er as [Er Ep%bool_decide_eq_true].
    destruct wk; [|rewrite none_running in Er by auto; done].
    destruct (workers c) as [|w [|]] eqn:Ew; try done.
    assert (exists c', Heartbeat c 0 = Ok (c', true)) as [c' Hb].
    { unfold Heartbeat. rewrite bool_decide_eq_true_2, Ew by done. simpl. by eexists. }
    rewrite <- Ew in E3.
    destruct (Heartbeat_cases c c' true E3 Hb) as (T & P & W & _ & R).
    exists 2. eexists. split; [lia|]. split.
    + eapply nsteps_l; [by apply ps_heartbeat|]. eapply nsteps_l; [|apply nsteps_O].
      apply (ps_main _ _ _ (fun _ => 0%Z)). rewrite Done_completed by (rewrite ?T, ?P; done).
      rewrite (none_running (workers c')) by auto. rewrite andb_false_r. reflexivity.
    + done.
  - destruct (Hdown c (deleteFiles fs "m-out*").1) as (k & p' & Hk & Hn & H1 & H2).
    exists (S k), p'. split; [lia|]. split; [|done]. eapply nsteps_l; [|exact Hn].
    apply (ps_main _ _ _ (fun _ => 0%Z) _ _ true). rewrite Done_completed by done.
    by rewrite andb_comm, Er.
Qed.
End Ends.

(** ** The coordinator of a job has one worker *)

Lemma GetTask_workers c w now c' r :
  GetTask c w now = Ok (c', r) -> length (workers c') = length (workers c).
Proof.
  unfold GetTask, set_worker_task. intros H. destruct (findIdleTask c) as [id [t|]]; go_inv; simpl;
    by rewrite length_insert.
Qed.

Lemma report_workers visit msg c w t r c' fs' :
  report visit msg c w t r = Ok (c', fs') -> workers c' = workers c.
Proof.
  unfold report. intros H. destruct r as [fs [files|]]; [|done]. go_inv.
  destruct a as [[c1 fs1] []]; [done|]. injection H as <- <-. by eapply TaskDone_workers.
Qed.

Lemma timeoutTasks_workers c clock : workers (timeoutTasks c clock) = workers c.
Proof. by rewrite timeoutTasks_tasks. Qed.

Lemma polled_workers polls c fs : workers (polled polls c fs).1 = workers c.
Proof.
  unfold polled. revert c fs. induction polls as [|p polls IH]; intros c fs; [done|]. simpl.
  assert (workers (Done c fs p).1.1 = workers c) as <-.
  { rewrite <- (timeoutTasks_workers c p). unfold Done. by repeat case_match. }
  destruct (Done c fs p) as [[c1 fs1] b]. apply IH.
Qed.

Lemma worker_loop_workers mapf reducef visit fuel w now polls c fs c' fs' b :
  worker_loop mapf reducef visit fuel w now polls c fs = Ok (c', fs', b) ->
  length (workers c') = length (workers c).
Proof.
  revert c fs. induction fuel as [|fuel IH]; intros c fs H; simpl in H; [by simplify_eq|].
  destruct (worker_turn _ _ _ _ _ _ _ _) as [[[c1 fs1] ran]| |] eqn:Et; [|done..]. simpl in H.
  assert (length (workers c1) = length (workers c)) as Hw.
  { unfold worker_turn in Et. go_inv. destruct a as [c2 res]. apply GetTask_workers in E.
    pose proof (polled_workers (polls fuel) c2) as Hp.
    assert (forall msg r, (let '(c3, fs3) := polled (polls fuel) c2 r.1 in
        let! s := report visit msg c3 w (res_TaskId res) (fs3, r.2) in Ok (s, true)) = Ok (c1, fs1, ran) ->
        workers c1 = workers c2) as Hr.
    { intros msg r Hr. specialize (Hp r.1). destruct (polled _ _ _) as [c3 fs3].
      destruct (report _ _ _ _ _ _) as [[c4 fs4]| |] eqn:Er; [|done..].
      injection Hr as <- <- _. apply report_workers in Er. by rewrite Er. }
    destruct (res_TaskType res); try (by simplify_eq);
      match type of Et with go_bind ?m _ = _ => destruct m; [|done..] end; by rewrite (Hr _ _ Et). }
  destruct ran; [rewrite <- Hw; by eapply IH|by simplify_eq].
Qed.

(** C11: A MapReduce program ends.  After a job run by one worker that takes no more than ten seconds
    per task, on pairs clean of the separators of the intermediate files, whatever order the polls of
    [main], the heartbeats and the requests of the worker come in, no output file changes, and
    from every state both processes can still end, in at most two steps: the worker on the answer
    to a heartbeat or because nobody listens any more, the coordinator on a poll.  When the
    coordinator has ended, the intermediate files are gone and all output files are there. *)
Theorem job_program_ends mapf reducef visit nReduce inputs fs now polls fuel :
  in_time now polls -> ready visit nReduce inputs fs -> inputs ≠ [] -> Forall clean (emitted mapf inputs) ->
  length inputs + Z.to_nat nReduce < fuel ->
  exists c' fs',
    Worker mapf reducef visit fuel now polls (MakeCoordinator inputs.*1 nReduce) fs = Ok (c', fs', true) /\
    forall p, rtc proc_step (mkprocs c' fs' true true) p ->
      (forall kv, kv ∈ emitted mapf inputs ->
         let f := "mr-out-" +:+ pretty (Z.rem (ihash (Key kv)) nReduce) in
         is_Some (fs' !! f) /\ pfs p !! f = fs' !! f) /\
      (co_up p = false -> forall f, match_pattern "m-out*" f = true -> pfs p !! f = None) /\
      exists k p', k <= 2 /\ nsteps proc_step k p p' /\ co_up p' = false /\ wk_up p' = false.
Proof.
  intros Hin Hready Hne Hcl Hfuel.
  destruct (job_spec mapf reducef visit nReduce inputs fs now polls fuel Hin Hready Hne Hcl Hfuel)
    as (c' & fs' & M & Hrun & Ht & Hp & _ & Hout & _).
  exists c', fs'. split; [done|]. intros p Hsteps.
  assert (length (workers c') = 1) as Hw by by apply worker_loop_workers in Hrun.
  assert (ending fs' p) as He.
  { eapply (rtc_invariant proc_step (ending fs')); [apply ending_step| |exact Hsteps]. by split. }
  assert (forall f, pfs p !! f = if co_up p then fs' !! f else
    if match_pattern "m-out*" f then None else fs' !! f) as Hf.
  { intros f. rewrite (end_fs _ _ He). destruct (co_up p); [done|].
    rewrite deleteFiles_spec. cbn [fst]. apply option_eq. intros v.
    rewrite map_lookup_filter_Some. cbn [fst]. destruct (match_pattern "m-out*" f); naive_solver. }
  split_and!; [| |by eapply ending_ends].
  - intros kv Hkv. split; [eexists; by apply Hout|]. rewrite Hf. by destruct (co_up p).
  - intros Hc f Hm. by rewrite Hf, Hc, Hm.
Qed.

Lemma job_program_ends_witness :
  exists c' fs' k p', k <= 2 /\ nsteps proc_step k (mkprocs c' fs' true true) p' /\
    co_up p' = false /\ wk_up p' = false.
Proof.
  destruct (job_program_ends count_map count_reduce elements 3 two_files two_files_dir (fun _ => 0%Z)
    (fun _ => [fun _ => 7%Z]) 6) as (c' & fs' & _ & H).
  - intros j clock i ->%list_elem_of_singleton. lia.
  - exact two_files_ready.
  - discriminate.
  - repeat constructor.
  - simpl. lia.
  - exists c', fs'. apply (H (mkprocs c' fs' true true)). apply rtc_refl.
Defined.
