(* ===== verification/MrSequential.v ===== *)
(** * The sequential MapReduce program

    Model of [src/src/main/mrsequential.go], the reference implementation the distributed one is
    compared with: map every input, sort the pairs by key, call the reduce function once per run
    of equal keys.  [sort.Sort] may order equal keys in any way, so the sorted list is an argument. *)

From S2P Require Import Prelude GoStrings MrWorker.
From Stdlib Require Import Sorted.

Section Sequential.
Context (mapf : string -> string -> list KeyValue) (reducef : string -> list string -> string).

(** [ByKey.Less]. *)
Definition Less (a b : KeyValue) : Prop := String.le (Key a) (Key b) /\ Key a ≠ Key b.

(** What [sort.Sort(ByKey(l))] may leave in the slice. *)
Definition sorted_by_key (l l' : list KeyValue) : Prop :=
  l' ≡ₚ l /\ StronglySorted (fun a b => ~ Less b a) l'.

(** The loop over the input files; a file that cannot be opened is fatal. *)
Definition map_inputs (fs : FS) (filenames : list string) : go (list KeyValue) :=
  fold_go (fun intermediate filename =>
    match fs !! filename with
    | None => Fatal "cannot open"
    | Some content => Ok (intermediate ++ mapf filename content)
    end) filenames [].

(** The inner loop over [j]: the pairs after position [i] with the key of position [i], and the
    rest. *)
Fixpoint same_key (k : string) (l : list KeyValue) : list KeyValue * list KeyValue :=
  match l with
  | [] => ([], [])
  | kv :: l' =>
      if bool_decide (Key kv = k) then let '(same, rest) := same_key k l' in (kv :: same, rest)
      else ([], l)
  end.

(** The outer loop; every turn consumes a pair, so [length l] turns are enough. *)
Fixpoint reduce_runs (fuel : nat) (l : list KeyValue) : list (string * string) :=
  match fuel, l with
  | S fuel, kv :: l' =>
      let '(same, rest) := same_key (Key kv) l' in
      (Key kv, reducef (Key kv) (Value <$> kv :: same)) :: reduce_runs fuel rest
  | _, _ => []
  end.

(** [fmt.Fprintf(ofile, "%v %v\n", key, output)]. *)
Definition write_outputs (outs : list (string * string)) : string :=
  foldr (fun o s => o.1 +:+ " " +:+ o.2 +:+ newline +:+ s) "" outs.

(** The program after the usage check: the directory with [mr-out-0]; [sort] gives the order
    [sort.Sort] leaves. *)
Definition mrsequential (sort : list KeyValue -> list KeyValue) (fs : FS)
    (filenames : list string) : go FS :=
  let! intermediate := map_inputs fs filenames in
  let l := sort intermediate in
  Ok (<["mr-out-0" := write_outputs (reduce_runs (length l) l)]> fs).

(** ** Lemmas *)

Lemma same_key_spec k l :
  let '(same, rest) := same_key k l in
  l = same ++ rest /\ Forall (fun kv => Key kv = k) same /\
  match rest with [] => True | kv :: _ => Key kv ≠ k end.
Proof.
  induction l as [|kv l IH]; simpl; [done|]. case_bool_decide as Hk; [|done].
  destruct (same_key k l) as [same rest]. destruct IH as (-> & Hs & Hr).
  split_and!; [done|by constructor|done].
Qed.

#[local] Instance String_le_total' : Total String.le := _.

Lemma not_Less a b : ~ Less b a -> String.le (Key a) (Key b).
Proof.
  intros H. destruct (total String.le (Key a) (Key b)) as [|Hba]; [done|].
  destruct (decide (Key b = Key a)) as [->|Hne]; [done|]. destruct H. by split.
Qed.

(** In a sorted list the run of the first key has all its pairs. *)
Lemma sorted_rest kv l same rest :
  StronglySorted (fun a b => ~ Less b a) (kv :: l) -> same_key (Key kv) l = (same, rest) ->
  StronglySorted (fun a b => ~ Less b a) rest /\ Forall (fun x => Key x ≠ Key kv) rest.
Proof.
  intros Hs Hk. pose proof (same_key_spec (Key kv) l) as Hsp. rewrite Hk in Hsp.
  destruct Hsp as (-> & Hsame & Hr). apply StronglySorted_inv in Hs as [Hs Hall].
  assert (StronglySorted (fun a b => ~ Less b a) rest) as Hrs.
  { clear Hk Hr Hall Hsame. induction same as [|x same IH]; [done|]. apply IH.
    by apply StronglySorted_inv in Hs as [? _]. }
  split; [done|]. destruct rest as [|x rest]; [done|].
  apply Forall_app in Hall as [_ Hall]. apply Forall_cons in Hall as [Hx Hall].
  apply StronglySorted_inv in Hrs as [_ Hxr]. constructor; [done|].
  rewrite Forall_forall in Hxr. apply Forall_forall. intros y Hy Heq.
  apply Hr. apply (anti_symm String.le); [|by apply not_Less].
  rewrite <- Heq. by apply not_Less, Hxr.
Qed.

Lemma values_same k same :
  Forall (fun kv => Key kv = k) same -> filter (fun kv => Key kv = k) same = same.
Proof. intros H. apply list_filter_all. by apply Forall_forall. Qed.

Lemma reduce_runs_spec fuel l :
  length l <= fuel -> StronglySorted (fun a b => ~ Less b a) l ->
  NoDup (reduce_runs fuel l).*1 /\
  (forall k, k ∈ (reduce_runs fuel l).*1 <-> k ∈ Key <$> l) /\
  (forall k r, (k, r) ∈ reduce_runs fuel l ->
     r = reducef k (Value <$> filter (fun kv => Key kv = k) l)).
Proof.
  clear mapf. revert l. induction fuel as [|fuel IH]; intros l Hlen Hs.
  { destruct l; [|simpl in Hlen; lia]. simpl. split_and!; [constructor|done|].
    intros k r []%not_elem_of_nil. }
  destruct l as [|kv l]; simpl. { split_and!; [constructor|done|]. intros k r []%not_elem_of_nil. }
  simpl in Hlen. destruct (same_key (Key kv) l) as [same rest] eqn:Ek.
  destruct (sorted_rest kv l same rest Hs Ek) as [Hrs Hne].
  pose proof (same_key_spec (Key kv) l) as Hsp. rewrite Ek in Hsp. destruct Hsp as (-> & Hsame & _).
  rewrite length_app in Hlen. destruct (IH rest ltac:(lia) Hrs) as (Hnd & Hdom & Hval). simpl.
  assert (Key kv ∉ (reduce_runs fuel rest).*1) as Hnew.
  { rewrite Hdom. intros (x & Hx & Hin)%list_elem_of_fmap. rewrite Forall_forall in Hne.
    by eapply Hne. }
  split_and!.
  - by constructor.
  - intros k. rewrite !elem_of_cons, Hdom, fmap_app, elem_of_app.
    split; [tauto|]. intros [?|[Hk|?]]; [by left| |by right]. left.
    apply list_elem_of_fmap in Hk as (x & -> & Hx). rewrite Forall_forall in Hsame. by apply Hsame.
  - intros k r [Hkr|Hin]%elem_of_cons.
    + injection Hkr as -> ->. f_equal. rewrite filter_cons_True, filter_app by done. simpl.
      rewrite values_same by done.
      rewrite (list_filter_none _ rest) by by apply Forall_forall. by rewrite app_nil_r.
    + assert (k ≠ Key kv) as Hk.
      { intros ->. apply Hnew. apply list_elem_of_fmap. by exists (Key kv, r). }
      rewrite (Hval k r Hin). f_equal. f_equal.
      rewrite filter_cons_False by auto. rewrite filter_app.
      rewrite (list_filter_none _ same); [done|]. intros x Hx. rewrite Forall_forall in Hsame.
      by rewrite (Hsame x Hx).
Qed.

Lemma map_inputs_spec fs inputs :
  (forall p, p ∈ inputs -> fs !! p.1 = Some p.2) ->
  map_inputs fs inputs.*1 = Ok (emitted mapf inputs).
Proof.
  clear reducef. unfold map_inputs, emitted. intros H. change (concat ((fun p => mapf p.1 p.2) <$> inputs))
    with ([] ++ concat ((fun p => mapf p.1 p.2) <$> inputs)).
  generalize (@nil KeyValue). induction inputs as [|p inputs IH]; intros acc; simpl.
  { by rewrite app_nil_r. }
  rewrite (H p) by left. cbn [go_bind]. rewrite IH by (intros; apply H; by right).
  by rewrite <- app_assoc.
Qed.
End Sequential.

(** ** A sorting function *)

Definition key_le (a b : KeyValue) : Prop := String.le (Key a) (Key b).
#[local] Instance key_le_dec : RelDecision key_le := fun a b => _.
#[local] Instance key_le_total : Total key_le.
Proof. intros a b. apply (total String.le). Qed.
#[local] Instance key_le_trans : Transitive key_le.
Proof. intros a b c H1 H2. unfold key_le in *. by etrans. Qed.

Definition sort_by_key (l : list KeyValue) : list KeyValue := merge_sort key_le l.

Lemma sort_by_key_sorted l : sorted_by_key l (sort_by_key l).
Proof.
  split; [apply merge_sort_Permutation|].
  unfold sort_by_key. generalize (StronglySorted_merge_sort key_le l).
  generalize (merge_sort key_le l). clear l. intros l H. induction H as [|a l' _ IH Ha]; constructor;
    [done|]. eapply Forall_impl; [exact Ha|]. intros b Hab [Hba Hne]. apply Hne.
  by apply (anti_symm String.le).
Qed.

(** The outputs of the program are those of a grouping. *)
Lemma mrsequential_spec mapf reducef sort fs inputs :
  (forall p, p ∈ inputs -> fs !! p.1 = Some p.2) ->
  (forall l, sorted_by_key l (sort l)) ->
  (forall k vs vs', vs ≡ₚ vs' -> reducef k vs = reducef k vs') ->
  exists outs, mrsequential mapf reducef sort fs inputs.*1
                 = Ok (<["mr-out-0" := write_outputs outs]> fs) /\
    NoDup outs.*1 /\
    forall k r, (k, r) ∈ outs <->
      exists vs, group_by Key Value (emitted mapf inputs) ∅ !! k = Some vs /\ r = reducef k vs.
Proof.
  intros Hin Hsort Hperm. destruct (Hsort (emitted mapf inputs)) as [Hp Hs].
  destruct (reduce_runs_spec reducef (length (sort (emitted mapf inputs))) (sort (emitted mapf inputs)))
    as (Hnd & Hdom & Hval); [done|done|].
  eexists. split; [unfold mrsequential; rewrite map_inputs_spec by done; reflexivity|].
  split; [done|].
  assert (forall k, Value <$> filter (fun kv => Key kv = k) (sort (emitted mapf inputs))
    ≡ₚ Value <$> filter (fun kv => Key kv = k) (emitted mapf inputs)) as Hvals
    by (intros k; by rewrite Hp).
  intros k r. split.
  - intros Hkr. exists (Value <$> filter (fun kv => Key kv = k) (emitted mapf inputs)).
    rewrite (Hval k r Hkr). split; [|by apply Hperm]. apply group_by_lookup. split; [done|].
    rewrite <- Hp. apply Hdom, list_elem_of_fmap. by exists (k, r).
  - intros (vs & [-> Hk]%group_by_lookup & ->).
    rewrite <- Hp in Hk. apply Hdom, list_elem_of_fmap in Hk as ([k' r] & -> & Hkr). simpl.
    rewrite (Hperm k' _ (Value <$> filter (fun kv => Key kv = k') (sort (emitted mapf inputs))))
      by by rewrite Hvals. by rewrite <- (Hval k' r Hkr).
Qed.

(** For a reduce function that does not depend on the order of the values, [mrsequential]
    writes exactly one line per key the map function emitted, and it is the result on the values
    a grouping of all emitted pairs by key gives, as a reduce task groups them. *)
Theorem mrsequential_equals_grouping mapf reducef sort fs inputs :
  (forall p, p ∈ inputs -> fs !! p.1 = Some p.2) ->
  (forall l, sorted_by_key l (sort l)) ->
  (forall k vs vs', vs ≡ₚ vs' -> reducef k vs = reducef k vs') ->
  exists outs, mrsequential mapf reducef sort fs inputs.*1
                 = Ok (<["mr-out-0" := write_outputs outs]> fs) /\
    NoDup outs.*1 /\
    forall k r, (k, r) ∈ outs <->
      exists vs, group_by Key Value (emitted mapf inputs) ∅ !! k = Some vs /\ r = reducef k vs.
Proof. apply mrsequential_spec. Qed.

(** Counting values. *)
Lemma mrsequential_equals_grouping_witness :
  exists outs, mrsequential (fun _ c => [mkKeyValue c "1"]) (fun _ vs => if length vs =? 2 then "2" else "1")
      sort_by_key {[ "x" := "a"; "y" := "a" ]} ["x"; "y"]
      = Ok (<["mr-out-0" := write_outputs outs]> {[ "x" := "a"; "y" := "a" ]}) /\
    ("a", "2") ∈ outs.
Proof.
  destruct (mrsequential_equals_grouping (fun _ c => [mkKeyValue c "1"])
    (fun _ vs => if length vs =? 2 then "2" else "1") sort_by_key {[ "x" := "a"; "y" := "a" ]}
    [("x", "a"); ("y", "a")]) as (outs & H1 & _ & H2).
  - intros p Hp. rewrite !elem_of_cons in Hp.
    destruct Hp as [->|[->|[]%not_elem_of_nil]]; reflexivity.
  - exact sort_by_key_sorted.
  - intros k vs vs' Hvs. rewrite Hvs. reflexivity.
  - exists outs. split; [exact H1|]. apply H2. exists ["1"; "1"]. split; reflexivity.
Defined.
