(* ===== verification/MrApps.v ===== *)
(** * MapReduce applications, and the distributed job against the sequential program

    The plugins of [src/src/mrapps] as the functions [mapf] and [reducef] of the other files:
    word count, the indexer, the two crash tests, the early-exit and the job-count tests.  A job
    run by the coordinator and a worker writes the same lines as [mrsequential]; for word count
    this is the number of occurrences of every word. *)

From S2P Require Import Prelude GoStrings GoUnicode Fnv MrCoordinator MrWorker MrShuffle MrJob MrSequential.
From stdpp Require Import pretty.

(** [strconv.Itoa]. *)
Definition Itoa (n : nat) : string := pretty (Z.of_nat n).

(** ** [wc.go] *)

Module Wc.
Definition words (table : Z -> bool) (contents : string) : list string :=
  FieldsFunc contents (not_letter table).

Definition Map (table : Z -> bool) (filename contents : string) : list KeyValue :=
  foldl (fun kva w => kva ++ [mkKeyValue w "1"]) [] (words table contents).

Definition Reduce (key : string) (values : list string) : string := Itoa (length values).
End Wc.

(** ** [indexer.go] *)

Module Indexer.
(** [visit]: the order in which the loop visits the set of words. *)
Definition Map (table : Z -> bool) (visit : gset string -> list string) (document value : string) :
    list KeyValue :=
  (fun w => mkKeyValue w document) <$> visit (list_to_set (Wc.words table value)).

Definition Reduce (key : string) (values : list string) : string :=
  let values := sort_Strings values in
  Itoa (length values) +:+ " " +:+ Join_strings values ",".
End Indexer.

(** ** [crash.go] and [nocrash.go] *)

Module Crash.
(** [rr] is the random number; [os.Exit(1)] ends the worker. *)
Definition maybeCrash (rr : Z) : go unit :=
  if bool_decide (rr < 330)%Z then Fatal "exit status 1" else Ok tt.

Definition pairs (filename contents : string) : list KeyValue :=
  [mkKeyValue "a" filename; mkKeyValue "b" (Itoa (String.length filename));
   mkKeyValue "c" (Itoa (String.length contents)); mkKeyValue "d" "xyzzy"].

Definition Map (rr : Z) (filename contents : string) : go (list KeyValue) :=
  let! _ := maybeCrash rr in Ok (pairs filename contents).

Definition Reduce (rr : Z) (key : string) (values : list string) : go string :=
  let! _ := maybeCrash rr in Ok (Join_strings (sort_Strings values) " ").
End Crash.

Module Nocrash.
(** The condition starts with [false &&]. *)
Definition maybeCrash (rr : Z) : go unit :=
  if false && bool_decide (rr < 500)%Z then Fatal "exit status 1" else Ok tt.

Definition Map (rr : Z) (filename contents : string) : go (list KeyValue) :=
  let! _ := maybeCrash rr in Ok (Crash.pairs filename contents).

Definition Reduce (rr : Z) (key : string) (values : list string) : go string :=
  let! _ := maybeCrash rr in Ok (Join_strings (sort_Strings values) " ").
End Nocrash.

(** ** [early_exit.go] *)

Module EarlyExit.
Definition Map (filename contents : string) : list KeyValue := [mkKeyValue filename "1"].

(** Some keys sleep first. *)
Definition Reduce (key : string) (values : list string) : string := Itoa (length values).
End EarlyExit.

(** ** [jobcount.go] *)

Module Jobcount.
(** [pid] is the process, [count] its variable of that name. *)
Definition Map (pid count : Z) (fs : FS) (filename contents : string) : FS * Z * list KeyValue :=
  (<["mr-worker-jobcount-" +:+ pretty pid +:+ "-" +:+ pretty count := "x"]> fs, (count + 1)%Z,
   [mkKeyValue "a" "x"]).

Definition Reduce (fs : FS) (key : string) (values : list string) : string :=
  Itoa (length (filter (fun f => String.prefix "mr-worker-jobcount" f = true) (elements (dom fs)))).
End Jobcount.

(** ** The order of the values does not matter *)

Definition order_free (reducef : string -> list string -> string) : Prop :=
  forall k vs vs', vs ≡ₚ vs' -> reducef k vs = reducef k vs'.

Lemma wc_order_free : order_free Wc.Reduce.
Proof. intros k vs vs' H. unfold Wc.Reduce. by rewrite H. Qed.

Lemma indexer_order_free : order_free Indexer.Reduce.
Proof. intros k vs vs' H. unfold Indexer.Reduce. by rewrite (sort_Strings_unique _ _ H). Qed.

Lemma early_exit_order_free : order_free EarlyExit.Reduce.
Proof. intros k vs vs' H. unfold EarlyExit.Reduce. by rewrite H. Qed.

(** ** Outputs *)

Lemma results_outputs reducef m order :
  results reducef m order
  = write_outputs ((fun k => (k, reducef k (default [] (m !! k)))) <$> order).
Proof.
  induction order as [|k order IH]; [done|]. simpl. rewrite IH. unfold write_result.
  by rewrite !append_assoc.
Qed.

Section Equivalence.
Context (mapf : string -> string -> list KeyValue) (reducef : string -> list string -> string).
Context (nReduce : Z) (inputs : list (string * string)).
Context (Hn : (0 < nReduce)%Z) (Hfree : order_free reducef).

Definition values_of (k : string) : list string :=
  Value <$> filter (fun kv => Key kv = k) (emitted mapf inputs).

(** What reducer [r] writes: the keys in some order, with the groups [M r]. *)
Definition part (M : Z -> gmap string (list string)) (order : Z -> list string) (r : nat) :
    list (string * string) :=
  (fun k => (k, reducef k (default [] (M (Z.of_nat r) !! k)))) <$> order (Z.of_nat r).

Context (M : Z -> gmap string (list string)) (order : Z -> list string).
Context (HM : forall r, (0 <= r < nReduce)%Z -> NoDup (order r) /\
  (forall k, k ∈ order r <-> k ∈ Key <$> emitted mapf inputs /\ bucket nReduce k = r) /\
  (forall k, bucket nReduce k = r -> default [] (M r !! k) ≡ₚ values_of k)).

Lemma elem_of_part r o :
  r < Z.to_nat nReduce ->
  o ∈ part M order r <-> o.1 ∈ Key <$> emitted mapf inputs /\ bucket nReduce o.1 = Z.of_nat r /\
                   o.2 = reducef o.1 (values_of o.1).
Proof.
  intros Hr. destruct (HM (Z.of_nat r)) as (_ & H2 & H3); [lia|]. unfold part. rewrite list_elem_of_fmap. split.
  - intros (k & -> & [Hk Hb]%H2). simpl. split_and!; [done|done|]. by apply Hfree, H3.
  - intros (Hk & Hb & E). exists o.1. split; [|by apply H2]. destruct o as [k x]. simpl in *.
    rewrite E. f_equal. symmetry. by apply Hfree, H3.
Qed.

(** All parts together: one output per key. *)
Lemma elem_of_parts o :
  o ∈ concat (part M order <$> seq 0 (Z.to_nat nReduce)) <->
  o.1 ∈ Key <$> emitted mapf inputs /\ o.2 = reducef o.1 (values_of o.1).
Proof.
  rewrite elem_of_concat. split.
  - intros (l & (r & -> & [_ Hr]%elem_of_seq)%list_elem_of_fmap & (H1 & _ & H2)%elem_of_part); [done|lia].
  - intros [H1 H2]. exists (part M order (Z.to_nat (bucket nReduce o.1))).
    pose proof (bucket_range nReduce Hn o.1) as Hb.
    split; [apply list_elem_of_fmap_2, elem_of_seq; lia|]. apply elem_of_part; [lia|].
    split_and!; [done|lia|done].
Qed.

Lemma NoDup_parts : NoDup (concat (part M order <$> seq 0 (Z.to_nat nReduce))).
Proof.
  assert (forall l, NoDup l -> (forall r, r ∈ l -> r < Z.to_nat nReduce) -> NoDup (concat (part M order <$> l)))
    as H; [|apply H; [apply NoDup_seq|intros r [_ Hr]%elem_of_seq; lia]].
  intros l Hl. induction Hl as [|r l Hr _ IH]; intros Hlt; simpl; [constructor|].
  assert (r < Z.to_nat nReduce) as Hr1 by (apply Hlt; left).
  assert (forall r', r' ∈ l -> r' < Z.to_nat nReduce) as Hl1 by (intros r' ?; apply Hlt; by right).
  apply NoDup_app. split_and!.
  - unfold part. apply (NoDup_fmap_2_strong _).
    + intros k k' _ _ [= -> _]. done.
    + apply HM. lia.
  - intros o (_ & Hb & _)%elem_of_part (l' & (r' & -> & Hr')%list_elem_of_fmap & Ho)%elem_of_concat; [|done].
    apply elem_of_part in Ho as (_ & Hb' & _); [|auto]. apply Hr. assert (r = r') as -> by lia. done.
  - auto.
Qed.

(** The parts are the outputs of the sequential program. *)
Lemma parts_outs outs :
  NoDup outs.*1 ->
  (forall k r, (k, r) ∈ outs <->
     exists vs, group_by Key Value (emitted mapf inputs) ∅ !! k = Some vs /\ r = reducef k vs) ->
  concat (part M order <$> seq 0 (Z.to_nat nReduce)) ≡ₚ outs.
Proof.
  intros Hnd Houts. apply NoDup_Permutation; [apply NoDup_parts|by eapply NoDup_fmap_1|].
  intros [k x]. rewrite elem_of_parts, Houts. simpl.
  setoid_rewrite group_by_lookup. unfold values_of. naive_solver.
Qed.
End Equivalence.

(** ** Word count *)

Lemma wc_Map_words table filename contents :
  Wc.Map table filename contents = (fun w => mkKeyValue w "1") <$> Wc.words table contents.
Proof.
  assert (forall ws acc, foldl (fun kva w => kva ++ [mkKeyValue w "1"]) acc ws
    = acc ++ ((fun w => mkKeyValue w "1") <$> ws)) as H; [|apply (H _ [])].
  intros ws. induction ws as [|w ws IH]; intros acc; simpl; [by rewrite app_nil_r|].
  by rewrite IH, <- app_assoc.
Qed.

(** The words of all input files. *)
Definition all_words (table : Z -> bool) (inputs : list (string * string)) : list string :=
  concat ((fun p => Wc.words table p.2) <$> inputs).

Lemma wc_emitted table inputs :
  emitted (Wc.Map table) inputs = (fun w => mkKeyValue w "1") <$> all_words table inputs.
Proof.
  unfold emitted, all_words. rewrite fmap_concat, <- list_fmap_compose. f_equal.
  apply list_fmap_ext. intros i p _. apply wc_Map_words.
Qed.

Lemma wc_clean table inputs : Forall clean (emitted (Wc.Map table) inputs).
Proof.
  rewrite wc_emitted. apply Forall_fmap, Forall_concat, Forall_fmap, Forall_forall.
  intros p _. eapply Forall_impl; [apply FieldsFunc_ok|]. intros w Hw. simpl.
  split_and!; simpl; try done; try (by apply word_count); by apply Hw.
Qed.

Definition occurrences (table : Z -> bool) (inputs : list (string * string)) (w : string) : nat :=
  length (filter (fun x => x = w) (all_words table inputs)).

Lemma wc_values table inputs w :
  length (values_of (Wc.Map table) inputs w) = occurrences table inputs w.
Proof.
  unfold values_of, occurrences. rewrite length_fmap, wc_emitted.
  induction (all_words table inputs) as [|x l IH]; [done|]. rewrite fmap_cons, !filter_cons. simpl.
  destruct (decide (x = w)); simpl; auto.
Qed.

(** ** Claims *)

(** The distributed job and the sequential program agree.  For a reduce function that does
    not depend on the order of its values, a job run by a worker and [mrsequential] both end,
    and the lines of the output files [mr-out-0], ..., [mr-out-(nReduce-1)] of the job are
    together a permutation of the lines of the file [mr-out-0] of [mrsequential]. *)
Theorem job_matches_mrsequential mapf reducef visit sort nReduce inputs fs now polls fuel :
  in_time now polls -> ready visit nReduce inputs fs -> inputs ≠ [] -> Forall clean (emitted mapf inputs) ->
  length inputs + Z.to_nat nReduce < fuel -> order_free reducef ->
  (forall l, sorted_by_key l (sort l)) ->
  exists c' fsJ fsS parts outs,
    Worker mapf reducef visit fuel now polls (MakeCoordinator inputs.*1 nReduce) fs
      = Ok (c', fsJ, true) /\
    mrsequential mapf reducef sort fs inputs.*1 = Ok fsS /\
    fsS !! "mr-out-0" = Some (write_outputs outs) /\
    length parts = Z.to_nat nReduce /\
    (forall r l, parts !! r = Some l ->
       default "" (fsJ !! ("mr-out-" +:+ pretty (Z.of_nat r))) = write_outputs l) /\
    concat parts ≡ₚ outs.
Proof.
  intros Hin Hready Hne Hcl Hfuel Hfree Hsort. pose proof (ready_nReduce _ _ _ _ Hready) as Hn.
  destruct (job_spec mapf reducef visit nReduce inputs fs now polls fuel Hin Hready Hne Hcl Hfuel)
    as (c' & fsJ & M & Hrun & _ & _ & HM & Hout & Hrest).
  destruct (mrsequential_spec mapf reducef sort fs inputs (ready_inputs _ _ _ _ Hready) Hsort Hfree)
    as (outs & Hseq & Hnd & Houts).
  exists c', fsJ. eexists. exists (part reducef M (fun r => visit (dom (M r))) <$> seq 0 (Z.to_nat nReduce)), outs.
  split; [done|]. split; [done|]. split; [by rewrite lookup_insert_eq|].
  split; [by rewrite length_fmap, length_seq|]. split.
  - intros r l. rewrite list_lookup_fmap. intros (r' & [-> _]%lookup_seq & ->)%fmap_Some. simpl.
    destruct (HM (Z.of_nat r)) as (_ & H2 & _). unfold part. rewrite <- results_outputs.
    destruct (visit (dom (M (Z.of_nat r)))) as [|k ks] eqn:E.
    + rewrite Hrest; [| |intros kv Hkv Hr].
      * rewrite (ready_fresh _ _ _ _ Hready); [done|]. unfold own_file.
        by rewrite (GoStrings.prefix_app "mr-out-"), orb_true_r.
      * done.
      * apply (inj (String.append _)), (inj pretty) in Hr. apply (not_elem_of_nil (Key kv)).
        rewrite <- E. rewrite E in *. apply H2. split; [by apply list_elem_of_fmap_2|done].
    + destruct (proj1 (H2 k)) as [(kv & -> & Hkv)%list_elem_of_fmap Hr]; [left|].
      pose proof (Hout kv Hkv) as Ho. simpl in Ho. rewrite Hr in Ho. rewrite Ho, E. done.
  - by apply (parts_outs mapf reducef nReduce inputs Hn Hfree).
Qed.

(** C28: Word count counts words.  A word-count job run by a worker that takes no more than ten
    seconds per task ends, and for every word of
    the input files the output file of the word's reducer has one line for each word of that
    reducer, with the number of its occurrences in all files.  This needs no condition on the
    texts: words never contain the separators of the intermediate files. *)
Theorem wc_job_counts_words table visit nReduce inputs fs now polls fuel :
  in_time now polls -> ready visit nReduce inputs fs -> inputs ≠ [] -> length inputs + Z.to_nat nReduce < fuel ->
  exists c' fs',
    Worker (Wc.Map table) Wc.Reduce visit fuel now polls (MakeCoordinator inputs.*1 nReduce) fs
      = Ok (c', fs', true) /\
    forall w, w ∈ all_words table inputs -> exists order,
      fs' !! ("mr-out-" +:+ pretty (bucket nReduce w))
        = Some (write_outputs ((fun k => (k, Itoa (occurrences table inputs k))) <$> order)) /\
      NoDup order /\
      forall k, k ∈ order <-> k ∈ all_words table inputs /\ bucket nReduce k = bucket nReduce w.
Proof.
  intros Hin Hready Hne Hfuel.
  destruct (job_spec (Wc.Map table) Wc.Reduce visit nReduce inputs fs now polls fuel Hin Hready Hne
    (wc_clean table inputs) Hfuel) as (c' & fs' & M & Hrun & _ & _ & HM & Hout & _).
  exists c', fs'. split; [done|]. intros w Hw.
  assert (mkKeyValue w "1" ∈ emitted (Wc.Map table) inputs) as Hkv
    by (rewrite wc_emitted; by apply (list_elem_of_fmap_2 (fun w => mkKeyValue w "1"))).
  destruct (HM (bucket nReduce w)) as (H1 & H2 & H3). exists (visit (dom (M (bucket nReduce w)))).
  assert (forall k, k ∈ Key <$> emitted (Wc.Map table) inputs <-> k ∈ all_words table inputs) as Hk.
  { intros k. by rewrite wc_emitted, <- list_fmap_compose, list_fmap_id. }
  split; [|split; [done|intros k; rewrite H2, Hk; done]].
  pose proof (Hout _ Hkv) as Ho. simpl in Ho. rewrite Ho, results_outputs. do 2 f_equal.
  apply list_fmap_ext. intros i k Hi%list_elem_of_lookup_2. f_equal. apply H2 in Hi as [_ Hb].
  unfold Wc.Reduce. rewrite (H3 k Hb). f_equal. apply wc_values.
Qed.

(** Two files that share a word. *)
Definition texts : list (string * string) := [("pg1", "a dog, a cat"); ("pg2", "The dog!")].
Definition texts_dir : FS := {[ "pg1" := "a dog, a cat"; "pg2" := "The dog!" ]}.

Lemma texts_ready : ready elements 2 texts texts_dir.
Proof.
  split; [by intros X|lia| |].
  - intros p [->|[->|[]%elem_of_nil]%elem_of_cons]%elem_of_cons; reflexivity.
  - intros f Hf. unfold texts_dir. rewrite lookup_insert_ne, lookup_singleton_ne; [done|..];
      intros <-; discriminate.
Qed.

Lemma wc_job_counts_words_witness :
  exists c' fs' order,
    Worker (Wc.Map (fun _ => false)) Wc.Reduce elements 5 (fun _ => 0%Z) (fun _ => [])
      (MakeCoordinator ["pg1"; "pg2"] 2) texts_dir = Ok (c', fs', true) /\
    fs' !! ("mr-out-" +:+ pretty (bucket 2 "dog"))
      = Some (write_outputs ((fun k => (k, Itoa (occurrences (fun _ => false) texts k))) <$> order)) /\
    "dog" ∈ order.
Proof.
  destruct (wc_job_counts_words (fun _ => false) elements 2 texts texts_dir (fun _ => 0%Z) (fun _ => []) 5)
    as (c' & fs' & H1 & H2).
  - intros j clock i []%elem_of_nil.
  - exact texts_ready.
  - discriminate.
  - simpl. lia.
  - destruct (H2 "dog") as (order & H3 & _ & H4); [vm_compute; right; left|].
    exists c', fs', order. split; [exact H1|]. split; [exact H3|].
    apply H4. split; [vm_compute; right; left|reflexivity].
Defined.

Lemma job_matches_mrsequential_witness :
  exists c' fsJ fsS parts outs,
    Worker (Wc.Map (fun _ => false)) Wc.Reduce elements 5 (fun _ => 0%Z) (fun _ => [])
      (MakeCoordinator ["pg1"; "pg2"] 2) texts_dir = Ok (c', fsJ, true) /\
    mrsequential (Wc.Map (fun _ => false)) Wc.Reduce sort_by_key texts_dir ["pg1"; "pg2"] = Ok fsS /\
    fsS !! "mr-out-0" = Some (write_outputs outs) /\ concat parts ≡ₚ outs.
Proof.
  destruct (job_matches_mrsequential (Wc.Map (fun _ => false)) Wc.Reduce elements sort_by_key 2 texts
    texts_dir (fun _ => 0%Z) (fun _ => []) 5) as (c' & fsJ & fsS & parts & outs & H1 & H2 & H3 & _ & _ & H4).
  - intros j clock i []%elem_of_nil.
  - exact texts_ready.
  - discriminate.
  - apply wc_clean.
  - simpl. lia.
  - exact wc_order_free.
  - exact sort_by_key_sorted.
  - exists c', fsJ, fsS, parts, outs. split; [exact H1|]. split; [exact H2|]. split; [exact H3|exact H4].
Defined.

(** The lines themselves. *)
Example texts_lines :
  match mrsequential (Wc.Map (fun _ => false)) Wc.Reduce sort_by_key texts_dir ["pg1"; "pg2"] with
  | Ok fs => fs !! "mr-out-0"
  | _ => None
  end = Some (write_outputs [("The", "1"); ("a", "2"); ("cat", "1"); ("dog", "2")]).
Proof. vm_compute. reflexivity. Qed.
