(* ===== verification/MrPrograms.v ===== *)
(** * The MapReduce programs

    The main functions [src/src/main/mrcoordinator.go], [src/src/main/mrworker.go] and
    [src/src/main/mrsequential.go] with their command lines and [loadPlugin].  The plugin library is a
    parameter: a file name is opened to a table of symbols.  The distributed programs, with any number of
    workers, write the same lines as the sequential one. *)

From S2P Require Import Prelude GoStrings Fnv MrCoordinator MrWorker.
From S2P Require Import MrShuffle MrJob MrCluster MrSequential MrApps.
From stdpp Require Import pretty.

(** ** Plugins *)

Definition MapFn : Type := string -> string -> list KeyValue.
Definition ReduceFn : Type := string -> list string -> string.

(** A symbol with its type. *)
Inductive symbol :=
| SymMap (f : MapFn)
| SymReduce (f : ReduceFn)
| SymOther.

Section Programs.
(** [plugin.Open] and [Lookup]. *)
Context (Open : string -> option (string -> option symbol)).

Definition loadPlugin (filename : string) : go (MapFn * ReduceFn) :=
  match Open filename with
  | None => Fatal ("cannot load plugin " +:+ filename)
  | Some Lookup =>
      match Lookup "Map" with
      | None => Fatal ("cannot find Map in " +:+ filename)
      | Some (SymMap mapf) =>
          match Lookup "Reduce" with
          | None => Fatal ("cannot find Reduce in " +:+ filename)
          | Some (SymReduce reducef) => Ok (mapf, reducef)
          | Some _ => Panic "interface conversion"
          end
      | Some _ => Panic "interface conversion"
      end
  end.

(** The copy of the function in [mrsequential.go]. *)
Definition mrsequential_loadPlugin (filename : string) : go (MapFn * ReduceFn) := loadPlugin filename.

(** ** Main functions; [args] is [os.Args] *)

(** What [mrworker] gives to [mr.Worker]. *)
Definition mrworker_main (args : list string) : go (MapFn * ReduceFn) :=
  if bool_decide (length args ≠ 2) then Fatal "exit status 1"
  else let! filename := slice_get args 1 in loadPlugin filename.

(** The coordinator that [mrcoordinator] then polls. *)
Definition mrcoordinator_main (args : list string) : go Coordinator :=
  if bool_decide (length args < 2) then Fatal "exit status 1"
  else Ok (MakeCoordinator (drop 1 args) 10).

Definition mrsequential_main (sort : list KeyValue -> list KeyValue) (fs : FS) (args : list string) :
    go FS :=
  if bool_decide (length args < 3) then Fatal "exit status 1"
  else
    let! filename := slice_get args 1 in
    let! app := mrsequential_loadPlugin filename in
    let '(mapf, reducef) := app in mrsequential mapf reducef sort fs (drop 2 args).
End Programs.

(** ** Claims *)

(** Finitely many choices. *)
Lemma seq_choice {A} (P : nat -> A -> Prop) (n : nat) :
  (forall i, i < n -> exists x, P i x) -> exists l, length l = n /\ forall i x, l !! i = Some x -> P i x.
Proof.
  induction n as [|n IH]; intros H; [by exists []|].
  destruct IH as (l & Hl & HP); [intros i Hi; apply H; lia|]. destruct (H n) as [x Hx]; [lia|].
  exists (l ++ [x]). split; [rewrite length_app; simpl; lia|].
  intros i y [Hi|[Hle Hi]]%lookup_app_Some; [by apply HP|].
  apply list_lookup_singleton_Some in Hi as [Hi ->]. by replace i with n by lia.
Qed.

(** C4: The distributed programs agree with the sequential one.  [mrcoordinator] is started with the
    input files (at least one) in a directory with none of the job's own files, any number of [mrworker]
    processes with a plugin whose reduce function does not depend on the order of its values and whose
    map function emits clean pairs (no colon, no line end, no Unicode white space at the outer ends);
    workers interleave, crash and are slow.  When the coordinator ends and no
    reduce task has timed out, [mrsequential] with the same plugin and files ends too, and the lines of
    its output are a permutation of all lines of the files [mr-out-0], ..., [mr-out-9] of the job. *)
Theorem programs_agree Open sort so mapf reducef inputs fs c0 s now c' fs' :
  mrworker_main Open ["mrworker"; so] = Ok (mapf, reducef) -> order_free reducef ->
  (forall l, sorted_by_key l (sort l)) ->
  ready elements 10 inputs fs -> inputs ≠ [] -> Forall clean (emitted mapf inputs) ->
  mrcoordinator_main ("mrcoordinator" :: inputs.*1) = Ok c0 ->
  rtc (cl_step mapf reducef) (mkcluster c0 fs []) s ->
  Done (cl_co s) (cl_fs s) now = (c', fs', true) -> no_lost (tasks c') ->
  exists fsS parts outs,
    mrsequential_main Open sort fs ("mrsequential" :: so :: inputs.*1) = Ok fsS /\
    fsS !! "mr-out-0" = Some (write_outputs outs) /\
    length parts = 10 /\
    (forall r l, parts !! r = Some l ->
       default "" (fs' !! ("mr-out-" +:+ pretty (Z.of_nat r))) = write_outputs l) /\
    concat parts ≡ₚ outs.
Proof.
  intros Hmain Hfree Hsort Hready Hne Hcl Hco Hrun HD Hlost.
  assert (0 < length inputs) as Hlen by (destruct inputs; [done|simpl; lia]).
  unfold mrcoordinator_main in Hco. rewrite bool_decide_eq_false_2 in Hco
    by (simpl; rewrite length_fmap; lia). injection Hco as <-.
  destruct (cluster_end mapf reducef 10 inputs fs Hready Hcl s now c' fs' Hrun HD Hlost) as [M HM].
  destruct (seq_choice (fun r order => reducer_output mapf reducef 10 inputs fs' (M (Z.of_nat r)) order
    (Z.of_nat r)) 10) as (orders & Hl & Ho); [by intros r _|].
  set (order (r : Z) := default [] (orders !! Z.to_nat r)).
  assert (forall r, (0 <= r < 10)%Z -> reducer_output mapf reducef 10 inputs fs' (M r) (order r) r) as Hr.
  { intros r Hr. destruct (lookup_lt_is_Some_2 orders (Z.to_nat r)) as [l E]; [lia|].
    unfold order. rewrite E. apply Ho in E. by rewrite Z2Nat.id in E by lia. }
  destruct (mrsequential_spec mapf reducef sort fs inputs (ready_inputs _ _ _ _ Hready) Hsort Hfree)
    as (outs & Hseq & Hnd & Houts).
  eexists. exists (part reducef M order <$> seq 0 10), outs.
  split; [|split; [apply lookup_insert_eq|split; [done|split]]].
  - unfold mrsequential_main, mrsequential_loadPlugin. rewrite bool_decide_eq_false_2 by (simpl; rewrite length_fmap; lia).
    unfold mrworker_main in Hmain. simpl in *. rewrite Hmain. simpl. by rewrite drop_0.
  - intros r l. rewrite list_lookup_fmap. intros (r' & [-> Hlt]%lookup_seq & ->)%fmap_Some. simpl.
    destruct (Hr (Z.of_nat r)) as (_ & _ & _ & E); [lia|]. rewrite E. unfold part.
    rewrite <- results_outputs. by destruct (order (Z.of_nat r)).
  - change 10 with (Z.to_nat 10). apply (parts_outs mapf reducef 10 inputs); [lia|done| |done|done].
    intros r Hlt. destruct (Hr r Hlt) as (O1 & O2 & O3 & _). by split_and!.
Qed.

(** The plugin [count.so], and the run of [MrCluster] with a slow worker. *)
Definition demo_Open (filename : string) : option (string -> option symbol) :=
  if bool_decide (filename = "count.so") then
    Some (fun name => if bool_decide (name = "Map") then Some (SymMap count_map)
                      else if bool_decide (name = "Reduce") then Some (SymReduce count_reduce) else None)
  else None.

Example loadPlugin_errors :
  mrworker_main demo_Open ["mrworker"] = Fatal "exit status 1" /\
  mrworker_main demo_Open ["mrworker"; "x.so"] = Fatal "cannot load plugin x.so".
Proof. split; reflexivity. Qed.

Lemma programs_agree_witness :
  exists fsS parts outs,
    mrsequential_main demo_Open sort_by_key dir0 ["mrsequential"; "count.so"; "pg1"] = Ok fsS /\
    fsS !! "mr-out-0" = Some (write_outputs outs) /\ length parts = 10 /\ concat parts ≡ₚ outs.
Proof.
  assert (Done (co6 false false) dir6 (fun _ => 22%Z)
    = (co6 false false, delete "m-out-1-7" dir6, true)) as HD by calc.
  destruct (programs_agree demo_Open sort_by_key "count.so" count_map count_reduce [("pg1", "x")] dir0
    (MakeCoordinator ["pg1"] 10) (mkcluster (co6 false false) dir6 [WExit; WExit]) (fun _ => 22%Z)
    (co6 false false) (delete "m-out-1-7" dir6) eq_refl) as (fsS & parts & outs & H1 & H2 & H3 & _ & H4);
    [intros k vs vs' E; unfold count_reduce; by rewrite E|exact sort_by_key_sorted|exact dir0_ready|discriminate
    |by repeat constructor|reflexivity|exact slow_run|exact HD|exact (co6_no_lost false false)|].
  exists fsS, parts, outs. split; [exact H1|]. split; [exact H2|]. by split.
Defined.
