(* ===== verification/MrTiming.v ===== *)
(** * The parallelism tests of MapReduce

    The plugins [src/src/mrapps/mtiming.go] and [src/src/mrapps/rtiming.go], whose [nparallel] finds
    out how many workers run at the same time: it leaves a file with its process id, counts the files
    of that kind whose process is alive, and removes its own.  Processes are interleaved at the single
    operations of [nparallel]; they start and exit at any time. *)

From S2P Require Import Prelude GoStrings GoUnicode MrWorker MrSequential MrApps.
From stdpp Require Import pretty.

(** ** [fmt.Sscanf] with one [%d] at the end of the format *)

Definition newline_char : Ascii.ascii := Ascii.ascii_of_nat 10.

(** [isSpace] of package [fmt]. *)
Definition fmt_space (r : Z) : bool :=
  in_range 9 r 13 || in_range 32 r 32 || in_range 133 r 133 || in_range 160 r 160
  || in_range 5760 r 5760 || in_range 8192 r 8202 || in_range 8232 r 8233 || in_range 8239 r 8239
  || in_range 8287 r 8287 || in_range 12288 r 12288.

(** [SkipSpace]; [None] for a newline, which is an error.  [skip] bytes of a rune are left. *)
Fixpoint SkipSpace (skip : nat) (s : string) : option string :=
  match s with
  | EmptyString => Some ""
  | String c s' =>
      match skip with
      | S skip => SkipSpace skip s'
      | 0 =>
          if bool_decide (c = newline_char) then None
          else
            let '(r, w) := DecodeRuneInString s in
            if fmt_space r then SkipSpace (w - 1) s' else Some s
      end
  end.

Definition digit (c : Ascii.ascii) : option Z :=
  let d := (byte c - 48)%Z in if in_range 0 d 9 then Some d else None.

(** The value of the digits at the front. *)
Fixpoint scan_digits (acc : Z) (s : string) : Z :=
  match s with
  | String c s' =>
      match digit c with
      | Some d => scan_digits (10 * acc + d) s'
      | None => acc
      end
  | EmptyString => acc
  end.

(** An optional sign and at least one digit, in the range of [int]. *)
Definition scan_sign (s : string) : Z * string :=
  match s with
  | String c s' =>
      if bool_decide (c = Ascii.ascii_of_nat 45) then ((-1)%Z, s')
      else if bool_decide (c = Ascii.ascii_of_nat 43) then (1%Z, s') else (1%Z, s)
  | EmptyString => (1%Z, s)
  end.

Definition scan_int (s : string) : option Z :=
  s ← SkipSpace 0 s;
  let '(sign, s) := scan_sign s in
  match s with
  | String c _ =>
      _ ← digit c;
      let z := (sign * scan_digits 0 s)%Z in
      if in_range (- 2 ^ 63) z (2 ^ 63 - 1) then Some z else None
  | EmptyString => None
  end.

(** The literal part of the format. *)
Fixpoint strip (lit s : string) : option string :=
  match lit, s with
  | EmptyString, _ => Some s
  | String a lit, String b s => if bool_decide (a = b) then strip lit s else None
  | String _ _, EmptyString => None
  end.

(** The number, when [n == 1 && err == nil]. *)
Definition Sscanf_d (lit s : string) : option Z := strip lit s ≫= scan_int.

(** ** [nparallel] *)

Definition worker_prefix (phase : string) : string := "mr-worker-" +:+ phase +:+ "-".

Definition myfilename (phase : string) (pid : Z) : string := worker_prefix phase +:+ pretty pid.

(** Where a call is: before it writes its file, before it reads the directory, at the loop with the
    names left and the count, after it has removed its file; or the process has ended. *)
Inductive np_state :=
| NpStart
| NpWritten
| NpCounting (names : list string) (ret : nat)
| NpReturned (ret : nat)
| NpGone.
#[export] Instance np_state_eq_dec : EqDecision np_state.
Proof. solve_decision. Defined.

(** The processes of the workers, each with the number of its call, and the others that exist. *)
Record tsys := mktsys {
  t_fs : FS;
  t_procs : gmap Z (nat * np_state);
  t_others : gset Z
}.

(** [syscall.Kill(xpid, 0)] succeeds. *)
Definition alive (s : tsys) (pid : Z) : bool :=
  bool_decide (pid ∈ t_others s) ||
  match t_procs s !! pid with
  | Some (_, st) => negb (bool_decide (st = NpGone))
  | None => false
  end.

(** Body of the loop over the names. *)
Definition count_name (phase : string) (s : tsys) (name : string) (ret : nat) : nat :=
  match Sscanf_d (worker_prefix phase) name with
  | Some xpid => if alive s xpid then S ret else ret
  | None => ret
  end.

Definition set_proc (s : tsys) (pid : Z) (k : nat) (st : np_state) : tsys :=
  mktsys (t_fs s) (<[pid := (k, st)]> (t_procs s)) (t_others s).

Definition max_names : nat := Z.to_nat 1000000.

(** Process ids are from 1 to [2^31 - 1]. *)
Definition pid_ok (pid : Z) : Prop := (0 < pid < 2 ^ 31)%Z.

(** The processes of [up] do not exit. *)
Inductive np_step (phase : string) (up : Z -> bool) : tsys -> tsys -> Prop :=
| np_new s pid :
    t_procs s !! pid = None -> pid_ok pid -> np_step phase up s (set_proc s pid 0 NpStart)
| np_call s pid k st :
    (** the next call of a worker, or of a new process with the id *)
    t_procs s !! pid = Some (k, st) -> st = NpGone \/ (exists ret, st = NpReturned ret) ->
    np_step phase up s (set_proc s pid (S k) NpStart)
| np_write s pid k :
    t_procs s !! pid = Some (k, NpStart) ->
    np_step phase up s
      (mktsys (<[myfilename phase pid := "x"]> (t_fs s)) (<[pid := (k, NpWritten)]> (t_procs s)) (t_others s))
| np_read s pid k order :
    t_procs s !! pid = Some (k, NpWritten) -> order ≡ₚ elements (dom (t_fs s)) ->
    np_step phase up s
      (set_proc s pid k (match take max_names order with [] => NpGone | names => NpCounting names 0 end))
| np_name s pid k name names ret :
    t_procs s !! pid = Some (k, NpCounting (name :: names) ret) ->
    np_step phase up s (set_proc s pid k (NpCounting names (count_name phase s name ret)))
| np_remove s pid k ret :
    t_procs s !! pid = Some (k, NpCounting [] ret) ->
    np_step phase up s
      (match Remove (t_fs s) (myfilename phase pid) with
       | Some fs' => mktsys fs' (<[pid := (k, NpReturned ret)]> (t_procs s)) (t_others s)
       | None => set_proc s pid k NpGone
       end)
| np_exit s pid k st :
    t_procs s !! pid = Some (k, st) -> up pid = false -> np_step phase up s (set_proc s pid k NpGone)
| np_files s fs' :
    (** other files *)
    (forall f, is_Some (Sscanf_d (worker_prefix phase) f) -> fs' !! f = t_fs s !! f) ->
    np_step phase up s (mktsys fs' (t_procs s) (t_others s))
| np_others s l : np_step phase up s (mktsys (t_fs s) (t_procs s) l).

Definition np_init (fs : FS) : tsys := mktsys fs ∅ ∅.

(** ** [mtiming.go] *)

Module Mtiming.
Definition nparallel : (Z -> bool) -> tsys -> tsys -> Prop := np_step "map".

(** [n] is the result of [nparallel("map")], [stamp] the time of the call as [%.1f]. *)
Definition Map (pid : Z) (stamp : string) (n : nat) (filename contents : string) : list KeyValue :=
  [mkKeyValue ("times-" +:+ pretty pid) stamp; mkKeyValue ("parallel-" +:+ pretty pid) (Itoa n)].

Definition Reduce (key : string) (values : list string) : string :=
  Join_strings (sort_Strings values) " ".
End Mtiming.

(** ** [rtiming.go] *)

Module Rtiming.
(** The plugin has its own copy of the function. *)
Definition nparallel : (Z -> bool) -> tsys -> tsys -> Prop := np_step "reduce".

Definition Map (filename contents : string) : list KeyValue :=
  (fun k => mkKeyValue k "1") <$> ["a"; "b"; "c"; "d"; "e"; "f"; "g"; "h"; "i"; "j"].

(** [n] is the result of [nparallel("reduce")]. *)
Definition Reduce (n : nat) (key : string) (values : list string) : string := Itoa n.
End Rtiming.

(** ** Scanning what was printed *)

Definition is_digit (b : Z) : bool := in_range 48 b 57.

Ltac split_digit d Hd :=
  assert (d ∈ N.of_nat <$> seq 0 10) as Hin
    by (apply list_elem_of_fmap; exists (N.to_nat d); split; [lia|apply elem_of_seq; lia]);
  revert Hin; simpl; set_unfold; intros Hin; by destruct_or!; subst.

Lemma digit_pretty d : (d < 10)%N -> digit (pretty_N_char d) = Some (Z.of_N d).
Proof. intros Hd. split_digit d Hd. Qed.

Lemma scan_pretty_go x s : scan_digits 0 (pretty_N_go x s) = scan_digits (Z.of_N x) s.
Proof.
  revert s. induction (N.lt_wf_0 x) as [x _ IH]; intros s.
  assert (x = 0 \/ 0 < x)%N as [->|Hx] by lia; [by rewrite pretty_N_go_0|].
  rewrite pretty_N_go_step, IH by (done || by apply N.div_lt). simpl.
  rewrite digit_pretty by by apply N.mod_lt. f_equal.
  pose proof (N.div_mod x 10). lia.
Qed.

Lemma pretty_go_head x s :
  (0 < x)%N -> exists d s', pretty_N_go x s = String (pretty_N_char d) s' /\ (d < 10)%N.
Proof.
  revert s. induction (N.lt_wf_0 x) as [x _ IH]; intros s Hx. rewrite pretty_N_go_step by done.
  destruct (N.eq_0_gt_0_cases (x `div` 10)) as [E|Hd].
  - rewrite E, pretty_N_go_0. eexists _, _. split; [done|]. by apply N.mod_lt.
  - apply IH; [by apply N.div_lt|done].
Qed.

Lemma digit_char d : (d < 10)%N ->
  byte (pretty_N_char d) = (48 + Z.of_N d)%Z /\ pretty_N_char d ≠ newline_char /\
  pretty_N_char d ≠ Ascii.ascii_of_nat 45 /\ pretty_N_char d ≠ Ascii.ascii_of_nat 43.
Proof. intros Hd. split_digit d Hd. Qed.

Lemma Sscanf_myfilename phase pid :
  pid_ok pid -> Sscanf_d (worker_prefix phase) (myfilename phase pid) = Some pid.
Proof.
  intros [H0 H1]. unfold Sscanf_d, myfilename.
  assert (forall lit s, strip lit (lit +:+ s) = Some s) as ->.
  { induction lit as [|c lit IH]; intros s; [done|]. rewrite append_cons. simpl.
    by rewrite bool_decide_eq_true_2. }
  simpl. destruct pid as [|p|p]; [lia| |lia].
  change (pretty (Z.pos p)) with (pretty_N_go (N.pos p) "").
  pose proof (scan_pretty_go (N.pos p) "") as Hs. simpl in Hs.
  destruct (pretty_go_head (N.pos p) "") as (d & s' & E & Hd); [lia|]. rewrite E in *.
  destruct (digit_char d Hd) as (Hb & Hn & Hm & Hp). pose proof (digit_pretty d Hd) as Hdig.
  unfold scan_int. simpl SkipSpace. rewrite bool_decide_eq_false_2 by done.
  unfold DecodeRuneInString. rewrite Hb. rewrite bool_decide_eq_true_2 by lia.
  assert (fmt_space (48 + Z.of_N d) = false) as ->.
  { unfold fmt_space, in_range. rewrite !bool_decide_eq_false_2 by lia. done. }
  simpl mbind. unfold scan_sign. rewrite !bool_decide_eq_false_2 by done. rewrite Hs, Hdig. simpl mbind.
  unfold in_range. by rewrite bool_decide_eq_true_2 by lia.
Qed.

(** ** Invariant *)

(** A call between writing and removing its file. *)
Definition in_call (st : np_state) : bool :=
  match st with NpWritten | NpCounting _ _ => true | _ => false end.

Definition runs (s : tsys) (pid : Z) : bool :=
  match t_procs s !! pid with
  | Some (_, st) => negb (bool_decide (st = NpGone))
  | None => false
  end.

Section Runs.
Context (phase : string) (up : Z -> bool).

Local Abbreviation scan := (Sscanf_d (worker_prefix phase)).
Local Abbreviation file := (myfilename phase).

Record np_inv (s : tsys) : Prop := {
  ni_pids : forall p k st, t_procs s !! p = Some (k, st) -> pid_ok p;
  ni_file : forall p k st, t_procs s !! p = Some (k, st) -> in_call st = true -> is_Some (t_fs s !! file p);
  ni_names : forall f q, is_Some (t_fs s !! f) -> scan f = Some q -> f = file q /\ pid_ok q;
  ni_up : forall q, pid_ok q -> up q = true -> is_Some (t_fs s !! file q) ->
    exists k st, t_procs s !! q = Some (k, st) /\ in_call st = true
}.

Lemma file_inj p q : file p = file q -> p = q.
Proof. intros H. by apply (inj (String.append (worker_prefix phase))), (inj pretty) in H. Qed.

(** A change of the state of one call, on its own file. *)
Lemma np_inv_proc s p k st k' st' fs' :
  np_inv s -> t_procs s !! p = Some (k, st) ->
  (forall f, f ≠ file p -> fs' !! f = t_fs s !! f) ->
  (is_Some (fs' !! file p) <-> if up p then in_call st' = true
     else in_call st' = true \/ is_Some (fs' !! file p)) ->
  np_inv (mktsys fs' (<[p := (k', st')]> (t_procs s)) (t_others s)).
Proof.
  intros [H1 H2 H3 H4] Hp Hf Hown. pose proof (Sscanf_myfilename phase p (H1 p k st Hp)) as Hscan.
  assert (in_call st' = true -> is_Some (fs' !! file p)) as Hin by (intros ?; apply Hown; destruct (up p); auto).
  split; simpl.
  - intros q j u [[<- _]|[_ Hq]]%lookup_insert_Some; eauto.
  - intros q j u [[<- [= <- <-]]|[Hne Hq]]%lookup_insert_Some Hc; [by apply Hin|].
    rewrite Hf; [by eapply H2|]. intros E. by apply Hne, file_inj.
  - intros f q Hs Hq. destruct (decide (f = file p)) as [->|Hne]; [|apply H3; [by rewrite <- Hf|done]].
    rewrite Hscan in Hq. injection Hq as <-. split; [done|]. by eapply H1.
  - intros q Hok Hq Hs. destruct (decide (p = q)) as [<-|Hne].
    + rewrite lookup_insert_eq. eexists _, _. split; [done|]. rewrite Hq in Hown. by apply Hown.
    + rewrite lookup_insert_ne by done. apply H4; [done|done|]. rewrite <- Hf; [done|].
      intros E. by apply Hne, file_inj.
Qed.

(** Such a change that keeps the directory. *)
Lemma np_inv_set s p k st k' st' :
  np_inv s -> t_procs s !! p = Some (k, st) ->
  (in_call st' = true -> in_call st = true) ->
  (in_call st = true -> up p = true -> in_call st' = true) ->
  np_inv (set_proc s p k' st').
Proof.
  intros Hinv Hp H1 H2. eapply np_inv_proc; [done|done|done|].
  destruct (up p) eqn:Hup; split; auto.
  - intros Hs. destruct (ni_up _ Hinv p (ni_pids _ Hinv p k st Hp) Hup Hs) as (j & u & Hj & Hu). simplify_eq. auto.
  - intros Hc. eapply (ni_file _ Hinv); eauto.
  - intros [Hc|?]; [|done]. eapply (ni_file _ Hinv); eauto.
Qed.

Lemma np_read_nonempty s p k order :
  np_inv s -> t_procs s !! p = Some (k, NpWritten) -> order ≡ₚ elements (dom (t_fs s)) ->
  exists name names, take max_names order = name :: names.
Proof.
  intros Hinv Hp Ho. destruct (ni_file _ Hinv p k NpWritten Hp eq_refl) as [x Hx].
  assert (file p ∈ order) as Hin by (rewrite Ho; apply elem_of_elements, elem_of_dom; eauto).
  destruct order as [|name order]; [by apply not_elem_of_nil in Hin|].
  assert (exists n, max_names = S n) as [n ->] by (exists (pred max_names); unfold max_names; lia).
  simpl. eauto.
Qed.

Lemma np_inv_step s s' : np_inv s -> np_step phase up s s' -> np_inv s'.
Proof.
  intros Hinv Hs. destruct Hs as [s p Hp Hok|s p k st Hp Hst|s p k Hp|s p k order Hp Ho|s p k n l ret Hp
    |s p k ret Hp|s p k st Hp Hup|s fs' Hf|s l].
  - destruct Hinv as [H1 H2 H3 H4]. split; simpl; try done.
    + intros q j u [[<- _]|[_ Hq]]%lookup_insert_Some; eauto.
    + intros q j u [[<- [= <- <-]]|[_ Hq]]%lookup_insert_Some; [done|eauto].
    + intros q Hok' Hq Hs. destruct (H4 q Hok' Hq Hs) as (j & u & Hj & Hu). exists j, u. split; [|done].
      rewrite lookup_insert_ne; [done|]. intros <-. congruence.
  - eapply np_inv_set; [done|done|done|]. by destruct Hst as [->|[ret ->]].
  - eapply np_inv_proc; [done|done| |].
    + intros f Hf. by rewrite lookup_insert_ne.
    + rewrite lookup_insert_eq. destruct (up p); naive_solver.
  - destruct (np_read_nonempty s p k order Hinv Hp Ho) as (name & names & ->). by eapply np_inv_set.
  - by eapply np_inv_set.
  - destruct (ni_file _ Hinv p k _ Hp eq_refl) as [x Hx]. unfold Remove. rewrite Hx.
    eapply np_inv_proc; [done|done| |].
    + intros f Hf. by rewrite lookup_delete_ne.
    + rewrite lookup_delete_eq. destruct (up p); naive_solver.
  - eapply np_inv_set; [done|done|done|]. congruence.
  - destruct Hinv as [H1 H2 H3 H4]. split; simpl; try done.
    + intros p k st Hp Hc. rewrite Hf; [by eapply H2|]. rewrite Sscanf_myfilename by eauto. done.
    + intros f q Hs Hq. apply H3; [|done]. rewrite <- Hf; [done|]. by rewrite Hq.
    + intros q Hok Hq Hs. apply H4; [done|done|]. by rewrite <- Hf by by rewrite Sscanf_myfilename.
  - by destruct Hinv as [H1 H2 H3 H4].
Qed.

(** A directory without files of the kind. *)
Definition no_files (fs : FS) : Prop := forall f, is_Some (fs !! f) -> scan f = None.

Lemma np_inv_run fs s : no_files fs -> rtc (np_step phase up) (np_init fs) s -> np_inv s.
Proof.
  intros Hfs. apply (rtc_invariant (np_step phase up) np_inv); [intros s1 s2; apply np_inv_step|].
  split; simpl; try done.
  - intros f q Hs Hq. by rewrite Hfs in Hq.
  - intros q Hok _ Hs%Hfs. by rewrite Sscanf_myfilename in Hs.
Qed.

(** ** What a call counts *)

(** The processes whose files are in the directory. *)
Definition with_file (s : tsys) : list Z := omap scan (elements (dom (t_fs s))).

(** The processes in a call. *)
Definition calling (s : tsys) : list Z :=
  (filter (fun p => in_call p.2.2 = true) (map_to_list (t_procs s))).*1.

Lemma elem_of_calling s q :
  q ∈ calling s <-> exists k st, t_procs s !! q = Some (k, st) /\ in_call st = true.
Proof.
  unfold calling. rewrite list_elem_of_fmap. setoid_rewrite list_elem_of_filter.
  setoid_rewrite elem_of_map_to_list'. split.
  - intros ([p [k st]] & -> & Hc & Hp). eauto.
  - intros (k & st & Hq & Hc). by exists (q, (k, st)).
Qed.

Lemma NoDup_calling s : NoDup (calling s).
Proof.
  unfold calling. eapply sublist_NoDup; [apply (NoDup_fst_map_to_list (t_procs s))|].
  apply fmap_sublist, sublist_filter.
Qed.

Lemma elem_of_with_file s q :
  np_inv s -> q ∈ with_file s -> is_Some (t_fs s !! file q) /\ pid_ok q.
Proof.
  intros Hinv (f & Hf%elem_of_elements%elem_of_dom & Hq)%list_elem_of_omap.
  destruct (ni_names _ Hinv f q Hf Hq) as [-> ?]. done.
Qed.

Lemma with_file_intro s q : pid_ok q -> is_Some (t_fs s !! file q) -> q ∈ with_file s.
Proof.
  intros Hok Hs. apply list_elem_of_omap. exists (file q). split; [|by apply Sscanf_myfilename].
  by apply elem_of_elements, elem_of_dom.
Qed.

Lemma NoDup_with_file s : np_inv s -> NoDup (with_file s).
Proof.
  intros Hinv. unfold with_file.
  assert (forall l, (forall f, f ∈ l -> is_Some (t_fs s !! f)) -> NoDup l -> NoDup (omap scan l)) as H.
  { induction l as [|f l IH]; intros Hl Hnd; [constructor|]. apply NoDup_cons in Hnd as [Hf Hnd]. simpl.
    assert (NoDup (omap scan l)) as Hn by (apply IH; [|done]; intros g Hg; apply Hl; by right).
    destruct (scan f) as [q|] eqn:E; [|done]. apply NoDup_cons. split; [|done].
    intros (g & Hg & Hq)%list_elem_of_omap. apply Hf.
    destruct (ni_names _ Hinv f q (Hl f ltac:(left)) E) as [-> _].
    by destruct (ni_names _ Hinv g q (Hl g ltac:(by right)) Hq) as [<- _]. }
  apply H; [|apply NoDup_elements]. intros f Hf. by apply elem_of_dom, elem_of_elements.
Qed.

Section Count.
Context (p : Z) (k : nat) (live : Z -> bool) (lo hi : nat).
Hypothesis Hlive : forall q, live q = true -> up q = true.

Definition to_come (l : list string) : nat := length (filter (fun q => live q = true) (omap scan l)).

Definition counting (s : tsys) : Prop :=
  (forall q, live q = true -> runs s q = true) /\
  exists k' st, t_procs s !! p = Some (k', st) /\
    (k < k' \/ k = k' /\
     match st with
     | NpCounting todo ret => lo <= ret + to_come todo /\ ret + length (omap scan todo) <= hi
     | NpReturned ret => lo <= ret <= hi
     | NpGone => True
     | _ => False
     end).

Lemma runs_set s q j st r :
  runs (set_proc s q j st) r = if decide (q = r) then negb (bool_decide (st = NpGone)) else runs s r.
Proof.
  unfold runs, set_proc. simpl. destruct (decide (q = r)) as [<-|Hne].
  - by rewrite lookup_insert_eq.
  - by rewrite lookup_insert_ne.
Qed.

Lemma count_name_spec s name todo ret :
  (forall q, live q = true -> runs s q = true) ->
  lo <= ret + to_come (name :: todo) -> ret + length (omap scan (name :: todo)) <= hi ->
  lo <= count_name phase s name ret + to_come todo /\
  count_name phase s name ret + length (omap scan todo) <= hi.
Proof.
  intros Hl. unfold count_name, to_come.
  change (omap scan (name :: todo)) with (match scan name with Some q => q :: omap scan todo | None => omap scan todo end).
  destruct (scan name) as [q|]; [|done]. rewrite filter_cons. destruct (decide (live q = true)) as [Hq|Hq].
  - unfold alive. rewrite orb_comm. fold (runs s q). rewrite (Hl q Hq). simpl. lia.
  - simpl. destruct (alive s q); lia.
Qed.

(** The states of the other calls do not matter. *)
Lemma counting_other s s' q j st :
  counting s -> p ≠ q -> t_procs s' = <[q := (j, st)]> (t_procs s) ->
  (live q = true -> st ≠ NpGone) -> counting s'.
Proof.
  intros [Hr (k' & st' & Hp & Hc)] Hne Hs Hg. split.
  - intros r Hlr. unfold runs. rewrite Hs. destruct (decide (q = r)) as [<-|Hqr].
    + rewrite lookup_insert_eq, bool_decide_eq_false_2; auto.
    + rewrite lookup_insert_ne by done. by apply Hr.
  - exists k', st'. by rewrite Hs, lookup_insert_ne.
Qed.

Lemma counting_own s s' j st :
  counting s -> t_procs s' = <[p := (j, st)]> (t_procs s) -> (live p = true -> st ≠ NpGone) ->
  (k < j \/ k = j /\
     match st with
     | NpCounting todo ret => lo <= ret + to_come todo /\ ret + length (omap scan todo) <= hi
     | NpReturned ret => lo <= ret <= hi
     | NpGone => True
     | _ => False
     end) -> counting s'.
Proof.
  intros [Hr _] Hs Hg Hc. split.
  - intros r Hlr. unfold runs. rewrite Hs. destruct (decide (p = r)) as [<-|Hqr].
    + rewrite lookup_insert_eq, bool_decide_eq_false_2; auto.
    + rewrite lookup_insert_ne by done. by apply Hr.
  - exists j, st. by rewrite Hs, lookup_insert_eq.
Qed.

Lemma counting_step s s' : np_inv s -> counting s -> np_step phase up s s' -> counting s'.
Proof.
  intros Hinv Hc Hs. pose proof Hc as [Hr (k' & st' & Hp' & Hk)].
  destruct Hs as [s q Hq Hok|s q j st Hq Hst|s q j Hq|s q j order Hq Ho|s q j n l ret Hq
    |s q j ret Hq|s q j st Hq Hup|s fs' Hf|s l]; try done.
  - eapply counting_other; [done| |done|done]. congruence.
  - destruct (decide (p = q)) as [<-|Hne]; [|by eapply counting_other].
    eapply counting_own; [done|done|done|]. simplify_eq. lia.
  - destruct (decide (p = q)) as [<-|Hne]; [|by eapply counting_other].
    eapply counting_own; [done|done|done|]. simplify_eq. naive_solver.
  - destruct (np_read_nonempty s q j order Hinv Hq Ho) as (name & names & E). rewrite E.
    destruct (decide (p = q)) as [<-|Hne]; [|by eapply counting_other].
    eapply counting_own; [done|done|done|]. simplify_eq. naive_solver.
  - destruct (decide (p = q)) as [<-|Hne]; [|by eapply counting_other].
    eapply counting_own; [done|done|done|]. simplify_eq.
    destruct Hk as [Hk|[-> [Hl1 Hl2]]]; [by left|]. right. split; [done|]. by apply count_name_spec.
  - destruct (ni_file _ Hinv q j _ Hq eq_refl) as [x Hx]. unfold Remove. rewrite Hx.
    destruct (decide (p = q)) as [<-|Hne]; [|by eapply counting_other].
    eapply counting_own; [done|done|done|]. simplify_eq.
    destruct Hk as [Hk|[-> [Hl1 Hl2]]]; [by left|]. right. unfold to_come in Hl1. simpl in *. lia.
  - assert (live q = true -> NpGone ≠ NpGone) as Hg by (intros E%Hlive; congruence).
    destruct (decide (p = q)) as [<-|Hne]; [|by eapply counting_other].
    eapply counting_own; [done|done|done|]. simplify_eq. naive_solver.
Qed.

Lemma counting_run s s' :
  np_inv s -> counting s -> rtc (np_step phase up) s s' -> counting s'.
Proof.
  intros Hi Hc Hr. apply (rtc_invariant (np_step phase up) (fun s => np_inv s /\ counting s)) in Hr;
    [tauto| |done]. intros s1 s2 [? ?] ?. split; [by eapply np_inv_step|by eapply counting_step].
Qed.
End Count.

(** The count of the call that reads the directory in the step from [s0] to [s1]. *)
Lemma nparallel_count s0 s1 s2 p k names ret :
  np_inv s0 -> t_procs s0 !! p = Some (k, NpWritten) -> np_step phase up s0 s1 ->
  t_procs s1 !! p = Some (k, NpCounting names 0) -> size (dom (t_fs s0)) <= max_names ->
  rtc (np_step phase up) s1 s2 -> t_procs s2 !! p = Some (k, NpReturned ret) ->
  length (filter (fun q => up q = true) (calling s0)) <= ret <= length (with_file s0).
Proof.
  intros Hinv Hp Hs Hp1 Hmax Hrun Hp2.
  assert (names ≡ₚ elements (dom (t_fs s0)) /\ s1 = set_proc s0 p k (NpCounting names 0)) as [Hn E1].
  { inversion Hs; subst; simpl in *; try congruence;
      try (match goal with H : <[?q := _]> _ !! _ = Some _ |- _ => destruct (decide (q = p)) as [->|Hne];
        [rewrite lookup_insert_eq in H; simplify_eq|rewrite lookup_insert_ne in H by done; congruence] end).
    - assert (take max_names order = order) as E.
      { apply take_ge. rewrite H0. exact Hmax. }
      rewrite E in *. destruct order; simplify_eq. done.
    - unfold Remove in *. destruct (t_fs s0 !! _); simpl in *;
        (destruct (decide (pid = p)) as [->|Hne];
          [rewrite lookup_insert_eq in Hp1; simplify_eq|rewrite lookup_insert_ne in Hp1 by done; congruence]). }
  set (live q := up q && runs s0 q).
  assert (counting p k live (to_come live names) (length (with_file s0)) s1) as Hc.
  { rewrite E1. split.
    - intros q [_ Hq]%andb_true_iff. rewrite runs_set. by destruct (decide (p = q)).
    - exists k, (NpCounting names 0). rewrite <- E1. split; [done|]. right. split; [done|].
      split; [lia|]. unfold with_file. by rewrite Hn. }
  apply (counting_run p k live) with (s' := s2) in Hc; [|by intros q [? _]%andb_true_iff
    |by eapply np_inv_step|done].
  destruct Hc as [_ (k' & st & Hst & Hc)]. simplify_eq. destruct Hc as [?|[_ [Hlo Hhi]]]; [lia|].
  split; [|done]. etrans; [|exact Hlo]. apply submseteq_length, NoDup_submseteq.
  - apply NoDup_filter, NoDup_calling.
  - intros q [Hup (j & st & Hq & Hcall)%elem_of_calling]%list_elem_of_filter.
    apply list_elem_of_filter. split.
    + unfold live, runs. rewrite Hup, Hq. simpl. by destruct st.
    + rewrite Hn. apply with_file_intro; [by eapply ni_pids|by eapply ni_file].
Qed.

(** When no worker exits, the files are those of the calls. *)
Lemma with_file_calling s :
  np_inv s -> (forall q, up q = true) -> length (with_file s) = length (calling s).
Proof.
  intros Hinv Hup. apply Permutation_length, NoDup_Permutation;
    [by apply NoDup_with_file|apply NoDup_calling|]. intros q. rewrite elem_of_calling. split.
  - intros [Hs Hok]%elem_of_with_file; [|done]. by apply (ni_up _ Hinv).
  - intros (k & st & Hq & Hc). apply with_file_intro; [by eapply ni_pids|by eapply ni_file].
Qed.
End Runs.

(** ** Claims *)

(** C40: [nparallel] counts the workers that run at the same time.  Workers make calls in any
    interleaving, exit at any time and may be followed by processes with the same id; no other files
    of the kind exist.  A call that reads the directory when the state is [s0], and returns, returns at
    least the number of calls of other and own workers then in progress whose processes do not exit, and
    at most the number of such files; when no worker exits it returns exactly the number of calls in
    progress. *)
Theorem nparallel_counts phase up fs s0 s1 s2 pid k names ret :
  no_files phase fs -> rtc (np_step phase up) (np_init fs) s0 ->
  t_procs s0 !! pid = Some (k, NpWritten) -> np_step phase up s0 s1 ->
  t_procs s1 !! pid = Some (k, NpCounting names 0) -> size (dom (t_fs s0)) <= max_names ->
  rtc (np_step phase up) s1 s2 -> t_procs s2 !! pid = Some (k, NpReturned ret) ->
  length (filter (fun q => up q = true) (calling s0)) <= ret <= length (with_file phase s0) /\
  ((forall q, up q = true) -> ret = length (calling s0)).
Proof.
  intros Hfs Hrun Hp Hs Hp1 Hmax Hrun' Hp2. pose proof (np_inv_run phase up fs s0 Hfs Hrun) as Hinv.
  pose proof (nparallel_count phase up s0 s1 s2 pid k names ret Hinv Hp Hs Hp1 Hmax Hrun' Hp2) as Hc.
  split; [done|]. intros Hup. rewrite (with_file_calling phase up) in Hc by done.
  rewrite list_filter_all in Hc by done. lia.
Qed.

(** Two workers: the second reads the directory while the first is in its call. *)
Definition two (fs : FS) (st1 st2 : np_state) : tsys :=
  mktsys fs {[ 1%Z := (0, st1); 2%Z := (0, st2) ]} ∅.

Definition two_files_fs : FS := {[ "mr-worker-map-1" := "x"; "mr-worker-map-2" := "x" ]}.
Definition two_names : list string := ["mr-worker-map-1"; "mr-worker-map-2"].
Definition stay (pid : Z) : bool := true.

Lemma np_step_to phase up s s' s'' : np_step phase up s s'' -> s' = s'' -> np_step phase up s s'.
Proof. by intros H ->. Qed.

Ltac np_does H := eapply np_step_to; [H; vm_compute; reflexivity|vm_compute; reflexivity].

Lemma two_start : rtc (np_step "map" stay) (np_init ∅) (two two_files_fs NpWritten NpWritten).
Proof.
  eapply rtc_l; [apply (np_new _ _ _ 1); [reflexivity|by compute]|].
  eapply rtc_l; [apply (np_new _ _ _ 2); [reflexivity|by compute]|].
  eapply rtc_l; [apply (np_write _ _ _ 1 0); vm_compute; reflexivity|].
  eapply rtc_l; [np_does ltac:(apply (np_write _ _ _ 2 0))|]. apply rtc_refl.
Qed.

Lemma two_read :
  np_step "map" stay (two two_files_fs NpWritten NpWritten)
    (two two_files_fs NpWritten (NpCounting two_names 0)).
Proof.
  eapply np_step_to; [apply (np_read _ _ _ 2 0 two_names); [reflexivity|]|vm_compute; reflexivity].
  apply NoDup_Permutation; [by repeat constructor; set_solver|apply NoDup_elements|].
  intros f. rewrite elem_of_elements, elem_of_dom. unfold two_files_fs, two_names. simpl.
  rewrite !elem_of_cons, lookup_insert_is_Some, lookup_singleton_is_Some. set_solver.
Qed.

Lemma two_return :
  rtc (np_step "map" stay) (two two_files_fs NpWritten (NpCounting two_names 0))
    (two {[ "mr-worker-map-1" := "x" ]} NpWritten (NpReturned 2)).
Proof.
  eapply rtc_l; [np_does ltac:(eapply (np_name _ _ _ 2 0))|].
  eapply rtc_l; [np_does ltac:(eapply (np_name _ _ _ 2 0))|].
  eapply rtc_l; [np_does ltac:(eapply (np_remove _ _ _ 2 0))|]. apply rtc_refl.
Qed.

Lemma nparallel_counts_witness : 2 = length (calling (two two_files_fs NpWritten NpWritten)).
Proof.
  eapply (nparallel_counts "map" stay ∅ (two two_files_fs NpWritten NpWritten)
    (two two_files_fs NpWritten (NpCounting two_names 0)) _ 2 0 two_names 2);
    [intros f; by rewrite lookup_empty; intros [? ?]|exact two_start|reflexivity|exact two_read|reflexivity
    | |exact two_return|reflexivity|reflexivity].
  unfold max_names. transitivity 2; [vm_compute; lia|lia].
Defined.
