(* ===== verification/OldMains.v ===== *)
(** * The commands of the old labs

    [main] of [src/src/main/diskvd.go], [lockc.go], [lockd.go], [pbc.go], [pbd.go] and [viewd.go].  The packages
    they call are not in the repository; their functions are arguments, which act on a world of any type.
    [diskvd] reads its options in a loop; the errors of [strconv] are ignored, as in the source. *)

From S2P Require Import Prelude GoStrings GoUnicode MrTiming.
From stdpp Require Import pretty.

(** ** [strconv] *)

Inductive num_err := NoErr | ErrSyntax | ErrRange.

(** The loop of [ParseUint(s, 10, 64)]; it stops at the first digit that does not fit, before a later syntax error. *)
Fixpoint uint_loop (n : Z) (s : string) : Z * num_err :=
  match s with
  | EmptyString => (n, NoErr)
  | String c s' =>
      match digit c with
      | None => (0%Z, ErrSyntax)
      | Some d =>
          if bool_decide ((2 ^ 64 - 1) / 10 + 1 <= n)%Z then ((2 ^ 64 - 1)%Z, ErrRange)
          else if bool_decide (2 ^ 64 - 1 < 10 * n + d)%Z then ((2 ^ 64 - 1)%Z, ErrRange)
          else uint_loop (10 * n + d) s'
      end
  end.

Definition ParseUint (s : string) : Z * num_err :=
  if bool_decide (s = "") then (0%Z, ErrSyntax) else uint_loop 0 s.

(** [ParseInt(s, 10, 64)]; on 64-bit machines [Atoi] is the same function. *)
Definition ParseInt (s : string) : Z * num_err :=
  if bool_decide (s = "") then (0%Z, ErrSyntax)
  else
    let '(sign, s) := scan_sign s in
    let '(un, err) := ParseUint s in
    match err with
    | ErrSyntax => (0%Z, ErrSyntax)
    | _ =>
        if bool_decide (sign = 1 /\ 2 ^ 63 <= un)%Z then ((2 ^ 63 - 1)%Z, ErrRange)
        else if bool_decide (sign = -1 /\ 2 ^ 63 < un)%Z then ((- 2 ^ 63)%Z, ErrRange)
        else ((sign * un)%Z, NoErr)
    end.

Definition Atoi : string -> Z * num_err := ParseInt.

(** The flag is the error. *)
Definition ParseBool (s : string) : bool * bool :=
  if bool_decide (s ∈ ["1"; "t"; "T"; "true"; "TRUE"; "True"]) then (true, false)
  else if bool_decide (s ∈ ["0"; "f"; "F"; "false"; "FALSE"; "False"]) then (false, false)
  else (false, true).

(** ** How a process ends *)

Inductive ending := Exited (code : Z) | Returned | Sleeps | Killed.

(** The world, what was printed, and the ending. *)
Definition result (W : Type) : Type := W * string * ending.

Definition nl : string := String (Ascii.ascii_of_nat 10) "".

(** ** [diskvd] *)

Record options := mkoptions {
  gid : Z;
  masters : list string;
  replicas : list string;
  me : Z;
  unreliable : bool;
  dir : string;
  restart : bool
}.

Definition no_options : options := mkoptions (-1) [] [] (-1) false "" false.

(** One turn of the loop; [None] is a call of [usage]. *)
Definition read_option (o : options) (a0 a1 : string) : option options :=
  let '(mkoptions g ms rs i u d r) := o in
  if bool_decide (a0 = "-g") then Some (mkoptions (ParseInt a1).1 ms rs i u d r)
  else if bool_decide (a0 = "-m") then Some (mkoptions g (ms ++ [a1]) rs i u d r)
  else if bool_decide (a0 = "-s") then Some (mkoptions g ms (rs ++ [a1]) i u d r)
  else if bool_decide (a0 = "-i") then Some (mkoptions g ms rs (Atoi a1).1 u d r)
  else if bool_decide (a0 = "-u") then Some (mkoptions g ms rs i (ParseBool a1).1 d r)
  else if bool_decide (a0 = "-d") then Some (mkoptions g ms rs i u a1 r)
  else if bool_decide (a0 = "-r") then Some (mkoptions g ms rs i u d (ParseBool a1).1)
  else None.

(** The loop over [os.Args] from 1 on, two at a time; a last argument alone is not looked at. *)
Fixpoint read_options (o : options) (args : list string) : option options :=
  match args with
  | a0 :: a1 :: args => o' ← read_option o a0 a1; read_options o' args
  | _ => Some o
  end.

Definition complete (o : options) : bool :=
  negb (bool_decide (gid o < 0)%Z || bool_decide (me o < 0)%Z || bool_decide (length (masters o) < 1)
    || bool_decide (Z.of_nat (length (replicas o)) <= me o)%Z || bool_decide (dir o = "")).

Module Diskvd.
Definition usage {W} (w : W) : result W :=
  (w, "Usage: diskvd -g gid -m master... -s server... -i my-index -d dir" +:+ nl, Exited 1).

Section Main.
Context {W SRV : Type}.
Context (StartServer : Z -> list string -> list string -> Z -> string -> bool -> W -> SRV * W).
Context (Setunreliable : SRV -> bool -> W -> W).

(** The part after the options: the server runs for ten minutes, then the process kills itself. *)
Definition serve (o : options) (w : W) : result W :=
  let '(srv, w) := StartServer (gid o) (masters o) (replicas o) (me o) (dir o) (restart o) w in
  (Setunreliable srv (unreliable o) w, "", Killed).

Definition main (args : list string) (w : W) : result W :=
  match read_options no_options (drop 1 args) with
  | None => usage w
  | Some o => if complete o then serve o w else usage w
  end.
End Main.
End Diskvd.

(** ** The lock service *)

Module Lockc.
Definition usage {W} (w : W) : result W := (w, "Usage: lockc -l|-u primaryport backupport lockname" +:+ nl, Exited 1).

Section Main.
Context {W CK : Type}.
Context (MakeClerk : string -> string -> W -> CK * W) (Lock Unlock : CK -> string -> W -> bool * W).

Definition reply (r : bool * W) : result W :=
  (r.2, "reply: " +:+ (if r.1 then "true" else "false") +:+ nl, Returned).

(** The clerk is made before the flag is looked at. *)
Definition main (args : list string) (w : W) : result W :=
  match args with
  | [_; flag; primary; backup; name] =>
      let '(ck, w) := MakeClerk primary backup w in
      if bool_decide (flag = "-l") then reply (Lock ck name w)
      else if bool_decide (flag = "-u") then reply (Unlock ck name w)
      else usage w
  | _ => usage w
  end.
End Main.
End Lockc.

Module Lockd.
Definition main {W} (StartServer : string -> string -> bool -> W -> W) (args : list string) (w : W) : result W :=
  match args with
  | [_; flag; primary; backup] =>
      if bool_decide (flag = "-p") then (StartServer primary backup true w, "", Sleeps)
      else if bool_decide (flag = "-b") then (StartServer primary backup false w, "", Sleeps)
      else (w, "Usage: lockd -p|-b primaryport backupport" +:+ nl, Exited 1)
  | _ => (w, "Usage: lockd -p|-b primaryport backupport" +:+ nl, Exited 1)
  end.
End Lockd.

(** ** The primary/backup service *)

Module Pbc.
Definition usage {W} (w : W) : result W :=
  (w, "Usage: pbc viewport key" +:+ nl +:+ "       pbc viewport key value" +:+ nl, Exited 1).

Section Main.
Context {W CK : Type}.
Context (MakeClerk : string -> string -> W -> CK * W).
Context (Get : CK -> string -> W -> string * W) (Put : CK -> string -> string -> W -> W).

Definition main (args : list string) (w : W) : result W :=
  match args with
  | [_; view; key] =>
      let '(ck, w) := MakeClerk view "" w in
      let '(v, w) := Get ck key w in (w, v +:+ nl, Returned)
  | [_; view; key; value] =>
      let '(ck, w) := MakeClerk view "" w in (Put ck key value w, "", Returned)
  | _ => usage w
  end.
End Main.
End Pbc.

Module Pbd.
Definition main {W} (StartServer : string -> string -> W -> W) (args : list string) (w : W) : result W :=
  match args with
  | [_; view; port] => (StartServer view port w, "", Sleeps)
  | _ => (w, "Usage: pbd viewport myport" +:+ nl, Exited 1)
  end.
End Pbd.

Module Viewd.
Definition main {W} (StartServer : string -> W -> W) (args : list string) (w : W) : result W :=
  match args with
  | [_; port] => (StartServer port w, "", Sleeps)
  | _ => (w, "Usage: viewd port" +:+ nl, Exited 1)
  end.
End Viewd.

(** ** Numbers that were printed *)

Lemma uint_loop_pretty x s :
  (Z.of_N x < 2 ^ 64)%Z -> uint_loop 0 (pretty_N_go x s) = uint_loop (Z.of_N x) s.
Proof.
  revert s. induction (N.lt_wf_0 x) as [x _ IH]; intros s Hx64.
  assert (x = 0 \/ 0 < x)%N as [->|Hx] by lia; [by rewrite pretty_N_go_0|].
  pose proof (N.div_mod x 10) as Hdm. pose proof (N.mod_lt x 10) as Hm. pose proof (N.div_lt x 10) as Hd.
  rewrite pretty_N_go_step, IH by (done || lia). cbn [uint_loop]. rewrite digit_pretty by by apply N.mod_lt.
  change ((2 ^ 64 - 1) / 10 + 1)%Z with 1844674407370955162%Z. change (2 ^ 64)%Z with 18446744073709551616%Z in *.
  assert (10 * Z.of_N (x `div` 10) + Z.of_N (x `mod` 10) = Z.of_N x)%Z as -> by lia.
  assert (Z.of_N (x `div` 10) < 1844674407370955162)%Z
    by (assert (x `div` 10 < 1844674407370955162)%N by (apply N.Div0.div_lt_upper_bound; lia); lia).
  by rewrite !bool_decide_eq_false_2 by lia.
Qed.

Lemma ParseUint_pretty p : (Z.pos p < 2 ^ 64)%Z -> ParseUint (pretty (N.pos p)) = (Z.pos p, NoErr).
Proof.
  intros Hp. unfold ParseUint. change (pretty (N.pos p)) with (pretty_N_go (N.pos p) "").
  rewrite bool_decide_eq_false_2; [by rewrite uint_loop_pretty|].
  destruct (pretty_go_head (N.pos p) "") as (d & s' & -> & _); [lia|done].
Qed.

(** [ParseInt] reads every [int64] that is printed. *)
Lemma ParseInt_pretty z : (- 2 ^ 63 <= z < 2 ^ 63)%Z -> ParseInt (pretty z) = (z, NoErr).
Proof.
  intros Hz. destruct z as [|p|p]; [done|..].
  - change (pretty (Z.pos p)) with (pretty (N.pos p)). pose proof (ParseUint_pretty p) as Hu.
    destruct (pretty_go_head (N.pos p) "") as (d & s' & E & Hd); [lia|].
    change (pretty (N.pos p)) with (pretty_N_go (N.pos p) "") in *. rewrite E in *.
    destruct (digit_char d Hd) as (_ & _ & Hm & Hpl).
    unfold ParseInt. rewrite bool_decide_eq_false_2 by done. unfold scan_sign.
    rewrite !bool_decide_eq_false_2 by done. rewrite Hu by lia.
    by rewrite !bool_decide_eq_false_2 by lia.
  - change (pretty (Z.neg p)) with (String (Ascii.ascii_of_nat 45) (pretty (N.pos p))).
    unfold ParseInt. rewrite bool_decide_eq_false_2 by done. unfold scan_sign. rewrite bool_decide_eq_true_2 by done.
    rewrite ParseUint_pretty by lia. by rewrite !bool_decide_eq_false_2 by lia.
Qed.

(** ** What the options mean *)

Definition flags : list string := ["-g"; "-m"; "-s"; "-i"; "-u"; "-d"; "-r"].

(** The values a flag is given, in order; all flags but [-m] and [-s] take the last. *)
Definition values (f : string) (ps : list (string * string)) : list string := (filter (fun p => p.1 = f) ps).*2.

Definition meant (o : options) (ps : list (string * string)) : options :=
  mkoptions
    (from_option (fun v => (ParseInt v).1) (gid o) (last (values "-g" ps)))
    (masters o ++ values "-m" ps) (replicas o ++ values "-s" ps)
    (from_option (fun v => (Atoi v).1) (me o) (last (values "-i" ps)))
    (from_option (fun v => (ParseBool v).1) (unreliable o) (last (values "-u" ps)))
    (default (dir o) (last (values "-d" ps)))
    (from_option (fun v => (ParseBool v).1) (restart o) (last (values "-r" ps))).

Definition flat (ps : list (string * string)) : list string := ps ≫= fun p => [p.1; p.2].

Lemma values_cons f p ps : values f (p :: ps) = if bool_decide (p.1 = f) then p.2 :: values f ps else values f ps.
Proof. unfold values. rewrite filter_cons. case_bool_decide; by case_decide. Qed.

(** A first value only counts while there is no later one. *)
Lemma from_last_cons {B} (f : string -> B) b v l : from_option f b (last (v :: l)) = from_option f (f v) (last l).
Proof. rewrite last_cons. by destruct (last l). Qed.

#[local] Arguments last : simpl never.

Lemma read_option_meant o o' a0 a1 ps :
  read_option o a0 a1 = Some o' -> meant o' ps = meant o ((a0, a1) :: ps).
Proof.
  intros H. unfold meant. rewrite !values_cons. cbn [fst snd]. destruct o as [g ms rs i u d r]. unfold read_option in H.
  assert (a0 ∈ flags) as Hf.
  { apply dec_stable. intros Hn. unfold flags in Hn. rewrite !not_elem_of_cons in Hn.
    destruct Hn as (N1 & N2 & N3 & N4 & N5 & N6 & N7 & _). by rewrite !bool_decide_eq_false_2 in H by done. }
  unfold flags in Hf. rewrite !elem_of_cons in Hf.
  destruct_or! Hf; subst; simpl in H; simplify_eq; simpl; rewrite <- ?app_assoc, ?from_last_cons; try done.
  by apply elem_of_nil in Hf.
Qed.

Lemma read_option_known o a0 a1 : is_Some (read_option o a0 a1) <-> a0 ∈ flags.
Proof.
  destruct o as [g ms rs i u d r]. unfold read_option, flags. rewrite !elem_of_cons, elem_of_nil.
  repeat (case_bool_decide; [naive_solver|]). split; [by intros [? ?]|naive_solver].
Qed.

(** The loop finds the options, whatever the order of the flags, and ignores a last argument alone. *)
Lemma read_options_meant o ps stray :
  length stray <= 1 ->
  read_options o (flat ps ++ stray) = if bool_decide (Forall (fun p => p.1 ∈ flags) ps) then Some (meant o ps) else None.
Proof.
  intros Hs. revert o. induction ps as [|[a0 a1] ps IH]; intros o.
  - rewrite bool_decide_eq_true_2 by constructor. unfold meant, values. simpl. rewrite !app_nil_r.
    destruct o. by destruct stray as [|x [|]]; simpl in *; [..|lia].
  - change (flat ((a0, a1) :: ps)) with (a0 :: a1 :: flat ps). cbn [app read_options].
    destruct (read_option o a0 a1) as [o'|] eqn:E.
    + simpl. rewrite IH, (read_option_meant _ _ _ _ _ E).
      assert (a0 ∈ flags) as Hf by (apply (read_option_known o a0 a1); eauto).
      apply (f_equal (fun b : bool => if b then _ else _)), bool_decide_ext. rewrite Forall_cons. naive_solver.
    + simpl. rewrite bool_decide_eq_false_2; [done|]. rewrite Forall_cons. intros [Hf _].
      apply (read_option_known o a0 a1) in Hf. rewrite E in Hf. by destruct Hf.
Qed.

(** A command line that states the options [o]. *)
Record states (o : options) (ps : list (string * string)) : Prop := {
  st_flags : Forall (fun p => p.1 ∈ flags) ps;
  st_gid : last (values "-g" ps) = Some (pretty (gid o));
  st_masters : values "-m" ps = masters o;
  st_replicas : values "-s" ps = replicas o;
  st_me : last (values "-i" ps) = Some (pretty (me o));
  st_unreliable : from_option (fun v => v = (if unreliable o then "true" else "false")) (unreliable o = false) (last (values "-u" ps));
  st_dir : last (values "-d" ps) = Some (dir o);
  st_restart : from_option (fun v => v = (if restart o then "true" else "false")) (restart o = false) (last (values "-r" ps))
}.

Lemma ParseBool_stated (b : bool) l :
  from_option (fun v => v = (if b then "true" else "false")) (b = false) (last l) ->
  from_option (fun v => (ParseBool v).1) false (last l) = b.
Proof. destruct (last l) as [v|]; simpl; [intros ->|by intros ->]. by destruct b. Qed.

(** C34: [diskvd] starts a server with the options its command line states, in whatever order the flags come, with
    repeated flags of which the last counts, with or without the two boolean flags, and with a last argument that
    has no value; the number of the group may be any that fits [int64], the index any of a replica.  With an
    unknown flag anywhere it prints its usage, exits with code 1 and starts nothing. *)
Theorem diskvd_reads_options {W SRV} (StartServer : Z -> list string -> list string -> Z -> string -> bool -> W -> SRV * W)
    (Setunreliable : SRV -> bool -> W -> W) (o : options) (ps : list (string * string)) prog stray (w : W) :
  length stray <= 1 ->
  (0 <= gid o < 2 ^ 63)%Z -> (0 <= me o < Z.of_nat (length (replicas o)))%Z -> (me o < 2 ^ 63)%Z ->
  masters o ≠ [] -> dir o ≠ "" ->
  (states o ps ->
    Diskvd.main StartServer Setunreliable (prog :: flat ps ++ stray) w = Diskvd.serve StartServer Setunreliable o w) /\
  (~ Forall (fun p => p.1 ∈ flags) ps ->
    Diskvd.main StartServer Setunreliable (prog :: flat ps ++ stray) w = Diskvd.usage w).
Proof.
  intros Hs Hg Hme Hme' Hms Hd. unfold Diskvd.main. change (drop 1 (prog :: flat ps ++ stray)) with (flat ps ++ stray).
  rewrite read_options_meant by done. split.
  - intros [Hf HG HM HR HI HU HD HT]. rewrite bool_decide_eq_true_2 by done.
    assert (meant no_options ps = o) as ->.
    { unfold meant. rewrite HG, HM, HR, HI, HD. simpl. unfold Atoi. rewrite !ParseInt_pretty by lia.
      rewrite (ParseBool_stated _ _ HU), (ParseBool_stated _ _ HT). by destruct o. }
    assert (complete o = true) as ->; [|done]. unfold complete.
    rewrite !bool_decide_eq_false_2; try done; try lia. destruct (masters o); simpl; [done|lia].
  - intros Hn. by rewrite bool_decide_eq_false_2.
Qed.

(** [diskvd -d /tmp -s a -m x -i 1 -u true -s b -g 7 -r], with a world that records the calls. *)
Lemma diskvd_reads_options_witness :
  Diskvd.main (fun g ms rs i d r w => (tt, (g, ms, rs, i, d, r) :: w)) (fun _ _ w => w)
    (("diskvd" :: flat [("-d", "/tmp"); ("-s", "a"); ("-m", "x"); ("-i", "1"); ("-u", "true"); ("-s", "b"); ("-g", "7")]) ++ ["-r"]) []
  = ([(7%Z, ["x"], ["a"; "b"], 1%Z, "/tmp", false)], "", Killed).
Proof.
  refine (proj1 (diskvd_reads_options (fun g ms rs i d r w => (tt, (g, ms, rs, i, d, r) :: w)) (fun _ _ w => w)
    (mkoptions 7 ["x"] ["a"; "b"] 1 true "/tmp" false)
    [("-d", "/tmp"); ("-s", "a"); ("-m", "x"); ("-i", "1"); ("-u", "true"); ("-s", "b"); ("-g", "7")] "diskvd" ["-r"] []
    _ _ _ _ _ _) _); simpl; try lia; try done.
  split; try (vm_compute; reflexivity). apply (bool_decide_unpack _). vm_compute. exact I.
Defined.
