(* ===== verification/Labgob.v ===== *)
(** * The checks of labgob

    Model of [src/src/labgob/labgob.go]: the wrapper around [encoding/gob] that complains about
    lower-case fields of the types it is given and about decoding into variables that already
    hold something.  The types of a program are the nodes of a finite graph, as [reflect.Type]
    presents them, and may be recursive.  [encoding/gob] itself is a parameter. *)

From S2P Require Import Prelude GoStrings GoUnicode.

(** ** Types *)

(** A [reflect.Type]: compared by identity. *)
Abbreviation tid := nat (only parsing).

Inductive elem_kind := Slice | Array | Ptr.

(** What [checkType] uses of [reflect.Type]. *)
Inductive rtype :=
| TStruct (name : string) (fields : list (string * tid))
| TElem (k : elem_kind) (elem : tid)
| TMap (key elem : tid)
| TOther (name : string).   (** basic kinds, interfaces, channels, functions *)

(** ** State: the variables of the package, and what was printed *)

Inductive message :=
| LowerCase (field type : string)
| NonDefault (what : string).

Record labgob := mklabgob {
  checked : gset tid;
  errorCount : Z;
  printed : list message
}.

Definition labgob_init : labgob := mklabgob ∅ 0 [].

Definition set_checked (s : labgob) (t : tid) : labgob :=
  mklabgob ({[t]} ∪ checked s) (errorCount s) (printed s).

Definition complain (s : labgob) (m : message) : labgob :=
  mklabgob (checked s) (errorCount s + 1) (printed s ++ [m]).

(** ** Operations on types *)

Section Types.
(** The Unicode table of upper-case letters above ASCII, and the types of the program. *)
Context (table : Z -> bool) (type_of : tid -> rtype).

(** [unicode.IsUpper] of the first rune. *)
Definition capital (name : string) : bool := IsUpper table (DecodeRuneInString name).1.

(** The loop over the fields; [rec] is the recursive call. *)
Fixpoint check_fields (rec : labgob -> tid -> option labgob) (tname : string)
    (fields : list (string * tid)) (s : labgob) : option labgob :=
  match fields with
  | [] => Some s
  | (name, t) :: fields =>
      let s := if capital name then s else complain s (LowerCase name tname) in
      match rec s t with
      | Some s => check_fields rec tname fields s
      | None => None
      end
  end.

(** [None] only when the fuel is too small. *)
Fixpoint checkType (fuel : nat) (s : labgob) (t : tid) : option labgob :=
  match fuel with
  | 0 => None
  | S fuel =>
      if bool_decide (t ∈ checked s) then Some s
      else
        let s := set_checked s t in
        match type_of t with
        | TStruct name fields => check_fields (checkType fuel) name fields s
        | TElem _ elem => checkType fuel s elem
        | TMap key elem =>
            match checkType fuel s elem with
            | Some s => checkType fuel s key
            | None => None
            end
        | TOther _ => Some s
        end
  end.

(** ** The graph of types *)

Definition children (t : tid) : list tid :=
  match type_of t with
  | TStruct _ fields => fields.*2
  | TElem _ elem => [elem]
  | TMap key elem => [elem; key]
  | TOther _ => []
  end.

Definition child (t u : tid) : Prop := u ∈ children t.

(** The number of lower-case fields. *)
Definition lower_fields (fields : list (string * tid)) : nat :=
  countb (fun f => negb (capital f.1)) fields.

Definition lower (t : tid) : nat :=
  match type_of t with TStruct _ fields => lower_fields fields | _ => 0 end.

Definition total (X : gset tid) : nat := sum_list_with lower (elements X).

Lemma total_union X Y : X ## Y -> total (X ∪ Y) = total X + total Y.
Proof.
  intros H. unfold total. rewrite (elements_disj_union X Y H).
  induction (elements X) as [|x l IH]; simpl; [done|]. lia.
Qed.

Lemma total_singleton t : total {[t]} = lower t.
Proof. unfold total. rewrite elements_singleton. simpl. lia. Qed.

(** ** The search *)

(** What checking the types [ts] does, [extra] complaints aside: it visits [ts] and what can be
    reached from them, completely, and complains once for every lower-case field it comes to. *)
Record visits_all (s : labgob) (ts : list tid) (extra : nat) (s' : labgob) : Prop := {
  va_grow : checked s ⊆ checked s';
  va_roots : forall t, t ∈ ts -> t ∈ checked s';
  va_reach : forall u, u ∈ checked s' -> u ∉ checked s -> exists t, t ∈ ts /\ rtc child t u;
  va_closed : forall u v, u ∈ checked s' -> u ∉ checked s -> child u v -> v ∈ checked s';
  va_count : errorCount s' =
    (errorCount s + Z.of_nat extra + Z.of_nat (total (checked s' ∖ checked s)))%Z
}.

Lemma visits_nil s : visits_all s [] 0 s.
Proof.
  split; [done|by intros t ?%not_elem_of_nil|done|done|].
  rewrite difference_diag_L. unfold total. rewrite elements_empty. simpl. lia.
Qed.

Lemma visits_app s1 s2 s3 ts1 ts2 e1 e2 :
  visits_all s1 ts1 e1 s2 -> visits_all s2 ts2 e2 s3 -> visits_all s1 (ts1 ++ ts2) (e1 + e2) s3.
Proof.
  intros [G1 R1 H1 C1 N1] [G2 R2 H2 C2 N2]. split.
  - set_solver.
  - intros t [Ht|Ht]%elem_of_app; [by apply G2, R1|by apply R2].
  - intros u Hu Hnu. destruct (decide (u ∈ checked s2)) as [Hd|Hd].
    + destruct (H1 u Hd Hnu) as (t & Ht & Hr). exists t. split; [|done]. apply elem_of_app. by left.
    + destruct (H2 u Hu Hd) as (t & Ht & Hr). exists t. split; [|done]. apply elem_of_app. by right.
  - intros u v Hu Hnu Hv. destruct (decide (u ∈ checked s2)) as [Hd|Hd]; [|by eapply C2].
    apply G2. by eapply C1.
  - rewrite N2, N1. replace (checked s3 ∖ checked s1)
      with ((checked s2 ∖ checked s1) ∪ (checked s3 ∖ checked s2)).
    + rewrite total_union by set_solver. lia.
    + apply set_eq. intros u. destruct (decide (u ∈ checked s2)); set_solver.
Qed.

(** A type already checked. *)
Lemma visits_old s t : t ∈ checked s -> visits_all s [t] 0 s.
Proof.
  intros Ht. destruct (visits_nil s) as [G R H C N]. split; try done.
  by intros u ->%list_elem_of_singleton.
Qed.

(** A new type, after its children. *)
Lemma visits_new s t s' :
  t ∉ checked s -> visits_all (set_checked s t) (children t) (lower t) s' -> visits_all s [t] 0 s'.
Proof.
  intros Ht [G R H C N]. simpl in *. split.
  - set_solver.
  - intros u ->%list_elem_of_singleton. set_solver.
  - intros u Hu Hnu. exists t. split; [by left|]. destruct (decide (u = t)) as [->|Hne]; [done|].
    destruct (H u Hu) as (v & Hv & Hr); [set_solver|]. by eapply rtc_l.
  - intros u v Hu Hnu Hv. destruct (decide (u = t)) as [->|Hne]; [by apply R|].
    eapply C; [done|set_solver|done].
  - rewrite N. replace (checked s' ∖ checked s)
      with ({[t]} ∪ (checked s' ∖ ({[t]} ∪ checked s))).
    + rewrite total_union, total_singleton by set_solver. lia.
    + apply set_eq. intros u. destruct (decide (u = t)); set_solver.
Qed.

(** A complaint before the rest. *)
Lemma visits_complain s m ts e s' : visits_all (complain s m) ts e s' -> visits_all s ts (S e) s'.
Proof. intros [G R H C N]. split; try done. rewrite N. simpl. lia. Qed.

Context (U : gset tid).
(** All types a type refers to are types of the program. *)
Context (HU : forall t u, t ∈ U -> child t u -> u ∈ U).

Lemma size_left (X Y : gset tid) : X ⊆ Y -> size (U ∖ Y) <= size (U ∖ X).
Proof. intros H. apply subseteq_size. set_solver. Qed.

Lemma check_fields_visits rec tname fields n s :
  (forall s t, t ∈ U -> size (U ∖ checked s) < n -> exists s', rec s t = Some s' /\ visits_all s [t] 0 s') ->
  Forall (fun f => f.2 ∈ U) fields -> size (U ∖ checked s) < n ->
  exists s', check_fields rec tname fields s = Some s' /\
    visits_all s fields.*2 (lower_fields fields) s'.
Proof.
  intros Hrec Hf. revert s. induction Hf as [|[name t] fields Ht _ IH]; intros s Hn.
  { exists s. split; [done|apply visits_nil]. }
  simpl. set (s1 := if capital name then s else complain s (LowerCase name tname)).
  assert (checked s1 = checked s) as Hc by (unfold s1; by destruct (capital name)).
  destruct (Hrec s1 t) as (s2 & -> & V1); [done|by rewrite Hc|].
  destruct (IH s2) as (s3 & Hs3 & V2).
  { eapply Nat.le_lt_trans; [|exact Hn]. rewrite <- Hc. apply size_left, (va_grow _ _ _ _ V1). }
  exists s3. split; [done|].
  assert (visits_all s1 (t :: fields.*2) (lower_fields fields) s3) as V
    by exact (visits_app _ _ _ [t] _ 0 _ V1 V2).
  unfold lower_fields. rewrite countb_cons. simpl. unfold s1 in V. destruct (capital name); simpl; [exact V|].
  by eapply visits_complain.
Qed.

(** The search ends within as many nested calls as there are types left, and visits everything. *)
Lemma checkType_visits fuel s t :
  t ∈ U -> size (U ∖ checked s) < fuel ->
  exists s', checkType fuel s t = Some s' /\ visits_all s [t] 0 s'.
Proof.
  revert s t. induction fuel as [|fuel IH]; intros s t Ht Hn; [lia|]. simpl.
  case_bool_decide as Hc. { exists s. split; [done|by apply visits_old]. }
  assert (size (U ∖ checked (set_checked s t)) < fuel) as Hn'.
  { simpl. assert (size (U ∖ ({[t]} ∪ checked s)) < size (U ∖ checked s)); [|lia].
    apply subset_size. set_solver. }
  pose proof (visits_new s t) as Hnew. unfold children, lower in Hnew.
  assert (forall u, u ∈ children t -> u ∈ U) as Hch by (intros u Hu; by eapply HU).
  unfold children in Hch. destruct (type_of t) as [name fields|k elem|key elem|name].
  - destruct (check_fields_visits (checkType fuel) name fields fuel (set_checked s t))
      as (s' & Hs & V); [| |done|exists s'; split; [done|by apply Hnew]].
    + intros s1 u Hu Hs1. by apply IH.
    + apply Forall_forall. intros [f u] Hf. apply Hch. by apply (list_elem_of_fmap_2 snd) in Hf.
  - destruct (IH (set_checked s t) elem) as (s' & Hs & V); [apply Hch; left|done|].
    exists s'. split; [done|by apply Hnew].
  - destruct (IH (set_checked s t) elem) as (s1 & -> & V1); [apply Hch; left|done|].
    destruct (IH s1 key) as (s2 & -> & V2).
    { apply Hch. right. left. }
    { eapply Nat.le_lt_trans; [|exact Hn']. apply size_left, (va_grow _ _ _ _ V1). }
    exists s2. split; [done|]. apply Hnew; [done|]. by apply (visits_app _ s1 _ [elem] [key] 0 0).
  - exists (set_checked s t). split; [done|]. apply Hnew; [done|apply visits_nil].
Qed.

(** Between calls the checked types are closed: everything they refer to is checked. *)
Definition closed (s : labgob) : Prop := forall t u, t ∈ checked s -> child t u -> u ∈ checked s.

Lemma checkType_top fuel s t :
  t ∈ U -> size U < fuel -> closed s ->
  exists s', checkType fuel s t = Some s' /\ closed s' /\
    (forall u, u ∈ checked s' <-> u ∈ checked s \/ rtc child t u) /\
    errorCount s' = (errorCount s + Z.of_nat (total (checked s' ∖ checked s)))%Z.
Proof.
  intros Ht Hn Hcl. destruct (checkType_visits fuel s t Ht) as (s' & Hs & [G R H C N]).
  { eapply Nat.le_lt_trans; [|exact Hn]. apply subseteq_size. set_solver. }
  assert (closed s') as Hcl'.
  { intros u v Hu Hv. destruct (decide (u ∈ checked s)) as [Hd|Hd]; [|by eapply C].
    apply G. by eapply Hcl. }
  exists s'. split; [done|]. split; [done|]. split; [|rewrite N; lia].
  intros u. split.
  - intros Hu. destruct (decide (u ∈ checked s)) as [|Hd]; [by left|right].
    destruct (H u Hu Hd) as (t' & ->%list_elem_of_singleton & Hr). done.
  - intros [Hu|Hr]; [by apply G|]. assert (t ∈ checked s') as Ht' by (apply R; left).
    clear -Hr Ht' Hcl'. induction Hr as [|x y z Hxy _ IH]; [done|]. apply IH. by eapply Hcl'.
Qed.
End Types.

(** ** Values *)

(** A float is its IEEE bit pattern. *)
Inductive basic :=
| BBool (b : bool)
| BInt (z : Z)              (** all signed and unsigned integer kinds *)
| BFloat (width bits : Z)
| BString (s : string).

(** A value as [reflect.Value] presents it; of a cyclic value the part [checkDefault1] comes to
    is a tree. *)
#[warnings="-register-all"] Inductive gval :=
| VStruct (tname : string) (fields : list (string * gval))
| VNil                      (** a nil pointer *)
| VPtr (p : gval)
| VBasic (tname : string) (b : basic)
| VOther.                   (** slices, arrays, maps, interfaces, channels, functions *)

(** [reflect.DeepEqual] with the zero value: both zeros of a float are equal. *)
Definition is_zero (b : basic) : bool :=
  match b with
  | BBool b => negb b
  | BInt z => bool_decide (z = 0%Z)
  | BFloat width bits => bool_decide (Z.land bits (Z.ones (width - 1)) = 0%Z)
  | BString s => bool_decide (s = "")
  end.

(** The warning is printed for the first error only. *)
Definition warn (s : labgob) (what : string) : labgob :=
  mklabgob (checked s) (errorCount s + 1)
    (if bool_decide (errorCount s < 1)%Z then printed s ++ [NonDefault what] else printed s).

Definition qualified (name field : string) : string :=
  if bool_decide (name = "") then field else name +:+ "." +:+ field.

Definition unexported_msg : string :=
  "reflect.Value.Interface: cannot return value obtained from unexported field or method".

Section Values.
Context (table : Z -> bool).

(** [levels] is [4 - depth].  [ro] marks values that were obtained through an unexported field:
    their [Interface] method panics. *)
Fixpoint checkDefault1 (levels : nat) (ro : bool) (s : labgob) (value : gval) (name : string) :
    go labgob :=
  match levels with
  | 0 => Ok s
  | S levels =>
      match value with
      | VStruct _ fields =>
          fold_go (fun s f =>
            checkDefault1 levels (ro || negb (capital table f.1)) s f.2 (qualified name f.1)) fields s
      | VNil => Ok s
      | VPtr value => checkDefault1 levels ro s value name
      | VBasic tname b =>
          if ro then Panic unexported_msg
          else if is_zero b then Ok s
          else Ok (warn s (if bool_decide (name = "") then tname else name))
      | VOther => Ok s
      end
  end.

(** The basic values within three levels: name, unexported or not, value. *)
Fixpoint leaves (levels : nat) (ro : bool) (value : gval) (name : string) :
    list (string * bool * basic) :=
  match levels with
  | 0 => []
  | S levels =>
      match value with
      | VStruct _ fields =>
          concat ((fun f => leaves levels (ro || negb (capital table f.1)) f.2 (qualified name f.1))
                    <$> fields)
      | VNil => []
      | VPtr value => leaves levels ro value name
      | VBasic tname b => [(if bool_decide (name = "") then tname else name, ro, b)]
      | VOther => []
      end
  end.

(** One leaf after the other. *)
Definition check_leaf (s : labgob) (l : string * bool * basic) : go labgob :=
  if l.1.2 then Panic unexported_msg else if is_zero l.2 then Ok s else Ok (warn s l.1.1).

Lemma fold_go_concat {A B C} (f : B -> C -> go B) (g : A -> list C) (l : list A) (b : B) :
  fold_go f (concat (g <$> l)) b = fold_go (fun b a => fold_go f (g a) b) l b.
Proof.
  revert b. induction l as [|a l IH]; intros b; [done|]. simpl. rewrite fold_go_app.
  destruct (fold_go f (g a) b); simpl; auto.
Qed.

Lemma checkDefault1_leaves levels ro s value name :
  checkDefault1 levels ro s value name = fold_go check_leaf (leaves levels ro value name) s.
Proof.
  revert ro s value name. induction levels as [|levels IH]; intros ro s value name; [done|].
  destruct value as [tname fields| |value|tname b|]; cbn [checkDefault1 leaves]; try done.
  - rewrite fold_go_concat. apply fold_go_ext. intros s' f _. apply IH.
  - unfold check_leaf. simpl. destruct ro; [done|]. by destruct (is_zero b).
Qed.

(** Non-zero leaves. *)
Definition nonzero (ls : list (string * bool * basic)) : nat := countb (fun l => negb (is_zero l.2)) ls.

Definition is_warning (m : message) : bool := match m with NonDefault _ => true | _ => false end.

(** Leaves that can be read are counted; at most one warning is ever printed. *)
Lemma check_leaves_ok ls s :
  Forall (fun l => l.1.2 = false) ls -> (0 <= errorCount s)%Z ->
  exists s', fold_go check_leaf ls s = Ok s' /\ checked s' = checked s /\
    errorCount s' = (errorCount s + Z.of_nat (nonzero ls))%Z /\
    printed s' = printed s ++
      (if bool_decide (errorCount s = 0%Z)
       then NonDefault <$> (match filter (fun l => is_zero l.2 = false) ls with
                            | l :: _ => [l.1.1] | [] => [] end) else []).
Proof.
  intros Hl. revert s. induction Hl as [|[[what ro] b] ls Hro _ IH]; intros s Hs.
  { exists s. simpl. split_and!; [done|done|unfold nonzero, countb; simpl; lia|].
    case_bool_decide; by rewrite app_nil_r. }
  simpl in Hro. subst ro. simpl. unfold check_leaf at 1. simpl. unfold nonzero.
  rewrite countb_cons. simpl. rewrite filter_cons. simpl. destruct (is_zero b) eqn:Ez; simpl.
  - apply IH. done.
  - edestruct (IH (warn s what)) as (s' & -> & Hc & He & Hp); [simpl; lia|].
    exists s'. split_and!; [done|done|rewrite He; simpl; unfold nonzero; lia|].
    rewrite Hp. simpl. rewrite (bool_decide_eq_false_2 (errorCount s + 1 = 0)%Z) by lia.
    rewrite app_nil_r. repeat case_bool_decide; try lia; by rewrite ?app_nil_r.
Qed.

Lemma check_leaves_panic ls s :
  Exists (fun l => l.1.2 = true) ls -> fold_go check_leaf ls s = Panic unexported_msg.
Proof.
  intros Hl. revert s. induction Hl as [[[what ro] b] ls Hro|[[what ro] b] ls _ IH]; intros s; simpl in *.
  - by subst.
  - unfold check_leaf at 1. simpl. destruct ro; [done|]. destruct (is_zero b); simpl; apply IH.
Qed.
End Values.

(** ** The package *)

(** An [interface{}] value: [None] is nil, otherwise its dynamic type and value. *)
Abbreviation any := (option (tid * gval)) (only parsing).

Section Package.
Context (table : Z -> bool) (type_of : tid -> rtype) (fuel : nat).
(** [encoding/gob]: what its calls return. *)
Context {R : Type} (gob_Encode gob_EncodeValue gob_Decode gob_Register : any -> R).
Context (gob_RegisterName : string -> any -> R).

(** [reflect.TypeOf(nil)] is nil, and its [Kind] panics.  [None]: out of fuel. *)
Definition checkValue (s : labgob) (value : any) : option (go labgob) :=
  match value with
  | None => Some (Panic "nil pointer dereference")
  | Some (t, _) => Ok <$> checkType table type_of fuel s t
  end.

Definition checkDefault (s : labgob) (value : any) : go labgob :=
  match value with
  | None => Ok s
  | Some (_, v) => checkDefault1 table 3 false s v ""
  end.

Definition Encode (s : labgob) (e : any) : option (go (labgob * R)) :=
  (fun r => let! s := r in Ok (s, gob_Encode e)) <$> checkValue s e.

(** On what [value.Interface()] returns. *)
Definition EncodeValue (s : labgob) (value : any) : option (go (labgob * R)) :=
  (fun r => let! s := r in Ok (s, gob_EncodeValue value)) <$> checkValue s value.

Definition Decode (s : labgob) (e : any) : option (go (labgob * R)) :=
  (fun r => let! s := r in let! s := checkDefault s e in Ok (s, gob_Decode e)) <$> checkValue s e.

Definition Register_ (s : labgob) (value : any) : option (go (labgob * R)) :=
  (fun r => let! s := r in Ok (s, gob_Register value)) <$> checkValue s value.

Definition RegisterName (s : labgob) (name : string) (value : any) : option (go (labgob * R)) :=
  (fun r => let! s := r in Ok (s, gob_RegisterName name value)) <$> checkValue s value.

(** A call of the package. *)
Inductive call :=
| CEncode (e : any)
| CDecode (e : any)
| CRegister (value : any)
| CEncodeValue (value : any)
| CRegisterName (name : string) (value : any).

Definition do_call (s : labgob) (c : call) : option (go (labgob * R)) :=
  match c with
  | CEncode e => Encode s e
  | CDecode e => Decode s e
  | CRegister value => Register_ s value
  | CEncodeValue value => EncodeValue s value
  | CRegisterName name value => RegisterName s name value
  end.

(** A sequence of calls that all return. *)
Inductive calls : labgob -> list call -> labgob -> Prop :=
| calls_nil s : calls s [] s
| calls_cons s c s1 r cs s2 : do_call s c = Some (Ok (s1, r)) -> calls s1 cs s2 -> calls s (c :: cs) s2.

Definition call_type (c : call) : option tid :=
  match c with
  | CEncode e | CDecode e | CRegister e | CEncodeValue e | CRegisterName _ e => fst <$> e
  end.

(** The basic values a call looks at. *)
Definition call_leaves (c : call) : list (string * bool * basic) :=
  match c with
  | CDecode (Some (_, v)) => leaves table 3 false v ""
  | _ => []
  end.

Context (U : gset tid) (HU : forall t u, t ∈ U -> child type_of t u -> u ∈ U).
Context (Hfuel : size U < fuel).

(** A call that does not fail: not nil, a type of the program, and nothing unexported to read. *)
Definition call_ok (c : call) : Prop :=
  (exists t, call_type c = Some t /\ t ∈ U) /\ Forall (fun l => l.1.2 = false) (call_leaves c).

Lemma do_call_spec s c :
  call_ok c -> closed type_of s -> (0 <= errorCount s)%Z ->
  exists s' r t, do_call s c = Some (Ok (s', r)) /\ call_type c = Some t /\ closed type_of s' /\
    (forall u, u ∈ checked s' <-> u ∈ checked s \/ rtc (child type_of) t u) /\
    errorCount s' = (errorCount s + Z.of_nat (total table type_of (checked s' ∖ checked s))
                     + Z.of_nat (nonzero (call_leaves c)))%Z.
Proof.
  intros [(t & Ht & HtU) Hl] Hcl He.
  destruct (checkType_top table type_of U HU fuel s t HtU Hfuel Hcl) as (s1 & Hs1 & Hcl1 & Hr & He1).
  assert (nonzero [] = 0) as Hz by done.
  destruct c as [[[t' v]|]|[[t' v]|]|[[t' v]|]|[[t' v]|]|name [[t' v]|]]; simpl in Ht; simplify_eq;
    assert (checkValue s (Some (t, v)) = Some (Ok s1)) as Hv by (simpl; by rewrite Hs1).
  1, 3, 4, 5: exists s1; eexists; exists t; unfold do_call, Encode, Register_, EncodeValue, RegisterName;
    rewrite Hv; simpl;
    split_and!; [reflexivity|done|done|done|rewrite He1, Hz; lia].
  destruct (check_leaves_ok (leaves table 3 false v "") s1 Hl) as (s2 & Hs2 & Hc2 & He2 & _); [lia|].
  exists s2. eexists. exists t. unfold do_call, Decode. rewrite Hv.
  cbn -[checkDefault1 leaves]. rewrite checkDefault1_leaves, Hs2. cbn -[leaves]. split_and!; [reflexivity|done|..].
  - intros u w. rewrite Hc2. apply Hcl1.
  - intros u. rewrite Hc2. apply Hr.
  - cbn [call_leaves]. rewrite He2, He1, Hc2. reflexivity.
Qed.

(** The state after calls: what was reached, and what was complained about. *)
Lemma calls_spec cs s :
  Forall call_ok cs -> closed type_of s -> (0 <= errorCount s)%Z ->
  exists s', calls s cs s' /\
    (forall u, u ∈ checked s' <->
       u ∈ checked s \/ exists c t, c ∈ cs /\ call_type c = Some t /\ rtc (child type_of) t u) /\
    errorCount s' = (errorCount s + Z.of_nat (total table type_of (checked s' ∖ checked s))
      + Z.of_nat (sum_list_with (fun c => nonzero (call_leaves c)) cs))%Z.
Proof.
  intros Hcs. revert s. induction Hcs as [|c cs Hc _ IH]; intros s Hcl He.
  { exists s. split; [constructor|]. split.
    - intros u. split; [by left|]. intros [?|(c & t & []%not_elem_of_nil & _)]. done.
    - rewrite difference_diag_L. unfold total. rewrite elements_empty. simpl. lia. }
  destruct (do_call_spec s c Hc Hcl He) as (s1 & r & t & Hd & Ht & Hcl1 & Hr & He1).
  destruct (IH s1 Hcl1) as (s2 & Hs2 & Hr2 & He2); [lia|].
  exists s2. split; [by econstructor|]. split.
  - intros u. rewrite Hr2, Hr. setoid_rewrite elem_of_cons. naive_solver.
  - rewrite He2, He1. simpl. assert (checked s ⊆ checked s1) as H1 by (intros u; rewrite Hr; by left).
    assert (checked s1 ⊆ checked s2) as H2 by (intros u; rewrite Hr2; by left).
    replace (checked s2 ∖ checked s) with ((checked s1 ∖ checked s) ∪ (checked s2 ∖ checked s1)).
    + rewrite total_union by set_solver. lia.
    + apply set_eq. intros u. destruct (decide (u ∈ checked s1)); set_solver.
Qed.

Lemma closed_init : closed type_of labgob_init.
Proof. intros t u Ht. by apply not_elem_of_empty in Ht. Qed.
End Package.

(** ** Examples *)

(** The types of the tests: [T4] with a lower-case field, [map[*T4]int] and [[]map[*T4]int], and a
    recursive list type. *)
Definition test_types (t : tid) : rtype :=
  match t with
  | 0 => TStruct "T4" [("Yes", 1); ("no", 1)]
  | 1 => TOther "int"
  | 2 => TElem Ptr 0
  | 3 => TMap 2 1
  | 4 => TElem Slice 3
  | 5 => TStruct "node" [("Next", 6); ("val", 1)]
  | 6 => TElem Ptr 5
  | _ => TOther ""
  end.
Definition test_universe : gset tid := list_to_set (seq 0 7).

Lemma test_universe_closed t u : t ∈ test_universe -> child test_types t u -> u ∈ test_universe.
Proof.
  unfold test_universe. rewrite !elem_of_list_to_set, !elem_of_seq. unfold child, children.
  intros Ht Hu. do 7 (destruct t as [|t]; [set_solver by lia|]). lia.
Qed.

(** A lower-case field is reported once, although its type is checked twice, and the check of a
    recursive type ends. *)
Example checkType_ex :
  (s ← checkType (fun _ => false) test_types 8 labgob_init 4;
   s ← checkType (fun _ => false) test_types 8 s 3;
   checkType (fun _ => false) test_types 8 s 6) =
  Some (mklabgob (list_to_set [0; 1; 2; 3; 4; 5; 6]) 2 [LowerCase "no" "T4"; LowerCase "val" "node"]).
Proof. vm_compute. reflexivity. Qed.

(** ** Claims *)

(** C36: [labgob] complains about every lower-case field exactly once.  After any sequence of
    calls of [Encode], [EncodeValue], [Decode], [Register] and [RegisterName], with values of types of the program and without
    an unexported field to look at, the checked types are exactly those that can be reached from
    the types of the arguments, recursive types included, and the error count is the number of
    lower-case fields of these types, plus the number of non-default values that were decoded
    into: it does not depend on the order of the calls or on how often a type occurs.  All calls
    return, with fuel for every type of the program. *)
Theorem labgob_counts_once {R : Type}
    (gob_Encode gob_EncodeValue gob_Decode gob_Register : option (tid * gval) -> R) gob_RegisterName table type_of U fuel cs :
  (forall t u, t ∈ U -> child type_of t u -> u ∈ U) -> size U < fuel ->
  Forall (call_ok table U) cs ->
  exists s, calls table type_of fuel gob_Encode gob_EncodeValue gob_Decode gob_Register gob_RegisterName
      labgob_init cs s /\
    (forall u, u ∈ checked s <->
       exists c t, c ∈ cs /\ call_type c = Some t /\ rtc (child type_of) t u) /\
    errorCount s = Z.of_nat (total table type_of (checked s)
                             + sum_list_with (fun c => nonzero (call_leaves table c)) cs).
Proof.
  intros HU Hfuel Hcs.
  destruct (calls_spec table type_of fuel gob_Encode gob_EncodeValue gob_Decode gob_Register gob_RegisterName U HU Hfuel cs labgob_init)
    as (s & Hs & Hr & He); [done|apply closed_init|done|].
  exists s. split; [done|]. split.
  - intros u. rewrite Hr. simpl. split; [|by right]. intros [Hu|?]; [|done].
    by apply not_elem_of_empty in Hu.
  - rewrite He. simpl. rewrite difference_empty_L. lia.
Qed.

(** The type [T4] is reached through a slice, a map and a pointer. *)
Lemma labgob_counts_once_witness :
  exists s, calls (fun _ => false) test_types 8 (fun _ => tt) (fun _ => tt) (fun _ => tt) (fun _ => tt)
      (fun _ _ => tt) labgob_init
      [CEncode (Some (4, VOther)); CDecode (Some (6, VNil)); CEncode (Some (4, VOther))] s /\
    0 ∈ checked s /\ errorCount s = Z.of_nat (total (fun _ => false) test_types (checked s) + 0).
Proof.
  destruct (labgob_counts_once (fun _ => tt) (fun _ => tt) (fun _ => tt) (fun _ => tt) (fun _ _ => tt) (fun _ => false) test_types
    test_universe 8 [CEncode (Some (4, VOther)); CDecode (Some (6, VNil)); CEncode (Some (4, VOther))])
    as (s & Hs & Hr & He).
  - exact test_universe_closed.
  - vm_compute. lia.
  - assert (forall c t, call_type c = Some t -> t ∈ test_universe ->
      call_leaves (fun _ => false) c = [] -> call_ok (fun _ => false) test_universe c) as H.
    { intros c t H1 H2 H3. split; [by exists t|]. rewrite H3. constructor. }
    constructor; [|constructor; [|constructor; [|constructor]]].
    + apply (H _ 4); [reflexivity|vm_compute; reflexivity|reflexivity].
    + apply (H _ 6); [reflexivity|vm_compute; reflexivity|reflexivity].
    + apply (H _ 4); [reflexivity|vm_compute; reflexivity|reflexivity].
  - exists s. split; [exact Hs|]. split; [|exact He]. apply Hr.
    exists (CEncode (Some (4, VOther))), 4. split; [left|]. split; [reflexivity|].
    apply (rtc_l _ 4 3); [left|]. apply (rtc_l _ 3 2); [right; left|].
    apply (rtc_l _ 2 0); [left|]. apply rtc_refl.
Defined.

(** What [Decode] does with its target.  A nil target panics.  Otherwise the type is checked,
    and then the basic values within three levels of pointers and structs: if one of them lies in
    an unexported field, [Decode] panics and decodes nothing; if none does, it adds the number of
    those that are not zero to the error count, decodes, and prints a warning only when the first
    error of the process is among them, naming the first of them. *)
Theorem Decode_outcome {R : Type} (gob_Decode : option (tid * gval) -> R) table type_of fuel
    (U : gset tid) s t v :
  (forall t u, t ∈ U -> child type_of t u -> u ∈ U) -> size U < fuel -> t ∈ U ->
  closed type_of s -> (0 <= errorCount s)%Z ->
  let ls := leaves table 3 false v "" in
  Decode table type_of fuel gob_Decode s None = Some (Panic "nil pointer dereference") /\
  exists s1, checkType table type_of fuel s t = Some s1 /\
    (Exists (fun l => l.1.2 = true) ls ->
       Decode table type_of fuel gob_Decode s (Some (t, v)) = Some (Panic unexported_msg)) /\
    (Forall (fun l => l.1.2 = false) ls ->
       exists s2, Decode table type_of fuel gob_Decode s (Some (t, v))
           = Some (Ok (s2, gob_Decode (Some (t, v)))) /\
         errorCount s2 = (errorCount s1 + Z.of_nat (nonzero ls))%Z /\
         printed s2 = printed s1 ++
           (if bool_decide (errorCount s1 = 0%Z)
            then NonDefault <$> (match filter (fun l => is_zero l.2 = false) ls with
                                 | l :: _ => [l.1.1] | [] => [] end) else [])).
Proof.
  intros HU Hfuel Ht Hcl He ls. split; [done|].
  destruct (checkType_top table type_of U HU fuel s t Ht Hfuel Hcl) as (s1 & Hs1 & _ & _ & He1).
  exists s1. split; [done|]. unfold Decode, checkValue, checkDefault. rewrite Hs1.
  cbn -[checkDefault1 leaves]. rewrite checkDefault1_leaves. fold ls. split.
  - intros Hex. by rewrite check_leaves_panic.
  - intros Hall. destruct (check_leaves_ok ls s1 Hall) as (s2 & -> & _ & He2 & Hp); [lia|].
    exists s2. done.
Qed.

(** [Decode(&v)] for a [T4] with a lower-case field [no]. *)
Lemma Decode_outcome_witness :
  Decode (fun _ => false) test_types 8 (fun _ => tt) labgob_init
    (Some (2, VPtr (VStruct "T4" [("Yes", VBasic "int" (BInt 0)); ("no", VBasic "int" (BInt 0))])))
  = Some (Panic unexported_msg).
Proof.
  destruct (Decode_outcome (fun _ => tt) (fun _ => false) test_types 8 test_universe labgob_init 2
    (VPtr (VStruct "T4" [("Yes", VBasic "int" (BInt 0)); ("no", VBasic "int" (BInt 0))])))
    as (_ & s1 & _ & H & _).
  - exact test_universe_closed.
  - vm_compute. lia.
  - vm_compute. reflexivity.
  - apply closed_init.
  - simpl. lia.
  - apply H. simpl. right. left. reflexivity.
Defined.

(** Values below the third level are not looked at: a field of a struct inside the reply. *)
Example nested_value_missed :
  checkDefault (fun _ => false) labgob_init
    (Some (0, VPtr (VStruct "Reply" [("Inner", VStruct "In" [("X", VBasic "int" (BInt 99))])])))
  = Ok labgob_init.
Proof. reflexivity. Qed.

(** ** The types sent over RPC *)

Definition type_string : tid := 0.
Definition type_int : tid := 1.
Definition type_Tversion : tid := 2.
Definition type_Err : tid := 3.
Definition type_bytes : tid := 4.
Definition type_Tshid : tid := 23.
Definition type_Tnum : tid := 24.

(** [kvsrv1/rpc/rpc.go], [shardkv1/shardgrp/shardrpc/shardrpc.go], [kvraft1/rsm] and
    [raft1/raft.go]. *)
Definition rpc_types (t : tid) : rtype :=
  match t with
  | 0 => TOther "string"
  | 1 => TOther "int"
  | 2 => TOther "Tversion"
  | 3 => TOther "Err"
  | 4 => TElem Slice 5
  | 5 => TOther "uint8"
  | 6 => TStruct "PutArgs" [("Key", type_string); ("Value", type_string); ("Version", type_Tversion)]
  | 7 => TStruct "PutReply" [("Err", type_Err)]
  | 8 => TStruct "GetArgs" [("Key", type_string)]
  | 9 => TStruct "GetReply" [("Value", type_string); ("Version", type_Tversion); ("Err", type_Err)]
  | 10 => TStruct "PutArgs" [("Key", type_string); ("Value", type_string);
                             ("Version", type_Tversion); ("Num", type_Tnum)]
  | 11 => TStruct "GetArgs" [("Key", type_string); ("Num", type_Tnum)]
  | 12 => TStruct "FreezeArgs" [("Shard", type_Tshid); ("Num", type_Tnum)]
  | 13 => TStruct "FreezeReply" [("State", type_bytes); ("Num", type_Tnum); ("Err", type_Err)]
  | 14 => TStruct "InstallShardArgs" [("Shard", type_Tshid); ("State", type_bytes); ("Num", type_Tnum)]
  | 15 => TStruct "InstallShardReply" [("Err", type_Err)]
  | 16 => TStruct "DeleteShardArgs" [("Shard", type_Tshid); ("Num", type_Tnum)]
  | 17 => TStruct "DeleteShardReply" [("Err", type_Err)]
  | 18 => TStruct "Op" []
  | 19 => TStruct "Inc" []
  | 20 => TStruct "Rep" [("N", type_int)]
  | 21 => TStruct "RequestVoteArgs" []
  | 22 => TStruct "RequestVoteReply" []
  | 23 => TOther "Tshid"
  | 24 => TOther "Tnum"
  | _ => TOther ""
  end.

(** The types sent over RPC pass the check: registering all of them gives no complaint. *)
Example rpc_types_capital table :
  match foldl (fun r t => s ← r; checkType table rpc_types 26 s t) (Some labgob_init) (seq 0 25) with
  | Some s => errorCount s = 0%Z /\ printed s = [] /\ checked s = list_to_set (seq 0 25)
  | None => False
  end.
Proof. vm_compute. auto. Qed.
