(* ===== verification/Labrpc.v ===== *)
(** * The simulated RPC network

    Model of [src/src/labrpc/labrpc.go].  Names of ends and servers are strings, messages are the
    encoded byte strings; a server object is an address in a heap, because [processReq] compares
    servers by identity.  A service's methods are functions of the application's state.
    [processReq] is a step relation: the goroutine that waits for the reply, the goroutine that
    runs the handler, and any change other goroutines make to the network in between. *)

From S2P Require Import Prelude GoStrings.

(** ** Data *)

Record reqMsg := mkreqMsg { endname : string; svcMeth : string; args : string }.

Record replyMsg := mkreplyMsg { ok : bool; reply : string }.
#[export] Instance replyMsg_eq_dec : EqDecision replyMsg.
Proof. solve_decision. Defined.

(** Addresses of [Server] objects. *)
Abbreviation addr := nat (only parsing).

Record Network := mkNetwork {
  reliable : bool;
  longDelays : bool;
  longReordering : bool;
  ends : gset string;
  enabled : gmap string bool;
  servers : gmap string (option addr);
  connections : gmap string (option string);
  done_closed : bool;
  net_count : Z;
  net_bytes : Z
}.

Section App.
(** The state of the application and its methods, on encoded arguments and replies. *)
Context {App : Type}.
Definition method : Type := App -> string -> App * string.

Record Service := mkService { svc_name : string; methods : gmap string method }.

Record Server := mkServer { services : gmap string Service; srv_count : Z }.

Definition MakeServer : Server := mkServer ∅ 0.

Definition AddService (rs : Server) (svc : Service) : Server :=
  mkServer (<[svc_name svc := svc]> (services rs)) (srv_count rs).

(** What [reflect] tells about a method of the receiver: its name, its package path (empty when the
    name is exported), the number of its inputs with the receiver, whether input 2 is a pointer,
    and the number of its results. *)
Record Method := mkMethod {
  meth_name : string;
  PkgPath : string;
  NumIn : nat;
  In2_Ptr : bool;
  NumOut : nat;
  Func : method
}.

(** The method looks like a handler. *)
Definition suitable (mt : Method) : bool :=
  negb (negb (bool_decide (PkgPath mt = "")) || negb (NumIn mt =? 3) || negb (In2_Ptr mt) ||
        negb (NumOut mt =? 0)).

(** [name] is the name of the receiver's type. *)
Definition MakeService (name : string) (rcvr : list Method) : Service :=
  mkService name (foldl (fun ms mt => if suitable mt then <[meth_name mt := Func mt]> ms else ms)
                    ∅ rcvr).

Definition Server_GetCount (rs : Server) : Z := srv_count rs.

(** ** Dispatch *)

(** [strings.LastIndex(s, ".")]: [None] for -1. *)
Fixpoint last_dot (s : string) : option nat :=
  match s with
  | EmptyString => None
  | String c s' =>
      match last_dot s' with
      | Some i => Some (S i)
      | None => if bool_decide (c = Ascii.ascii_of_nat 46) then Some 0 else None
      end
  end.

Definition Service_dispatch (svc : Service) (methname : string) (req : reqMsg) (a : App) :
    go (App * replyMsg) :=
  match methods svc !! methname with
  | Some m => let '(a', r) := m a (args req) in Ok (a', mkreplyMsg true r)
  | None => Fatal "labrpc.Service.dispatch(): unknown method"
  end.

(** The server object with its count, the application, the reply. *)
Definition Server_dispatch (rs : Server) (req : reqMsg) (a : App) : go (Server * App * replyMsg) :=
  let rs := mkServer (services rs) (srv_count rs + 1) in
  match last_dot (svcMeth req) with
  | None => Panic "slice bounds out of range"
  | Some dot =>
      let serviceName := String.substring 0 dot (svcMeth req) in
      let methodName := String.substring (S dot) (String.length (svcMeth req)) (svcMeth req) in
      match services rs !! serviceName with
      | Some service =>
          let! r := Service_dispatch service methodName req a in
          Ok (rs, r.1, r.2)
      | None => Fatal "labrpc.Server.dispatch(): unknown service"
      end
  end.
End App.
Arguments method : clear implicits.
Arguments Service : clear implicits.
Arguments Method : clear implicits.
Arguments Server : clear implicits.

(** ** Operations of the network *)

Definition MakeNetwork : Network :=
  mkNetwork true false false ∅ ∅ ∅ ∅ false 0 0.

Definition Cleanup (rn : Network) : go Network :=
  if done_closed rn then Panic "close of closed channel"
  else Ok (mkNetwork (reliable rn) (longDelays rn) (longReordering rn) (ends rn) (enabled rn)
    (servers rn) (connections rn) true (net_count rn) (net_bytes rn)).

Definition Reliable (rn : Network) (yes : bool) : Network :=
  mkNetwork yes (longDelays rn) (longReordering rn) (ends rn) (enabled rn) (servers rn)
    (connections rn) (done_closed rn) (net_count rn) (net_bytes rn).

Definition IsReliable (rn : Network) : bool := reliable rn.

Definition LongReordering (rn : Network) (yes : bool) : Network :=
  mkNetwork (reliable rn) (longDelays rn) yes (ends rn) (enabled rn) (servers rn)
    (connections rn) (done_closed rn) (net_count rn) (net_bytes rn).

Definition LongDelays (rn : Network) (yes : bool) : Network :=
  mkNetwork (reliable rn) yes (longReordering rn) (ends rn) (enabled rn) (servers rn)
    (connections rn) (done_closed rn) (net_count rn) (net_bytes rn).

Definition set_ends (rn : Network) (es : gset string) (en : gmap string bool)
    (cs : gmap string (option string)) : Network :=
  mkNetwork (reliable rn) (longDelays rn) (longReordering rn) es en (servers rn) cs
    (done_closed rn) (net_count rn) (net_bytes rn).

Definition MakeEnd (rn : Network) (e : string) : go Network :=
  if bool_decide (e ∈ ends rn) then Fatal "MakeEnd: already exists"
  else Ok (set_ends rn ({[e]} ∪ ends rn) (<[e := false]> (enabled rn))
             (<[e := None]> (connections rn))).

Definition DeleteEnd (rn : Network) (e : string) : go Network :=
  if bool_decide (e ∈ ends rn)
  then Ok (set_ends rn (ends rn ∖ {[e]}) (delete e (enabled rn)) (delete e (connections rn)))
  else Fatal "MakeEnd: doesn't exists".

Definition set_server (rn : Network) (sn : string) (rs : option addr) : Network :=
  mkNetwork (reliable rn) (longDelays rn) (longReordering rn) (ends rn) (enabled rn)
    (<[sn := rs]> (servers rn)) (connections rn) (done_closed rn) (net_count rn) (net_bytes rn).

Definition AddServer (rn : Network) (sn : string) (rs : addr) : Network :=
  set_server rn sn (Some rs).

Definition DeleteServer (rn : Network) (sn : string) : Network := set_server rn sn None.

Definition Connect (rn : Network) (e sn : string) : Network :=
  set_ends rn (ends rn) (enabled rn) (<[e := Some sn]> (connections rn)).

Definition Enable (rn : Network) (e : string) (b : bool) : Network :=
  set_ends rn (ends rn) (<[e := b]> (enabled rn)) (connections rn).

Definition GetTotalCount (rn : Network) : Z := net_count rn.
Definition GetTotalBytes (rn : Network) : Z := net_bytes rn.

(** Reading an absent key of a Go map gives the zero value. *)
Definition is_enabled (rn : Network) (e : string) : bool := default false (enabled rn !! e).
Definition server_of (rn : Network) (sn : string) : option addr := default None (servers rn !! sn).
Definition conn_of (rn : Network) (e : string) : option string :=
  default None (connections rn !! e).

(** [svr.GetCount()] of a nil server is a nil dereference. *)
Definition GetCount {App} (rn : Network) (heap : gmap addr (Server App)) (sn : string) : go Z :=
  match server_of rn sn with
  | Some p => match heap !! p with
              | Some rs => Ok (Server_GetCount rs)
              | None => Panic "nil pointer dereference"
              end
  | None => Panic "nil pointer dereference"
  end.

Record endInfo := mkendInfo {
  ei_enabled : bool;
  ei_servername : option string;
  ei_server : option addr;
  ei_reliable : bool;
  ei_longreordering : bool
}.

Definition readEndnameInfo (rn : Network) (e : string) : endInfo :=
  let servername := conn_of rn e in
  mkendInfo (is_enabled rn e) servername
    (match servername with Some sn => server_of rn sn | None => None end)
    (reliable rn) (longReordering rn).

Definition isServerDead (rn : Network) (e sn : string) (p : addr) : bool :=
  bool_decide (is_enabled rn e = false) || negb (bool_decide (server_of rn sn = Some p)).

(** [atomic.AddInt32] and [AddInt64] when the network takes a request off [endCh]. *)
Definition count_request (rn : Network) (req : reqMsg) : Network :=
  mkNetwork (reliable rn) (longDelays rn) (longReordering rn) (ends rn) (enabled rn) (servers rn)
    (connections rn) (done_closed rn) (i32 (net_count rn + 1))
    (i64 (net_bytes rn + Z.of_nat (String.length (args req)))).

Definition count_reply (rn : Network) (r : replyMsg) : Network :=
  mkNetwork (reliable rn) (longDelays rn) (longReordering rn) (ends rn) (enabled rn) (servers rn)
    (connections rn) (done_closed rn) (net_count rn)
    (i64 (net_bytes rn + Z.of_nat (String.length (reply r)))).

(** ** [ClientEnd.Call] *)

Section Call.
(** [labgob] on the arguments and the reply. *)
Context {Args Reply : Type} (encode : Args -> option string) (decode : string -> option Reply).

(** What [Call] puts on the channel of the network. *)
Definition Call_request (e meth : string) (a : Args) : go reqMsg :=
  match encode a with
  | Some b => Ok (mkreqMsg e meth b)
  | None => Panic "encode error"
  end.

(** What it makes of the message on [replyCh]: the result, and the reply structure, which is
    written only when the result is true. *)
Definition Call_result (rep : replyMsg) (old : Reply) : go (bool * Reply) :=
  if ok rep then
    match decode (reply rep) with
    | Some v => Ok (true, v)
    | None => Fatal "ClientEnd.Call(): decode reply"
    end
  else Ok (false, old).
End Call.

(** ** [processReq] *)

Record world {App : Type} := mkworld {
  net : Network;
  heap : gmap addr (Server App);
  app : App
}.
Arguments world : clear implicits.
Arguments mkworld {App} _ _ _.

(** Where the goroutine of [processReq] is: before [readEndnameInfo], before it starts the
    handler, waiting, after the loop, with a delayed reply, waiting for the simulated timeout, or
    after it has sent a message on [replyCh]. *)
Inductive proc :=
| PStart
| PChosen (sn : string) (p : addr) (rel lr : bool)
| PWait (sn : string) (p : addr) (rel lr : bool)
| PLeft (sn : string) (p : addr) (rel lr : bool) (r : option replyMsg)
| PDelayed (r : replyMsg)
| PTimeout
| PReplied (r : replyMsg).

(** The goroutine that runs [server.dispatch(req)]. *)
Inductive handler :=
| HNone
| HPending (p : addr)
| HDone (r : replyMsg).

(** [execs]: the replies of the executions of the handler so far. *)
Record rpc {App : Type} := mkrpc {
  wd : world App;
  pr : proc;
  hd : handler;
  execs : list replyMsg
}.
Arguments rpc : clear implicits.
Arguments mkrpc {App} _ _ _ _.

Ltac destruct_ex :=
  repeat match goal with H : exists _, _ |- _ => destruct H end; destruct_and?; simplify_eq/=.

Section ProcessReq.
Context {App : Type} (req : reqMsg) (env : world App -> world App -> Prop).

Definition failed : replyMsg := mkreplyMsg false "".

Definition set_net (w : world App) (rn : Network) : world App := mkworld rn (heap w) (app w).

Inductive processReq : rpc App -> rpc App -> Prop :=
| pr_start w hd xs sn p rel lr :
    readEndnameInfo (net w) (endname req) = mkendInfo true (Some sn) (Some p) rel lr ->
    processReq (mkrpc w PStart hd xs) (mkrpc w (PChosen sn p rel lr) hd xs)
| pr_unreachable w hd xs :
    (let i := readEndnameInfo (net w) (endname req) in
     ei_enabled i = false \/ ei_servername i = None \/ ei_server i = None) ->
    processReq (mkrpc w PStart hd xs) (mkrpc w PTimeout hd xs)
| pr_drop_request w hd xs sn p lr :
    processReq (mkrpc w (PChosen sn p false lr) hd xs) (mkrpc w (PReplied failed) hd xs)
| pr_spawn w hd xs sn p rel lr :
    processReq (mkrpc w (PChosen sn p rel lr) hd xs) (mkrpc w (PWait sn p rel lr) (HPending p) xs)
| pr_handler w pr xs p rs rs' a' r :
    heap w !! p = Some rs -> Server_dispatch rs req (app w) = Ok (rs', a', r) ->
    processReq (mkrpc w pr (HPending p) xs)
      (mkrpc (mkworld (net w) (<[p := rs']> (heap w)) a') pr (HDone r) (xs ++ [r]))
| pr_receive w xs sn p rel lr r :
    processReq (mkrpc w (PWait sn p rel lr) (HDone r) xs)
      (mkrpc w (PLeft sn p rel lr (Some r)) (HDone r) xs)
| pr_tick_dead w hd xs sn p rel lr :
    isServerDead (net w) (endname req) sn p = true ->
    processReq (mkrpc w (PWait sn p rel lr) hd xs) (mkrpc w (PLeft sn p rel lr None) hd xs)
| pr_dead w hd xs sn p rel lr ro :
    ro = None \/ isServerDead (net w) (endname req) sn p = true ->
    processReq (mkrpc w (PLeft sn p rel lr ro) hd xs) (mkrpc w (PReplied failed) hd xs)
| pr_drop_reply w hd xs sn p lr r :
    isServerDead (net w) (endname req) sn p = false ->
    processReq (mkrpc w (PLeft sn p false lr (Some r)) hd xs) (mkrpc w (PReplied failed) hd xs)
| pr_delay w hd xs sn p rel r :
    isServerDead (net w) (endname req) sn p = false ->
    processReq (mkrpc w (PLeft sn p rel true (Some r)) hd xs) (mkrpc w (PDelayed r) hd xs)
| pr_reply w hd xs sn p rel lr r :
    isServerDead (net w) (endname req) sn p = false ->
    processReq (mkrpc w (PLeft sn p rel lr (Some r)) hd xs)
      (mkrpc (set_net w (count_reply (net w) r)) (PReplied r) hd xs)
| pr_delayed w hd xs r :
    processReq (mkrpc w (PDelayed r) hd xs)
      (mkrpc (set_net w (count_reply (net w) r)) (PReplied r) hd xs)
| pr_timeout w hd xs :
    processReq (mkrpc w PTimeout hd xs) (mkrpc w (PReplied failed) hd xs)
| pr_env w w' pr hd xs :
    env w w' -> processReq (mkrpc w pr hd xs) (mkrpc w' pr hd xs).

(** The request as the network's goroutine hands it over. *)
Definition rpc_start (w : world App) : rpc App := mkrpc w PStart HNone [].

(** ** At most one execution, and only true replies *)

Definition waiting (p : proc) : bool :=
  match p with PStart | PChosen _ _ _ _ => true | _ => false end.

(** The reply the goroutine holds, if any. *)
Definition held (p : proc) : option replyMsg :=
  match p with
  | PLeft _ _ _ _ ro => ro
  | PDelayed r => Some r
  | PReplied r => if ok r then Some r else None
  | _ => None
  end.

Definition rpc_inv (s : rpc App) : Prop :=
  match hd s with
  | HNone => execs s = [] /\ held (pr s) = None
  | HPending _ => execs s = [] /\ held (pr s) = None /\ waiting (pr s) = false
  | HDone r => execs s = [r] /\ ok r = true /\ waiting (pr s) = false /\
      (held (pr s) = None \/ held (pr s) = Some r)
  end.

Lemma Server_dispatch_ok (rs rs' : Server App) a a' r :
  Server_dispatch rs req a = Ok (rs', a', r) -> ok r = true.
Proof.
  unfold Server_dispatch, Service_dispatch. intros H. repeat case_match; simplify_eq/=; done.
Qed.

Lemma rpc_inv_step s s' : rpc_inv s -> processReq s s' -> rpc_inv s'.
Proof.
  unfold rpc_inv. intros Hinv Hstep. destruct Hstep; simpl in *.
  all: repeat case_match; simplify_eq/=; try naive_solver.
  all: destruct_and?; simplify_eq/=; split_and?; try done; try (by left); try (by right).
  - by eapply Server_dispatch_ok.
Qed.

Lemma rpc_inv_run w s : rtc processReq (rpc_start w) s -> rpc_inv s.
Proof. apply rtc_invariant; [apply rpc_inv_step|done]. Qed.

(** ** A deleted server *)

Definition on_server (sn : string) (p : addr) (q : proc) : Prop :=
  match q with
  | PChosen sn' p' _ _ | PWait sn' p' _ _ | PLeft sn' p' _ _ _ => sn' = sn /\ p' = p
  | PReplied r => ok r = false
  | _ => False
  end.

Lemma isServerDead_gone rn e sn p : server_of rn sn ≠ Some p -> isServerDead rn e sn p = true.
Proof.
  intros H. unfold isServerDead. rewrite (bool_decide_eq_false_2 (_ = Some p)) by done.
  apply orb_true_r.
Qed.

Lemma gone_step sn p s s' :
  (forall w w', env w w' -> server_of (net w) sn ≠ Some p -> server_of (net w') sn ≠ Some p) ->
  server_of (net (wd s)) sn ≠ Some p /\ on_server sn p (pr s) -> processReq s s' ->
  server_of (net (wd s')) sn ≠ Some p /\ on_server sn p (pr s').
Proof.
  intros Henv [Hg Hon] Hstep. destruct Hstep; simpl in *; destruct_and?; simplify_eq/=; try done;
    try (by rewrite (isServerDead_gone _ _ _ _ Hg) in *).
  split; [by eapply Henv|done].
Qed.

(** ** A disabled end *)

Lemma disabled_step s s' :
  (forall w w', env w w' -> is_enabled (net w) (endname req) = false ->
     is_enabled (net w') (endname req) = false) ->
  is_enabled (net (wd s)) (endname req) = false /\ hd s = HNone /\ execs s = [] /\
    (pr s = PStart \/ pr s = PTimeout \/ pr s = PReplied failed) -> processReq s s' ->
  is_enabled (net (wd s')) (endname req) = false /\ hd s' = HNone /\ execs s' = [] /\
    (pr s' = PStart \/ pr s' = PTimeout \/ pr s' = PReplied failed).
Proof.
  intros Henv (He & Hh & Hx & Hp) Hstep.
  destruct Hstep; simpl in *; simplify_eq/=; try (by destruct Hp as [?|[?|?]]; simplify_eq).
  - unfold readEndnameInfo in H. rewrite He in H. by simplify_eq.
  - split_and!; auto.
  - split_and!; auto.
  - split_and!; [by eapply Henv|done..].
Qed.

(** ** A healthy connection *)

(** The server has a handler for the request. *)
Definition answers (rs : Server App) : Prop :=
  forall a, exists rs' a' r, Server_dispatch rs req a = Ok (rs', a', r).

Lemma Server_dispatch_services (rs rs' : Server App) a a' r :
  Server_dispatch rs req a = Ok (rs', a', r) -> services rs' = services rs.
Proof. unfold Server_dispatch. intros H. repeat case_match; simplify_eq/=. go_inv. done. Qed.

Lemma answers_services (rs rs' : Server App) : services rs' = services rs -> answers rs -> answers rs'.
Proof.
  unfold answers, Server_dispatch. intros E H a. destruct (H a) as (rs1 & a1 & r & Hd).
  simpl in *. rewrite E. destruct (last_dot _); [|done]. destruct (services rs !! _); [|done].
  destruct (Service_dispatch _ _ _ _); [|done..]. simpl in *. by eauto.
Qed.

Definition healthy (sn : string) (p : addr) (w : world App) : Prop :=
  readEndnameInfo (net w) (endname req) = mkendInfo true (Some sn) (Some p) true false /\
  exists rs, heap w !! p = Some rs /\ answers rs.

Lemma healthy_alive sn p w :
  healthy sn p w -> isServerDead (net w) (endname req) sn p = false.
Proof.
  intros [H _]. unfold readEndnameInfo in H. injection H as He Hc Hs _ _.
  rewrite Hc in Hs. unfold isServerDead. rewrite He, Hs.
  by rewrite (bool_decide_eq_true_2 (Some p = Some p)).
Qed.

Definition on_time (sn : string) (p : addr) (s : rpc App) : Prop :=
  match pr s with
  | PStart => hd s = HNone
  | PChosen sn' p' rel lr => sn' = sn /\ p' = p /\ rel = true /\ lr = false /\ hd s = HNone
  | PWait sn' p' rel lr => sn' = sn /\ p' = p /\ rel = true /\ lr = false /\
      (hd s = HPending p \/ exists r, hd s = HDone r)
  | PLeft sn' p' rel lr ro => sn' = sn /\ p' = p /\ rel = true /\ lr = false /\
      exists r, ro = Some r /\ ok r = true /\ hd s = HDone r
  | PReplied r => ok r = true /\ hd s = HDone r
  | _ => False
  end.

Lemma healthy_heap sn p w q rs rs' a :
  heap w !! q = Some rs -> services rs' = services rs -> healthy sn p w ->
  healthy sn p (mkworld (net w) (<[q := rs']> (heap w)) a).
Proof.
  intros Hq Hs [Hr (rs0 & Hp & Ha)]. split; [done|]. simpl. destruct (decide (q = p)) as [->|Hne].
  - exists rs'. rewrite lookup_insert_eq. split; [done|]. eapply answers_services; [done|].
    by replace rs with rs0 by congruence.
  - exists rs0. by rewrite lookup_insert_ne.
Qed.

Lemma healthy_step sn p s s' :
  (forall w w', env w w' -> healthy sn p w -> healthy sn p w') ->
  (healthy sn p (wd s) /\ on_time sn p s) /\ rpc_inv s -> processReq s s' ->
  (healthy sn p (wd s') /\ on_time sn p s') /\ rpc_inv s'.
Proof.
  intros Henv [[Hh Hon] Hinv] Hstep. split; [|by eapply rpc_inv_step].
  pose proof (healthy_alive _ _ _ Hh) as Hal. unfold on_time in *.
  destruct Hstep; simpl in *; destruct_and?; simplify_eq/=; try done.
  - destruct Hh as [Hh ?]. rewrite Hh in H. simplify_eq. done.
  - destruct Hh as [Hh _]. unfold readEndnameInfo in Hh. injection Hh as He Hc Hs _ _.
    rewrite Hs, He, Hc in H. by destruct H as [?|[?|?]].
  - by auto 10.
  - split; [eapply healthy_heap; [done|by eapply Server_dispatch_services|done]|].
    destruct pr0; simpl in *; destruct_and?; simplify_eq/=; try done;
      destruct_ex; try done. split_and!; eauto.
  - unfold rpc_inv in Hinv. simpl in Hinv. destruct_and?. split_and!; eauto.
  - congruence.
  - destruct H as [->|?]; [|congruence]. by destruct_ex.
  - destruct_ex. destruct_and?. by simplify_eq.
  - split; [by eapply Henv|done].
Qed.

Lemma left_replies sn p w hd xs r :
  healthy sn p w -> ok r = true ->
  exists s', rtc processReq (mkrpc w (PLeft sn p true false (Some r)) hd xs) s' /\ pr s' = PReplied r.
Proof.
  intros Hh Hr. eexists. split; [|shelve].
  eapply rtc_once, pr_reply. by apply healthy_alive. Unshelve. done.
Qed.

Lemma wait_replies sn p w hs xs :
  healthy sn p w -> (hs = HPending p \/ exists r, hs = HDone r /\ ok r = true) ->
  exists s' r, rtc processReq (mkrpc w (PWait sn p true false) hs xs) s' /\
    pr s' = PReplied r /\ ok r = true.
Proof.
  intros Hh Hs.
  assert (forall w xs r, healthy sn p w -> ok r = true -> exists s' r',
    rtc processReq (mkrpc w (PWait sn p true false) (HDone r) xs) s' /\
    pr s' = PReplied r' /\ ok r' = true) as Hdone.
  { intros w0 xs0 r Hh0 Hr. destruct (left_replies sn p w0 (HDone r) xs0 r Hh0 Hr) as (s' & Hs' & ?).
    exists s', r. split; [|done]. eapply rtc_l; [apply pr_receive|done]. }
  destruct Hs as [->|(r & -> & Hr)]; [|by apply Hdone].
  pose proof Hh as [_ (rs & Hrs & Hans)]. destruct (Hans (app w)) as (rs' & a' & r & Hd).
  destruct (Hdone (mkworld (net w) (<[p := rs']> (heap w)) a') (xs ++ [r]) r) as (s' & r' & ? & ? & ?).
  - eapply healthy_heap; [done|by eapply Server_dispatch_services|done].
  - by eapply Server_dispatch_ok.
  - exists s', r'. split; [|done]. eapply rtc_l; [by eapply pr_handler|done].
Qed.

Lemma on_time_replies sn p s :
  healthy sn p (wd s) -> on_time sn p s -> rpc_inv s ->
  exists s' r, rtc processReq s s' /\ pr s' = PReplied r /\ ok r = true.
Proof.
  destruct s as [w q hs xs]. unfold on_time, rpc_inv. simpl. intros Hh Hon Hinv.
  assert (forall hs xs, exists s' r,
    rtc processReq (mkrpc w (PChosen sn p true false) hs xs) s' /\ pr s' = PReplied r /\ ok r = true)
    as Hchosen.
  { intros hs0 xs0. destruct (wait_replies sn p w (HPending p) xs0 Hh) as (s' & r & ? & ?); [by left|].
    exists s', r. split; [|done]. eapply rtc_l; [apply pr_spawn|done]. }
  destruct q; destruct_and?; simplify_eq/=; try done.
  - destruct (Hchosen HNone xs) as (s' & r & ? & ?). exists s', r. split; [|done].
    eapply rtc_l; [|done]. apply pr_start. apply Hh.
  - apply wait_replies; [done|]. match goal with H : _ \/ _ |- _ => destruct H as [->|[r' ->]] end;
      [by left|right]. simpl in Hinv. exists r'. naive_solver.
  - destruct_ex. edestruct (left_replies sn p w) as (s' & ? & ?); [done|done|]. by do 2 eexists.
  - do 2 eexists. split; [apply rtc_refl|]. done.
Qed.
End ProcessReq.

(** ** Example: a counter service *)

Definition demo_req : reqMsg := mkreqMsg "end" "Counter.Incr" "x".

Definition demo_service : Service nat :=
  mkService "Counter" {[ "Incr" := fun n _ => (S n, "done") ]}.

(** One server at address 0, connected to one enabled end. *)
Definition demo_world : world nat :=
  match MakeEnd MakeNetwork "end" with
  | Ok rn => mkworld (Enable (AddServer (Connect rn "end" "srv") "srv" 0) "end" true)
               {[ 0 := AddService MakeServer demo_service ]} 0
  | _ => mkworld MakeNetwork ∅ 0
  end.

Lemma demo_healthy : healthy demo_req "srv" 0 demo_world.
Proof.
  split; [vm_compute; reflexivity|]. eexists. split; [vm_compute; reflexivity|].
  intros a. do 3 eexists. vm_compute. reflexivity.
Qed.

Definition no_env {App} (_ _ : world App) : Prop := False.

(** After the handler ran and the reply was received. *)
Definition demo_left : rpc nat :=
  mkrpc (mkworld (net demo_world) {[ 0 := mkServer (services (AddService MakeServer demo_service)) 1 ]}
           1)
    (PLeft "srv" 0 true false (Some (mkreplyMsg true "done"))) (HDone (mkreplyMsg true "done"))
    [mkreplyMsg true "done"].

Lemma demo_left_run env : rtc (processReq demo_req env) (rpc_start demo_world) demo_left.
Proof.
  eapply rtc_l; [apply (pr_start _ _ _ _ _ "srv" 0 true false); vm_compute; reflexivity|].
  eapply rtc_l; [apply pr_spawn|].
  eapply rtc_l; [eapply pr_handler; [vm_compute; reflexivity|vm_compute; reflexivity]|].
  eapply rtc_l; [apply pr_receive|]. apply rtc_refl.
Qed.

(** ** Services *)

(** The server object that [StartServer] makes for its services: each is a receiver, with the name of its
    type and its methods. *)
Definition serve {App} (rcvrs : list (string * list (Method App))) : Server App :=
  foldl (fun rs r => AddService rs (MakeService r.1 r.2)) MakeServer rcvrs.

(** The method has the type of a handler: exported, two arguments of which the second is a pointer, no result. *)
Definition handler_type {App} (mt : Method App) : Prop :=
  PkgPath mt = "" /\ NumIn mt = 3 /\ In2_Ptr mt = true /\ NumOut mt = 0.

(** The method [meth] of the service [svc]. *)
Definition handles {App} (rcvrs : list (string * list (Method App))) (svc meth : string) (f : method App) : Prop :=
  exists ms mt, (svc, ms) ∈ rcvrs /\ mt ∈ ms /\ meth_name mt = meth /\ handler_type mt /\ f = Func mt.

Definition no_dot (s : string) : Prop := forall x y, s ≠ x +:+ "." +:+ y.

Lemma suitable_handler {App} (mt : Method App) : suitable mt = true <-> handler_type mt.
Proof.
  unfold suitable, handler_type. rewrite !negb_orb, !negb_involutive, !andb_true_iff.
  rewrite bool_decide_eq_true, !Nat.eqb_eq. naive_solver.
Qed.

Lemma MakeService_snoc {App} name (rcvr : list (Method App)) x :
  methods (MakeService name (rcvr ++ [x])) =
    if suitable x then <[meth_name x := Func x]> (methods (MakeService name rcvr)) else methods (MakeService name rcvr).
Proof. simpl. by rewrite foldl_app. Qed.

Lemma MakeService_Some {App} name (rcvr : list (Method App)) k f :
  NoDup (meth_name <$> rcvr) ->
  methods (MakeService name rcvr) !! k = Some f <->
  exists mt, mt ∈ rcvr /\ meth_name mt = k /\ handler_type mt /\ f = Func mt.
Proof.
  revert k f. induction rcvr as [|x rcvr IH] using rev_ind; intros k f Hnd.
  { split; [done|]. by intros (? & ?%not_elem_of_nil & _). }
  rewrite fmap_app in Hnd. apply NoDup_app in Hnd as (Hnd & Hd & _). rewrite MakeService_snoc.
  assert (forall mt, mt ∈ rcvr -> meth_name mt ≠ meth_name x) as Hne.
  { intros mt Hmt E. apply (Hd (meth_name mt)); [by apply list_elem_of_fmap_2|]. rewrite E. by apply list_elem_of_singleton. }
  destruct (decide (meth_name x = k)) as [<-|Hk].
  - assert (methods (MakeService name rcvr) !! meth_name x = None) as E0.
    { apply eq_None_not_Some. intros [g Hg]. apply (IH _ _ Hnd) in Hg as (mt & Hmt & E & _). by apply (Hne mt). }
    destruct (suitable x) eqn:Es; [rewrite lookup_insert_eq|rewrite E0]; split.
    + intros [= <-]. exists x. split_and!; [set_solver|done|by apply suitable_handler|done].
    + intros (mt & [Hmt|Hmt]%elem_of_app & E & _ & ->); [by destruct (Hne mt)|]. by apply list_elem_of_singleton in Hmt as ->.
    + done.
    + intros (mt & [Hmt|Hmt]%elem_of_app & E & Ht & ->); [by destruct (Hne mt)|].
      apply list_elem_of_singleton in Hmt as ->. apply suitable_handler in Ht. congruence.
  - trans (methods (MakeService name rcvr) !! k = Some f).
    { destruct (suitable x); [by rewrite lookup_insert_ne|done]. }
    rewrite (IH k f Hnd). split; [intros (mt & ? & ?); exists mt; set_solver|].
    intros (mt & [Hmt|Hmt]%elem_of_app & E & Ht); [by exists mt|]. apply list_elem_of_singleton in Hmt as ->. done.
Qed.

Lemma serve_Some {App} (rcvrs : list (string * list (Method App))) name svc :
  NoDup rcvrs.*1 ->
  services (serve rcvrs) !! name = Some svc <-> exists ms, (name, ms) ∈ rcvrs /\ svc = MakeService name ms.
Proof.
  unfold serve. induction rcvrs as [|[x ms] rcvrs IH] using rev_ind; intros Hnd; simpl.
  { split; [done|]. by intros (? & ?%not_elem_of_nil & _). }
  rewrite fmap_app in Hnd. apply NoDup_app in Hnd as (Hnd & Hd & _). specialize (IH Hnd). rewrite foldl_app. simpl.
  assert (forall ms', (x, ms') ∉ rcvrs) as Hne.
  { intros ms' Hin. apply (Hd x); [by apply (list_elem_of_fmap_2 fst) in Hin|]. by apply list_elem_of_singleton. }
  destruct (decide (x = name)) as [<-|Hn].
  - rewrite lookup_insert_eq. split; [intros [= <-]; exists ms; set_solver|].
    intros (ms' & [Hin|Hin]%elem_of_app & ->); [by destruct (Hne ms')|].
    apply list_elem_of_singleton in Hin. by simplify_eq.
  - rewrite lookup_insert_ne by done. rewrite IH. split; [intros (ms' & ? & ?); exists ms'; set_solver|].
    intros (ms' & [Hin|Hin]%elem_of_app & ->); [by exists ms'|]. apply list_elem_of_singleton in Hin. by simplify_eq.
Qed.

Lemma serve_count {App} (rcvrs : list (string * list (Method App))) : srv_count (serve rcvrs) = 0%Z.
Proof. unfold serve. induction rcvrs as [|r rcvrs IH] using rev_ind; [done|]. by rewrite foldl_app. Qed.

(** [LastIndex] splits a name at its last dot. *)
Lemma last_dot_None s : last_dot s = None -> no_dot s.
Proof.
  induction s as [|c s IH]; intros H x y E; [by destruct x|]. simpl in H.
  destruct (last_dot s) eqn:El; [done|]. case_bool_decide as Hc; [done|].
  destruct x as [|c' x]; simpl in E; injection E as -> E; [by apply Hc|]. by apply (IH eq_refl x y).
Qed.

Lemma last_dot_app x y : no_dot y -> last_dot (x +:+ "." +:+ y) = Some (String.length x).
Proof.
  intros Hy. induction x as [|c x IH]; [|simpl; by rewrite IH].
  change (last_dot (String (Ascii.ascii_of_nat 46) y) = Some 0). simpl. destruct (last_dot y) as [i|] eqn:E; [exfalso|reflexivity]. clear -E Hy.
  assert (forall i, last_dot y = Some i -> ~ no_dot y) as H; [|by apply (H i)]. clear.
  induction y as [|c y IH]; intros i; [done|]. simpl. destruct (last_dot y) as [k|].
  - intros _ Hy. apply (IH k eq_refl). intros a b ->. by apply (Hy (String c a) b).
  - case_bool_decide as Hc; [|done]. intros _ Hy. subst c. by apply (Hy "" y).
Qed.

Lemma last_dot_split s i : last_dot s = Some i -> exists x y, s = x +:+ "." +:+ y /\ no_dot y.
Proof.
  revert i. induction s as [|c s IH]; intros i; [done|]. simpl. destruct (last_dot s) as [k|] eqn:E.
  - intros _. destruct (IH k eq_refl) as (x & y & -> & Hy). by exists (String c x), y.
  - case_bool_decide as Hc; [|done]. intros _. exists "", s. subst c. split; [done|]. by apply last_dot_None.
Qed.

Lemma split_request x y :
  String.substring 0 (String.length x) (x +:+ "." +:+ y) = x /\
  String.substring (S (String.length x)) (String.length (x +:+ "." +:+ y)) (x +:+ "." +:+ y) = y.
Proof.
  split.
  - induction x as [|c x IH]; [by destruct y|]. simpl. f_equal. exact IH.
  - assert (forall n z, String.length z <= n -> String.substring 0 n z = z) as Hall.
    { intros n z. revert n. induction z as [|c z IHz]; intros [|n] Hn; simpl in *; try done; [lia|].
      f_equal. apply IHz. lia. }
    assert (forall n, String.length y <= n -> String.substring (S (String.length x)) n (x +:+ "." +:+ y) = y) as H.
    { intros n Hn. induction x as [|c x IH]; [simpl; by apply Hall|]. simpl. exact IH. }
    apply H. clear. induction x as [|c x IH]; [change (String.length y <= S (String.length y)); lia|].
    change (String.length y <= S (String.length (x +:+ "." +:+ y))). lia.
Qed.

(** ** Claims *)

(** C38: A server dispatches exactly the handlers of its services.  The server object has been made of any
    receivers with different names, as [StartServer] makes it.  Every request names a service and a method,
    divided by the last dot, or has no dot.  A request for a method of a receiver that has the type of a handler
    (exported, two arguments of which the second is a pointer, no result) runs this method, and only it, is
    counted and answered with its reply; a request for any other service or method, of the receivers or not,
    ends the process, and one without a dot panics. *)
Theorem server_dispatches {App} (rcvrs : list (string * list (Method App))) req a :
  NoDup rcvrs.*1 -> (forall svc ms, (svc, ms) ∈ rcvrs -> NoDup (meth_name <$> ms)) ->
  let rs := serve rcvrs in
  (no_dot (svcMeth req) \/ exists svc meth, svcMeth req = svc +:+ "." +:+ meth /\ no_dot meth) /\
  (no_dot (svcMeth req) -> Server_dispatch rs req a = Panic "slice bounds out of range") /\
  (forall svc meth, svcMeth req = svc +:+ "." +:+ meth -> no_dot meth ->
    (forall f, handles rcvrs svc meth f ->
       Server_dispatch rs req a = Ok (mkServer (services rs) 1, (f a (args req)).1, mkreplyMsg true (f a (args req)).2)) /\
    ((forall f, ~ handles rcvrs svc meth f) -> exists m, Server_dispatch rs req a = Fatal m)).
Proof.
  intros Hnd Hms rs. unfold Server_dispatch. split_and!.
  - destruct (last_dot (svcMeth req)) as [i|] eqn:E; [right; by eapply last_dot_split|left; by apply last_dot_None].
  - intros Hn. destruct (last_dot (svcMeth req)) as [i|] eqn:E; [|done].
    destruct (last_dot_split _ _ E) as (x & y & Ex & _). by destruct (Hn x y).
  - intros svc meth -> Hy. rewrite (last_dot_app svc meth Hy). destruct (split_request svc meth) as [-> ->].
    cbn [services]. split.
    + intros f (ms & mt & Hin & Hmt & Hm & Ht & ->).
      assert (services rs !! svc = Some (MakeService svc ms)) as -> by (apply serve_Some; [done|by exists ms]).
      unfold Service_dispatch. match goal with |- context [methods ?s !! ?k] => set (found := methods s !! k) end.
      assert (found = Some (Func mt)) as -> by (apply MakeService_Some; [by eapply Hms|by exists mt]).
      destruct (Func mt a (args req)). simpl. unfold rs. by rewrite serve_count.
    + intros Hno. destruct (services rs !! svc) as [s|] eqn:Es; [|by eexists].
      apply serve_Some in Es as (ms & Hin & ->); [|done]. unfold Service_dispatch.
      destruct (methods (MakeService svc ms) !! meth) as [f|] eqn:Em; [|by eexists].
      apply MakeService_Some in Em as (mt & Hmt & Hm & Ht & ->); [|by eapply Hms].
      destruct (Hno (Func mt)). by exists ms, mt.
Qed.

(** A receiver with a handler and a method that is none. *)
Definition demo_rcvr : list (string * list (Method nat)) :=
  [("T", [mkMethod "Incr" "" 3 true 0 (fun n _ => (S n, "ok")); mkMethod "Kill" "" 1 false 0 (fun n _ => (n, ""))])].

Lemma server_dispatches_witness :
  Server_dispatch (serve demo_rcvr) (mkreqMsg "e" "T.Incr" "") 4 =
    Ok (mkServer (services (serve demo_rcvr)) 1, 5, mkreplyMsg true "ok").
Proof.
  destruct (server_dispatches demo_rcvr (mkreqMsg "e" "T.Incr" "") 4) as (_ & _ & H).
  - apply (bool_decide_unpack _). reflexivity.
  - intros svc ms Hin. apply list_elem_of_singleton in Hin. injection Hin as -> ->. apply (bool_decide_unpack _). reflexivity.
  - destruct (H "T" "Incr") as [H1 _].
    + reflexivity.
    + apply last_dot_None. reflexivity.
    + apply (H1 (fun n _ => (S n, "ok"))). eexists _, _. split; [left|]. split; [left|].
      split; [reflexivity|]. split; [split_and!; reflexivity|reflexivity].
Defined.

(** C17: Whatever other goroutines do to the network meanwhile, the network runs the handler of a
    request at most once, and a reply with [ok] set is the reply of that one execution. *)
Theorem rpc_at_most_once {App} req env (w : world App) s :
  rtc (processReq req env) (rpc_start w) s ->
  length (execs s) <= 1 /\
  forall r, pr s = PReplied r -> ok r = true -> execs s = [r].
Proof.
  intros Hrun. apply rpc_inv_run in Hrun. unfold rpc_inv in Hrun.
  destruct (hd s) eqn:Eh; destruct_and?.
  - replace (execs s) with (@nil replyMsg). split; [simpl; lia|]. intros r Hr Hok.
    rewrite Hr in *. simpl in *. rewrite Hok in *. done.
  - replace (execs s) with (@nil replyMsg). split; [simpl; lia|]. intros r Hr Hok.
    rewrite Hr in *. simpl in *. rewrite Hok in *. done.
  - replace (execs s) with [r]. split; [simpl; lia|]. intros r' Hr Hok.
    rewrite Hr in *. simpl in *. rewrite Hok in *. naive_solver.
Qed.

Lemma rpc_at_most_once_witness :
  length (execs demo_left) <= 1 /\
  forall r, pr demo_left = PReplied r -> ok r = true -> execs demo_left = [r].
Proof. apply (rpc_at_most_once demo_req no_env demo_world). exact (demo_left_run no_env). Defined.

(** A call in flight when its server is deleted never succeeds: if the name of the server no
    longer stands for the object the request was sent to, and is not given back to that object,
    every message sent to the caller has [ok] unset. *)
Theorem deleted_server_never_answers {App} req (env : world App -> world App -> Prop) sn p s s' r :
  (forall w w', env w w' -> server_of (net w) sn ≠ Some p -> server_of (net w') sn ≠ Some p) ->
  server_of (net (wd s)) sn ≠ Some p ->
  (exists rel lr, pr s = PWait sn p rel lr) ->
  rtc (processReq req env) s s' -> pr s' = PReplied r -> ok r = false.
Proof.
  intros Henv Hg (rel & lr & Hp) Hrun Hr.
  assert (server_of (net (wd s')) sn ≠ Some p /\ on_server sn p (pr s')) as [_ Hon].
  { apply (rtc_invariant (processReq req env)
      (fun s => server_of (net (wd s)) sn ≠ Some p /\ on_server sn p (pr s)) s); [|by rewrite Hp|done].
    intros a b Ha Hb. by eapply gone_step. }
  by rewrite Hr in Hon.
Qed.

(** The server of the example is deleted while the call waits. *)
Definition demo_gone (q : proc) : rpc nat :=
  mkrpc (set_net demo_world (DeleteServer (net demo_world) "srv")) q
    (HDone (mkreplyMsg true "done")) [mkreplyMsg true "done"].

Lemma demo_gone_run :
  rtc (processReq demo_req no_env) (demo_gone (PWait "srv" 0 true false))
    (demo_gone (PReplied failed)).
Proof.
  eapply rtc_l; [apply pr_receive|]. eapply rtc_l; [|apply rtc_refl].
  apply pr_dead. right. vm_compute. reflexivity.
Qed.

Lemma deleted_server_never_answers_witness : ok failed = false.
Proof.
  apply (deleted_server_never_answers demo_req no_env "srv" 0
    (demo_gone (PWait "srv" 0 true false)) (demo_gone (PReplied failed)) failed).
  - intros w w' [].
  - discriminate.
  - exists true, false. reflexivity.
  - exact demo_gone_run.
  - reflexivity.
Defined.

(** While an end is disabled, or its server unreachable through it, no request sent on it is
    executed, and the caller is told so. *)
Theorem disabled_end_never_executes {App} req (env : world App -> world App -> Prop) w s :
  (forall w w', env w w' -> is_enabled (net w) (endname req) = false ->
     is_enabled (net w') (endname req) = false) ->
  is_enabled (net w) (endname req) = false -> rtc (processReq req env) (rpc_start w) s ->
  execs s = [] /\ forall r, pr s = PReplied r -> ok r = false.
Proof.
  intros Henv He Hrun.
  assert (is_enabled (net (wd s)) (endname req) = false /\ hd s = HNone /\ execs s = [] /\
    (pr s = PStart \/ pr s = PTimeout \/ pr s = PReplied failed)) as (_ & _ & Hx & Hp).
  { apply (rtc_invariant (processReq req env) (fun s =>
      is_enabled (net (wd s)) (endname req) = false /\ hd s = HNone /\ execs s = [] /\
      (pr s = PStart \/ pr s = PTimeout \/ pr s = PReplied failed)) (rpc_start w)); [|auto|done].
    intros a b Ha Hb. by eapply disabled_step. }
  split; [done|]. intros r Hr. destruct Hp as [E|[E|E]]; rewrite E in Hr; by simplify_eq.
Qed.

Lemma demo_disabled_run :
  rtc (processReq demo_req no_env)
    (rpc_start (set_net demo_world (Enable (net demo_world) "end" false)))
    (mkrpc (set_net demo_world (Enable (net demo_world) "end" false)) (PReplied failed) HNone []).
Proof.
  eapply rtc_l; [apply pr_unreachable; left; vm_compute; reflexivity|].
  eapply rtc_l; [apply pr_timeout|apply rtc_refl].
Qed.

Lemma disabled_end_never_executes_witness :
  execs (mkrpc (set_net demo_world (Enable (net demo_world) "end" false)) (PReplied failed) HNone [])
    = [] /\ forall r, PReplied failed = PReplied r -> ok r = false.
Proof.
  apply (disabled_end_never_executes demo_req no_env
    (set_net demo_world (Enable (net demo_world) "end" false))
    (mkrpc (set_net demo_world (Enable (net demo_world) "end" false)) (PReplied failed) HNone []));
    [intros w w' []|vm_compute; reflexivity|exact demo_disabled_run].
Defined.

(** C37: On a reliable network without reordering, a call on an enabled end connected to a live
    server that has the method is never lost: every message sent to the caller is the reply of
    the handler, and from every reachable state the call can still be answered. *)
Theorem healthy_call_answered {App} req (env : world App -> world App -> Prop) sn p w s :
  (forall w w', env w w' -> healthy req sn p w -> healthy req sn p w') ->
  healthy req sn p w -> rtc (processReq req env) (rpc_start w) s ->
  (forall r, pr s = PReplied r -> ok r = true) /\
  exists s' r, rtc (processReq req env) s s' /\ pr s' = PReplied r /\ ok r = true.
Proof.
  intros Henv Hh Hrun.
  assert ((healthy req sn p (wd s) /\ on_time sn p s) /\ rpc_inv s) as [[Hh' Hon] Hinv].
  { apply (rtc_invariant (processReq req env)
      (fun s => (healthy req sn p (wd s) /\ on_time sn p s) /\ rpc_inv s) (rpc_start w)); [|done|done].
    intros a b Ha Hb. by eapply healthy_step. }
  split; [|by eapply on_time_replies]. intros r Hr. unfold on_time in Hon. rewrite Hr in Hon. apply Hon.
Qed.

Lemma healthy_call_answered_witness :
  exists s' r, rtc (processReq demo_req no_env) demo_left s' /\ pr s' = PReplied r /\ ok r = true.
Proof.
  apply (healthy_call_answered demo_req no_env "srv" 0 demo_world demo_left);
    [intros w w' []|exact demo_healthy|exact (demo_left_run no_env)].
Defined.
