(* ===== verification/KvNet.v ===== *)
(** * The clerk over the simulated network

    The composition of three components: [Clerk.Put] of [src/src/kvsrv1/client.go], the network of
    [src/src/labrpc/labrpc.go] and the handlers of [src/src/kvsrv1/server.go], which the tester
    registers with [MakeService].  A call of the clerk is a request that [processReq] carries; a
    call that fails is sent again, while the handler of its first request may still be running.
    Meanwhile other goroutines change the network, write keys and restart the server, which then has
    an empty store.  Runs of this system are runs of the abstract machine of [KvClerk], with restarts
    as a further step, so that what is proved there holds of the clerk over the network. *)

From S2P Require Import Prelude KvRpc KvServer KvClerk GoStrings Labrpc.

(** ** The abstract machine with restarts *)

Section Restarts.
Context (args : PutArgs) (kv0 : KVServer).

(** The server starts again with an empty store. *)
Definition restart (s : put_state) : put_state :=
  mkput_state MakeKVServer (cur s) (stale s) (retried s) (applied s) (result s).

(** Steps of the machine of [KvClerk] and restarts, which are counted. *)
Inductive restart_step : put_state * nat -> put_state * nat -> Prop :=
| rs_step s s' k : put_step true args s s' -> restart_step (s, k) (s', k)
| rs_restart s k : restart_step (s, k) (restart s, S k).

(** The request was applied once in the current life of the server only if the version has passed it. *)
Definition passed (kv : KVServer) : nat :=
  if bool_decide (PutArgs_Version args < cur_version kv (PutArgs_Key args))%Z then 1 else 0.

Record restart_inv (n : nat) (x : put_state * nat) : Prop := {
  ri_wf : wf (srv x.1);
  ri_bound : (cur_version (srv x.1) (PutArgs_Key args) <= cur_version kv0 (PutArgs_Key args) + Z.of_nat n)%Z;
  ri_applied : applied x.1 <= x.2 + passed (srv x.1);
  ri_ok : forall r, cur x.1 = Executed r -> PutReply_Err r = OK -> 1 <= applied x.1;
  ri_err : forall r, cur x.1 = Executed r -> PutReply_Err r ≠ OK ->
    PutReply_Err r = ErrVersion \/ PutReply_Err r = ErrNoKey;
  ri_first : retried x.1 = false -> stale x.1 = 0 /\ (cur x.1 = Pending -> applied x.1 = 0) /\
    (forall r, cur x.1 = Executed r -> PutReply_Err r ≠ OK -> applied x.1 = 0);
  ri_result : forall e, result x.1 = Some e -> exists r, cur x.1 = Executed r /\ e = Put_result (retried x.1) r
}.

(** What executing a request does to the store and to the count. *)
Lemma passed_Put n kv a :
  wf kv -> (cur_version kv (PutArgs_Key args) <= cur_version kv0 (PutArgs_Key args) + Z.of_nat n)%Z ->
  (cur_version kv0 (PutArgs_Key args) + Z.of_nat n < 2 ^ 64 - 1)%Z ->
  wf (KvServer.Put kv a).1 /\ passed kv <= passed (KvServer.Put kv a).1 /\
  (cur_version (KvServer.Put kv a).1 (PutArgs_Key args)
     <= cur_version kv0 (PutArgs_Key args) + Z.of_nat (S n))%Z.
Proof.
  intros Hwf Hv Hb. pose proof (Put_version_step kv a (PutArgs_Key args) Hwf). unfold passed.
  split_and!; [by apply Put_preserves_wf| |lia]. repeat case_bool_decide; lia.
Qed.

Lemma passed_exec n kv :
  wf kv -> (cur_version kv (PutArgs_Key args) <= cur_version kv0 (PutArgs_Key args) + Z.of_nat n)%Z ->
  (cur_version kv0 (PutArgs_Key args) + Z.of_nat n < 2 ^ 64 - 1)%Z ->
  let r := (KvServer.Put kv args).2 in
  passed kv + took_effect r <= passed (KvServer.Put kv args).1 /\
  ((PutReply_Err r = OK /\ took_effect r = 1) \/
   ((PutReply_Err r = ErrVersion \/ PutReply_Err r = ErrNoKey) /\ PutReply_Err r ≠ OK /\ took_effect r = 0)).
Proof.
  intros Hwf Hv Hb. pose proof (cur_version_range _ (PutArgs_Key args) Hwf).
  destruct (decide (PutArgs_Version args = cur_version kv (PutArgs_Key args))) as [E|E].
  - pose proof (Put_version kv args (PutArgs_Key args)) as Hv'. rewrite Put_success in * by done. simpl in *.
    rewrite (bool_decide_eq_true_2 (PutArgs_Key args = PutArgs_Key args)) in Hv' by done. simpl in Hv'.
    split; [|by left]. unfold passed. rewrite Hv', u64_small by lia.
    rewrite bool_decide_eq_false_2, bool_decide_eq_true_2 by lia. done.
  - rewrite Put_failure by done. simpl. pose proof (put_error_not_OK kv (PutArgs_Key args)).
    assert (took_effect (mkPutReply (put_error kv (PutArgs_Key args))) = 0) as ->
      by (unfold took_effect; by rewrite bool_decide_eq_false_2).
    split; [lia|]. right. split_and!; [apply put_error_cases|done|done].
Qed.

Lemma restart_inv_step n x x' :
  wf kv0 -> (cur_version kv0 (PutArgs_Key args) + Z.of_nat n < 2 ^ 64 - 1)%Z ->
  restart_inv n x -> restart_step x x' -> restart_inv (S n) x'.
Proof.
  intros Hwf0 Hb [I1 I2 I3 I4 I5 I6 I7] Hs. destruct Hs as [s s' k Hs|s k]; simpl in *; cycle 1.
  { pose proof (cur_version_range kv0 (PutArgs_Key args) Hwf0).
    pose proof wf_MakeKVServer.
    split; simpl; try done; [change (cur_version MakeKVServer (PutArgs_Key args)) with 0%Z; lia|].
    assert (passed (srv s) <= 1) by (unfold passed; case_bool_decide; lia). lia. }
  pose proof (passed_exec n (srv s) I1 I2 Hb) as [He1 He2].
  pose proof (passed_Put n (srv s) args I1 I2 Hb) as (Hp1 & Hp2 & Hp3).
  destruct Hs as [s a|s H1 H2|s n' H1|s H1|s H0 H1 H2|s r H1 H2].
  - destruct (passed_Put n (srv s) a I1 I2 Hb) as (? & ? & ?). split; simpl; try done; lia.
  - split; simpl; try done; try lia.
    + intros r [= <-] Hr. destruct He2 as [[_ ->]|(_ & ? & _)]; [lia|done].
    + intros r [= <-] Hr. destruct He2 as [[? _]|[? _]]; done.
    + intros Hr. destruct (I6 Hr) as (A & B & _). split_and!; [done|done|]. intros r [= <-] Hn.
      destruct He2 as [[? _]|(_ & _ & ->)]; [done|]. rewrite (B H2). done.
    + intros e. congruence.
  - split; simpl; try done; try lia.
    + intros r Hr Ho. specialize (I4 r Hr Ho). lia.
    + intros Hr. destruct (I6 Hr) as (A & _). lia.
  - split; simpl; try done; lia.
  - split; simpl; try done; lia.
  - split; simpl; try done; try lia. intros e [= <-]. by exists r.
Qed.

Lemma restart_inv_run n x :
  wf kv0 -> (cur_version kv0 (PutArgs_Key args) + Z.of_nat n < 2 ^ 64)%Z ->
  nsteps restart_step n (put_start kv0, 0) x -> restart_inv n x.
Proof.
  intros Hwf Hb. apply (nsteps_invariant _ restart_inv).
  - intros k a b Hk Hi. apply restart_inv_step; [done|lia|done].
  - split; simpl; try done; lia.
Qed.

Lemma restart_results n x :
  wf kv0 -> (cur_version kv0 (PutArgs_Key args) + Z.of_nat n < 2 ^ 64)%Z ->
  nsteps restart_step n (put_start kv0, 0) x ->
  applied x.1 <= S x.2 /\ (result x.1 = Some OK -> 1 <= applied x.1) /\
  (result x.1 = Some ErrVersion -> applied x.1 = 0) /\
  (forall e, result x.1 = Some e -> e ∈ [OK; ErrVersion; ErrNoKey; ErrMaybe]).
Proof.
  intros Hwf Hb Hrun. destruct (restart_inv_run n x Hwf Hb Hrun) as [_ _ I3 I4 I5 I6 I7].
  assert (passed (srv x.1) <= 1) by (unfold passed; case_bool_decide; lia).
  split_and!; [lia|..]; intros *; intros (r & Hr & E)%I7; destruct (decide (PutReply_Err r = OK)) as [Eo|Eo].
  - by eapply I4.
  - exfalso. destruct (I5 r Hr Eo) as [Ee|Ee]; revert E; unfold Put_result; rewrite Ee; destruct (retried x.1); err_eq.
  - exfalso. revert E. unfold Put_result. rewrite Eo. destruct (retried x.1); err_eq.
  - destruct (retried x.1) eqn:Er; [|by apply (I6 eq_refl) with r].
    exfalso. destruct (I5 r Hr Eo) as [Ee|Ee]; revert E; unfold Put_result; rewrite Ee; err_eq.
  - subst. unfold Put_result. rewrite Eo. destruct (retried x.1); set_solver.
  - subst. unfold Put_result. destruct (I5 r Hr Eo) as [->| ->]; destruct (retried x.1); case_bool_decide; set_solver.
Qed.

(** A run without restarts is a run of the machine. *)
Lemma restart_none n s t k :
  nsteps restart_step n (s, k) (t, k) -> nsteps (put_step true args) n s t.
Proof.
  assert (forall n x y, nsteps restart_step n x y -> x.2 <= y.2) as Hmono.
  { clear. intros n x y. induction 1 as [|n x y z H _ IH]; [done|]. destruct H; simpl in *; lia. }
  revert s. induction n as [|n IH]; intros s H; inversion H as [|? ? y ? H1 H2]; simplify_eq; [constructor|].
  inversion H1; simplify_eq; [econstructor; [done|by apply IH]|]. apply Hmono in H2. simpl in H2. lia.
Qed.
End Restarts.

(** ** The service *)

Section Service.
(** [labgob] on the arguments and replies of both handlers. *)
Context (encPA : PutArgs -> string) (decPA : string -> option PutArgs).
Context (encPR : PutReply -> string) (decPR : string -> option PutReply).
Context (encGA : GetArgs -> string) (decGA : string -> option GetArgs).
Context (encGR : GetReply -> string).

(** Errors of [Decode] are ignored by [dispatch]: the arguments then are zero. *)
Definition Put_handler : method KVServer := fun kv b =>
  let args := default (mkPutArgs "" "" 0) (decPA b) in
  let '(kv, r) := KvServer.Put kv args in (kv, encPR r).

Definition Get_handler : method KVServer := fun kv b =>
  let args := default (mkGetArgs "") (decGA b) in
  (kv, encGR (KvServer.Get kv args GetReply_zero)).

(** The methods of [*KVServer]; [Kill] takes no argument. *)
Definition KVServer_methods : list (Method KVServer) :=
  [mkMethod "Get" "" 3 true 0 Get_handler;
   mkMethod "Kill" "" 1 false 0 (fun kv _ => (kv, ""));
   mkMethod "Put" "" 3 true 0 Put_handler].

Definition kv_service : Service KVServer := MakeService "KVServer" KVServer_methods.

(** The object [StartServer] makes for the server. *)
Definition kv_labsrv : Server KVServer := AddService MakeServer kv_service.

(** ** [Clerk.Put] over the network *)

(** The world with the key/value server as application, the goroutines of the current call, the
    handlers of earlier calls that are still running (by the object they run on), the replies of
    all executions so far, and the variables of [Clerk.Put]. *)
Record clerk_net := mkclerk_net {
  cn_world : world KVServer;
  cn_pr : proc;
  cn_hd : handler;
  cn_stale : list addr;
  cn_execs : list replyMsg;
  cn_retried : bool;
  cn_result : option Err;
  cn_restarts : nat          (** how often the tester restarted the server *)
}.

(** What the rest of the system does to a server that keeps running: any change of the network, a
    [Put] of another client, and a further object that serves the same store, which is more than the
    tester does.  A restart, which loses the store, is a step of its own below. *)
Inductive others : world KVServer -> world KVServer -> Prop :=
| oth_net w rn : others w (mkworld rn (heap w) (app w))
| oth_server w p : others w (mkworld (net w) (<[p := kv_labsrv]> (heap w)) (app w))
| oth_put w a : others w (mkworld (net w) (heap w) (KvServer.Put (app w) a).1).

Context (e : string) (args : PutArgs).

Definition put_req : reqMsg := mkreqMsg e "KVServer.Put" (encPA args).

(** The handlers that outlive a failed call. *)
Definition leftover (h : handler) : list addr := match h with HPending p => [p] | _ => [] end.

Inductive clerk_step : clerk_net -> clerk_net -> Prop :=
| cn_rpc w pr hd st xs rt k w' pr' hd' xs' :
    (** the network carries the current call *)
    processReq put_req others (mkrpc w pr hd xs) (mkrpc w' pr' hd' xs') ->
    clerk_step (mkclerk_net w pr hd st xs rt None k) (mkclerk_net w' pr' hd' st xs' rt None k)
| cn_others w w' pr hd st xs rt res k :
    others w w' -> clerk_step (mkclerk_net w pr hd st xs rt res k) (mkclerk_net w' pr hd st xs rt res k)
| cn_restart w pr hd st xs rt res k name p :
    (** [StartServer]: [StartKVServer] makes an empty store and [AddServer] puts a new object into the
        place of the old ones.  Their handlers see the old store only, and [isServerDead] drops their
        replies, so that the old objects are left out. *)
    heap w !! p = None ->
    clerk_step (mkclerk_net w pr hd st xs rt res k)
      (mkclerk_net (mkworld (AddServer (net w) name p) {[p := kv_labsrv]} MakeKVServer) pr hd st xs rt res (S k))
| cn_late w pr hd st1 p st2 xs rt res k rs rs' kv' r :
    (** the handler of an earlier call runs *)
    heap w !! p = Some rs -> Server_dispatch rs put_req (app w) = Ok (rs', kv', r) ->
    clerk_step (mkclerk_net w pr hd (st1 ++ p :: st2) xs rt res k)
      (mkclerk_net (mkworld (net w) (<[p := rs']> (heap w)) kv') pr hd (st1 ++ st2) (xs ++ [r]) rt res k)
| cn_closed w hd st xs rt k :
    (** the network is shut down: [Call] returns false at once, the clerk tries again *)
    done_closed (net w) = true ->
    clerk_step (mkclerk_net w PStart hd st xs rt None k) (mkclerk_net w PStart HNone st xs true None k)
| cn_fail w hd st xs rt k rep old :
    (** [Call] returns false, the clerk sends the request again *)
    Call_result decPR rep old = Ok (false, old) ->
    clerk_step (mkclerk_net w (PReplied rep) hd st xs rt None k)
      (mkclerk_net w PStart HNone (st ++ leftover hd) xs true None k)
| cn_return w hd st xs rt k rep old v :
    (** [Call] returns true, the clerk returns *)
    Call_result decPR rep old = Ok (true, v) ->
    clerk_step (mkclerk_net w (PReplied rep) hd st xs rt None k)
      (mkclerk_net w (PReplied rep) hd st xs rt (Some (Put_result rt v)) k).

Definition clerk_start (w : world KVServer) : clerk_net :=
  mkclerk_net w PStart HNone [] [] false None 0.

(** How often the server applied a request of this operation. *)
Definition cn_applied (s : clerk_net) : nat :=
  countb (fun r => match decPR (reply r) with
                   | Some v => bool_decide (PutReply_Err v = OK)
                   | None => false
                   end) (cn_execs s).

(** ** Refinement *)

Context (HPA : decPA (encPA args) = Some args).
Context (HPR : forall r, decPR (encPR r) = Some r).

(** Every server object serves the key/value server. *)
Definition heap_ok (w : world KVServer) : Prop :=
  forall p rs, heap w !! p = Some rs -> services rs !! "KVServer" = Some kv_service.

Lemma kv_dispatch w p rs kv rs' kv' r :
  heap_ok w -> heap w !! p = Some rs -> Server_dispatch rs put_req kv = Ok (rs', kv', r) ->
  kv' = (KvServer.Put kv args).1 /\ r = mkreplyMsg true (encPR (KvServer.Put kv args).2) /\
  services rs' = services rs.
Proof using HPA.
  intros Hw Hp Hd. pose proof (Server_dispatch_services _ _ _ _ _ _ Hd) as Hs. revert Hd.
  unfold Server_dispatch. change (last_dot (svcMeth put_req)) with (Some 8). cbv beta iota zeta.
  change (String.substring 0 8 (svcMeth put_req)) with "KVServer".
  change (String.substring 9 _ (svcMeth put_req)) with "Put".
  cbn [services]. rewrite (Hw p rs Hp). unfold Service_dispatch.
  change (methods kv_service !! "Put") with (Some Put_handler).
  unfold Put_handler. change (Labrpc.args put_req) with (encPA args). rewrite HPA. simpl.
  destruct (KvServer.Put kv args) as [kv1 r1]. simpl. intros [= <- <- <-]. done.
Qed.

Lemma heap_ok_insert w p rs kv :
  heap_ok w -> services rs !! "KVServer" = Some kv_service ->
  heap_ok (mkworld (net w) (<[p := rs]> (heap w)) kv).
Proof. intros Hw Hs q rs'. simpl. intros [[_ <-]|[_ Hq]]%lookup_insert_Some; [done|by eapply Hw]. Qed.

Lemma heap_ok_others w w' : heap_ok w -> others w w' -> heap_ok w'.
Proof.
  intros Hw Ho. destruct Ho as [w rn|w p|w a]; [exact Hw|by apply heap_ok_insert|exact Hw].
Qed.

(** The goroutines of one call: a reply is held only after the handler has run, and is its reply. *)
Definition call_inv (q : proc) (h : handler) : Prop :=
  match h with
  | HNone => held q = None
  | HPending _ => held q = None /\ waiting q = false
  | HDone r => (exists v, r = mkreplyMsg true (encPR v)) /\ waiting q = false /\
      (held q = None \/ held q = Some r)
  end.

(** The request of the current call as the abstract machine sees it. *)
Definition cur_of (h : handler) : attempt :=
  match h with
  | HDone r => match decPR (reply r) with Some v => Executed v | None => Pending end
  | _ => Pending
  end.

Record sim (s : clerk_net) (t : put_state) : Prop := {
  sim_heap : heap_ok (cn_world s);
  sim_call : call_inv (cn_pr s) (cn_hd s);
  sim_srv : srv t = app (cn_world s);
  sim_cur : cur t = cur_of (cn_hd s);
  sim_stale : stale t = length (cn_stale s);
  sim_retried : retried t = cn_retried s;
  sim_applied : applied t = cn_applied s;
  sim_result : result t = cn_result s
}.

Lemma applied_snoc w q h st xs rt res k w' q' h' st' rt' res' k' v :
  cn_applied (mkclerk_net w' q' h' st' (xs ++ [mkreplyMsg true (encPR v)]) rt' res' k') =
  cn_applied (mkclerk_net w q h st xs rt res k) + took_effect v.
Proof using HPR.
  unfold cn_applied. simpl. rewrite countb_app, countb_cons. simpl. rewrite HPR.
  unfold took_effect. change (countb _ []) with 0. lia.
Qed.

(** A turn of the current call is a turn of the machine, or changes nothing it sees. *)
Lemma sim_rpc w q h st xs rt k w' q' h' xs' t :
  sim (mkclerk_net w q h st xs rt None k) t ->
  processReq put_req others (mkrpc w q h xs) (mkrpc w' q' h' xs') ->
  exists t', (t = t' \/ put_step true args t t') /\ sim (mkclerk_net w' q' h' st xs' rt None k) t'.
Proof using HPA HPR.
  intros [S1 S2 S3 S4 S5 S6 S7 S8] Hstep. simpl in *.
  inversion Hstep; subst; clear Hstep; simpl in *.
  all: try (exists t; split; [by left|]; split; simpl; try done; unfold call_inv in *;
    repeat case_match; destruct_and?; simplify_eq/=; split_and?; try done; naive_solver).
  - destruct (kv_dispatch w p rs (app w) rs' a' r S1) as (-> & -> & Hs); [done|done|].
    exists (mkput_state (KvServer.Put (srv t) args).1 (Executed (KvServer.Put (srv t) args).2)
       (stale t) (retried t) (applied t + took_effect (KvServer.Put (srv t) args).2) (result t)).
    split; [right; apply step_exec; congruence|].
    destruct S2 as [Hh Hwt]. split; simpl; try done.
    + eapply heap_ok_insert; [done|]. rewrite Hs. by eapply S1.
    + split_and!; [by eexists|done|by left].
    + by rewrite S3.
    + by rewrite S3, HPR.
    + rewrite S3, S7. symmetry. apply applied_snoc.
  - match goal with H : others _ _ |- _ => rename H into Ho end.
    pose proof (heap_ok_others _ _ S1 Ho) as Hw'. destruct Ho as [w rn|w p|w a].
    1-2: exists t; split; [by left|]; by split.
    exists (mkput_state (KvServer.Put (srv t) a).1 (cur t) (stale t) (retried t) (applied t) (result t)).
    split; [right; apply step_other|]. split; simpl; try done. by rewrite S3.
Qed.

Lemma clerk_step_sim s s' t :
  sim s t -> clerk_step s s' ->
  exists t', (((t = t' \/ put_step true args t t') /\ cn_restarts s' = cn_restarts s) \/
    (t' = restart t /\ cn_restarts s' = S (cn_restarts s))) /\ sim s' t'.
Proof using HPA HPR.
  intros Hsim Hstep. destruct Hstep as [w q h st xs rt k w' q' h' xs' Hp|w w' q h st xs rt res k Ho|
    w q h st xs rt res k name p Hp|w q h st1 p st2 xs rt res k rs rs' kv' r Hp Hd|w h st xs rt k Hc|
    w h st xs rt k rep old Hc|w h st xs rt k rep old v Hc].
  3: { exists (restart t). split; [by right|]. destruct Hsim as [S1 S2 S3 S4 S5 S6 S7 S8]. split; try done.
    intros q' rs Hq. simpl in Hq. apply lookup_singleton_Some in Hq as [<- <-]. apply lookup_insert_eq. }
  all: cbn [cn_restarts]; match goal with |- exists t', _ /\ sim ?s' _ =>
    cut (exists t', (t = t' \/ put_step true args t t') /\ sim s' t'); [naive_solver|] end.
  - by eapply sim_rpc.
  - destruct Hsim as [S1 S2 S3 S4 S5 S6 S7 S8]. simpl in *.
    pose proof (heap_ok_others _ _ S1 Ho) as Hw'. destruct Ho as [w rn|w p|w a].
    1-2: exists t; split; [by left|]; by split.
    exists (mkput_state (KvServer.Put (srv t) a).1 (cur t) (stale t) (retried t) (applied t) (result t)).
    split; [right; apply step_other|]. split; simpl; try done. by rewrite S3.
  - destruct Hsim as [S1 S2 S3 S4 S5 S6 S7 S8]. simpl in *.
    destruct (kv_dispatch w p rs (app w) rs' kv' r S1 Hp Hd) as (-> & -> & Hs).
    eexists. split; [right; apply (step_exec_stale _ _ _ (length (st1 ++ st2)))|].
    { rewrite S5, !length_app. simpl. lia. }
    split; simpl; try done.
    + eapply heap_ok_insert; [done|]. rewrite Hs. by eapply S1.
    + by rewrite S3.
    + rewrite S3, S7. symmetry. apply applied_snoc.
  - destruct Hsim as [S1 S2 S3 S4 S5 S6 S7 S8]. simpl in *.
    eexists. split; [right; by apply step_lost|]. by split.
  - destruct Hsim as [S1 S2 S3 S4 S5 S6 S7 S8]. simpl in *. destruct h as [|p|r].
    + eexists. split; [right; by apply step_lost|]. split; simpl; try done. by rewrite app_nil_r.
    + eexists. split; [right; by apply step_late|]. split; simpl; try done.
      rewrite length_app. simpl. lia.
    + eexists. split; [right; by apply step_lost|]. split; simpl; try done. by rewrite app_nil_r.
  - destruct Hsim as [S1 S2 S3 S4 S5 S6 S7 S8]. simpl in *. unfold Call_result in Hc.
    destruct (ok rep) eqn:Eok; [|done].
    assert (h = HDone rep) as ->.
    { unfold call_inv in S2. destruct h as [|p|r]; simpl in S2; rewrite Eok in S2; naive_solver. }
    simpl in *. destruct (decPR (reply rep)) as [v'|] eqn:Ed; [|done]. injection Hc as ->.
    eexists. split; [right; by eapply step_return|].
    split; simpl; try done; [by rewrite Ed|by rewrite S6].
Qed.

Lemma sim_start w : heap_ok w -> sim (clerk_start w) (put_start (app w)).
Proof. intros Hw. by split. Qed.

(** A run of the system is a run of the machine with as many restarts, not longer. *)
Lemma clerk_run_sim n s s' t :
  sim s t -> nsteps clerk_step n s s' ->
  exists m t', m <= n /\ nsteps (restart_step args) m (t, cn_restarts s) (t', cn_restarts s') /\ sim s' t'.
Proof using HPA HPR.
  intros Hs Hrun. revert t Hs. induction Hrun as [s|n s s1 s' H1 _ IH]; intros t Hs.
  { exists 0, t. split_and!; [lia|constructor|done]. }
  destruct (clerk_step_sim s s1 t Hs H1) as (t1 & H & Hs1).
  destruct (IH t1 Hs1) as (m & t' & Hm & Hrun' & Hs').
  destruct H as [[[<-|H] E]|[-> E]]; rewrite E in Hrun'.
  - exists m, t'. split_and!; [lia|done|done].
  - exists (S m), t'. split_and!; [lia|eapply nsteps_l; [by apply rs_step|done]|done].
  - exists (S m), t'. split_and!; [lia|eapply nsteps_l; [by apply rs_restart|done]|done].
Qed.
End Service.

(** ** Claims *)

(** C19: [Clerk.Put] over the simulated network is a run of the abstract machine of the clerk: the
    handlers the network runs, the messages it loses, delays or fails, the calls that outlive
    their time-out and the writes of others are steps of that machine, which ends with the same
    key/value server, the same result and the same number of applied requests.  This is for runs in
    which the server is not restarted. *)
Theorem clerk_over_labrpc_refines encPA decPA encPR decPR decGA encGR e args w n s :
  decPA (encPA args) = Some args -> (forall r, decPR (encPR r) = Some r) ->
  heap_ok decPA encPR decGA encGR w ->
  nsteps (clerk_step encPA decPA encPR decPR decGA encGR e args) n (clerk_start w) s ->
  cn_restarts s = 0 ->
  exists k t, k <= n /\ nsteps (put_step true args) k (put_start (app w)) t /\
    srv t = app (cn_world s) /\ result t = cn_result s /\ applied t = cn_applied decPR s.
Proof.
  intros HPA HPR Hw Hrun Hr.
  destruct (clerk_run_sim encPA decPA encPR decPR decGA encGR e args HPA HPR n _ s (put_start (app w))
    (sim_start decPA encPR decPR decGA encGR w Hw) Hrun) as (k & t & Hk & Ht & Hs).
  rewrite Hr in Ht. exists k, t. split_and!; [done|by eapply restart_none|apply Hs..].
Qed.

(** C1: [Clerk.Put] over the simulated network, whatever the network, the tester and other clients
    do meanwhile, applies its write at most once in every life of the server: restarts, which lose the
    store, are counted.  A [Put] that returns [OK] has been applied, exactly once when the server was not
    restarted; one that returns [ErrVersion] has not, restarts or not; it returns no error but
    [ErrVersion], [ErrNoKey] and [ErrMaybe].  The bound excludes a wrap-around of the 64-bit version. *)
Theorem clerk_over_labrpc_exactly_once encPA decPA encPR decPR decGA encGR e args w n s :
  decPA (encPA args) = Some args -> (forall r, decPR (encPR r) = Some r) ->
  heap_ok decPA encPR decGA encGR w -> wf (app w) ->
  (cur_version (app w) (PutArgs_Key args) + Z.of_nat n < 2 ^ 64)%Z ->
  nsteps (clerk_step encPA decPA encPR decPR decGA encGR e args) n (clerk_start w) s ->
  cn_applied decPR s <= S (cn_restarts s) /\
  (cn_result s = Some OK -> 1 <= cn_applied decPR s) /\
  (cn_result s = Some OK -> cn_restarts s = 0 -> cn_applied decPR s = 1) /\
  (cn_result s = Some ErrVersion -> cn_applied decPR s = 0) /\
  (forall err, cn_result s = Some err -> err ∈ [OK; ErrVersion; ErrNoKey; ErrMaybe]).
Proof.
  intros HPA HPR Hw Hwf Hb Hrun.
  destruct (clerk_run_sim encPA decPA encPR decPR decGA encGR e args HPA HPR n _ s (put_start (app w))
    (sim_start decPA encPR decPR decGA encGR w Hw) Hrun) as (k & t & Hk & Ht & Hs).
  destruct (restart_results args (app w) k (t, cn_restarts s) Hwf ltac:(lia) Ht) as (A1 & A2 & A3 & A4).
  simpl in *. rewrite (sim_applied _ _ _ _ _ _ _ Hs), (sim_result _ _ _ _ _ _ _ Hs) in *.
  split_and!; [done|done| |done|done]. intros Ho Hr. specialize (A2 Ho). lia.
Qed.

(** ** Example: one [Put] that is answered *)

Definition demo_args : PutArgs := mkPutArgs "k" "v" 0.
Definition demo_encPA (a : PutArgs) : string := PutArgs_Value a.
Definition demo_decPA (s : string) : option PutArgs := Some (mkPutArgs "k" s 0).
Definition demo_encPR (r : PutReply) : string := PutReply_Err r.
Definition demo_decPR (s : string) : option PutReply := Some (mkPutReply s).
Definition demo_decGA (s : string) : option GetArgs := Some (mkGetArgs s).
Definition demo_encGR (r : GetReply) : string := GetReply_Value r.

Definition demo_kv_world : world KVServer :=
  match MakeEnd MakeNetwork "end" with
  | Ok rn => mkworld (Enable (AddServer (Connect rn "end" "server-0-0") "server-0-0" 0) "end" true)
               {[ 0 := kv_labsrv demo_decPA demo_encPR demo_decGA demo_encGR ]} MakeKVServer
  | _ => mkworld MakeNetwork ∅ MakeKVServer
  end.

Lemma demo_heap_ok : heap_ok demo_decPA demo_encPR demo_decGA demo_encGR demo_kv_world.
Proof.
  intros p rs Hp. change (heap demo_kv_world) with
    ({[ 0 := kv_labsrv demo_decPA demo_encPR demo_decGA demo_encGR ]} : gmap nat (Server KVServer)) in Hp.
  apply lookup_singleton_Some in Hp as [<- <-]. apply lookup_insert_eq.
Qed.

Lemma demo_kv_run :
  exists s, nsteps (clerk_step demo_encPA demo_decPA demo_encPR demo_decPR demo_decGA demo_encGR
      "end" demo_args) 6 (clerk_start demo_kv_world) s /\
    cn_result s = Some OK /\ cn_restarts s = 0 /\ m (app (cn_world s)) !! "k" = Some (mkvalue "v" 1).
Proof.
  eexists. split; [|split_and!].
  - eapply nsteps_l; [apply cn_rpc, (pr_start _ _ _ _ _ "server-0-0" 0 true false); reflexivity|].
    eapply nsteps_l; [apply cn_rpc, pr_spawn|].
    eapply nsteps_l; [apply cn_rpc; eapply pr_handler; [reflexivity|reflexivity]|].
    eapply nsteps_l; [apply cn_rpc, pr_receive|].
    eapply nsteps_l; [apply cn_rpc, pr_reply; reflexivity|].
    eapply nsteps_l; [eapply (cn_return _ _ _ _ _ _ _ _ _ _ _ _ _ _ _ PutReply_zero); reflexivity|].
    apply nsteps_O.
  - reflexivity.
  - reflexivity.
  - reflexivity.
Qed.

(** A restart can make a [Put] of version 0 take effect twice: the server executes the request and is
    restarted before the reply is on its way; the clerk sends it again to an empty store and returns
    [OK].  So one application per life of the server is all that holds with restarts. *)
Lemma restart_applies_twice :
  exists s, nsteps (clerk_step demo_encPA demo_decPA demo_encPR demo_decPR demo_decGA demo_encGR
      "end" demo_args) 13 (clerk_start demo_kv_world) s /\
    cn_result s = Some OK /\ cn_restarts s = 1 /\ cn_applied demo_decPR s = 2.
Proof.
  eexists. split; [|split_and!].
  - eapply nsteps_l; [apply cn_rpc, (pr_start _ _ _ _ _ "server-0-0" 0 true false); reflexivity|].
    eapply nsteps_l; [apply cn_rpc, pr_spawn|].
    eapply nsteps_l; [apply cn_rpc; eapply pr_handler; [reflexivity|reflexivity]|].
    eapply nsteps_l; [apply (cn_restart _ _ _ _ _ _ _ _ _ _ _ _ _ _ _ _ "server-0-0" 1); reflexivity|].
    eapply nsteps_l; [apply cn_rpc, pr_tick_dead; reflexivity|].
    eapply nsteps_l; [apply cn_rpc, pr_dead; by left|].
    eapply nsteps_l; [apply (cn_fail _ _ _ _ _ _ _ _ _ _ _ _ _ _ _ PutReply_zero); reflexivity|].
    eapply nsteps_l; [apply cn_rpc, (pr_start _ _ _ _ _ "server-0-0" 1 true false); reflexivity|].
    eapply nsteps_l; [apply cn_rpc, pr_spawn|].
    eapply nsteps_l; [apply cn_rpc; eapply pr_handler; [reflexivity|reflexivity]|].
    eapply nsteps_l; [apply cn_rpc, pr_receive|].
    eapply nsteps_l; [apply cn_rpc, pr_reply; reflexivity|].
    eapply nsteps_l; [eapply (cn_return _ _ _ _ _ _ _ _ _ _ _ _ _ _ _ PutReply_zero); reflexivity|].
    apply nsteps_O.
  - reflexivity.
  - reflexivity.
  - reflexivity.
Qed.

Lemma clerk_over_labrpc_refines_witness :
  exists k t, k <= 6 /\ nsteps (put_step true demo_args) k (put_start MakeKVServer) t /\
    result t = Some OK.
Proof.
  destruct demo_kv_run as (s & Hrun & Hres & Hzero & _).
  destruct (clerk_over_labrpc_refines demo_encPA demo_decPA demo_encPR demo_decPR demo_decGA demo_encGR
    "end" demo_args demo_kv_world 6 s) as (k & t & Hk & Ht & _ & Hr & _).
  - reflexivity.
  - intros [r]. reflexivity.
  - exact demo_heap_ok.
  - exact Hrun.
  - exact Hzero.
  - exists k, t. rewrite Hr. split; [exact Hk|split; [exact Ht|exact Hres]].
Defined.

Lemma clerk_over_labrpc_exactly_once_witness :
  exists s, cn_result s = Some OK /\ cn_applied demo_decPR s = 1.
Proof.
  destruct demo_kv_run as (s & Hrun & Hres & Hzero & _). exists s. split; [exact Hres|].
  destruct (clerk_over_labrpc_exactly_once demo_encPA demo_decPA demo_encPR demo_decPR demo_decGA
    demo_encGR "end" demo_args demo_kv_world 6 s) as (_ & _ & H & _).
  - reflexivity.
  - intros [r]. reflexivity.
  - exact demo_heap_ok.
  - intros k v Hk. discriminate Hk.
  - reflexivity.
  - exact Hrun.
  - exact (H Hres Hzero).
Defined.
