(* ===== verification/Rand.v ===== *)
(** * Random strings and random orders

    Model of the randomised helpers of the test harness: [Randstring] and [random_handles] of
    [src/src/tester1/config.go], [RandValue] of [src/src/kvtest1/kvtest.go].  The random numbers
    are arguments: bytes of [crypto/rand], numbers of [math/rand].  The URL alphabet and the
    padding of [encoding/base64] are those of the Go library. *)

From S2P Require Import Prelude GoStrings.

(** ** base64, URL encoding *)

Definition encodeURL : string := "ABCDEFGHIJKLMNOPQRSTUVWXYZabcdefghijklmnopqrstuvwxyz0123456789-_".

Definition StdPadding : Ascii.ascii := Ascii.ascii_of_nat 61.

(** [encodeURL[d]]; a value of six bits is an index in range. *)
Definition digit (d : Z) : Ascii.ascii := default StdPadding (String.get (Z.to_nat d) encodeURL).

(** The six bits of [val] from bit [k]. *)
Definition six (val : Z) (k : Z) : Ascii.ascii := digit (Z.land (Z.shiftr val k) 63).

(** Three bytes give four characters; a rest of one or two bytes is padded. *)
Fixpoint EncodeToString (src : list Z) : string :=
  match src with
  | b0 :: b1 :: b2 :: rest =>
      let val := Z.lor (Z.lor (Z.shiftl b0 16) (Z.shiftl b1 8)) b2 in
      String (six val 18) (String (six val 12) (String (six val 6) (String (six val 0)
        (EncodeToString rest))))
  | [b0; b1] =>
      let val := Z.lor (Z.shiftl b0 16) (Z.shiftl b1 8) in
      String (six val 18) (String (six val 12) (String (six val 6) (String StdPadding "")))
  | [b0] =>
      let val := Z.shiftl b0 16 in
      String (six val 18) (String (six val 12) (String StdPadding (String StdPadding "")))
  | [] => ""
  end.

(** ** [config.go] *)

(** [s[0:n]]. *)
Definition slice_prefix (s : string) (n : nat) : go string :=
  if n <=? String.length s then Ok (String.substring 0 n s)
  else Panic "slice bounds out of range".

(** [b]: the [2*n] bytes [crand.Read] delivers. *)
Definition Randstring (n : nat) (b : list Z) : go string := slice_prefix (EncodeToString b) n.

(** [sa[i], sa[j] = sa[j], sa[i]]. *)
Definition swap {A} (sa : list A) (i j : nat) : go (list A) :=
  let! x := slice_get sa (Z.of_nat j) in
  let! y := slice_get sa (Z.of_nat i) in
  let! sa := slice_set sa (Z.of_nat i) x in
  slice_set sa (Z.of_nat j) y.

(** [draws !! i] is what [rand.Intn(i + 1)] returns, one number for each handle. *)
Definition random_handles {A} (kvh : list A) (draws : list nat) : go (list A) :=
  fold_go (fun sa ij => swap sa ij.1 ij.2) (imap pair draws) kvh.

(** ** [kvtest.go] *)

Definition letterBytes : string := "abcdefghijklmnopqrstuvwxyzABCDEFGHIJKLMNOPQRSTUVWXYZ".

(** [letterBytes[r % len(letterBytes)]], with Go's remainder. *)
Definition rand_letter (r : Z) : go Ascii.ascii :=
  let i := Z.rem r (Z.of_nat (String.length letterBytes)) in
  if bool_decide (i < 0)%Z then Panic "index out of range"
  else match String.get (Z.to_nat i) letterBytes with
       | Some c => Ok c
       | None => Panic "index out of range"
       end.

(** The results of [rand.Int63()], one for each byte. *)
Fixpoint RandValue (rs : list Z) : go string :=
  match rs with
  | [] => Ok ""
  | r :: rs =>
      let! c := rand_letter r in
      let! s := RandValue rs in
      Ok (String c s)
  end.

(** ** Characters of the encoding *)

Lemma six_value v k : (0 <= k)%Z -> Z.land (Z.shiftr v k) 63 = ((v / 2 ^ k) mod 64)%Z.
Proof. intros Hk. rewrite Z.shiftr_div_pow2 by done. apply (Z.land_ones _ 6). lia. Qed.

Lemma six_range v k : (0 <= Z.land (Z.shiftr v k) 63 < 64)%Z.
Proof.
  change 63%Z with (Z.ones 6). rewrite Z.land_ones by lia. apply Z.mod_pos_bound. lia.
Qed.

Lemma digits_NoDup : NoDup ((fun d => digit (Z.of_nat d)) <$> seq 0 64).
Proof. apply (bool_decide_unpack _). by vm_compute. Qed.

Lemma digit_inj d d' :
  (0 <= d < 64)%Z -> (0 <= d' < 64)%Z -> digit d = digit d' -> d = d'.
Proof.
  intros Hd Hd' E.
  assert (Z.to_nat d = Z.to_nat d') as ?; [|lia].
  eapply NoDup_lookup; [exact digits_NoDup|..].
  - rewrite list_lookup_fmap, lookup_seq_lt by lia. simpl. by rewrite Z2Nat.id by lia.
  - rewrite list_lookup_fmap, lookup_seq_lt by lia. simpl. rewrite Z2Nat.id by lia. by rewrite E.
Qed.

Lemma digits_not_padding : Forall (fun d => digit (Z.of_nat d) ≠ StdPadding) (seq 0 64).
Proof. apply (bool_decide_unpack _). by vm_compute. Qed.

Lemma six_not_padding v k : six v k ≠ StdPadding.
Proof.
  unfold six. pose proof (six_range v k). generalize dependent (Z.land (Z.shiftr v k) 63).
  intros d Hd. pose proof digits_not_padding as Hf. rewrite Forall_forall in Hf.
  rewrite <- (Z2Nat.id d) by lia. apply Hf. apply elem_of_seq. lia.
Qed.

(** The three bytes of a group occupy different bits. *)
Lemma lor_shift a b : (0 <= b < 2 ^ 8)%Z -> Z.lor (Z.shiftl a 8) b = (a * 2 ^ 8 + b)%Z.
Proof.
  intros Hb. rewrite <- Z.shiftl_mul_pow2 by lia. rewrite <- Z.add_lor_land.
  assert (Z.land (Z.shiftl a 8) b = 0%Z) as ->; [|lia].
  apply Z.bits_inj'. intros n Hn. rewrite Z.land_spec, Z.bits_0.
  destruct (decide (n < 8)%Z); [by rewrite Z.shiftl_spec_low by lia|].
  replace b with (b mod 2 ^ 8)%Z by (apply Z.mod_small; lia).
  rewrite Z.mod_pow2_bits_high by lia. apply andb_false_r.
Qed.

Definition byte (b : Z) : Prop := (0 <= b < 256)%Z.

Lemma group_value b0 b1 b2 :
  byte b1 -> byte b2 ->
  Z.lor (Z.lor (Z.shiftl b0 16) (Z.shiftl b1 8)) b2 = (b0 * 65536 + b1 * 256 + b2)%Z.
Proof.
  unfold byte. intros H1 H2.
  assert (Z.lor (Z.shiftl b0 16) (Z.shiftl b1 8) = Z.shiftl (b0 * 256 + b1) 8) as ->.
  { change 16%Z with (8 + 8)%Z. rewrite <- Z.shiftl_shiftl by lia. rewrite <- Z.shiftl_lor.
    f_equal. apply lor_shift. lia. }
  rewrite lor_shift by lia. lia.
Qed.

Lemma sixes_value v :
  (0 <= v < 2 ^ 24)%Z ->
  v = ((v / 2 ^ 18) mod 64 * 2 ^ 18 + (v / 2 ^ 12) mod 64 * 2 ^ 12 + (v / 2 ^ 6) mod 64 * 2 ^ 6 +
       (v / 2 ^ 0) mod 64)%Z.
Proof.
  intros Hv. change (2 ^ 24)%Z with 16777216%Z in Hv. change (2 ^ 18)%Z with 262144%Z.
  change (2 ^ 12)%Z with 4096%Z. change (2 ^ 6)%Z with 64%Z. change (2 ^ 0)%Z with 1%Z.
  Z.to_euclidean_division_equations. lia.
Qed.

(** The four characters determine the three bytes. *)
Lemma group_inj b0 b1 b2 b0' b1' b2' v v' :
  byte b0 -> byte b1 -> byte b2 -> byte b0' -> byte b1' -> byte b2' ->
  v = Z.lor (Z.lor (Z.shiftl b0 16) (Z.shiftl b1 8)) b2 ->
  v' = Z.lor (Z.lor (Z.shiftl b0' 16) (Z.shiftl b1' 8)) b2' ->
  six v 18 = six v' 18 -> six v 12 = six v' 12 -> six v 6 = six v' 6 -> six v 0 = six v' 0 ->
  b0 = b0' /\ b1 = b1' /\ b2 = b2'.
Proof.
  intros H0 H1 H2 H0' H1' H2' -> ->. rewrite !group_value by done. unfold six, byte in *.
  intros E1%digit_inj E2%digit_inj E3%digit_inj E4%digit_inj; try apply six_range.
  rewrite !six_value in * by lia.
  pose proof (sixes_value (b0 * 65536 + b1 * 256 + b2) ltac:(lia)).
  pose proof (sixes_value (b0' * 65536 + b1' * 256 + b2') ltac:(lia)). lia.
Qed.

(** ** Prefixes of the encoding *)

(** Induction over groups of three. *)
Lemma groups_ind {A} (P : list A -> Prop) :
  P [] -> (forall x, P [x]) -> (forall x y, P [x; y]) ->
  (forall x y z l, P l -> P (x :: y :: z :: l)) -> forall l, P l.
Proof.
  intros H0 H1 H2 H3. fix IH 1. intros [|x [|y [|z l]]]; [apply H0|apply H1|apply H2|].
  apply H3, IH.
Qed.

(** A character of the alphabet. *)
Definition url_char (c : Ascii.ascii) : bool :=
  existsb (Ascii.eqb c) (String.list_ascii_of_string encodeURL).

Lemma url_char_six v k : url_char (six v k).
Proof.
  unfold six. pose proof (six_range v k). generalize dependent (Z.land (Z.shiftr v k) 63).
  intros d Hd.
  assert (Forall (fun d => url_char (digit (Z.of_nat d))) (seq 0 64)) as Hf by (apply (bool_decide_unpack _); by vm_compute).
  rewrite Forall_forall in Hf. rewrite <- (Z2Nat.id d) by lia. apply Hf, elem_of_seq. lia.
Qed.

(** As long as the bytes last, the characters are letters of the alphabet and no padding. *)
Lemma EncodeToString_prefix src m :
  3 * m <= 4 * length src ->
  m <= String.length (EncodeToString src) /\
  String.length (String.substring 0 m (EncodeToString src)) = m /\
  Forall url_char (String.list_ascii_of_string (String.substring 0 m (EncodeToString src))).
Proof.
  revert m. induction src as [|x|x y|x y z l IH] using groups_ind; intros m Hm; simpl in Hm.
  1-3: destruct m as [|[|[|m]]]; [..|lia]; try lia; cbn [EncodeToString String.substring
    String.length String.list_ascii_of_string]; split_and!; try lia;
    repeat (apply Forall_cons; split); try apply Forall_nil; auto using url_char_six.
  destruct m as [|[|[|[|m]]]]; cbn [EncodeToString String.substring String.length
    String.list_ascii_of_string];
    [split_and!; try lia; repeat (apply Forall_cons; split); try apply Forall_nil;
     auto using url_char_six..|].
  destruct (IH m ltac:(lia)) as (H1 & H2 & H3). split_and!; [lia|lia|].
  repeat (apply Forall_cons; split); auto using url_char_six.
Qed.

(** The first [4*k] characters say as much as the first [3*k] bytes. *)
Lemma EncodeToString_groups k b b' :
  Forall byte b -> Forall byte b' -> 3 * k <= length b -> 3 * k <= length b' ->
  (String.substring 0 (4 * k) (EncodeToString b) = String.substring 0 (4 * k) (EncodeToString b') <->
   take (3 * k) b = take (3 * k) b').
Proof.
  revert b b'. induction k as [|k IH]; intros b b' Hb Hb' Hl Hl'.
  { simpl. split; intros; [done|]. by destruct (EncodeToString b), (EncodeToString b'). }
  destruct b as [|z [|z0 [|z1 b]]]; [simpl in Hl; lia..|].
  destruct b' as [|z2 [|z3 [|z4 b']]]; [simpl in Hl'; lia..|].
  simpl length in *.
  replace (4 * S k) with (S (S (S (S (4 * k))))) by lia.
  replace (3 * S k) with (S (S (S (3 * k)))) by lia.
  cbn [EncodeToString String.substring take]. cbv zeta.
  repeat match goal with H : Forall byte (_ :: _) |- _ => apply Forall_cons in H as [? H] end.
  specialize (IH b b' ltac:(done) ltac:(done) ltac:(lia) ltac:(lia)). split.
  - intros E. injection E as E1 E2 E3 E4 E5.
    edestruct (group_inj z z0 z1 z2 z3 z4) as (-> & -> & ->); try done.
    do 3 f_equal. by apply IH.
  - intros E. injection E as -> -> -> E. do 4 f_equal. by apply IH.
Qed.

Lemma Randstring_Ok n b :
  length b = 2 * n -> Randstring n b = Ok (String.substring 0 n (EncodeToString b)).
Proof.
  intros Hb. destruct (EncodeToString_prefix b n) as (H & _); [lia|].
  unfold Randstring, slice_prefix. by rewrite (proj2 (Nat.leb_le _ _) H).
Qed.

(** Two random names of [4*k] characters. *)
Lemma Randstring_eq k b b' :
  Forall byte b -> Forall byte b' -> length b = 2 * (4 * k) -> length b' = 2 * (4 * k) ->
  (Randstring (4 * k) b = Randstring (4 * k) b' <-> take (3 * k) b = take (3 * k) b').
Proof.
  intros Hb Hb' Hl Hl'. rewrite !Randstring_Ok by done.
  rewrite <- EncodeToString_groups by (done || lia). split; [by intros [= ?]|by intros ->].
Qed.

(** ** The shuffle *)

Section Shuffle.
Context {A : Type}.
Implicit Types (l r p : list A) (js : list nat).

Lemma swap_Ok l i j x y :
  l !! i = Some y -> l !! j = Some x -> swap l i j = Ok (<[j := y]> (<[i := x]> l)).
Proof.
  intros Hi Hj. unfold swap. rewrite (slice_get_lookup _ _ _ Hj). cbn [go_bind].
  rewrite (slice_get_lookup _ _ _ Hi). cbn [go_bind]. unfold slice_set.
  pose proof (lookup_lt_Some _ _ _ Hi). pose proof (lookup_lt_Some _ _ _ Hj).
  rewrite bool_decide_eq_true_2 by lia. cbn [go_bind]. rewrite length_insert.
  rewrite bool_decide_eq_true_2 by lia. by rewrite !Nat2Z.id.
Qed.

(** What a swap with the last element does. *)
Definition swap_last r (x : A) (j : nat) : list A :=
  match r !! j with Some y => <[j := x]> r ++ [y] | None => r ++ [x] end.

Lemma swap_last_Ok r x j : j <= length r -> swap (r ++ [x]) (length r) j = Ok (swap_last r x j).
Proof.
  intros Hj. unfold swap_last.
  assert ((r ++ [x]) !! length r = Some x) as Hx by by apply list_lookup_middle.
  destruct (r !! j) as [y|] eqn:Ey.
  - pose proof (lookup_lt_Some _ _ _ Ey) as Hlt.
    rewrite (swap_Ok _ _ _ y x); [|done|by apply lookup_app_l_Some].
    rewrite (insert_app_r_alt r), Nat.sub_diag by lia. simpl. by rewrite insert_app_l.
  - apply lookup_ge_None in Ey. assert (j = length r) as -> by lia.
    rewrite (swap_Ok _ _ _ x x) by done. rewrite !list_insert_id; try done.
    by rewrite list_insert_id.
Qed.

Lemma length_swap_last r x j : length (swap_last r x j) = S (length r).
Proof.
  unfold swap_last. destruct (r !! j); rewrite length_app, ?length_insert; simpl; lia.
Qed.

Lemma swap_last_perm r x j : swap_last r x j ≡ₚ r ++ [x].
Proof.
  unfold swap_last. destruct (r !! j) as [y|] eqn:Ey; [|done].
  rewrite <- (take_drop_middle _ _ _ Ey) at 2.
  pose proof (lookup_lt_Some _ _ _ Ey) as Hlt. rewrite insert_take_drop by done.
  rewrite <- !(assoc_L (++)). simpl. apply Permutation_app_head.
  rewrite <- !Permutation_cons_append. apply Permutation_swap.
Qed.

(** Swaps below the end leave the rest alone. *)
Lemma swaps_app (ijs : list (nat * nat)) l s :
  Forall (fun ij => ij.1 < length l /\ ij.2 < length l) ijs ->
  exists r, fold_go (fun sa ij => swap sa ij.1 ij.2) ijs l = Ok r /\ length r = length l /\
    fold_go (fun sa ij => swap sa ij.1 ij.2) ijs (l ++ s) = Ok (r ++ s).
Proof.
  revert l. induction ijs as [|[i j] ijs IH]; intros l Hf; simpl; [by eauto|].
  apply Forall_cons in Hf as [[Hi Hj] Hf]. simpl in Hi, Hj.
  destruct (lookup_lt_is_Some_2 _ _ Hi) as [y Hy], (lookup_lt_is_Some_2 _ _ Hj) as [x Hx].
  rewrite (swap_Ok _ _ _ x y) by done. rewrite (swap_Ok _ _ _ x y) by by apply lookup_app_l_Some.
  cbn [go_bind]. rewrite !insert_app_l by (rewrite ?length_insert; lia).
  destruct (IH (<[j := y]> (<[i := x]> l))) as (r & -> & Hl & ->).
  { by rewrite !length_insert. }
  rewrite !length_insert in Hl. by eauto.
Qed.

(** Draws that [rand.Intn] may deliver. *)
Definition valid_draws js : Prop := forall i j, js !! i = Some j -> j <= i.

Lemma valid_draws_snoc js j : valid_draws (js ++ [j]) <-> valid_draws js /\ j <= length js.
Proof.
  unfold valid_draws. split.
  - intros H. split.
    + intros i k Hk. apply H. by apply lookup_app_l_Some.
    + apply H. by apply list_lookup_middle.
  - intros [H Hj] i k. rewrite lookup_snoc_Some. intros [[_ Hk]|[-> <-]]; auto.
Qed.

Lemma random_handles_snoc l x js j :
  length js = length l -> valid_draws (js ++ [j]) ->
  exists r, random_handles l js = Ok r /\ length r = length l /\
    random_handles (l ++ [x]) (js ++ [j]) = Ok (swap_last r x j).
Proof.
  intros Hlen [Hv Hj]%valid_draws_snoc. unfold random_handles.
  destruct (swaps_app (imap pair js) l [x]) as (r & Hr & Hl & Hs).
  { apply Forall_lookup. intros i [a b]. rewrite list_lookup_imap_Some.
    intros (k & Hk & [= -> ->]). apply Hv in Hk as Hle. apply lookup_lt_Some in Hk. simpl. lia. }
  exists r. split_and!; [done|done|]. rewrite imap_app, fold_go_app, Hs. simpl.
  rewrite Nat.add_0_r, Hlen, <- Hl, swap_last_Ok by lia. done.
Qed.

Lemma random_handles_perm l js :
  length js = length l -> valid_draws js -> exists r, random_handles l js = Ok r /\ r ≡ₚ l.
Proof.
  revert js. induction l as [|x l IH] using rev_ind; intros js Hlen Hv.
  { apply nil_length_inv in Hlen as ->. by exists []. }
  destruct js as [|j js _] using rev_ind; [rewrite length_app in Hlen; simpl in Hlen; lia|].
  rewrite !length_app in Hlen. simpl in Hlen.
  destruct (random_handles_snoc l x js j) as (r & Hr & _ & ->); [lia|done|].
  destruct (IH js) as (r' & Hr' & Hp); [lia|by apply valid_draws_snoc in Hv as [? _]|].
  assert (r' = r) as -> by congruence. eexists. split; [done|]. by rewrite swap_last_perm, Hp.
Qed.

(** Where [x] is in the result tells the last draw, and the rest tells the others. *)
Lemma swap_last_inj r r' x j j' :
  x ∉ r -> x ∉ r' -> length r' = length r -> j <= length r -> j' <= length r ->
  swap_last r x j = swap_last r' x j' -> j = j' /\ r = r'.
Proof.
  intros Hx Hx' Hlen Hj Hj' E.
  assert (forall r j, x ∉ r -> j <= length r -> swap_last r x j !! j = Some x /\
    forall i, swap_last r x j !! i = Some x -> i = j) as Hpos.
  { clear. intros r j Hx Hj. unfold swap_last. destruct (r !! j) as [y|] eqn:Ey.
    - pose proof (lookup_lt_Some _ _ _ Ey) as Hlt. split.
      + rewrite lookup_app_l by by rewrite length_insert. by apply list_lookup_insert_eq.
      + intros i. rewrite lookup_snoc_Some, list_lookup_insert_Some.
        intros [[_ [[-> _]|[_ Hi]]]|[_ <-]]; [done|..]; destruct Hx;
          by eapply list_elem_of_lookup_2.
    - apply lookup_ge_None in Ey. assert (j = length r) as -> by lia.
      split; [by apply list_lookup_middle|]. intros i. rewrite lookup_snoc_Some.
      intros [[_ Hi]|[-> _]]; [|done]. destruct Hx. by eapply list_elem_of_lookup_2. }
  destruct (Hpos r j Hx Hj) as [H1 _], (Hpos r' j' Hx' ltac:(lia)) as [_ H2].
  rewrite E in H1. apply H2 in H1 as <-. split; [done|].
  unfold swap_last in E. destruct (r !! j) as [y|] eqn:Ey, (r' !! j) as [y'|] eqn:Ey'.
  - apply app_inj_2 in E as [E [= <-]]; [|done].
    rewrite <- (list_insert_id r j y), <- (list_insert_id r' j y) by done.
    apply (f_equal (insert j y)) in E. by rewrite !list_insert_insert_eq in E.
  - apply lookup_ge_None in Ey'. apply lookup_lt_Some in Ey. lia.
  - apply lookup_ge_None in Ey. apply lookup_lt_Some in Ey'. lia.
  - by apply app_inj_2 in E as [-> _].
Qed.

Lemma random_handles_inj l js js' r :
  NoDup l -> length js = length l -> length js' = length l -> valid_draws js -> valid_draws js' ->
  random_handles l js = Ok r -> random_handles l js' = Ok r -> js = js'.
Proof.
  revert js js' r. induction l as [|x l IH] using rev_ind; intros js js' r Hnd Hl Hl' Hv Hv' Hr Hr'.
  { apply nil_length_inv in Hl as ->. by apply nil_length_inv in Hl' as ->. }
  destruct js as [|j js _] using rev_ind; [rewrite length_app in Hl; simpl in Hl; lia|].
  destruct js' as [|j' js' _] using rev_ind; [rewrite length_app in Hl'; simpl in Hl'; lia|].
  rewrite !length_app in Hl, Hl'. simpl in Hl, Hl'.
  apply NoDup_app in Hnd as (Hnd & Hx & _).
  assert (x ∉ l) as Hxl by (intros Hin; apply (Hx x Hin); by apply list_elem_of_singleton).
  pose proof (proj1 (valid_draws_snoc _ _) Hv) as [Hvs Hj].
  pose proof (proj1 (valid_draws_snoc _ _) Hv') as [Hvs' Hj'].
  destruct (random_handles_snoc l x js j) as (r1 & E1 & L1 & R1); [lia|done|].
  destruct (random_handles_snoc l x js' j') as (r2 & E2 & L2 & R2); [lia|done|].
  destruct (random_handles_perm l js) as (q1 & Q1 & P1); [lia|done|].
  destruct (random_handles_perm l js') as (q2 & Q2 & P2); [lia|done|].
  assert (q1 = r1) as -> by congruence. assert (q2 = r2) as -> by congruence.
  destruct (swap_last_inj r1 r2 x j j') as [<- <-]; [by rewrite P1|by rewrite P2|lia|lia|lia|
    congruence|].
  f_equal. eapply IH; try done; lia.
Qed.

(** Every order comes from some draws. *)
Lemma swap_last_onto p l x :
  p ≡ₚ l ++ [x] -> exists r j, r ≡ₚ l /\ j <= length l /\ p = swap_last r x j.
Proof.
  intros Hp. assert (x ∈ p) as Hx by (rewrite Hp; set_solver).
  pose proof (Permutation_length Hp) as Hlen. rewrite length_app in Hlen. simpl in Hlen.
  destruct p as [|y q _] using rev_ind; [simpl in Hlen; lia|].
  rewrite length_app in Hlen. simpl in Hlen.
  apply elem_of_app in Hx as [[j Hj]%list_elem_of_lookup_1|<-%list_elem_of_singleton].
  - exists (<[j := y]> q), j. pose proof (lookup_lt_Some _ _ _ Hj) as Hlt. split_and!; [|lia|].
    + apply (Permutation_app_inv_r [x]). rewrite <- Hp.
      rewrite <- (take_drop_middle _ _ _ Hj) at 2. rewrite insert_take_drop by done.
      rewrite <- !(assoc_L (++)). simpl. apply Permutation_app_head.
      rewrite <- !Permutation_cons_append. apply Permutation_swap.
    + unfold swap_last. rewrite list_lookup_insert_eq by done.
      by rewrite list_insert_insert_eq, list_insert_id.
  - exists q, (length l). split_and!; [by apply (Permutation_app_inv_r [x])|done|].
    unfold swap_last. by rewrite lookup_ge_None_2 by lia.
Qed.

Lemma random_handles_onto l p :
  p ≡ₚ l -> exists js, length js = length l /\ valid_draws js /\ random_handles l js = Ok p.
Proof.
  revert p. induction l as [|x l IH] using rev_ind; intros p Hp.
  { apply Permutation_nil_r in Hp as ->. exists []. split_and!; [done| |done]. by intros ? ?. }
  destruct (swap_last_onto _ _ _ Hp) as (r & j & Hr & Hj & ->).
  destruct (IH r Hr) as (js & Hl & Hv & E). exists (js ++ [j]).
  assert (valid_draws (js ++ [j])) as Hv' by (apply valid_draws_snoc; split; [done|lia]).
  split_and!; [rewrite !length_app; simpl; lia|done|].
  destruct (random_handles_snoc l x js j) as (r' & E' & _ & ->); [lia|done|].
  by assert (r' = r) as -> by congruence.
Qed.
End Shuffle.

(** ** Random letters *)

Lemma letters : Forall (fun i => exists c, String.get i letterBytes = Some c /\
    count_char c letterBytes = 1) (seq 0 52).
Proof. repeat constructor; eexists; (split; [reflexivity|by vm_compute]). Qed.

Lemma rand_letter_Ok r :
  (0 <= r)%Z -> exists c, rand_letter r = Ok c /\ count_char c letterBytes = 1.
Proof.
  intros Hr. unfold rand_letter. change (Z.of_nat (String.length letterBytes)) with 52%Z.
  pose proof (Z.rem_bound_pos r 52 Hr ltac:(lia)) as Hb.
  rewrite bool_decide_eq_false_2 by lia.
  destruct (proj1 (Forall_forall _ _) letters (Z.to_nat (Z.rem r 52))) as (c & -> & Hc).
  { apply elem_of_seq. lia. }
  by exists c.
Qed.

(** [rand.Int63] is never negative, so [RandValue] never indexes out of range. *)
Lemma RandValue_Ok rs :
  Forall (fun r => 0 <= r)%Z rs -> exists s, RandValue rs = Ok s /\ String.length s = length rs.
Proof.
  induction 1 as [|r rs Hr _ (s & IH & Hl)]; [by exists ""|]. simpl.
  destruct (rand_letter_Ok r Hr) as (c & -> & _). simpl. rewrite IH. exists (String c s).
  split; [done|]. simpl. by rewrite Hl.
Qed.

(** [Randstring(n)] never slices out of range: the encoding of the [2*n] random bytes is long
    enough, and the [n] characters returned are characters of the URL alphabet, never padding. *)
Theorem Randstring_bounds n b :
  length b = 2 * n ->
  exists s, Randstring n b = Ok s /\ String.length s = n /\
    Forall url_char (String.list_ascii_of_string s) /\ count_char StdPadding s = 0.
Proof.
  intros Hb. rewrite Randstring_Ok by done. eexists. split; [done|].
  destruct (EncodeToString_prefix b n) as (_ & Hl & Hf); [lia|]. split_and!; [done|done|].
  revert Hf. generalize (String.substring 0 n (EncodeToString b)). intros s.
  induction s as [|c s IH]; [done|]. cbn [String.list_ascii_of_string]. intros [Hc Hf]%Forall_cons.
  cbn [count_char]. rewrite IH by done. case_bool_decide as E; [|done]. subst c. by vm_compute in Hc.
Qed.

Lemma Randstring_bounds_witness :
  length [251; 255; 190; 7]%Z = 2 * 2 /\
  exists s, Randstring 2 [251; 255; 190; 7]%Z = Ok s /\ String.length s = 2 /\
    Forall url_char (String.list_ascii_of_string s) /\ count_char StdPadding s = 0.
Proof. split; [reflexivity|]. apply (Randstring_bounds 2). reflexivity. Defined.

(** Two names of [4*k] characters drawn by [Randstring] are equal exactly when the first [3*k]
    of their [8*k] random bytes are: the end names of 20 characters carry 15 of the 40 bytes
    drawn, all others are thrown away. *)
Theorem Randstring_collision k b b' :
  Forall byte b -> Forall byte b' -> length b = 2 * (4 * k) -> length b' = 2 * (4 * k) ->
  (Randstring (4 * k) b = Randstring (4 * k) b' <-> take (3 * k) b = take (3 * k) b').
Proof. apply Randstring_eq. Qed.

Lemma Randstring_collision_witness :
  Forall byte [1; 2; 3; 4; 5; 6; 7; 8]%Z /\
  (Randstring (4 * 1) [1; 2; 3; 4; 5; 6; 7; 8]%Z = Randstring (4 * 1) [1; 2; 3; 0; 0; 0; 0; 0]%Z <->
   take (3 * 1) [1; 2; 3; 4; 5; 6; 7; 8]%Z = take (3 * 1) [1; 2; 3; 0; 0; 0; 0; 0]%Z).
Proof.
  assert (Forall byte [1; 2; 3; 4; 5; 6; 7; 8]%Z) as H by (repeat constructor; unfold byte; lia).
  split; [exact H|]. apply Randstring_collision; [exact H| |reflexivity..].
  repeat constructor; unfold byte; lia.
Defined.

(** The shuffle of [random_handles]: with numbers [rand.Intn] may return it never panics and
    yields a permutation of the handles, and for distinct handles every permutation comes from
    exactly one sequence of draws, so equally likely draws give equally likely orders. *)
Theorem random_handles_shuffles {A} (kvh : list A) :
  (forall draws, length draws = length kvh -> valid_draws draws ->
     exists sa, random_handles kvh draws = Ok sa /\ sa ≡ₚ kvh) /\
  (NoDup kvh -> forall sa, sa ≡ₚ kvh ->
     exists! draws, length draws = length kvh /\ valid_draws draws /\
       random_handles kvh draws = Ok sa).
Proof.
  split; [apply random_handles_perm|]. intros Hnd sa Hp.
  destruct (random_handles_onto kvh sa Hp) as (js & Hl & Hv & E). exists js. split; [done|].
  intros js' (Hl' & Hv' & E'). by eapply random_handles_inj.
Qed.

Lemma random_handles_shuffles_witness :
  NoDup [10; 11; 12] /\
  exists! draws, length draws = 3 /\ valid_draws draws /\
    random_handles [10; 11; 12] draws = Ok [11; 12; 10].
Proof.
  assert (NoDup [10; 11; 12]) as H by (apply (bool_decide_unpack _); reflexivity).
  split; [exact H|]. apply (random_handles_shuffles [10; 11; 12]); [exact H|].
  apply (bool_decide_unpack _). reflexivity.
Defined.
