(* ===== verification/Tester.v ===== *)
(** * The test harness: persisters, servers, groups and clients

    Model of [src/src/tester1]: [persister.go], [srv.go], [group.go], [clnts.go].  The network is
    the one of [Labrpc]; [Persister] objects live in a heap, since a server and its old instances
    may share one; the random end names of [Randstring] are arguments.  Services are numbers and
    [Kill] records them. *)

From S2P Require Import Prelude GoStrings Labrpc.
From stdpp Require Import pretty.

(** ** Persisters *)

Record Persister := mkPersister { raftstate : list Z; snapshot : list Z }.

Definition MakePersister : Persister := mkPersister [] [].

(** A copy of the bytes. *)
Definition clone (orig : list Z) : list Z := orig.

Definition Copy (ps : Persister) : Persister := mkPersister (raftstate ps) (snapshot ps).
Definition ReadRaftState (ps : Persister) : list Z := clone (raftstate ps).
Definition RaftStateSize (ps : Persister) : nat := length (raftstate ps).
Definition Save (ps : Persister) (rs sn : list Z) : Persister := mkPersister (clone rs) (clone sn).
Definition ReadSnapshot (ps : Persister) : list Z := clone (snapshot ps).
Definition Persister_SnapshotSize (ps : Persister) : nat := length (snapshot ps).

(** ** Data of servers and groups *)

(** A server of the harness; [saved] is the address of its persister.  Its client ends are those
    named by [endNames]. *)
Record TServer := mkTServer {
  saved : option nat;
  svcs : list nat;
  endNames : list string
}.

Record ServerGrp := mkServerGrp {
  srvs : list TServer;
  servernames : list string;
  gid : Z;
  connected : list bool
}.

(** The network, the persisters, the next free address, the services killed. *)
Record lab := mklab {
  lab_net : Network;
  pers : gmap nat Persister;
  fresh : nat;
  killed : list nat
}.

Definition set_lab_net (l : lab) (rn : Network) : lab := mklab rn (pers l) (fresh l) (killed l).

(** A fresh persister. *)
Definition alloc (l : lab) (ps : Persister) : lab * nat :=
  (mklab (lab_net l) (<[fresh l := ps]> (pers l)) (S (fresh l)) (killed l), fresh l).

Definition ServerName (g : Z) (i : nat) : string :=
  "server-" +:+ pretty g +:+ "-" +:+ pretty i.

(** ** [srv.go] *)

(** The loop over [j]: a fresh end, connected to server [j]. *)
Definition makeServer_ends (g : Z) (names : list string) (rn : Network) : go Network :=
  fold_go (fun rn (jn : nat * string) =>
    let! rn := MakeEnd rn jn.2 in
    Ok (Connect rn jn.2 (ServerName g jn.1))) (imap pair names) rn.

Definition makeServer (rn : Network) (g : Z) (names : list string) : go (Network * TServer) :=
  let! rn := makeServer_ends g names rn in
  Ok (rn, mkTServer None [] names).

(** A nil pointer to a persister is [None]; a dangling one cannot arise. *)
Definition get_persister (l : lab) (p : nat) : go Persister :=
  match pers l !! p with Some ps => Ok ps | None => Panic "nil pointer dereference" end.

Definition startServer (l : lab) (s : TServer) (g : Z) (names : list string) : go (lab * TServer) :=
  let! r := makeServer (lab_net l) g names in
  let '(rn, srv) := r in
  let l := set_lab_net l rn in
  match saved s with
  | Some p =>
      let! ps := get_persister l p in
      let '(l, q) := alloc l (Copy ps) in
      Ok (l, mkTServer (Some q) (svcs srv) (endNames srv))
  | None =>
      let '(l, q) := alloc l MakePersister in
      Ok (l, mkTServer (Some q) (svcs srv) (endNames srv))
  end.

(** [connect] with [true], [disconnect] with [false]: every listed end is set. *)
Definition set_ends_to (s : TServer) (b : bool) (to : list nat) (rn : Network) : go Network :=
  fold_go (fun rn j =>
    let! e := slice_get (endNames s) (Z.of_nat j) in Ok (Enable rn e b)) to rn.

Definition srv_connect (s : TServer) (to : list nat) (rn : Network) : go Network :=
  set_ends_to s true to rn.

(** [endNames] is never nil here: it is made by [makeServer]. *)
Definition srv_disconnect (s : TServer) (from : list nat) (rn : Network) : go Network :=
  set_ends_to s false from rn.

Definition shutdownServer (l : lab) (s : TServer) : go (lab * TServer) :=
  let! r :=
    match saved s with
    | Some p => let! ps := get_persister l p in
                let '(l, q) := alloc l (Copy ps) in Ok (l, Some q)
    | None => Ok (l, None)
    end in
  let '(l, sv) := r in
  Ok (mklab (lab_net l) (pers l) (fresh l) (killed l ++ svcs s), mkTServer sv [] (endNames s)).

(** ** [group.go] *)

Definition set_connected (sg : ServerGrp) (i : nat) (b : bool) : go ServerGrp :=
  let! c := slice_set (connected sg) (Z.of_nat i) b in
  Ok (mkServerGrp (srvs sg) (servernames sg) (gid sg) c).

Definition set_srv (sg : ServerGrp) (i : nat) (s : TServer) : ServerGrp :=
  mkServerGrp (<[i := s]> (srvs sg)) (servernames sg) (gid sg) (connected sg).

(** [names i] are the end names server [i] draws. *)
Definition makeSrvGrp (rn : Network) (g : Z) (n : nat) (names : nat -> list string) :
    go (Network * ServerGrp) :=
  let! r := fold_go (fun r i =>
              let! r1 := makeServer r.1 g (names i) in Ok (r1.1, r.2 ++ [r1.2]))
              (seq 0 n) (rn, []) in
  Ok (r.1, mkServerGrp r.2 (ServerName g <$> seq 0 n) g (replicate n false)).

Definition SrvN (sg : ServerGrp) : nat := length (srvs sg).
Definition SrvNames (sg : ServerGrp) : list string := servernames sg.
Definition Services (sg : ServerGrp) : list (list nat) := svcs <$> srvs sg.

Definition SrvNamesTo (sg : ServerGrp) (to : list nat) : go (list string) :=
  fold_go (fun ns i => let! s := slice_get (servernames sg) (Z.of_nat i) in Ok (ns ++ [s])) to [].

Definition all (sg : ServerGrp) : list nat := seq 0 (length (srvs sg)).

Definition IsConnected (sg : ServerGrp) (i : nat) : go bool :=
  slice_get (connected sg) (Z.of_nat i).

(** The test is on the position [j] in [to], as in the source. *)
Definition connect (rn : Network) (sg : ServerGrp) (i : nat) (to : list nat) :
    go (Network * ServerGrp) :=
  let! sg := set_connected sg i true in
  let! si := slice_get (srvs sg) (Z.of_nat i) in
  let! rn := srv_connect si to rn in
  let! rn := fold_go (fun rn (jt : nat * nat) =>
      let! c := IsConnected sg jt.1 in
      if c : bool then
        let! s := slice_get (srvs sg) (Z.of_nat jt.2) in
        let! e := slice_get (endNames s) (Z.of_nat i) in
        Ok (Enable rn e true)
      else Ok rn) (imap pair to) rn in
  Ok (rn, sg).

Definition disconnect (rn : Network) (sg : ServerGrp) (i : nat) (from : list nat) :
    go (Network * ServerGrp) :=
  let! sg := set_connected sg i false in
  let! si := slice_get (srvs sg) (Z.of_nat i) in
  let! rn := srv_disconnect si from rn in
  let! rn := fold_go (fun rn k =>
      let! s := slice_get (srvs sg) (Z.of_nat k) in
      let! e := slice_get (endNames s) (Z.of_nat i) in
      Ok (Enable rn e false)) from rn in
  Ok (rn, sg).

Definition ConnectOne (rn : Network) (sg : ServerGrp) (i : nat) : go (Network * ServerGrp) :=
  connect rn sg i (all sg).

Definition ConnectAll (rn : Network) (sg : ServerGrp) : go (Network * ServerGrp) :=
  fold_go (fun r i => ConnectOne r.1 r.2 i) (all sg) (rn, sg).

Definition DisconnectAll (rn : Network) (sg : ServerGrp) (i : nat) : go (Network * ServerGrp) :=
  disconnect rn sg i (all sg).

Definition cleanup (l : lab) (sg : ServerGrp) : lab :=
  mklab (lab_net l) (pers l) (fresh l) (killed l ++ concat (svcs <$> srvs sg)).

(** The largest size, over all servers, of what [size] measures. *)
Definition max_size (l : lab) (sg : ServerGrp) (size : Persister -> nat) : go nat :=
  fold_go (fun m s =>
    match saved s with
    | Some p => let! ps := get_persister l p in Ok (if m <? size ps then size ps else m)
    | None => Panic "nil pointer dereference"
    end) (srvs sg) 0.

Definition LogSize (l : lab) (sg : ServerGrp) : go nat := max_size l sg RaftStateSize.
Definition SnapshotSize (l : lab) (sg : ServerGrp) : go nat := max_size l sg Persister_SnapshotSize.

(** [mks] starts the services on a persister; [obj] is the address of the RPC server object. *)
Definition StartServer (l : lab) (sg : ServerGrp) (i : nat) (names : list string)
    (mks : nat -> nat -> list nat) (obj : nat) : go (lab * ServerGrp) :=
  let! s := slice_get (srvs sg) (Z.of_nat i) in
  let! r := startServer l s (gid sg) names in
  let '(l, srv) := r in
  let srv := mkTServer (saved srv) (mks i (default 0 (saved srv))) (endNames srv) in
  Ok (set_lab_net l (AddServer (lab_net l) (ServerName (gid sg) i) obj), set_srv sg i srv).

Definition start (l : lab) (sg : ServerGrp) (names : nat -> list string)
    (mks : nat -> nat -> list nat) (obj : nat -> nat) : go (lab * ServerGrp) :=
  fold_go (fun r i => StartServer r.1 r.2 i (names i) mks (obj i)) (all sg) (l, sg).

Definition StartServers (l : lab) (sg : ServerGrp) (names : nat -> list string)
    (mks : nat -> nat -> list nat) (obj : nat -> nat) : go (lab * ServerGrp) :=
  let! r := start l sg names mks obj in
  let! r2 := ConnectAll (lab_net r.1) r.2 in
  Ok (set_lab_net r.1 r2.1, r2.2).

Definition ShutdownServer (l : lab) (sg : ServerGrp) (i : nat) : go (lab * ServerGrp) :=
  let! r := disconnect (lab_net l) sg i (all sg) in
  let '(rn, sg) := r in
  let l := set_lab_net l (DeleteServer rn (ServerName (gid sg) i)) in
  let! s := slice_get (srvs sg) (Z.of_nat i) in
  let! r := shutdownServer l s in
  Ok (r.1, set_srv sg i r.2).

Definition Shutdown (l : lab) (sg : ServerGrp) : go (lab * ServerGrp) :=
  fold_go (fun r i => ShutdownServer r.1 r.2 i) (all sg) (l, sg).

(** The loop over [i] with the next free slot [j]; at the end [p2[len(p2)-1] = l]. *)
Definition MakePartition (sg : ServerGrp) (l : nat) : go (list nat * list nat) :=
  let n := length (srvs sg) in
  let! r := fold_go (fun '(p1, p2, j) i =>
      if bool_decide (i = l) then Ok (p1, p2, j)
      else if j <? length p1 then
        let! p1 := slice_set p1 (Z.of_nat j) i in Ok (p1, p2, S j)
      else
        let! p2 := slice_set p2 (Z.of_nat (j - length p1)) i in Ok (p1, p2, S j))
      (seq 0 n) (replicate (n / 2 + 1) 0, replicate (n / 2) 0, 0) in
  let '(p1, p2, _) := r in
  let! p2 := slice_set p2 (Z.of_nat (length p2) - 1) l in
  Ok (p1, p2).

Definition partition_side (mine other : list nat) (r : Network * ServerGrp) :
    go (Network * ServerGrp) :=
  fold_go (fun r i =>
    let! r := disconnect r.1 r.2 i other in connect r.1 r.2 i mine) mine r.

Definition Partition (rn : Network) (sg : ServerGrp) (p1 p2 : list nat) :
    go (Network * ServerGrp) :=
  let! r := partition_side p1 p2 (rn, sg) in
  partition_side p2 p1 r.

(** ** [clnts.go] *)

(** The ends made so far, by server; [None] for the nil list of servers. *)
Record Clnt := mkClnt {
  clnt_ends : gmap string string;
  clnt_srvs : option (list string)
}.

Definition makeClntTo (ss : option (list string)) : Clnt := mkClnt ∅ ss.

Definition allowedL (c : Clnt) (server : string) : bool :=
  match clnt_srvs c with
  | None => true
  | Some ns => existsb (fun n => bool_decide (n = server)) ns
  end.

(** [name] is the random name of a new end. *)
Definition makeEnd (rn : Network) (c : Clnt) (server name : string) :
    go (Network * Clnt * string) :=
  match clnt_ends c !! server with
  | Some e => Ok (rn, c, e)
  | None =>
      let! rn := MakeEnd rn name in
      let rn := Connect rn name server in
      let rn := Enable rn name (allowedL c server) in
      Ok (rn, mkClnt (<[server := name]> (clnt_ends c)) (clnt_srvs c), name)
  end.

(** The visit of the ends of a client. *)
Definition enable_ends (c : Clnt) (b : bool) (rn : Network) : Network :=
  foldl (fun rn e => Enable rn e b) rn (map_to_list (clnt_ends c)).*2.

Definition Clnt_ConnectAll (rn : Network) (c : Clnt) : Network * Clnt :=
  (enable_ends c true rn, mkClnt (clnt_ends c) None).

Definition Clnt_DisconnectAll (rn : Network) (c : Clnt) : Network * Clnt :=
  (enable_ends c false rn, mkClnt (clnt_ends c) (Some [])).

(** The clients of a test, by address. *)
Record Clnts := mkClnts { clerks : gmap nat Clnt; next_clerk : nat }.

Definition makeClnts : Clnts := mkClnts ∅ 0.

Definition MakeClientTo (cs : Clnts) (ss : option (list string)) : Clnts * nat :=
  (mkClnts (<[next_clerk cs := makeClntTo ss]> (clerks cs)) (S (next_clerk cs)), next_clerk cs).

Definition MakeClient (cs : Clnts) : Clnts * nat := MakeClientTo cs None.

(** [remove] only unlinks files named like the ends. *)
Definition DeleteClient (cs : Clnts) (a : nat) : Clnts :=
  mkClnts (delete a (clerks cs)) (next_clerk cs).

(** ** Which links are up *)

(** The name of the end from server [a] to server [b]. *)
Definition ename (ss : list TServer) (a b : nat) : option string :=
  ss !! a ≫= fun s => endNames s !! b.

(** A group of [n] servers whose ends have pairwise different names. *)
Record grp_wf (n : nat) (ss : list TServer) : Prop := {
  wf_ename : forall a b, a < n -> b < n -> is_Some (ename ss a b);
  wf_inj : forall a b a' b' e, ename ss a b = Some e -> ename ss a' b' = Some e -> a = a' /\ b = b'
}.

(** RPCs from server [a] to server [b] get through. *)
Definition link (rn : Network) (ss : list TServer) (a b : nat) : Prop :=
  exists e, ename ss a b = Some e /\ is_enabled rn e = true.

Lemma is_enabled_Enable rn e v x :
  is_enabled (Enable rn e v) x = if decide (x = e) then v else is_enabled rn x.
Proof.
  unfold is_enabled, Enable. simpl. destruct (decide (x = e)) as [->|Hne].
  - by rewrite lookup_insert_eq.
  - by rewrite lookup_insert_ne.
Qed.

Section Links.
Context (n : nat) (ss : list TServer) (Hwf : grp_wf n ss).

Lemma link_Enable_true rn a b e a' b' :
  ename ss a b = Some e -> (link (Enable rn e true) ss a' b' <-> (a' = a /\ b' = b) \/ link rn ss a' b').
Proof.
  intros He. unfold link. split.
  - intros (x & Hx & Hen). rewrite is_enabled_Enable in Hen. destruct (decide (x = e)) as [->|].
    + left. by eapply wf_inj.
    + right. by eauto.
  - intros [[-> ->]|(x & Hx & Hen)].
    + exists e. split; [done|]. rewrite is_enabled_Enable. by rewrite decide_True.
    + exists x. split; [done|]. rewrite is_enabled_Enable. by destruct (decide (x = e)).
Qed.

Lemma link_Enable_false rn a b e a' b' :
  ename ss a b = Some e ->
  (link (Enable rn e false) ss a' b' <-> ~ (a' = a /\ b' = b) /\ link rn ss a' b').
Proof.
  intros He. unfold link. split.
  - intros (x & Hx & Hen). rewrite is_enabled_Enable in Hen.
    destruct (decide (x = e)) as [->|Hne]; [done|]. split; [|by eauto].
    intros [-> ->]. congruence.
  - intros [Hn (x & Hx & Hen)]. exists x. split; [done|]. rewrite is_enabled_Enable.
    rewrite decide_False; [done|]. intros ->. apply Hn. by eapply wf_inj.
Qed.

(** Reading an end name as the code does. *)
Lemma ename_get a b :
  a < n -> b < n ->
  exists s e, slice_get ss (Z.of_nat a) = Ok s /\ slice_get (endNames s) (Z.of_nat b) = Ok e /\
    ename ss a b = Some e.
Proof.
  intros Ha Hb. destruct (wf_ename _ _ Hwf a b Ha Hb) as [e He]. unfold ename in He.
  destruct (ss !! a) as [s|] eqn:Es; [|done]. simpl in He. exists s, e.
  split_and!; [by apply slice_get_lookup|by apply slice_get_lookup|]. unfold ename. by rewrite Es.
Qed.

Lemma ename_srv i s b e :
  slice_get ss (Z.of_nat i) = Ok s -> slice_get (endNames s) (Z.of_nat b) = Ok e ->
  ename ss i b = Some e.
Proof.
  intros [_ Hs]%slice_get_Ok [_ He]%slice_get_Ok. rewrite Nat2Z.id in *. unfold ename.
  by rewrite Hs.
Qed.

(** The outgoing ends of server [i]. *)
Lemma srv_connect_links rn i s to :
  i < n -> slice_get ss (Z.of_nat i) = Ok s -> Forall (fun j => j < n) to ->
  exists rn', srv_connect s to rn = Ok rn' /\
    forall a b, link rn' ss a b <-> (a = i /\ b ∈ to) \/ link rn ss a b.
Proof.
  intros Hi Hs Hto. revert rn. unfold srv_connect, set_ends_to.
  induction Hto as [|j to Hj _ IH]; intros rn; simpl.
  { exists rn. split; [done|]. intros a b. set_solver. }
  destruct (ename_get i j Hi Hj) as (s' & e & Hs' & He & Hn).
  assert (s' = s) as -> by congruence. rewrite He. simpl.
  destruct (IH (Enable rn e true)) as (rn' & -> & Hl). exists rn'. split; [done|].
  intros a b. rewrite Hl, (link_Enable_true _ i j) by done. rewrite elem_of_cons. naive_solver.
Qed.

Lemma srv_disconnect_links rn i s from :
  i < n -> slice_get ss (Z.of_nat i) = Ok s -> Forall (fun j => j < n) from ->
  exists rn', srv_disconnect s from rn = Ok rn' /\
    forall a b, link rn' ss a b <-> ~ (a = i /\ b ∈ from) /\ link rn ss a b.
Proof.
  intros Hi Hs Hto. revert rn. unfold srv_disconnect, set_ends_to.
  induction Hto as [|j to Hj _ IH]; intros rn; simpl.
  { exists rn. split; [done|]. intros a b. set_solver. }
  destruct (ename_get i j Hi Hj) as (s' & e & Hs' & He & Hn).
  assert (s' = s) as -> by congruence. rewrite He. simpl.
  destruct (IH (Enable rn e false)) as (rn' & -> & Hl). exists rn'. split; [done|].
  intros a b. rewrite Hl, (link_Enable_false _ i j) by done. rewrite elem_of_cons. naive_solver.
Qed.

(** The ends towards server [i] that [connect] enables: those at a position of [to] whose number
    is that of a connected server. *)
Definition incoming (cs : list bool) (to : list nat) (a : nat) : Prop :=
  exists j, to !! j = Some a /\ cs !! j = Some true.

Lemma connect_incoming rn sg i to k :
  srvs sg = ss -> length (connected sg) = n -> i < n -> Forall (fun j => j < n) to ->
  k + length to <= n ->
  exists rn', fold_go (fun rn (jt : nat * nat) =>
      let! c := IsConnected sg jt.1 in
      if c : bool then
        let! s := slice_get (srvs sg) (Z.of_nat jt.2) in
        let! e := slice_get (endNames s) (Z.of_nat i) in
        Ok (Enable rn e true)
      else Ok rn) (imap (fun j t => (k + j, t)) to) rn = Ok rn' /\
    forall a b, link rn' ss a b <->
      (b = i /\ incoming (drop k (connected sg)) to a) \/ link rn ss a b.
Proof.
  intros Hss Hlen Hi Hto. destruct sg as [ss' sns g cs]. simpl in Hss, Hlen. subst ss'. simpl.
  revert rn k. induction Hto as [|t to Ht _ IH]; intros rn k Hk; simpl.
  { exists rn. split; [done|]. intros a b. unfold incoming. split; [by right|].
    intros [(_ & j & Hj & _)|?]; [|done]. by rewrite lookup_nil in Hj. }
  simpl in Hk. rewrite Nat.add_0_r.
  destruct (lookup_lt_is_Some_2 cs k) as [c Hc]; [lia|].
  assert (IsConnected (mkServerGrp ss sns g cs) k = Ok c) as -> by by apply slice_get_lookup.
  cbn [go_bind].
  assert (imap ((fun j t => (k + j, t)) ∘ S) to = imap (fun j t => (S k + j, t)) to) as ->
    by (apply imap_ext; intros; simpl; f_equal; lia).
  assert (forall a, incoming (drop k cs) (t :: to) a <->
    (a = t /\ c = true) \/ incoming (drop (S k) cs) to a) as Hinc.
  { intros a. unfold incoming. split.
    - intros ([|j] & Hj & Hcj); simpl in Hj; rewrite lookup_drop in Hcj.
      + left. rewrite Nat.add_0_r in Hcj. split; congruence.
      + right. exists j. rewrite lookup_drop. by replace (S k + j) with (k + S j) by lia.
    - intros [[-> ->]|(j & Hj & Hcj)]; [exists 0|exists (S j)]; rewrite lookup_drop in *.
      + by rewrite Nat.add_0_r.
      + by replace (k + S j) with (S k + j) by lia. }
  destruct c.
  - destruct (ename_get t i Ht Hi) as (s & e & Hs & He & Hn). rewrite Hs. cbn [go_bind].
    rewrite He. cbn [go_bind].
    destruct (IH (Enable rn e true) (S k)) as (rn' & -> & Hl); [lia|].
    exists rn'. split; [done|]. intros a b. rewrite Hl, Hinc, (link_Enable_true _ t i) by done.
    naive_solver.
  - cbn [go_bind]. destruct (IH rn (S k)) as (rn' & -> & Hl); [lia|].
    exists rn'. split; [done|]. intros a b. rewrite Hl, Hinc. naive_solver.
Qed.

Lemma disconnect_incoming rn i from :
  i < n -> Forall (fun j => j < n) from ->
  exists rn', fold_go (fun rn k =>
      let! s := slice_get ss (Z.of_nat k) in
      let! e := slice_get (endNames s) (Z.of_nat i) in
      Ok (Enable rn e false)) from rn = Ok rn' /\
    forall a b, link rn' ss a b <-> ~ (b = i /\ a ∈ from) /\ link rn ss a b.
Proof.
  intros Hi Hto. revert rn. induction Hto as [|t to Ht _ IH]; intros rn; simpl.
  { exists rn. split; [done|]. intros a b. set_solver. }
  destruct (ename_get t i Ht Hi) as (s & e & Hs & He & Hn). rewrite Hs. cbn [go_bind].
  rewrite He. cbn [go_bind]. destruct (IH (Enable rn e false)) as (rn' & -> & Hl).
  exists rn'. split; [done|]. intros a b. rewrite Hl, (link_Enable_false _ t i) by done.
  rewrite elem_of_cons. naive_solver.
Qed.

(** A group whose servers are [ss]. *)
Definition is_grp (sg : ServerGrp) : Prop := srvs sg = ss /\ length (connected sg) = n.

Lemma set_connected_Ok sg i b :
  is_grp sg -> i < n -> exists sg', set_connected sg i b = Ok sg' /\ is_grp sg' /\
    connected sg' = <[i := b]> (connected sg).
Proof.
  intros [Hs Hl] Hi. unfold set_connected, slice_set.
  rewrite bool_decide_eq_true_2 by lia. rewrite Nat2Z.id. simpl. eexists. split; [done|].
  split; [|done]. split; [done|]. simpl. by rewrite length_insert.
Qed.

Lemma connect_links rn sg i to :
  is_grp sg -> i < n -> Forall (fun j => j < n) to -> length to <= n ->
  exists rn' sg', connect rn sg i to = Ok (rn', sg') /\ is_grp sg' /\
    connected sg' = <[i := true]> (connected sg) /\
    forall a b, link rn' ss a b <->
      (a = i /\ b ∈ to) \/ (b = i /\ incoming (connected sg') to a) \/ link rn ss a b.
Proof.
  intros Hg Hi Hto Hlen. destruct (set_connected_Ok sg i true Hg Hi) as (sg' & Hc & [Hs Hl] & Hcs).
  unfold connect. rewrite Hc. cbn [go_bind].
  destruct (ename_get i i Hi Hi) as (s & _ & Hsi & _). rewrite Hs, Hsi. cbn [go_bind].
  destruct (srv_connect_links rn i s to Hi Hsi Hto) as (rn1 & -> & H1). cbn [go_bind].
  destruct (connect_incoming rn1 sg' i to 0 Hs Hl Hi Hto) as (rn2 & Hf & H2); [lia|].
  change (imap pair to) with (imap (fun j t => (0 + j, t)) to).
  rewrite Hs in Hf. rewrite Hf. cbn [go_bind].
  exists rn2, sg'. split_and!; [done|done|done|].
  intros a b. rewrite H2, H1, drop_0. tauto.
Qed.

Lemma disconnect_links rn sg i from :
  is_grp sg -> i < n -> Forall (fun j => j < n) from ->
  exists rn' sg', disconnect rn sg i from = Ok (rn', sg') /\ is_grp sg' /\
    connected sg' = <[i := false]> (connected sg) /\
    forall a b, link rn' ss a b <->
      link rn ss a b /\ ~ (a = i /\ b ∈ from) /\ ~ (b = i /\ a ∈ from).
Proof.
  intros Hg Hi Hto. destruct (set_connected_Ok sg i false Hg Hi) as (sg' & Hc & [Hs Hl] & Hcs).
  unfold disconnect. rewrite Hc. cbn [go_bind].
  destruct sg' as [ss' sns g cs]. simpl in Hs, Hl, Hcs. subst ss'. simpl.
  destruct (ename_get i i Hi Hi) as (s & _ & Hsi & _). rewrite Hsi. cbn [go_bind].
  destruct (srv_disconnect_links rn i s from Hi Hsi Hto) as (rn1 & -> & H1). cbn [go_bind].
  destruct (disconnect_incoming rn1 i from Hi Hto) as (rn2 & -> & H2).
  cbn [go_bind]. exists rn2, (mkServerGrp ss sns g cs). split_and!; [done|done|done|].
  intros a b. rewrite H2, H1. tauto.
Qed.

(** ** Partitions *)

(** One turn of the loops of [Partition]. *)
Definition isolate (mine other : list nat) (r : Network * ServerGrp) (i : nat) :
    go (Network * ServerGrp) :=
  let! r := disconnect r.1 r.2 i other in connect r.1 r.2 i mine.

Lemma isolate_links mine other r i :
  is_grp r.2 -> i ∈ mine -> Forall (fun j => j < n) mine -> Forall (fun j => j < n) other ->
  length mine <= n -> (forall x, x ∈ mine -> x ∈ other -> False) ->
  exists r', isolate mine other r i = Ok r' /\ is_grp r'.2 /\
    (forall b, b ∈ mine -> link r'.1 ss i b) /\
    (forall b, b ∈ other -> ~ link r'.1 ss i b /\ ~ link r'.1 ss b i) /\
    (forall a b, a ∈ mine -> b ∈ mine -> link r.1 ss a b -> link r'.1 ss a b) /\
    (forall a b, a ∈ other -> b ∈ other -> (link r'.1 ss a b <-> link r.1 ss a b)) /\
    (forall a b, (a ∈ mine /\ b ∈ other) \/ (a ∈ other /\ b ∈ mine) ->
       link r'.1 ss a b -> link r.1 ss a b).
Proof.
  intros Hg Hi Hm Ho Hlen Hdisj.
  assert (i < n) as Hin by (rewrite Forall_forall in Hm; by apply Hm).
  destruct (disconnect_links r.1 r.2 i other Hg Hin Ho) as (rn1 & sg1 & Hd & Hg1 & _ & L1).
  destruct (connect_links rn1 sg1 i mine Hg1 Hin Hm Hlen) as (rn2 & sg2 & Hc & Hg2 & _ & L2).
  assert (forall a, incoming (connected sg2) mine a -> a ∈ mine) as Hinc
    by (intros a (j & Hj & _); by eapply list_elem_of_lookup_2).
  exists (rn2, sg2). unfold isolate. rewrite Hd. split; [exact Hc|]. simpl.
  split; [done|]. split_and!.
  - intros b Hb. apply L2. by left.
  - intros b Hb. split; rewrite L2, L1; intros [[? ?]|[[? ?%Hinc]|(? & ? & ?)]]; subst; eauto.
  - intros a b Ha Hb Hl. rewrite L2, L1. right. right.
    split_and!; [done|intros [-> ?]; by eauto|intros [-> ?]; by eauto].
  - intros a b Ha Hb. rewrite L2, L1. split.
    + intros [[-> ?]|[[-> ?]|[? _]]]; [destruct (Hdisj i); done..|done].
    + intros ?. right. right. split_and!; [done|intros [-> ?]..]; by eauto.
  - intros a b Hab. rewrite L2, L1. intros [[-> ?]|[[-> ?%Hinc]|[? _]]]; [..|done];
      destruct Hab as [[? ?]|[? ?]]; exfalso; eauto.
Qed.

(** A property that every turn keeps, and that the turn of [x] brings about, holds at the end. *)
Lemma side_establish mine other (P : Network * ServerGrp -> Prop) (I : Network * ServerGrp -> Prop)
    l r x :
  (forall r i, I r -> i ∈ l -> exists r', isolate mine other r i = Ok r' /\ I r' /\
     (P r -> P r') /\ (i = x -> P r')) ->
  I r -> exists r', fold_go (isolate mine other) l r = Ok r' /\ I r' /\ (P r \/ x ∈ l -> P r').
Proof.
  revert r. induction l as [|i l IH]; intros r Hstep Hr; simpl.
  { exists r. split_and!; [done|done|]. by intros [?|?%not_elem_of_nil]. }
  destruct (Hstep r i Hr) as (r1 & -> & Hr1 & Hk & He); [left|]. cbn [go_bind].
  destruct (IH r1) as (r' & Hf & Hr' & HP); [|done|].
  { intros r0 j Hr0 Hj. apply Hstep; [done|by right]. }
  exists r'. split_and!; [done|done|]. intros [Hp|[->|Hx]%elem_of_cons]; apply HP; auto.
Qed.

(** The links after one of the two loops of [Partition]. *)
Lemma partition_side_links mine other r :
  is_grp r.2 -> Forall (fun j => j < n) mine -> Forall (fun j => j < n) other ->
  length mine <= n -> (forall x, x ∈ mine -> x ∈ other -> False) ->
  exists r', partition_side mine other r = Ok r' /\ is_grp r'.2 /\
    (forall a b, a ∈ mine -> b ∈ mine -> link r'.1 ss a b) /\
    (forall a b, a ∈ mine -> b ∈ other -> ~ link r'.1 ss a b /\ ~ link r'.1 ss b a) /\
    (forall a b, a ∈ other -> b ∈ other -> (link r'.1 ss a b <-> link r.1 ss a b)).
Proof.
  intros Hg Hm Ho Hlen Hdisj.
  pose proof (fun r i Hg Hi => isolate_links mine other r i Hg Hi Hm Ho Hlen Hdisj) as Hiso.
  change (partition_side mine other r) with (fold_go (isolate mine other) mine r).
  assert (forall (P I : Network * ServerGrp -> Prop) x,
    (forall r i r', is_grp r.2 -> I r -> i ∈ mine -> isolate mine other r i = Ok r' -> I r' /\
       (P r -> P r') /\ (i = x -> P r')) -> I r ->
    exists r', fold_go (isolate mine other) mine r = Ok r' /\ (is_grp r'.2 /\ I r') /\
      (P r \/ x ∈ mine -> P r')) as Hrun.
  { intros P I x Hstep HI.
    apply (side_establish mine other P (fun r => is_grp r.2 /\ I r)); [|done].
    intros r0 j [Hg0 HI0] Hj. destruct (Hiso r0 j Hg0 Hj) as (r1 & E & Hg1 & _).
    destruct (Hstep r0 j r1 Hg0 HI0 Hj E) as (? & ? & ?). exists r1. done. }
  destruct (Hrun (fun _ => True) (fun _ => True) 0) as (r' & Hf & [Hg' _] & _); [done|done|].
  exists r'. split_and!; [done|done|..].
  - intros a b Ha Hb.
    destruct (Hrun (fun r => link r.1 ss a b) (fun _ => True) a) as (r2 & Hf2 & _ & HP); [|done|].
    { intros r0 j r1 Hg0 _ Hj E. destruct (Hiso r0 j Hg0 Hj) as (r1' & E' & _ & K1 & _ & K2 & _).
      assert (r1' = r1) as -> by congruence. split; [done|]. split; [by apply K2|].
      intros ->. by apply K1. }
    assert (r2 = r') as -> by congruence. apply HP. by right.
  - intros a b Ha Hb.
    destruct (Hrun (fun r => ~ link r.1 ss a b /\ ~ link r.1 ss b a) (fun _ => True) a)
      as (r2 & Hf2 & _ & HP); [|done|].
    { intros r0 j r1 Hg0 _ Hj E.
      destruct (Hiso r0 j Hg0 Hj) as (r1' & E' & _ & _ & K1 & _ & _ & K2).
      assert (r1' = r1) as -> by congruence. split; [done|]. split.
      - intros [H1 H2]. split; intros Hl; [apply H1|apply H2]; apply K2; auto.
      - intros ->. by apply K1. }
    assert (r2 = r') as -> by congruence. apply HP. by right.
  - intros a b Ha Hb.
    destruct (Hrun (fun _ => True) (fun r0 => link r0.1 ss a b <-> link r.1 ss a b) 0)
      as (r2 & Hf2 & [_ HI] & _); [|done|].
    { intros r0 j r1 Hg0 HI Hj E.
      destruct (Hiso r0 j Hg0 Hj) as (r1' & E' & _ & _ & _ & _ & K & _).
      assert (r1' = r1) as -> by congruence. split; [|done]. rewrite <- HI. by apply K. }
    assert (r2 = r') as -> by congruence. done.
Qed.

Lemma Partition_links rn sg p1 p2 :
  is_grp sg -> Forall (fun j => j < n) p1 -> Forall (fun j => j < n) p2 ->
  length p1 <= n -> length p2 <= n -> (forall x, x ∈ p1 -> x ∈ p2 -> False) ->
  exists rn' sg', Partition rn sg p1 p2 = Ok (rn', sg') /\ is_grp sg' /\
    forall a b, a ∈ p1 ++ p2 -> b ∈ p1 ++ p2 ->
      (link rn' ss a b <-> (a ∈ p1 /\ b ∈ p1) \/ (a ∈ p2 /\ b ∈ p2)).
Proof.
  intros Hg H1 H2 L1 L2 Hdisj. unfold Partition.
  destruct (partition_side_links p1 p2 (rn, sg) Hg H1 H2 L1 Hdisj) as (r1 & -> & Hg1 & A1 & A2 & A3).
  cbn [go_bind].
  destruct (partition_side_links p2 p1 r1 Hg1 H2 H1 L2) as ([rn' sg'] & -> & Hg2 & B1 & B2 & B3);
    [by eauto|]. simpl in *. exists rn', sg'. split_and!; [done|done|].
  intros a b [Ha|Ha]%elem_of_app [Hb|Hb]%elem_of_app; split; intros H.
  - by left.
  - apply B3; [done|done|]. by apply A1.
  - by destruct (B2 b a Hb Ha).
  - destruct H as [[? ?]|[? ?]]; exfalso; eauto.
  - by destruct (B2 a b Ha Hb).
  - destruct H as [[? ?]|[? ?]]; exfalso; eauto.
  - by right.
  - by apply B1.
Qed.
End Links.

(** ** Choosing a partition *)

(** The two slices after the servers [os] were put into slots. *)
Definition slots1 (m1 : nat) (os : list nat) : list nat :=
  take m1 os ++ replicate (m1 - length os) 0.
Definition slots2 (m1 m2 : nat) (os : list nat) : list nat :=
  drop m1 os ++ replicate (m2 - (length os - m1)) 0.

Lemma slots1_nil m1 : slots1 m1 [] = replicate m1 0.
Proof. unfold slots1. by rewrite take_nil, Nat.sub_0_r. Qed.

Lemma slots2_nil m1 m2 : slots2 m1 m2 [] = replicate m2 0.
Proof. unfold slots2. by rewrite drop_nil, !Nat.sub_0_r. Qed.

Lemma length_slots1 m1 os : length (slots1 m1 os) = m1.
Proof. unfold slots1. rewrite length_app, length_take, length_replicate. lia. Qed.

Lemma length_slots2 m1 m2 os : length os <= m1 + m2 -> length (slots2 m1 m2 os) = m2.
Proof. intros H. unfold slots2. rewrite length_app, length_drop, length_replicate. lia. Qed.

Lemma slice_set_insert {A} (l : list A) (i : nat) x :
  i < length l -> slice_set l (Z.of_nat i) x = Ok (<[i := x]> l).
Proof. intros H. unfold slice_set. rewrite bool_decide_eq_true_2 by lia. by rewrite Nat2Z.id. Qed.

(** Writing the first free slot of [l ++ replicate k 0]. *)
Lemma insert_free {A} (l : list A) k z x :
  0 < k -> <[length l := x]> (l ++ replicate k z) = (l ++ [x]) ++ replicate (k - 1) z.
Proof.
  intros Hk. destruct k as [|k]; [lia|]. rewrite insert_app_r_alt, Nat.sub_diag by lia. simpl.
  rewrite Nat.sub_0_r. by rewrite <- app_assoc.
Qed.

Definition fill (l : nat) : list nat * list nat * nat -> nat -> go (list nat * list nat * nat) :=
  fun '(p1, p2, j) i =>
    if bool_decide (i = l) then Ok (p1, p2, j)
    else if j <? length p1 then
      let! p1 := slice_set p1 (Z.of_nat j) i in Ok (p1, p2, S j)
    else
      let! p2 := slice_set p2 (Z.of_nat (j - length p1)) i in Ok (p1, p2, S j).

Lemma fill_slots l m1 m2 xs os :
  length os + length xs <= m1 + m2 ->
  fold_go (fill l) xs (slots1 m1 os, slots2 m1 m2 os, length os) =
    let os' := os ++ filter (fun i => i ≠ l) xs in
    Ok (slots1 m1 os', slots2 m1 m2 os', length os').
Proof.
  revert os. induction xs as [|i xs IH]; intros os Hlen; [by rewrite app_nil_r|].
  simpl in Hlen. rewrite filter_cons. cbn [fold_go fill].
  case_bool_decide as Hi.
  { rewrite decide_False by auto. apply IH. lia. }
  rewrite decide_True by done. rewrite length_slots1.
  replace (os ++ i :: filter (fun i => i ≠ l) xs)
    with ((os ++ [i]) ++ filter (fun i => i ≠ l) xs) by by rewrite <- app_assoc.
  assert (length (os ++ [i]) = S (length os)) as Hl by (rewrite length_app; simpl; lia).
  destruct (Nat.ltb_spec (length os) m1) as [Hlt|Hge].
  - rewrite slice_set_insert by (rewrite length_slots1; lia). cbn [go_bind].
    rewrite <- IH by lia. rewrite Hl. do 3 f_equal.
    + unfold slots1. rewrite !take_ge by (rewrite ?Hl; lia). rewrite insert_free by lia.
      rewrite Hl. do 2 f_equal. lia.
    + unfold slots2. rewrite !drop_ge by (rewrite ?Hl; lia). rewrite Hl. simpl. f_equal. lia.
  - rewrite slice_set_insert by (rewrite length_slots2; lia). cbn [go_bind].
    rewrite <- IH by lia. rewrite Hl. do 3 f_equal.
    + unfold slots1. rewrite take_app_le by lia. rewrite Hl. do 2 f_equal. lia.
    + unfold slots2. rewrite <- (length_drop os m1) at 1. rewrite insert_free by lia.
      rewrite drop_app_le by lia. rewrite Hl. do 2 f_equal. lia.
Qed.

(** The servers other than [l]. *)
Definition others (n l : nat) : list nat := filter (fun i => i ≠ l) (seq 0 n).

Lemma others_perm n l : l < n -> others n l ++ [l] ≡ₚ seq 0 n.
Proof.
  intros Hl. apply NoDup_Permutation.
  - apply NoDup_app. split_and!; [apply NoDup_filter, NoDup_seq| |apply NoDup_singleton].
    intros x [Hx _]%list_elem_of_filter ->%list_elem_of_singleton. done.
  - apply NoDup_seq.
  - intros x. unfold others. rewrite elem_of_app, list_elem_of_filter, list_elem_of_singleton, elem_of_seq.
    destruct (decide (x = l)) as [->|]; split; intros; destruct_or?; try lia; tauto.
Qed.

Lemma length_others n l : l < n -> length (others n l) = n - 1.
Proof.
  intros H. pose proof (Permutation_length (others_perm n l H)) as E.
  rewrite length_app, length_seq in E. simpl in E. lia.
Qed.

Lemma MakePartition_slots sg l :
  let n := length (srvs sg) in
  l < n -> 2 <= n ->
  MakePartition sg l = Ok (slots1 (n / 2 + 1) (others n l),
    <[n / 2 - 1 := l]> (slots2 (n / 2 + 1) (n / 2) (others n l))).
Proof.
  intros n Hl Hn. unfold MakePartition. fold n.
  assert (2 <= n -> n <= n / 2 + 1 + n / 2 /\ 1 <= n / 2) as Hdiv.
  { intros _. pose proof (Nat.div_mod n 2 ltac:(lia)). pose proof (Nat.mod_upper_bound n 2 ltac:(lia)).
    lia. }
  destruct (Hdiv Hn) as [Hle Hge].
  pose proof (fill_slots l (n / 2 + 1) (n / 2) (seq 0 n) []) as Hf. rewrite length_seq in Hf.
  specialize (Hf Hle). rewrite slots1_nil, slots2_nil in Hf.
  change (length (@nil nat)) with 0 in Hf.
  change (fold_go _ (seq 0 n) _) with
    (fold_go (fill l) (seq 0 n) (replicate (n / 2 + 1) 0, replicate (n / 2) 0, 0)).
  rewrite Hf. cbn [go_bind app]. fold (others n l).
  pose proof (length_others n l Hl) as Ho.
  rewrite length_slots2 by lia. replace (Z.of_nat (n / 2) - 1)%Z with (Z.of_nat (n / 2 - 1)) by lia.
  rewrite slice_set_insert by (rewrite length_slots2; lia). done.
Qed.

Lemma MakePartition_odd sg l k :
  length (srvs sg) = 2 * k + 1 -> 1 <= k -> l < 2 * k + 1 ->
  MakePartition sg l = Ok (take (k + 1) (others (2 * k + 1) l), drop (k + 1) (others (2 * k + 1) l) ++ [l]).
Proof.
  intros Hn Hk Hl. rewrite MakePartition_slots by lia. rewrite Hn.
  assert ((2 * k + 1) / 2 = k) as -> by (symmetry; apply (Nat.div_unique _ 2 k 1); lia).
  pose proof (length_others (2 * k + 1) l Hl) as Ho. do 2 f_equal.
  - unfold slots1. replace (k + 1 - length _) with 0 by lia. by rewrite app_nil_r.
  - unfold slots2. replace (k - (length (others (2 * k + 1) l) - (k + 1))) with 1 by lia.
    replace (k - 1) with (length (drop (k + 1) (others (2 * k + 1) l))) by (rewrite length_drop; lia).
    rewrite insert_free by lia. simpl. by rewrite app_nil_r.
Qed.

(** With an even number of servers one slot of the minority keeps its zero value: server 0 is on
    both sides. *)
Example MakePartition_even :
  let s := mkTServer None [] [] in
  MakePartition (mkServerGrp [s; s; s; s] [] 0 [true; true; true; true]) 3 = Ok ([0; 1; 2], [0; 3]).
Proof. reflexivity. Qed.

(** ** Persisted state across restarts *)

(** Writes of instances that still hold an old persister. *)
Definition save_at (l : lab) (w : nat * (list Z * list Z)) : lab :=
  match pers l !! w.1 with
  | Some ps => mklab (lab_net l) (<[w.1 := Save ps w.2.1 w.2.2]> (pers l)) (fresh l) (killed l)
  | None => l
  end.

Lemma save_at_other ws l q :
  Forall (fun w => w.1 ≠ q) ws ->
  pers (foldl save_at l ws) !! q = pers l !! q /\ fresh (foldl save_at l ws) = fresh l.
Proof.
  intros H. revert l. induction H as [|w ws Hw _ IH]; intros l; [done|]. simpl.
  destruct (IH (save_at l w)) as [-> ->]. unfold save_at.
  destruct (pers l !! w.1); [|done]. simpl. by rewrite lookup_insert_ne.
Qed.

Lemma shutdownServer_fresh l s p ps l' s' :
  saved s = Some p -> pers l !! p = Some ps -> shutdownServer l s = Ok (l', s') ->
  saved s' = Some (fresh l) /\ pers l' !! fresh l = Some ps /\ endNames s' = endNames s /\
  killed l' = killed l ++ svcs s.
Proof.
  unfold shutdownServer, get_persister. intros Hs Hp H. rewrite Hs, Hp in H. simpl in H.
  simplify_eq/=. rewrite lookup_insert_eq. by destruct ps.
Qed.

Lemma startServer_copies l s g names q ps l' s' :
  saved s = Some q -> pers l !! q = Some ps -> startServer l s g names = Ok (l', s') ->
  exists r, saved s' = Some r /\ pers l' !! r = Some ps.
Proof.
  unfold startServer, get_persister. intros Hs Hq H. rewrite Hs in H.
  destruct (makeServer _ _ _) as [[rn srv]| |]; simpl in H; [|done..]. rewrite Hq in H. simpl in H.
  simplify_eq/=. eexists. split; [done|]. rewrite lookup_insert_eq. by destruct ps.
Qed.

(** ** Clients and the servers they may reach *)

Record clnt_ok (rn : Network) (c : Clnt) : Prop := {
  co_policy : forall sv e, clnt_ends c !! sv = Some e ->
    is_enabled rn e = allowedL c sv /\ conn_of rn e = Some sv /\ e ∈ ends rn;
  co_inj : forall sv sv' e, clnt_ends c !! sv = Some e -> clnt_ends c !! sv' = Some e -> sv = sv'
}.

Lemma enable_list (es : list string) b rn :
  (forall e, is_enabled (foldl (fun rn e => Enable rn e b) rn es) e
     = if decide (e ∈ es) then b else is_enabled rn e) /\
  (forall e, conn_of (foldl (fun rn e => Enable rn e b) rn es) e = conn_of rn e) /\
  ends (foldl (fun rn e => Enable rn e b) rn es) = ends rn.
Proof.
  revert rn. induction es as [|x es IH]; intros rn; simpl; [done|].
  destruct (IH (Enable rn x b)) as (H1 & H2 & H3). split_and!; [|done|done].
  intros e. rewrite H1, is_enabled_Enable.
  destruct (decide (e ∈ es)) as [He|He].
  - by rewrite decide_True by by right.
  - destruct (decide (e = x)) as [->|Hne]; [by rewrite decide_True by left|].
    rewrite decide_False; [done|]. by intros [?|?]%elem_of_cons.
Qed.

Lemma enable_ends_ok rn c b ss :
  clnt_ok rn c -> (forall sv, allowedL (mkClnt (clnt_ends c) ss) sv = b) ->
  clnt_ok (enable_ends c b rn) (mkClnt (clnt_ends c) ss).
Proof.
  intros [Hp Hi] Hb. destruct (enable_list (map_to_list (clnt_ends c)).*2 b rn) as (H1 & H2 & H3).
  unfold enable_ends. split; simpl; [|done]. intros sv e He. rewrite H1, H2, H3, Hb.
  destruct (Hp sv e He) as (_ & ? & ?). split_and!; [|done|done].
  rewrite decide_True; [done|]. apply list_elem_of_fmap. exists (sv, e). split; [done|].
  by apply elem_of_map_to_list.
Qed.

Lemma makeEnd_ok rn c sv name rn' c' e :
  clnt_ok rn c -> makeEnd rn c sv name = Ok (rn', c', e) ->
  clnt_ok rn' c' /\ clnt_ends c' !! sv = Some e.
Proof.
  intros [Hp Hi] H. unfold makeEnd in H. destruct (clnt_ends c !! sv) as [e0|] eqn:Ee.
  { simplify_eq. by split; [split|]. }
  unfold MakeEnd in H. case_bool_decide as Hnew; [done|]. simpl in H. simplify_eq/=.
  split; [|by rewrite lookup_insert_eq].
  assert (forall sv' e', clnt_ends c !! sv' = Some e' -> e' ≠ e) as Hne.
  { intros sv' e' He' ->. by destruct (Hp sv' e He') as (_ & _ & ?). }
  split; simpl.
  - intros sv' e' [[<- <-]|[Hsv He']]%lookup_insert_Some.
    + unfold is_enabled, conn_of. simpl. rewrite !lookup_insert_eq. set_solver.
    + destruct (Hp sv' e' He') as (Hen & Hco & Hend). pose proof (Hne _ _ He') as Hn.
      unfold is_enabled, conn_of in *. simpl.
      rewrite !lookup_insert_ne by done. split_and!; [done|done|set_solver].
  - intros s1 s2 e' [[? ?]|[? H1]]%lookup_insert_Some [[? ?]|[? H2]]%lookup_insert_Some; subst;
      [done|by destruct (Hne _ _ H2)|by destruct (Hne _ _ H1)|by eapply Hi].
Qed.

(** Operations of one client. *)
Inductive clnt_op :=
| CallTo (server name : string)
| ConnectToAll
| DisconnectFromAll.

Definition run_clnt (r : Network * Clnt) (op : clnt_op) : go (Network * Clnt) :=
  match op with
  | CallTo sv name => let! x := makeEnd r.1 r.2 sv name in Ok (x.1.1, x.1.2)
  | ConnectToAll => Ok (Clnt_ConnectAll r.1 r.2)
  | DisconnectFromAll => Ok (Clnt_DisconnectAll r.1 r.2)
  end.

Lemma run_clnt_ok r op r' : clnt_ok r.1 r.2 -> run_clnt r op = Ok r' -> clnt_ok r'.1 r'.2.
Proof.
  intros Hok H. destruct op as [sv name| |]; simpl in H.
  - destruct (makeEnd _ _ _ _) as [[[rn c] e]| |] eqn:E; simpl in H; simplify_eq/=.
    by destruct (makeEnd_ok _ _ _ _ _ _ _ Hok E).
  - simplify_eq/=. by apply enable_ends_ok.
  - simplify_eq/=. by apply enable_ends_ok.
Qed.

(** ** Example: three servers *)

Definition demo_srv (a : string) : TServer :=
  mkTServer (Some 0) [7] [a +:+ "0"; a +:+ "1"; a +:+ "2"].

Definition demo_ss : list TServer := [demo_srv "a"; demo_srv "b"; demo_srv "c"].

Definition demo_grp : ServerGrp := mkServerGrp demo_ss [] 0 [true; true; true].

Lemma demo_wf : grp_wf 3 demo_ss.
Proof.
  split.
  - intros [|[|[|a]]] [|[|[|b]]] Ha Hb; try lia; by eexists.
  - intros [|[|[|a]]] [|[|[|b]]] [|[|[|a']]] [|[|[|b']]] e H1 H2; vm_compute in H1, H2; simplify_eq;
      done.
Qed.

(** ** Claims *)

(** C24: [Partition] separates a group: afterwards RPCs between two listed servers get through
    exactly when both are on the same side, whatever was connected before; no step panics. *)
Theorem Partition_separates n rn sg p1 p2 :
  grp_wf n (srvs sg) -> length (connected sg) = n ->
  Forall (fun j => j < n) p1 -> Forall (fun j => j < n) p2 ->
  length p1 <= n -> length p2 <= n -> (forall x, x ∈ p1 -> x ∈ p2 -> False) ->
  exists rn' sg', Partition rn sg p1 p2 = Ok (rn', sg') /\ srvs sg' = srvs sg /\
    forall a b, a ∈ p1 ++ p2 -> b ∈ p1 ++ p2 ->
      (link rn' (srvs sg) a b <-> (a ∈ p1 /\ b ∈ p1) \/ (a ∈ p2 /\ b ∈ p2)).
Proof.
  intros Hwf Hc H1 H2 L1 L2 Hd.
  destruct (Partition_links n (srvs sg) Hwf rn sg p1 p2) as (rn' & sg' & HP & [Hs _] & Hl);
    [by split|done..|]. exists rn', sg'. by split_and!.
Qed.

Lemma Partition_separates_witness :
  exists rn' sg', Partition MakeNetwork demo_grp [0; 1] [2] = Ok (rn', sg') /\ srvs sg' = demo_ss.
Proof.
  destruct (Partition_separates 3 MakeNetwork demo_grp [0; 1] [2]) as (rn' & sg' & H1 & H2 & _).
  - exact demo_wf.
  - reflexivity.
  - repeat constructor.
  - repeat constructor.
  - simpl; lia.
  - simpl; lia.
  - intros x Hx Hy. apply list_elem_of_singleton in Hy as ->. set_solver.
  - exists rn', sg'. split; [exact H1|exact H2].
Defined.

(** With an odd number [2k+1] of servers, at least 3, [MakePartition] splits the servers into
    a majority of [k+1] and a minority of [k] that contains the given leader. *)
Theorem MakePartition_leader_minority sg l k :
  length (srvs sg) = 2 * k + 1 -> 1 <= k -> l < 2 * k + 1 ->
  exists p1 p2, MakePartition sg l = Ok (p1, p2) /\ p1 ++ p2 ≡ₚ seq 0 (2 * k + 1) /\
    length p1 = k + 1 /\ length p2 = k /\ l ∈ p2.
Proof.
  intros Hn Hk Hl. pose proof (length_others _ _ Hl) as Ho.
  do 2 eexists. split; [by apply MakePartition_odd|]. split_and!.
  - rewrite app_assoc, take_drop. by apply others_perm.
  - rewrite length_take. lia.
  - rewrite length_app, length_drop. cbn [length]. lia.
  - apply elem_of_app. right. by apply list_elem_of_singleton.
Qed.

Lemma MakePartition_leader_minority_witness :
  exists p1 p2, MakePartition demo_grp 0 = Ok (p1, p2) /\ p1 ++ p2 ≡ₚ seq 0 3 /\
    length p1 = 2 /\ length p2 = 1 /\ 0 ∈ p2.
Proof. apply (MakePartition_leader_minority demo_grp 0 1); [reflexivity|lia|lia]. Defined.

(** Restarting a server restores the state it had persisted when it was shut down, whatever
    old instances write afterwards into any persister that existed before the shutdown. *)
Theorem restart_restores_last_state l sg i l1 sg1 ws names mks obj l2 sg2 s p ps :
  srvs sg !! i = Some s -> saved s = Some p -> pers l !! p = Some ps ->
  ShutdownServer l sg i = Ok (l1, sg1) ->
  Forall (fun w => w.1 < fresh l) ws ->
  StartServer (foldl save_at l1 ws) sg1 i names mks obj = Ok (l2, sg2) ->
  exists s2 q, srvs sg2 !! i = Some s2 /\ saved s2 = Some q /\ pers l2 !! q = Some ps.
Proof.
  intros Hs Hsv Hp HD Hws HS. unfold ShutdownServer in HD.
  destruct (disconnect (lab_net l) sg i (all sg)) as [[rn sg0]| |] eqn:Ed; simpl in HD; [|done..].
  assert (srvs sg0 = srvs sg) as Hsrv.
  { unfold disconnect, set_connected in Ed. go_inv. done. }
  rewrite Hsrv, (slice_get_lookup _ _ _ Hs) in HD. simpl in HD.
  destruct (shutdownServer _ s) as [[l0 s1]| |] eqn:Esd; simpl in HD; [|done..]. simplify_eq/=.
  eapply shutdownServer_fresh in Esd as (Hs1 & Hp1 & _); [|exact Hsv|exact Hp].
  simpl in Hs1, Hp1.
  destruct (save_at_other ws l1 (fresh l)) as [Hq _].
  { eapply Forall_impl; [exact Hws|]. simpl. intros. lia. }
  pose proof (lookup_lt_Some _ _ _ Hs) as Hlt.
  unfold StartServer in HS. rewrite (slice_get_lookup _ i s1) in HS
    by (simpl; rewrite Hsrv; by apply list_lookup_insert_eq). simpl in HS.
  destruct (startServer _ s1 _ _) as [[l3 s3]| |] eqn:Est; simpl in HS; [|done..]. simplify_eq/=.
  destruct (startServer_copies _ _ _ _ (fresh l) ps _ _ Hs1 (eq_trans Hq Hp1) Est)
    as (q & Hs3 & Hp3).
  eexists _, q. rewrite list_lookup_insert_eq by by rewrite length_insert, Hsrv. by split_and!.
Qed.

Definition demo_lab : lab := mklab MakeNetwork {[ 0 := mkPersister [1%Z] [2%Z] ]} 1 [].

(** The old instance overwrites its persister between shutdown and restart. *)
Lemma restart_restores_last_state_witness :
  exists l1 sg1 l2 sg2 s2 q,
    ShutdownServer demo_lab demo_grp 1 = Ok (l1, sg1) /\
    StartServer (foldl save_at l1 [(0, ([9%Z], [9%Z]))]) sg1 1 ["x"; "y"; "z"] (fun _ _ => []) 5
      = Ok (l2, sg2) /\
    srvs sg2 !! 1 = Some s2 /\ saved s2 = Some q /\ pers l2 !! q = Some (mkPersister [1%Z] [2%Z]).
Proof.
  destruct (ShutdownServer demo_lab demo_grp 1) as [[l1 sg1]| |] eqn:E1;
    [|vm_compute in E1; discriminate E1..].
  destruct (StartServer (foldl save_at l1 [(0, ([9%Z], [9%Z]))]) sg1 1 ["x"; "y"; "z"]
    (fun _ _ => []) 5) as [[l2 sg2]| |] eqn:E2;
    [|vm_compute in E1; injection E1 as <- <-; vm_compute in E2; discriminate E2..].
  destruct (restart_restores_last_state demo_lab demo_grp 1 l1 sg1 [(0, ([9%Z], [9%Z]))]
    ["x"; "y"; "z"] (fun _ _ => []) 5 l2 sg2 (demo_srv "b") 0 (mkPersister [1%Z] [2%Z]))
    as (s2 & q & H1 & H2 & H3).
  - reflexivity.
  - reflexivity.
  - vm_compute. reflexivity.
  - exact E1.
  - repeat constructor.
  - exact E2.
  - exists l1, sg1, l2, sg2, s2, q. auto.
Defined.

(** Connecting a server reaches servers that are disconnected: after server [j] was cut off
    and another server [i] connected, RPCs from [i] to [j] get through although [j] is still
    marked disconnected; RPCs from [j] to [i] do not. *)
Theorem ConnectOne_reaches_disconnected n rn sg i j :
  grp_wf n (srvs sg) -> length (srvs sg) = n -> length (connected sg) = n ->
  i < n -> j < n -> i ≠ j ->
  exists rn1 sg1 rn2 sg2,
    DisconnectAll rn sg j = Ok (rn1, sg1) /\ ~ link rn1 (srvs sg) i j /\ ~ link rn1 (srvs sg) j i /\
    ConnectOne rn1 sg1 i = Ok (rn2, sg2) /\ IsConnected sg2 j = Ok false /\
    link rn2 (srvs sg) i j /\ ~ link rn2 (srvs sg) j i.
Proof.
  intros Hwf Hn Hc Hi Hj Hne.
  assert (Forall (fun k => k < n) (seq 0 n)) as Hall
    by (apply Forall_forall; intros x; rewrite elem_of_seq; lia).
  destruct (disconnect_links n (srvs sg) Hwf rn sg j (seq 0 n))
    as (rn1 & sg1 & Hd & Hg1 & Hc1 & L1); [by split|done|done|].
  destruct (connect_links n (srvs sg) Hwf rn1 sg1 i (seq 0 n))
    as (rn2 & sg2 & Hcn & Hg2 & Hc2 & L2); [done|done|done|by rewrite length_seq|].
  exists rn1, sg1, rn2, sg2. unfold DisconnectAll, ConnectOne, all.
  rewrite (proj1 Hg1), Hn. pose proof (elem_of_seq 0 n) as Hseq.
  assert (connected sg2 !! j = Some false) as Hf.
  { rewrite Hc2, Hc1, list_lookup_insert_ne by done. apply list_lookup_insert_eq. lia. }
  split_and!; [done|..|done| | |].
  - rewrite L1. intros (_ & _ & H). apply H. split; [done|]. apply Hseq. lia.
  - rewrite L1. intros (_ & H & _). apply H. split; [done|]. apply Hseq. lia.
  - by apply slice_get_lookup.
  - apply L2. left. split; [done|]. apply Hseq. lia.
  - rewrite L2, L1. intros [[? _]|[[_ (k & Hk & Hkc)]|(_ & H & _)]]; [congruence|..].
    + apply lookup_seq in Hk as [-> _]. simpl in Hf. congruence.
    + apply H. split; [done|]. apply Hseq. lia.
Qed.

Lemma ConnectOne_reaches_disconnected_witness :
  exists rn1 sg1 rn2 sg2,
    DisconnectAll MakeNetwork demo_grp 2 = Ok (rn1, sg1) /\ ~ link rn1 demo_ss 0 2 /\
    ~ link rn1 demo_ss 2 0 /\
    ConnectOne rn1 sg1 0 = Ok (rn2, sg2) /\ IsConnected sg2 2 = Ok false /\
    link rn2 demo_ss 0 2 /\ ~ link rn2 demo_ss 2 0.
Proof.
  apply (ConnectOne_reaches_disconnected 3 MakeNetwork demo_grp 0 2);
    [exact demo_wf|reflexivity|reflexivity|lia|lia|lia].
Defined.

(** However a client makes ends, is connected and disconnected, each of its ends stays
    connected to the server it was made for and is enabled exactly when the client is currently
    allowed to reach that server. *)
Theorem clnt_reaches_allowed rn ss ops rn' c' sv e :
  fold_go run_clnt ops (rn, makeClntTo ss) = Ok (rn', c') -> clnt_ends c' !! sv = Some e ->
  is_enabled rn' e = allowedL c' sv /\ conn_of rn' e = Some sv.
Proof.
  intros Hrun He.
  assert (clnt_ok (rn', c').1 (rn', c').2) as Hok.
  { eapply (fold_go_invariant run_clnt (fun r => clnt_ok r.1 r.2)); [..|exact Hrun].
    - intros r op r' _ Hr Hop. by eapply run_clnt_ok.
    - split; simpl; intros *; by rewrite lookup_empty. }
  by destruct (co_policy _ _ Hok sv e He) as (? & ? & ?).
Qed.

Lemma clnt_reaches_allowed_witness :
  exists rn' c', fold_go run_clnt [CallTo "s1" "x"; DisconnectFromAll; CallTo "s2" "y"]
      (MakeNetwork, makeClntTo None) = Ok (rn', c') /\
    is_enabled rn' "y" = allowedL c' "s2" /\ conn_of rn' "y" = Some "s2".
Proof.
  do 2 eexists. split; [vm_compute; reflexivity|].
  eapply (clnt_reaches_allowed MakeNetwork None [CallTo "s1" "x"; DisconnectFromAll; CallTo "s2" "y"]);
    [vm_compute; reflexivity|vm_compute; reflexivity].
Defined.
