(* ===== verification/KvPartition.v ===== *)
(** * Random partitions of a group

    Model of [Partitioner] of [src/src/kvtest1/kvtest.go], which is meant to repartition the
    servers of a group at random while clients run.  The random numbers of each turn and the values
    received on the channel are arguments.  The cases of the loop stand in a [switch], not in a
    [select], so that each turn waits for a value on the channel and partitions only when this
    value is false. *)

From S2P Require Import Prelude GoStrings Labrpc Tester.

(** [a[i] = rand.Int() % 2] for every server, with Go's remainder. *)
Definition draw_sides (ds : list Z) : list Z := (fun d => Z.rem d 2) <$> ds.

(** [pa[i]]: the servers [j] below [n] with [a[j] == i]. *)
Definition side_of (a : list Z) (n : nat) (i : Z) : go (list nat) :=
  fold_go (fun p j =>
    let! aj := slice_get a (Z.of_nat j) in
    Ok (if bool_decide (aj = i) then p ++ [j] else p)) (seq 0 n) [].

(** One turn of the loop; [ds] are the numbers it draws. *)
Definition partition_turn (rn : Network) (sg : ServerGrp) (ds : list Z) : go (Network * ServerGrp) :=
  let a := draw_sides ds in
  let! pa0 := side_of a (SrvN sg) 0 in
  let! pa1 := side_of a (SrvN sg) 1 in
  Partition rn sg pa0 pa1.

(** The values received on [ch], each with the numbers the turn would draw; the flag says that the
    function has returned, otherwise it waits for the next value. *)
Fixpoint Partitioner (rn : Network) (sg : ServerGrp) (msgs : list (bool * list Z)) :
    go (Network * ServerGrp * bool) :=
  match msgs with
  | [] => Ok (rn, sg, false)
  | (true, _) :: _ => Ok (rn, sg, true)
  | (false, ds) :: msgs =>
      let! r := partition_turn rn sg ds in Partitioner r.1 r.2 msgs
  end.

(** ** The two sides *)

Lemma side_of_Ok a n i :
  length a = n -> side_of a n i = Ok (filter (fun j => a !! j = Some i) (seq 0 n)).
Proof.
  intros Hl. unfold side_of.
  destruct (fold_go_seq (fun p j =>
      let! aj := slice_get a (Z.of_nat j) in Ok (if bool_decide (aj = i) then p ++ [j] else p))
    (fun k p => p = filter (fun j => a !! j = Some i) (seq 0 k)) n []) as (p & -> & ->); [|done|done].
  intros j p Hj ->. destruct (lookup_lt_is_Some_2 a j) as [x Hx]; [lia|].
  rewrite (slice_get_lookup _ _ _ Hx). cbn [go_bind]. eexists. split; [done|].
  rewrite seq_S, filter_app. simpl. case_bool_decide as E.
  - rewrite filter_cons_True by congruence. by rewrite filter_nil.
  - rewrite filter_cons_False by congruence. by rewrite filter_nil, app_nil_r.
Qed.

(** Numbers that [rand.Int] may return, one for each server. *)
Definition draws_ok (n : nat) (ds : list Z) : Prop := length ds = n /\ Forall (fun d => 0 <= d)%Z ds.

Lemma draw_sides_bit n ds a d :
  draws_ok n ds -> draw_sides ds !! a = Some d -> d = 0%Z \/ d = 1%Z.
Proof.
  intros [_ Hf]. unfold draw_sides. rewrite list_lookup_fmap, fmap_Some.
  intros (x & Hx & ->). rewrite Forall_lookup in Hf. pose proof (Hf a x Hx).
  pose proof (Z.rem_bound_pos x 2). lia.
Qed.

Section Turns.
Context (n : nat) (ss : list TServer) (Hwf : grp_wf n ss) (Hn : length ss = n).

Lemma partition_turn_Ok rn sg ds :
  is_grp n ss sg -> draws_ok n ds ->
  exists rn' sg', partition_turn rn sg ds = Ok (rn', sg') /\ is_grp n ss sg' /\
    forall a b x y, ds !! a = Some x -> ds !! b = Some y ->
      (link rn' ss a b <-> Z.rem x 2 = Z.rem y 2).
Proof using Hwf Hn.
  intros Hg Hds. pose proof Hds as [Hl Hf]. unfold partition_turn.
  assert (length (draw_sides ds) = n) as Hls by (unfold draw_sides; by rewrite length_fmap).
  unfold SrvN. rewrite (proj1 Hg), Hn, !side_of_Ok by done. cbn [go_bind].
  set (p := fun i => filter (fun j => draw_sides ds !! j = Some i) (seq 0 n)).
  fold (p 0%Z) (p 1%Z). assert (forall i j, j ∈ p i <-> j < n /\ draw_sides ds !! j = Some i) as Hp.
  { intros i j. unfold p. rewrite list_elem_of_filter, elem_of_seq. split; intros []; split; (done || lia). }
  assert (forall i, Forall (fun j => j < n) (p i) /\ length (p i) <= n) as Hb.
  { intros i. split; [apply Forall_forall; by intros j [? _]%Hp|].
    unfold p. etrans; [apply length_filter|]. by rewrite length_seq. }
  destruct (Partition_links n ss Hwf rn sg (p 0%Z) (p 1%Z) Hg) as (rn' & sg' & -> & Hg' & HL);
    try apply Hb.
  { intros x [_ H0]%Hp [_ H1]%Hp. congruence. }
  exists rn', sg'. split_and!; [done|done|]. intros a b x y Hx Hy.
  assert (forall c z, ds !! c = Some z -> c < n /\ draw_sides ds !! c = Some (Z.rem z 2)) as Hc.
  { intros c z Hz. split; [apply lookup_lt_Some in Hz; lia|]. unfold draw_sides.
    by rewrite list_lookup_fmap, Hz. }
  assert (forall c z i, ds !! c = Some z -> (c ∈ p i <-> Z.rem z 2 = i)) as Hm.
  { intros c z i Hz. destruct (Hc c z Hz) as [? Hd]. rewrite Hp, Hd. split; [|by intros ->].
    by intros [_ [= ?]]. }
  assert (forall c z, ds !! c = Some z -> Z.rem z 2 = 0%Z \/ Z.rem z 2 = 1%Z) as Hbit.
  { intros c z Hz. destruct (Hc c z Hz) as [_ Hd]. by eapply draw_sides_bit. }
  assert (forall c z, ds !! c = Some z -> c ∈ p 0%Z ++ p 1%Z) as Hin.
  { intros c z Hz. rewrite elem_of_app, !(Hm c z) by done. by eapply Hbit. }
  rewrite HL by eauto.
  rewrite !(Hm _ _ _ Hx), !(Hm _ _ _ Hy). destruct (Hbit a x Hx), (Hbit b y Hy); lia.
Qed.

Lemma Partitioner_Ok rn sg turns :
  is_grp n ss sg -> Forall (draws_ok n) turns ->
  exists rn' sg', is_grp n ss sg' /\ forall rest,
    Partitioner rn sg (((fun ds => (false, ds)) <$> turns) ++ rest) = Partitioner rn' sg' rest.
Proof using Hwf Hn.
  intros Hg Hf. revert rn sg Hg.
  induction Hf as [|ds turns Hds _ IH]; intros rn sg Hg; simpl; [by exists rn, sg|].
  destruct (partition_turn_Ok rn sg ds Hg Hds) as (rn1 & sg1 & -> & Hg1 & _). by apply IH.
Qed.
End Turns.

(** What [Partitioner] does with a value [false] on its channel: however often it has run, with
    any numbers [rand.Int] may return, it never panics, and after the turn RPCs between two servers
    get through exactly when the numbers drawn for them in that turn have the same parity; a value
    [true] then makes it return and changes nothing more. *)
Theorem Partitioner_splits n rn sg turns ds d rest :
  grp_wf n (srvs sg) -> length (srvs sg) = n -> length (connected sg) = n ->
  Forall (draws_ok n) turns -> draws_ok n ds ->
  exists rn' sg',
    Partitioner rn sg (((fun ds => (false, ds)) <$> turns) ++ [(false, ds)]) = Ok (rn', sg', false) /\
    Partitioner rn sg (((fun ds => (false, ds)) <$> turns) ++ (false, ds) :: (true, d) :: rest)
      = Ok (rn', sg', true) /\
    srvs sg' = srvs sg /\
    forall a b x y, ds !! a = Some x -> ds !! b = Some y ->
      (link rn' (srvs sg) a b <-> Z.rem x 2 = Z.rem y 2).
Proof.
  intros Hwf Hn Hc Hts Hds.
  destruct (Partitioner_Ok n (srvs sg) Hwf Hn rn sg turns) as (rn1 & sg1 & Hg1 & Hrun);
    [done|done|].
  destruct (partition_turn_Ok n (srvs sg) Hwf Hn rn1 sg1 ds Hg1 Hds) as (rn2 & sg2 & E2 & [Hs2 _] & HL).
  exists rn2, sg2. rewrite !Hrun. cbn [Partitioner]. by rewrite E2.
Qed.

Lemma Partitioner_splits_witness :
  exists rn' sg', Partitioner MakeNetwork demo_grp [(false, [2; 4; 7]); (false, [5; 4; 7])]%Z
      = Ok (rn', sg', false) /\
    srvs sg' = demo_ss /\ (link rn' demo_ss 0 2 <-> Z.rem 5 2 = Z.rem 7 2).
Proof.
  destruct (Partitioner_splits 3 MakeNetwork demo_grp [[2; 4; 7]%Z] [5; 4; 7]%Z [] [])
    as (rn' & sg' & E & _ & Hs & HL).
  - exact demo_wf.
  - reflexivity.
  - reflexivity.
  - constructor; [|constructor]. split; [reflexivity|]. repeat (constructor; [lia|]). constructor.
  - split; [reflexivity|]. repeat (constructor; [lia|]). constructor.
  - exists rn', sg'. split; [exact E|]. split; [exact Hs|]. apply HL; reflexivity.
Defined.

(** [Partitioner] as the tests use it never partitions: before its channel carries a value it
    waits, and when the only values sent are [true], as at the end of a test, the network and the
    group are as they were at its start. *)
Theorem Partitioner_never_partitions rn sg msgs :
  Forall (fun m => m.1 = true) msgs ->
  Partitioner rn sg msgs = Ok (rn, sg, negb (bool_decide (msgs = []))).
Proof.
  intros Hm. destruct msgs as [|[b ds] msgs]; [done|]. apply Forall_cons in Hm as [Hb _]. simpl in Hb.
  by subst.
Qed.

Lemma Partitioner_never_partitions_witness :
  Partitioner MakeNetwork demo_grp [(true, [5; 4; 7]%Z)] = Ok (MakeNetwork, demo_grp, true).
Proof.
  apply (Partitioner_never_partitions MakeNetwork demo_grp [(true, [5; 4; 7]%Z)]).
  constructor; [reflexivity|constructor].
Defined.
