(* ===== verification/Config.v ===== *)
(** * The configuration of a test

    Model of [src/src/tester1/config.go] and of the registry of server groups of
    [src/src/tester1/group.go].  A configuration is the network with its persisters ([lab]), the
    groups by number, the clients and the counters a test prints.  The names of ends come from
    [Randstring] on the random bytes [rnd]; times are arguments.  Runs of the tester that create
    groups, shut groups down and make ends for clients keep every registered group up and fully
    connected. *)

From S2P Require Import Prelude GoStrings Labrpc Tester Rand.
From stdpp Require Import pretty.

(** ** Data *)

(** [failed] is the state of the [testing.T]; [drawn] counts the names drawn so far, [next_obj] the
    RPC servers made so far. *)
Record Config := mkConfig {
  cfg_lab : lab;
  grps : gmap Z ServerGrp;
  cfg_clnts : Clnts;
  failed : bool;
  start_at : Z;
  t0 : Z;
  rpcs0 : Z;
  ops : Z;
  drawn : nat;
  next_obj : nat
}.

Definition GRP0 : Z := 0.

Definition cfg_net (cfg : Config) : Network := lab_net (cfg_lab cfg).

Definition set_lab (cfg : Config) (l : lab) : Config :=
  mkConfig l (grps cfg) (cfg_clnts cfg) (failed cfg) (start_at cfg) (t0 cfg) (rpcs0 cfg) (ops cfg)
    (drawn cfg) (next_obj cfg).

Definition set_net (cfg : Config) (rn : Network) : Config :=
  set_lab cfg (set_lab_net (cfg_lab cfg) rn).

Definition set_grps (cfg : Config) (gs : gmap Z ServerGrp) : Config :=
  mkConfig (cfg_lab cfg) gs (cfg_clnts cfg) (failed cfg) (start_at cfg) (t0 cfg) (rpcs0 cfg)
    (ops cfg) (drawn cfg) (next_obj cfg).

Definition set_clnts (cfg : Config) (cs : Clnts) : Config :=
  mkConfig (cfg_lab cfg) (grps cfg) cs (failed cfg) (start_at cfg) (t0 cfg) (rpcs0 cfg) (ops cfg)
    (drawn cfg) (next_obj cfg).

(** [m] names and [o] servers more. *)
Definition spend (cfg : Config) (m o : nat) : Config :=
  mkConfig (cfg_lab cfg) (grps cfg) (cfg_clnts cfg) (failed cfg) (start_at cfg) (t0 cfg)
    (rpcs0 cfg) (ops cfg) (drawn cfg + m) (next_obj cfg + o).

(** ** Operations *)

Section Config.
(** The bytes of the [k]-th call [Randstring(20)]. *)
Context (rnd : nat -> list Z).

(** The names a server draws, and those of all servers of a group. *)
Definition draw_names (k m : nat) : go (list string) :=
  fold_go (fun ns i => let! s := Randstring 20 (rnd i) in Ok (ns ++ [s])) (seq k m) [].

Definition draw_group (k n : nat) : go (list (list string)) :=
  fold_go (fun gs i => let! ns := draw_names (k + i * n) n in Ok (gs ++ [ns])) (seq 0 n) [].

Definition newGroups : gmap Z ServerGrp := ∅.

Definition MakeGroup (cfg : Config) (g : Z) (nsrv : nat) : go Config :=
  let! ns := draw_group (drawn cfg) nsrv in
  let! r := makeSrvGrp (cfg_net cfg) g nsrv (fun i => nth i ns []) in
  Ok (set_grps (spend (set_net cfg r.1) (nsrv * nsrv) 0) (<[g := r.2]> (grps cfg))).

(** [None] is the nil pointer. *)
Definition lookupGroup (cfg : Config) (g : Z) : option ServerGrp := grps cfg !! g.
Definition delete_group (cfg : Config) (g : Z) : Config := set_grps cfg (delete g (grps cfg)).
Definition Group (cfg : Config) (g : Z) : option ServerGrp := lookupGroup cfg g.

(** A method that reads a field of a nil group panics. *)
Definition with_group {A} (cfg : Config) (g : Z) (f : ServerGrp -> go A) : go A :=
  match Group cfg g with Some sg => f sg | None => Panic "nil pointer dereference" end.

(** Groups are visited in any order; only the order of the killed services depends on it. *)
Definition Groups_cleanup (cfg : Config) : Config :=
  set_lab cfg (foldl cleanup (cfg_lab cfg) (map_to_list (grps cfg)).*2).

Definition StartServers_of (cfg : Config) (g : Z) (mks : nat -> nat -> list nat) : go Config :=
  with_group cfg g (fun sg =>
    let! ns := draw_group (drawn cfg) (SrvN sg) in
    let! r := StartServers (cfg_lab cfg) sg (fun i => nth i ns []) mks (fun i => next_obj cfg + i) in
    Ok (set_grps (spend (set_lab cfg r.1) (SrvN sg * SrvN sg) (SrvN sg)) (<[g := r.2]> (grps cfg)))).

Definition MakeGroupStart (cfg : Config) (g : Z) (nsrv : nat) (mks : nat -> nat -> list nat) :
    go Config :=
  let! cfg := MakeGroup cfg g nsrv in StartServers_of cfg g mks.

Definition ExitGroup (cfg : Config) (g : Z) : go Config :=
  with_group cfg g (fun sg =>
    let! r := Shutdown (cfg_lab cfg) sg in
    Ok (delete_group (set_grps (set_lab cfg r.1) (<[g := r.2]> (grps cfg))) g)).

Definition SetReliable (cfg : Config) (b : bool) : Config := set_net cfg (Reliable (cfg_net cfg) b).
Definition Config_IsReliable (cfg : Config) : bool := IsReliable (cfg_net cfg).
Definition SetLongReordering (cfg : Config) (b : bool) : Config :=
  set_net cfg (LongReordering (cfg_net cfg) b).
Definition SetLongDelays (cfg : Config) (b : bool) : Config :=
  set_net cfg (LongDelays (cfg_net cfg) b).

Definition MakeConfig (n : nat) (rel : bool) (mks : nat -> nat -> list nat) (now : Z) : go Config :=
  let cfg := mkConfig (mklab MakeNetwork ∅ 0 []) newGroups makeClnts false 0 0 0 0 0 0 in
  let! cfg := MakeGroupStart cfg GRP0 n mks in
  let cfg := mkConfig (cfg_lab cfg) (grps cfg) makeClnts (failed cfg) now (t0 cfg) (rpcs0 cfg)
               (ops cfg) (drawn cfg) (next_obj cfg) in
  Ok (SetReliable cfg rel).

(** [Clnts.makeEnd] of [clnts.go]: an end that is always enabled. *)
Definition Clnts_makeEnd (cfg : Config) (servername : string) : go (Config * string) :=
  let! name := Randstring 20 (rnd (drawn cfg)) in
  let! rn := MakeEnd (cfg_net cfg) name in
  Ok (spend (set_net cfg (Enable (Connect rn name servername) name true)) 1 0, name).
End Config.

(** Times are in nanoseconds. *)
Definition CheckTimeout (cfg : Config) (now : Z) : go Config :=
  if negb (failed cfg) && bool_decide (120 * 10 ^ 9 < now - start_at cfg)%Z
  then Fatal "test took longer than 120 seconds" else Ok cfg.

(** [Clnts.cleanup] only unlinks files named like the ends. *)
Definition Config_Cleanup (cfg : Config) (now : Z) : go Config :=
  let cfg := Groups_cleanup cfg in
  let! rn := Cleanup (cfg_net cfg) in
  CheckTimeout (set_net cfg rn) now.

Definition RpcTotal (cfg : Config) : Z := GetTotalCount (cfg_net cfg).
Definition BytesTotal (cfg : Config) : Z := GetTotalBytes (cfg_net cfg).

Definition set_stats (cfg : Config) (t r o : Z) : Config :=
  mkConfig (cfg_lab cfg) (grps cfg) (cfg_clnts cfg) (failed cfg) (start_at cfg) t r o (drawn cfg)
    (next_obj cfg).

(** With the line printed. *)
Definition Begin (cfg : Config) (description : string) (now : Z) : Config * string :=
  let rel := if Config_IsReliable cfg then "reliable" else "unreliable" in
  (set_stats cfg now (RpcTotal cfg) 0, description +:+ " (" +:+ rel +:+ " network)...").

(** [atomic.AddInt32]. *)
Definition Op (cfg : Config) : Config := set_stats cfg (t0 cfg) (rpcs0 cfg) (i32 (ops cfg + 1)).

(** What [End] prints: the time, the peers, the RPCs and the operations. *)
Record report := mkreport { rp_time : Z; npeers : nat; nrpc : Z; nops : Z }.

Definition End_ (cfg : Config) (now : Z) : go (option report) :=
  let! cfg := CheckTimeout cfg now in
  if failed cfg then Ok None
  else with_group cfg GRP0 (fun sg =>
    Ok (Some (mkreport (now - t0 cfg) (SrvN sg) (RpcTotal cfg - rpcs0 cfg) (ops cfg)))).

(** ** Frames: which ends an operation may touch *)

(** Outside the names in [X], the ends, whether they are enabled and what they are connected to
    stay as they are; so do the settings of the network. *)
Record frame (X : string -> Prop) (rn rn' : Network) : Prop := {
  fr_ends : forall e, ~ X e -> (e ∈ ends rn' <-> e ∈ ends rn);
  fr_enabled : forall e, ~ X e -> is_enabled rn' e = is_enabled rn e;
  fr_conn : forall e, ~ X e -> conn_of rn' e = conn_of rn e
}.

#[export] Instance frame_preorder X : PreOrder (frame X).
Proof.
  split; [by intros rn; split|]. intros r1 r2 r3 [A1 A2 A3] [B1 B2 B3].
  split; intros e He; [by rewrite B1, A1|by rewrite B2, A2|by rewrite B3, A3].
Qed.

Lemma frame_weaken (X Y : string -> Prop) rn rn' :
  (forall e, X e -> Y e) -> frame X rn rn' -> frame Y rn rn'.
Proof. intros H [A B C]. split; naive_solver. Qed.

(** Operations that only set [enabled]. *)
Record enables (X : string -> Prop) (rn rn' : Network) : Prop := {
  en_ends : ends rn' = ends rn;
  en_servers : servers rn' = servers rn;
  en_conns : connections rn' = connections rn;
  en_other : forall e, ~ X e -> is_enabled rn' e = is_enabled rn e
}.

#[export] Instance enables_preorder X : PreOrder (enables X).
Proof.
  split; [by intros rn; split|]. intros r1 r2 r3 [A1 A2 A3 A4] [B1 B2 B3 B4].
  split; [congruence..|]. intros e He. by rewrite B4, A4.
Qed.

Lemma enables_frame X rn rn' : enables X rn rn' -> frame X rn rn'.
Proof.
  intros [H1 H2 H3 H4]. split; [by rewrite H1|done|]. intros e _. unfold conn_of. by rewrite H3.
Qed.

Lemma enables_Enable (X : string -> Prop) rn e b : X e -> enables X rn (Enable rn e b).
Proof.
  intros HX. split; [done..|]. intros e' He'. rewrite is_enabled_Enable.
  by destruct (decide (e' = e)) as [->|].
Qed.

(** A loop whose turns respect a preorder respects it. *)
Lemma fold_go_preorder {A B} (R : relation B) `{!PreOrder R} (f : B -> A -> go B) l b b' :
  (forall b x b', x ∈ l -> f b x = Ok b' -> R b b') -> fold_go f l b = Ok b' -> R b b'.
Proof.
  intros Hf. apply (fold_go_invariant f (R b)); [|done].
  intros b1 x b2 Hx Hb E. by etrans; [|eapply Hf].
Qed.

(** The names of the ends of a group. *)
Definition grp_ends (ss : list TServer) (e : string) : Prop := exists a b, ename ss a b = Some e.

Lemma slice_grp_ends ss i s b e :
  slice_get ss i = Ok s -> slice_get (endNames s) b = Ok e -> grp_ends ss e.
Proof.
  intros [_ Hs]%slice_get_Ok [_ He]%slice_get_Ok. exists (Z.to_nat i), (Z.to_nat b).
  unfold ename. by rewrite Hs.
Qed.

Lemma set_ends_to_enables ss i s b to rn rn' :
  slice_get ss i = Ok s -> set_ends_to s b to rn = Ok rn' -> enables (grp_ends ss) rn rn'.
Proof.
  intros Hs. apply fold_go_preorder; [apply _|]. intros r j r' _ E. go_inv.
  apply enables_Enable. by eapply slice_grp_ends.
Qed.

Lemma set_connected_same sg i b sg' :
  set_connected sg i b = Ok sg' -> srvs sg' = srvs sg /\ gid sg' = gid sg.
Proof. unfold set_connected. intros E. go_inv. done. Qed.

Lemma connect_enables rn sg i to rn' sg' :
  connect rn sg i to = Ok (rn', sg') ->
  enables (grp_ends (srvs sg)) rn rn' /\ srvs sg' = srvs sg /\ gid sg' = gid sg.
Proof.
  unfold connect. intros E. go_inv. apply set_connected_same in E0 as [Hs Hg].
  split; [|done]. rewrite <- Hs.
  etrans; [by eapply set_ends_to_enables|].
  eapply fold_go_preorder; [apply _| |exact E3]. intros r [j t] r' _ Hr. go_inv.
  destruct a; go_inv; [|done]. apply enables_Enable. by eapply slice_grp_ends.
Qed.

Lemma disconnect_enables rn sg i from rn' sg' :
  disconnect rn sg i from = Ok (rn', sg') ->
  enables (grp_ends (srvs sg)) rn rn' /\ srvs sg' = srvs sg /\ gid sg' = gid sg.
Proof.
  unfold disconnect. intros E. go_inv. apply set_connected_same in E0 as [Hs Hg].
  split; [|done]. rewrite <- Hs.
  etrans; [by eapply set_ends_to_enables|].
  eapply fold_go_preorder; [apply _| |exact E3]. intros r k r' _ Hr. simpl in Hr. go_inv.
  apply enables_Enable. by eapply slice_grp_ends.
Qed.

Lemma ServerName_inj g i g' i' : ServerName g i = ServerName g' i' -> g = g' /\ i = i'.
Proof.
  unfold ServerName. intros E%(inj (String.append "server-")).
  change ("-" +:+ pretty i) with (String dash (pretty i)) in E.
  change ("-" +:+ pretty i') with (String dash (pretty i')) in E.
  apply append_last in E as [?%(inj pretty) ?%(inj pretty)]; [done|apply pretty_nat_no_dash..].
Qed.

(** ** Groups whose ends are named by consecutive draws *)

Section Names.
Context (name : nat -> string) `{!Inj (=) (=) name}.

Definition srv_names (k n a : nat) : list string := name <$> seq (k + a * n) n.

Definition based (ss : list TServer) (k n : nat) : Prop :=
  endNames <$> ss = srv_names k n <$> seq 0 n.

(** The names drawn from number [k] on, [m] of them. *)
Definition range (k m : nat) (e : string) : Prop := exists j, k <= j < k + m /\ e = name j.

Lemma srv_names_lookup k n a b e :
  srv_names k n a !! b = Some e <-> b < n /\ e = name (k + a * n + b).
Proof.
  unfold srv_names. rewrite list_lookup_fmap, fmap_Some. setoid_rewrite lookup_seq. naive_solver.
Qed.

Lemma srv_names_range k n a e : a < n -> e ∈ srv_names k n a -> range (k + a * n) n e.
Proof.
  intros Ha [b Hb]%list_elem_of_lookup. apply srv_names_lookup in Hb as [Hb ->].
  exists (k + a * n + b). split; [lia|done].
Qed.

Lemma srv_names_NoDup k n a : NoDup (srv_names k n a).
Proof. apply NoDup_fmap_2; [done|]. apply NoDup_seq. Qed.

Lemma row_lt n a b : a < n -> b < n -> a * n + b < n * n.
Proof. intros Ha Hb. pose proof (Nat.mul_le_mono_r (S a) n n Ha). lia. Qed.

Lemma row_inj n a b a' b' : b < n -> b' < n -> a * n + b = a' * n + b' -> a = a' /\ b = b'.
Proof.
  intros Hb Hb' E. destruct (Nat.lt_trichotomy a a') as [H|[->|H]]; [|lia|].
  - pose proof (Nat.mul_le_mono_r (S a) a' n H). lia.
  - pose proof (Nat.mul_le_mono_r (S a') a n H). lia.
Qed.

Lemma based_ename ss k n a b e :
  based ss k n -> (ename ss a b = Some e <-> a < n /\ b < n /\ e = name (k + a * n + b)).
Proof.
  intros Hb. assert (ename ss a b = (endNames <$> ss) !! a ≫= (.!! b)) as ->.
  { unfold ename. rewrite list_lookup_fmap. by destruct (ss !! a). }
  rewrite Hb, list_lookup_fmap. destruct (decide (a < n)) as [Ha|Ha].
  - rewrite lookup_seq_lt by done. simpl. rewrite srv_names_lookup. naive_solver.
  - rewrite lookup_seq_ge by lia. simpl. naive_solver.
Qed.

Lemma based_length ss k n : based ss k n -> length ss = n.
Proof. intros H%(f_equal length). by rewrite !length_fmap, length_seq in H. Qed.

Lemma based_wf ss k n : based ss k n -> grp_wf n ss.
Proof.
  intros Hb. split.
  - intros a b Ha Hb'. exists (name (k + a * n + b)). by apply (based_ename _ k n).
  - intros a b a' b' e. rewrite !(based_ename _ k n) by done.
    intros (Ha & Hb1 & ->) (Ha' & Hb1' & E%(inj name)). apply (row_inj n); lia.
Qed.

Lemma based_range ss k n e : based ss k n -> grp_ends ss e -> range k (n * n) e.
Proof.
  intros Hb (a & b & (Ha & Hb' & ->)%(based_ename _ k n)); [|done].
  pose proof (row_lt n a b Ha Hb'). exists (k + a * n + b). split; [lia|done].
Qed.

Lemma range_based ss k n e : based ss k n -> range k (n * n) e -> grp_ends ss e.
Proof.
  intros Hb (j & Hj & ->). assert (n ≠ 0) as Hn by lia.
  exists ((j - k) / n), ((j - k) mod n). apply (based_ename _ k n); [done|].
  pose proof (Nat.div_mod (j - k) n Hn). split_and!.
  - apply Nat.Div0.div_lt_upper_bound. lia.
  - by apply Nat.mod_upper_bound.
  - f_equal. lia.
Qed.

(** ** New ends *)

Lemma makeServer_ends_Ok g o names rn :
  NoDup names -> (forall e, e ∈ names -> e ∉ ends rn) ->
  exists rn', fold_go (fun rn (jn : nat * string) =>
      let! rn := MakeEnd rn jn.2 in Ok (Connect rn jn.2 (ServerName g jn.1)))
      (imap (fun j e => (o + j, e)) names) rn = Ok rn' /\
    frame (.∈ names) rn rn' /\ servers rn' = servers rn /\
    (forall e, e ∈ ends rn' -> e ∈ ends rn \/ e ∈ names) /\
    (forall j e, names !! j = Some e -> conn_of rn' e = Some (ServerName g (o + j))).
Proof.
  intros Hnd. revert o rn. induction Hnd as [|x names Hx _ IH]; intros o rn Hf; simpl.
  { exists rn. split_and!; [done|reflexivity|done|auto|done]. }
  unfold MakeEnd at 1. rewrite bool_decide_eq_false_2 by (apply Hf; left). cbn [go_bind].
  rewrite Nat.add_0_r.
  assert (imap ((fun j e => (o + j, e)) ∘ S) names = imap (fun j e => (S o + j, e)) names) as ->
    by (apply imap_ext; intros; simpl; f_equal; lia).
  match goal with |- context [fold_go _ _ ?r] => set (rn1 := r) end.
  assert (frame (eq x) rn rn1) as Hfr.
  { split; intros e He; unfold rn1; simpl.
    - set_solver.
    - unfold is_enabled. simpl. by rewrite lookup_insert_ne.
    - unfold conn_of. simpl. by rewrite !lookup_insert_ne. }
  destruct (IH (S o) rn1) as (rn' & -> & F & Hsv & E & C).
  { intros e He. unfold rn1. simpl. intros [->%elem_of_singleton|?]%elem_of_union; [done|].
    by apply (Hf e); [right|]. }
  exists rn'. split_and!; [done| |done| |].
  - etrans; eapply frame_weaken; [|exact Hfr| |exact F]; set_solver.
  - intros e He. destruct (E e He) as [H|H]; [|set_solver]. unfold rn1 in H. simpl in H. set_solver.
  - intros [|j] e Hj; simpl in Hj.
    + injection Hj as ->. rewrite (fr_conn _ _ _ F e Hx), Nat.add_0_r. unfold rn1, conn_of. simpl.
      by rewrite lookup_insert_eq.
    + rewrite (C j e Hj). f_equal. f_equal. lia.
Qed.

(** No end has one of the names drawn from [k] on. *)
Definition fresh_from (k : nat) (rn : Network) : Prop :=
  forall e, e ∈ ends rn -> exists j, j < k /\ e = name j.

Lemma fresh_from_mono k k' rn : k <= k' -> fresh_from k rn -> fresh_from k' rn.
Proof. intros Hk H e He. destruct (H e He) as (j & ? & ?). exists j. split; [lia|done]. Qed.

Lemma makeServer_Ok rn g k n a :
  a < n -> fresh_from (k + a * n) rn ->
  exists rn', makeServer rn g (srv_names k n a) = Ok (rn', mkTServer None [] (srv_names k n a)) /\
    frame (range k (n * n)) rn rn' /\ frame (range (k + a * n) n) rn rn' /\
    servers rn' = servers rn /\ fresh_from (k + S a * n) rn' /\
    (forall b, b < n -> conn_of rn' (name (k + a * n + b)) = Some (ServerName g b)).
Proof.
  intros Ha Hf. unfold makeServer, makeServer_ends.
  change (imap pair (srv_names k n a)) with (imap (fun j e => (0 + j, e)) (srv_names k n a)).
  destruct (makeServer_ends_Ok g 0 (srv_names k n a) rn (srv_names_NoDup _ _ _))
    as (rn' & -> & F & Hsv & E & C).
  { intros e He1 He2. apply srv_names_range in He1 as (j & Hj & ->); [|done].
    destruct (Hf _ He2) as (j' & ? & ->%(inj name)). lia. }
  assert (frame (range (k + a * n) n) rn rn') as F'.
  { eapply frame_weaken; [|exact F]. intros e He. by apply srv_names_range. }
  exists rn'. cbn [go_bind]. split; [done|]. split; [|split; [done|split; [done|split]]].
  - eapply frame_weaken; [|exact F']. intros e (j & Hj & ->). exists j. split; [|done].
    pose proof (Nat.mul_le_mono_r (S a) n n Ha). lia.
  - intros e He. destruct (E e He) as [(j & Hj & ->)%Hf|(j & Hj & ->)%srv_names_range]; [..|done];
      exists j; split; try done; lia.
  - intros b Hb. apply (C b). by apply srv_names_lookup.
Qed.

Lemma makeSrvGrp_Ok rn g k n :
  fresh_from k rn ->
  exists rn' ss, makeSrvGrp rn g n (srv_names k n) =
      Ok (rn', mkServerGrp ss (ServerName g <$> seq 0 n) g (replicate n false)) /\
    based ss k n /\ Forall (fun s => saved s = None) ss /\ frame (range k (n * n)) rn rn' /\
    servers rn' = servers rn /\ fresh_from (k + n * n) rn'.
Proof.
  intros Hf. unfold makeSrvGrp.
  destruct (fold_go_seq (fun r i => let! r1 := makeServer r.1 g (srv_names k n i) in
              Ok (r1.1, r.2 ++ [r1.2]))
    (fun i r => endNames <$> r.2 = srv_names k n <$> seq 0 i /\ Forall (fun s => saved s = None) r.2 /\
       frame (range k (n * n)) rn r.1 /\ servers r.1 = servers rn /\ fresh_from (k + i * n) r.1)
    n (rn, [])) as ([rn' ss] & -> & H1 & H2 & H3 & H4 & H5).
  - intros i [rn1 ss] Hi (H1 & H2 & H3 & H4 & H5). cbn [fst snd] in *.
    destruct (makeServer_Ok rn1 g k n i Hi H5) as (rn2 & -> & F & _ & Hsv & Fr & _).
    eexists. split; [done|]. cbn [fst snd].
    split_and!; [|apply Forall_app; by repeat constructor|by etrans|congruence|done].
    rewrite fmap_app, H1, seq_S, fmap_app. done.
  - simpl. rewrite Nat.add_0_r. by split_and!.
  - simpl in *. exists rn', ss. done.
Qed.

(** ** Starting a group *)

(** The persister of server [s] exists. *)
Definition has_persister (l : lab) (s : TServer) : Prop :=
  exists p, saved s = Some p /\ is_Some (pers l !! p).

(** Server [a] of the group that runs with the names from [k] on. *)
Definition up (l : lab) (g : Z) (k n a : nat) (s : TServer) : Prop :=
  endNames s = srv_names k n a /\ has_persister l s /\
  (forall b, b < n -> conn_of (lab_net l) (name (k + a * n + b)) = Some (ServerName g b)) /\
  is_Some (server_of (lab_net l) (ServerName g a)).

(** Persisters are never dropped. *)
Definition keeps (l l' : lab) : Prop := dom (pers l) ⊆ dom (pers l').

#[export] Instance keeps_preorder : PreOrder keeps.
Proof. split; [intros l e He; exact He|]. intros a b c H1 H2 e He. by apply H2, H1. Qed.

Lemma keeps_alloc l ps : keeps l (alloc l ps).1.
Proof. unfold keeps, alloc. simpl. set_solver. Qed.

Lemma has_persister_keeps l l' s : keeps l l' -> has_persister l s -> has_persister l' s.
Proof.
  intros Hk (p & Hs & Hp). exists p. split; [done|]. apply elem_of_dom, Hk. by apply elem_of_dom.
Qed.

Lemma server_of_set rn sn o x :
  server_of (set_server rn sn o) x = if decide (x = sn) then o else server_of rn x.
Proof.
  unfold server_of. simpl. destruct (decide (x = sn)) as [->|]; [by rewrite lookup_insert_eq|].
  by rewrite lookup_insert_ne.
Qed.

(** A server that has not been started, or has a persister to start from. *)
Definition startable (l : lab) (s : TServer) : Prop := saved s = None \/ has_persister l s.

Lemma startable_keeps l l' s : keeps l l' -> startable l s -> startable l' s.
Proof. intros Hk [?|?]; [by left|right; by eapply has_persister_keeps]. Qed.

(** The state of a group while its servers are started: the first [i] are up. *)
Record starting (l0 : lab) (g : Z) (k n i : nat) (l : lab) (sg : ServerGrp) : Prop := {
  sta_length : length (srvs sg) = n;
  sta_gid : gid sg = g;
  sta_conn : length (connected sg) = n;
  sta_up : forall a s, srvs sg !! a = Some s -> a < i -> up l g k n a s;
  sta_new : forall a s, srvs sg !! a = Some s -> i <= a -> startable l s;
  sta_frame : frame (range k (n * n)) (lab_net l0) (lab_net l);
  sta_keeps : keeps l0 l;
  sta_fresh : fresh_from (k + i * n) (lab_net l);
  sta_servers : forall x, (forall a, a < i -> x ≠ ServerName g a) ->
    server_of (lab_net l) x = server_of (lab_net l0) x
}.

Lemma up_frame l l' g k n a s i :
  a < i -> frame (range (k + i * n) n) (lab_net l) (lab_net l') -> keeps l l' ->
  is_Some (server_of (lab_net l') (ServerName g a)) -> up l g k n a s -> up l' g k n a s.
Proof.
  intros Hi F K Hs (H1 & H2 & H3 & _). split; [done|]. split; [by eapply has_persister_keeps|].
  split; [|done]. intros b Hb. rewrite (fr_conn _ _ _ F); [by apply H3|].
  intros (j & Hj & E%(inj name)). pose proof (Nat.mul_le_mono_r (S a) i n Hi). lia.
Qed.

Lemma StartServer_Ok l0 g k n i l sg mks obj :
  i < n -> starting l0 g k n i l sg ->
  exists r, StartServer l sg i (srv_names k n i) mks obj = Ok r /\ starting l0 g k n (S i) r.1 r.2.
Proof.
  intros Hi [H1 H2 H3 H4 H5 H6 H7 H8 H9]. unfold StartServer.
  destruct (lookup_lt_is_Some_2 (srvs sg) i) as [s Hs]; [lia|].
  rewrite (slice_get_lookup _ _ _ Hs). cbn [go_bind]. unfold startServer. rewrite H2.
  destruct (makeServer_Ok (lab_net l) g k n i Hi H8) as (rn & -> & F1 & F2 & Hsv & Fr & C).
  cbn [go_bind].
  match goal with |- context [match saved s with Some p => @?f p | None => ?x end] =>
    assert (exists ps, match saved s with Some p => f p | None => x end =
      Ok ((alloc (set_lab_net l rn) ps).1, mkTServer (Some (Tester.fresh l)) [] (srv_names k n i))) as [ps Eps] end.
  { destruct (H5 i s Hs) as [->|(p & -> & ps & Hps)]; [done|by exists MakePersister|].
    exists (Copy ps). unfold get_persister. simpl. by rewrite Hps. }
  cbv beta in Eps. rewrite Eps. cbn [go_bind]. clear Eps. eexists. split; [done|].
  assert (forall a, server_of (lab_net l) (ServerName g a) = server_of rn (ServerName g a)) as Hso
    by (intros a; unfold server_of; by rewrite Hsv).
  match goal with |- starting _ _ _ _ _ ?l' _ => set (l1 := l') end.
  assert (keeps l l1) as Hk by apply (keeps_alloc (set_lab_net l rn) ps).
  assert (frame (range (k + i * n) n) (lab_net l) (lab_net l1)) as F2'.
  { etrans; [exact F2|]. by split. }
  split; simpl.
  - by rewrite length_insert.
  - done.
  - done.
  - intros a s' Ha Hai. destruct (decide (a = i)) as [->|Hne].
    + rewrite list_lookup_insert_eq in Ha by lia. injection Ha as <-.
      split; [done|]. split; [|split].
      * eexists. split; [done|]. simpl. by rewrite lookup_insert_eq.
      * intros b Hb. by apply C.
      * simpl. unfold AddServer. rewrite server_of_set, decide_True by done. by eexists.
    + rewrite list_lookup_insert_ne in Ha by done.
      pose proof (H4 a s' Ha ltac:(lia)) as Hup.
      apply (up_frame l l1 _ _ _ _ _ i); [lia|done|done| |done].
      simpl. unfold AddServer. rewrite server_of_set. destruct (decide _); [by eexists|].
      rewrite <- Hso. apply Hup.
  - intros a s' Ha Hai. rewrite list_lookup_insert_ne in Ha by lia.
    apply (startable_keeps l); [exact Hk|]. by apply (H5 a); [|lia].
  - etrans; [exact H6|]. etrans; [exact F1|]. by split.
  - by etrans.
  - exact Fr.
  - intros x Hx. unfold AddServer. rewrite server_of_set, decide_False by (apply Hx; lia).
    rewrite <- (H9 x) by (intros a Ha; apply Hx; lia). unfold server_of. by rewrite Hsv.
Qed.

(** ** A running group *)

Record running (l : lab) (g : Z) (k n : nat) (sg : ServerGrp) : Prop := {
  run_based : based (srvs sg) k n;
  run_gid : gid sg = g;
  run_conn : length (connected sg) = n;
  run_up : forall a s, srvs sg !! a = Some s -> up l g k n a s;
  run_link : forall a b, a < n -> b < n -> link (lab_net l) (srvs sg) a b
}.

Lemma up_based l g k n ss :
  length ss = n -> (forall a s, ss !! a = Some s -> up l g k n a s) -> based ss k n.
Proof.
  intros Hl Hup. apply list_eq. intros a. rewrite !list_lookup_fmap.
  destruct (ss !! a) as [s|] eqn:Es; simpl.
  - rewrite lookup_seq_lt by (apply lookup_lt_Some in Es; lia). simpl.
    by destruct (Hup a s Es) as [-> _].
  - by rewrite lookup_seq_ge by (apply lookup_ge_None in Es; lia).
Qed.

(** Connecting all servers brings every link up. *)
Lemma ConnectAll_Ok rn sg ss n :
  grp_wf n ss -> is_grp n ss sg -> length ss = n ->
  exists rn' sg', ConnectAll rn sg = Ok (rn', sg') /\ is_grp n ss sg' /\ gid sg' = gid sg /\
    enables (grp_ends ss) rn rn' /\ (forall a b, a < n -> b < n -> link rn' ss a b).
Proof.
  intros Hwf Hg Hl. unfold ConnectAll, all. rewrite (proj1 Hg), Hl.
  destruct (fold_go_seq (fun r i => ConnectOne r.1 r.2 i)
    (fun i r => is_grp n ss r.2 /\ gid r.2 = gid sg /\ enables (grp_ends ss) rn r.1 /\
       forall a b, a < i -> b < n -> link r.1 ss a b) n (rn, sg))
    as ([rn' sg'] & -> & H1 & H2 & H3 & H4).
  - intros i [rn1 sg1] Hi (H1 & H2 & H3 & H4). simpl in H1, H2, H3, H4. cbn [fst snd].
    unfold ConnectOne, all. rewrite (proj1 H1), Hl.
    destruct (connect_links n ss Hwf rn1 sg1 i (seq 0 n) H1 Hi) as (rn2 & sg2 & E & G & _ & L).
    { apply Forall_forall. intros x Hx%elem_of_seq. lia. }
    { by rewrite length_seq. }
    rewrite E. eexists. split; [done|]. cbn [fst snd].
    apply connect_enables in E as (En & _ & Hgid). rewrite (proj1 H1) in En.
    split_and!; [done|congruence|by etrans|]. intros a b Ha Hb. apply L.
    destruct (decide (a = i)) as [->|]; [left; split; [done|]; apply elem_of_seq; lia|].
    right. right. apply H4; [lia|done].
  - split_and!; [done|done|reflexivity|]. intros a b Ha. lia.
  - by exists rn', sg'.
Qed.

Lemma StartServers_Ok l g k n sg mks obj :
  length (srvs sg) = n -> gid sg = g -> length (connected sg) = n ->
  Forall (startable l) (srvs sg) -> fresh_from k (lab_net l) ->
  exists l' sg', StartServers l sg (srv_names k n) mks obj = Ok (l', sg') /\
    running l' g k n sg' /\ frame (range k (n * n)) (lab_net l) (lab_net l') /\ keeps l l' /\
    fresh_from (k + n * n) (lab_net l') /\
    (forall x, (forall a, a < n -> x ≠ ServerName g a) ->
       server_of (lab_net l') x = server_of (lab_net l) x).
Proof.
  intros Hl Hg Hc Hs Hf. unfold StartServers, start, all. rewrite Hl.
  destruct (fold_go_seq (fun r i => StartServer r.1 r.2 i (srv_names k n i) mks (obj i))
    (fun i r => starting l g k n i r.1 r.2) n (l, sg)) as ([l1 sg1] & -> & [H1 H2 H3 H4 _ H6 H7 H8 H9]).
  - intros i r Hi Hr. by apply StartServer_Ok.
  - split; simpl; try done; [intros; lia| |by rewrite Nat.add_0_r].
    intros a s Ha _. rewrite Forall_lookup in Hs. by eapply Hs.
  - cbn [go_bind fst snd] in *.
    assert (based (srvs sg1) k n) as Hb.
    { apply (up_based l1 g); [done|]. intros a s Ha. apply (H4 a s Ha).
      apply lookup_lt_Some in Ha. lia. }
    destruct (ConnectAll_Ok (lab_net l1) sg1 (srvs sg1) n (based_wf _ _ _ Hb)) as
      (rn2 & sg2 & -> & [G1 G2] & G3 & En & L); [done|done|].
    cbn [go_bind fst snd]. eexists _, _. split; [done|].
    pose proof (enables_frame _ _ _ En) as F.
    split; [|split; [|split; [|split]]].
    + split; simpl; rewrite ?G1; try done; [congruence|].
      intros a s Ha. destruct (H4 a s Ha) as (U1 & U2 & U3 & U4).
      { apply lookup_lt_Some in Ha. lia. }
      split; [done|]. split; [done|]. unfold conn_of, server_of in *. simpl.
      rewrite (en_conns _ _ _ En), (en_servers _ _ _ En). done.
    + simpl. etrans; [exact H6|]. eapply frame_weaken; [|exact F]. intros e He. by eapply based_range.
    + done.
    + simpl. intros e. rewrite (en_ends _ _ _ En). apply H8.
    + intros x Hx. simpl. unfold server_of. rewrite (en_servers _ _ _ En). by apply H9.
Qed.

(** ** Shutting a group down *)

Record stopping (l0 : lab) (g : Z) (k n i : nat) (l : lab) (sg : ServerGrp) : Prop := {
  sto_based : based (srvs sg) k n;
  sto_gid : gid sg = g;
  sto_conn : length (connected sg) = n;
  sto_pers : forall a s, srvs sg !! a = Some s -> has_persister l s;
  sto_frame : frame (range k (n * n)) (lab_net l0) (lab_net l);
  sto_ends : ends (lab_net l) = ends (lab_net l0);
  sto_keeps : keeps l0 l;
  sto_down : forall a, a < i -> server_of (lab_net l) (ServerName g a) = None;
  sto_servers : forall x, (forall a, a < i -> x ≠ ServerName g a) ->
    server_of (lab_net l) x = server_of (lab_net l0) x
}.

Lemma ShutdownServer_Ok l0 g k n i l sg :
  i < n -> stopping l0 g k n i l sg ->
  exists r, ShutdownServer l sg i = Ok r /\ stopping l0 g k n (S i) r.1 r.2.
Proof.
  intros Hi [H1 H2 H3 H4 H5 H6 H7 H8 H9]. unfold ShutdownServer, all.
  pose proof (based_length _ _ _ H1) as Hl. rewrite Hl.
  destruct (disconnect_links n (srvs sg) (based_wf _ _ _ H1) (lab_net l) sg i (seq 0 n))
    as (rn & sg1 & E & [G1 G2] & _ & _).
  { done. } { done. } { apply Forall_forall. intros x Hx%elem_of_seq. lia. }
  rewrite E. cbn [go_bind]. apply disconnect_enables in E as (En & _ & Hg).
  destruct (lookup_lt_is_Some_2 (srvs sg) i) as [s Hs]; [lia|].
  rewrite G1, (slice_get_lookup _ _ _ Hs). cbn [go_bind]. unfold shutdownServer, get_persister.
  destruct (H4 i s Hs) as (p & Hp & ps & Hps). rewrite Hp. simpl. rewrite Hps. simpl.
  eexists. split; [done|]. rewrite Hg, H2. split; simpl.
  - red. rewrite G1, list_fmap_insert. simpl.
    rewrite list_insert_id; [exact H1|]. by rewrite list_lookup_fmap, Hs.
  - congruence.
  - done.
  - rewrite G1. intros a s' [(-> & <- & _)|(_ & Ha)]%list_lookup_insert_Some.
    + eexists. split; [done|]. simpl. by rewrite lookup_insert_eq.
    + destruct (H4 a s' Ha) as (p' & Hp' & Hi'). exists p'. split; [done|]. simpl.
      destruct (decide (p' = Tester.fresh l)) as [->|]; [by rewrite lookup_insert_eq|].
      by rewrite lookup_insert_ne.
  - etrans; [exact H5|]. transitivity rn; [|by split].
    eapply frame_weaken; [|exact (enables_frame _ _ _ En)]. intros e. by apply based_range.
  - by rewrite (en_ends _ _ _ En).
  - etrans; [exact H7|]. unfold keeps. simpl. set_solver.
  - intros a Ha. unfold DeleteServer. rewrite server_of_set. destruct (decide _) as [|Hne]; [done|].
    unfold server_of. rewrite (en_servers _ _ _ En). apply (H8 a).
    destruct (decide (a = i)) as [->|]; [done|lia].
  - intros x Hx. unfold DeleteServer. rewrite server_of_set, decide_False by (apply Hx; lia).
    rewrite <- (H9 x) by (intros a Ha; apply Hx; lia). unfold server_of.
    by rewrite (en_servers _ _ _ En).
Qed.

Lemma Shutdown_Ok l g k n sg :
  running l g k n sg -> exists l' sg', Shutdown l sg = Ok (l', sg') /\ stopping l g k n n l' sg'.
Proof.
  intros [H1 H2 H3 H4 _]. unfold Shutdown, all. rewrite (based_length _ _ _ H1).
  destruct (fold_go_seq (fun r i => ShutdownServer r.1 r.2 i)
    (fun i r => stopping l g k n i r.1 r.2) n (l, sg)) as ([l' sg'] & E & H).
  - intros i r Hi Hr. by apply ShutdownServer_Ok.
  - split; simpl; try done; [|intros; lia]. intros a s Ha. apply (H4 a s Ha).
  - by exists l', sg'.
Qed.

(** ** The registry *)

(** Every registered group runs on names of its own; nothing else is served; names not drawn yet
    are free. *)
Record cfg_ok (cfg : Config) : Prop := {
  cok_groups : forall g sg, grps cfg !! g = Some sg ->
    exists k n, running (cfg_lab cfg) g k n sg /\ k + n * n <= drawn cfg;
  cok_disjoint : forall g g' sg sg' e, grps cfg !! g = Some sg -> grps cfg !! g' = Some sg' ->
    grp_ends (srvs sg) e -> grp_ends (srvs sg') e -> g = g';
  cok_served : forall g i, is_Some (server_of (cfg_net cfg) (ServerName g i)) <->
    exists sg, grps cfg !! g = Some sg /\ i < SrvN sg;
  cok_fresh : fresh_from (drawn cfg) (cfg_net cfg)
}.

(** A running group survives what happens to the names of others. *)
Lemma running_frame (X : string -> Prop) l l' g k n sg :
  (forall e, X e -> ~ grp_ends (srvs sg) e) -> frame X (lab_net l) (lab_net l') -> keeps l l' ->
  (forall a, a < n -> server_of (lab_net l') (ServerName g a) = server_of (lab_net l) (ServerName g a)) ->
  running l g k n sg -> running l' g k n sg.
Proof.
  intros HX F K Hs [H1 H2 H3 H4 H5].
  assert (forall a b, a < n -> b < n -> ~ X (name (k + a * n + b))) as Hn.
  { intros a b Ha Hb Hx. apply (HX _ Hx). exists a, b. by apply (based_ename _ k n). }
  split; [done|done|done|..].
  - intros a s Ha. destruct (H4 a s Ha) as (U1 & U2 & U3 & U4).
    assert (a < n) as Hlt by (apply lookup_lt_Some in Ha; by rewrite (based_length _ _ _ H1) in Ha).
    split; [done|]. split; [by eapply has_persister_keeps|]. split; [|by rewrite Hs].
    intros b Hb. rewrite (fr_conn _ _ _ F); auto.
  - intros a b Ha Hb. destruct (H5 a b Ha Hb) as (e & He & Hen). exists e. split; [done|].
    rewrite (fr_enabled _ _ _ F); [done|]. intros Hx. apply (HX e Hx). by exists a, b.
Qed.
End Names.

(** ** Runs of a test *)

Section Runs.
(** The random bytes: 40 for each name, and among the first [N] names no two agree on their first
    15 bytes. *)
Context (rnd : nat -> list Z) (N : nat).
Context (Hlen : forall k, length (rnd k) = 40) (Hbytes : forall k, Forall byte (rnd k)).
Context (Hdiff : forall i j, i < N -> j < N -> take 15 (rnd i) = take 15 (rnd j) -> i = j).

(** The [k]-th name; from [N] on, strings that are no names. *)
Definition nm (k : nat) : string :=
  if decide (k < N) then String.substring 0 20 (EncodeToString (rnd k))
  else "a string longer than 20" +:+ pretty k.

Lemma Randstring_nm k : k < N -> Randstring 20 (rnd k) = Ok (nm k).
Proof. intros Hk. unfold nm. rewrite decide_True by done. apply Randstring_Ok. by rewrite Hlen. Qed.

Lemma nm_length k : k < N -> String.length (nm k) = 20.
Proof.
  intros Hk. unfold nm. rewrite decide_True by done. apply EncodeToString_prefix. rewrite Hlen. lia.
Qed.

#[local] Instance nm_inj : Inj (=) (=) nm.
Proof using Hlen Hbytes Hdiff.
  intros i j E. destruct (decide (i < N)) as [Hi|Hi], (decide (j < N)) as [Hj|Hj].
  - apply Hdiff; [done|done|]. apply (Randstring_eq 5); auto. simpl.
    by rewrite !Randstring_nm, E.
  - apply (f_equal String.length) in E. rewrite (nm_length i Hi) in E. unfold nm in E.
    rewrite decide_False in E by done. discriminate E.
  - apply (f_equal String.length) in E. rewrite (nm_length j Hj) in E. unfold nm in E.
    rewrite decide_False in E by done. discriminate E.
  - unfold nm in E. rewrite !decide_False in E by done.
    by apply (inj (String.append _)), (inj pretty) in E.
Qed.

Lemma draw_group_Ok k n :
  k + n * n <= N -> draw_group rnd k n = Ok (srv_names nm k n <$> seq 0 n).
Proof using Hlen.
  intros Hk. unfold draw_group. rewrite (fold_go_collect _ (srv_names nm k n)); [done|].
  intros i Hi%elem_of_seq. unfold draw_names. rewrite (fold_go_collect _ nm); [done|].
  intros j Hj%elem_of_seq. apply Randstring_nm. pose proof (Nat.mul_le_mono_r (S i) n n). lia.
Qed.

Lemma nth_srv_names k n i : i < n -> nth i (srv_names nm k n <$> seq 0 n) [] = srv_names nm k n i.
Proof.
  intros Hi. apply nth_lookup_Some. by rewrite list_lookup_fmap, lookup_seq_lt.
Qed.

Lemma makeSrvGrp_ext rn g n (names names' : nat -> list string) :
  (forall i, i < n -> names i = names' i) -> makeSrvGrp rn g n names = makeSrvGrp rn g n names'.
Proof.
  intros H. unfold makeSrvGrp. f_equal. apply fold_go_ext. intros r i Hi%elem_of_seq.
  by rewrite H by lia.
Qed.

Lemma StartServers_ext l sg (names names' : nat -> list string) mks obj :
  (forall i, i < SrvN sg -> names i = names' i) ->
  StartServers l sg names mks obj = StartServers l sg names' mks obj.
Proof.
  intros H. unfold StartServers. f_equal. unfold start. apply fold_go_ext.
  intros r i Hi%elem_of_seq. by rewrite H by (unfold SrvN; lia).
Qed.

(** No group has an end named by a later draw. *)
Lemma old_names cfg g sg e j :
  cfg_ok nm cfg -> grps cfg !! g = Some sg -> grp_ends (srvs sg) e -> drawn cfg <= j -> e ≠ nm j.
Proof using Hlen Hbytes Hdiff.
  intros K Hg He Hj ->. destruct (cok_groups _ _ K g sg Hg) as (k & m & Rn & Hk).
  apply (based_range nm _ _ _ _ (run_based _ _ _ _ _ _ Rn)) in He as (i & Hi & E%(inj nm)). lia.
Qed.

(** Registering a group that runs on new names. *)
Lemma register_Ok cfg cfg' g k n m sg :
  cfg_ok nm cfg -> grps cfg !! g = None -> grps cfg' = <[g := sg]> (grps cfg) ->
  drawn cfg' = drawn cfg + m -> drawn cfg <= k -> k + n * n <= drawn cfg + m ->
  running nm (cfg_lab cfg') g k n sg -> frame (range nm (drawn cfg) m) (cfg_net cfg) (cfg_net cfg') ->
  keeps (cfg_lab cfg) (cfg_lab cfg') -> fresh_from nm (drawn cfg') (cfg_net cfg') ->
  (forall x, (forall a, a < n -> x ≠ ServerName g a) ->
     server_of (cfg_net cfg') x = server_of (cfg_net cfg) x) ->
  cfg_ok nm cfg'.
Proof using Hlen Hbytes Hdiff.
  intros K Hg Eg Ed Hk Hm Run F Kp Fr Hv.
  pose proof (run_based _ _ _ _ _ _ Run) as B. pose proof (based_length _ _ _ _ B) as Hn.
  assert (forall g' a, g' ≠ g -> server_of (cfg_net cfg') (ServerName g' a) =
    server_of (cfg_net cfg) (ServerName g' a)) as Hv' by (intros; apply Hv; by intros ? ? []%ServerName_inj).
  split; rewrite ?Eg; [..|done].
  - intros g' sg' [[<- <-]|[Hne Hg']]%lookup_insert_Some; [exists k, n; split; [done|lia]|].
    destruct (cok_groups _ _ K g' sg' Hg') as (k' & m' & Rn & Hk'). exists k', m'. split; [|lia].
    eapply (running_frame nm); [|exact F|exact Kp|by intros; apply Hv'|exact Rn].
    intros e (j & Hj & ->) He. by eapply (old_names cfg g' sg' _ j); [..|lia|].
  - intros g1 g2 s1 s2 e [[<- <-]|[Hne H1]]%lookup_insert_Some
      [[<- <-]|[Hne' H2]]%lookup_insert_Some E1 E2; [done|..].
    + apply (based_range nm _ _ _ _ B) in E1 as (j & Hj & ->). exfalso.
      by eapply (old_names cfg g2 s2 _ j); [..|lia|].
    + apply (based_range nm _ _ _ _ B) in E2 as (j & Hj & ->). exfalso.
      by eapply (old_names cfg g1 s1 _ j); [..|lia|].
    + by eapply (cok_disjoint _ _ K g1 g2).
  - intros g' i. destruct (decide (g' = g)) as [->|Hne].
    + rewrite lookup_insert_eq. split.
      * intros Hs. exists sg. split; [done|]. unfold SrvN. rewrite Hn.
        destruct (decide (i < n)); [done|]. rewrite Hv in Hs by (by intros a ? [_ ->]%ServerName_inj).
        apply (cok_served _ _ K) in Hs as (? & Hs & _). congruence.
      * intros (? & [= <-] & Hi). destruct (lookup_lt_is_Some_2 (srvs sg) i Hi) as [s Hs].
        by apply (run_up _ _ _ _ _ _ Run i s).
    + rewrite lookup_insert_ne, Hv' by done. apply (cok_served _ _ K).
Qed.

(** Starting the servers of a group keeps their names and number. *)
Definition same_names (sg sg' : ServerGrp) : Prop :=
  servernames sg' = servernames sg /\ length (srvs sg') = length (srvs sg).

#[local] Instance same_names_preorder : PreOrder same_names.
Proof. split; [by intros sg|]. intros sg1 sg2 sg3 [A1 A2] [B1 B2]. split; congruence. Qed.

Definition same_names_of {A} (x y : A * ServerGrp) : Prop := same_names x.2 y.2.

#[local] Instance same_names_of_preorder {A} : PreOrder (same_names_of (A := A)).
Proof. split; [by intros x|]. intros x y z. apply (transitivity (R := same_names)). Qed.

Lemma StartServers_names l sg names mks obj l' sg' :
  StartServers l sg names mks obj = Ok (l', sg') -> same_names sg sg'.
Proof using Type.
  unfold StartServers, start. intros H. go_inv. destruct a as [l1 sg1], a0 as [rn1 sg2]. simplify_eq/=.
  transitivity sg1.
  - revert E. apply (fold_go_preorder same_names_of).
    intros [l2 sg3] i [l3 sg4] _ H. unfold same_names_of. simpl in *. unfold StartServer in H. go_inv. destruct a0 as [l4 s4].
    simplify_eq/=. split; [done|]. simpl. apply length_insert.
  - revert E0. unfold ConnectAll. apply (fold_go_preorder same_names_of).
    intros [rn2 sg3] i [rn3 sg4] _ H. unfold same_names_of. simpl in *. unfold ConnectOne, connect, set_connected in H. go_inv.
    by simplify_eq/=.
Qed.

(** A new group is registered, with its [n] servers. *)
Lemma MakeGroupStart_group cfg g n mks cfg' :
  MakeGroupStart rnd cfg g n mks = Ok cfg' ->
  exists sg, grps cfg' = <[g := sg]> (grps cfg) /\ SrvNames sg = ServerName g <$> seq 0 n /\ SrvN sg = n.
Proof using Type.
  unfold MakeGroupStart, MakeGroup, StartServers_of, with_group. intros H. go_inv.
  unfold Group, lookupGroup in *. simpl in *. rewrite lookup_insert_eq in *. go_inv. simpl.
  eexists. split; [by rewrite insert_insert_eq|].
  destruct a1 as [rn sg], a2 as [l' sg']. simpl in *. apply StartServers_names in E2 as [Hn Hl].
  unfold makeSrvGrp in E1. clear E. go_inv. simplify_eq/=. unfold SrvNames, SrvN.
  rewrite Hn, Hl. split; [done|]. simpl.
  assert (forall l b b', fold_go (fun r i => let! r1 := makeServer r.1 g (nth i a0 []) in
    Ok (r1.1, r.2 ++ [r1.2])) l b = Ok b' -> length b'.2 = length b.2 + length l) as Hlen'.
  { induction l as [|i l IH]; intros b b' Hf; simpl in Hf; [injection Hf as <-; simpl; lia|]. go_inv.
    apply IH in Hf. simpl in *. rewrite length_app in Hf. simpl in Hf. lia. }
  apply Hlen' in E. by rewrite length_seq in E.
Qed.

Lemma MakeGroupStart_grps cfg g n mks cfg' :
  MakeGroupStart rnd cfg g n mks = Ok cfg' -> exists sg, grps cfg' = <[g := sg]> (grps cfg).
Proof using Type. intros (sg & H & _)%MakeGroupStart_group. eauto. Qed.

Lemma ExitGroup_grps cfg g cfg' : ExitGroup cfg g = Ok cfg' -> grps cfg' = delete g (grps cfg).
Proof using Type.
  unfold ExitGroup, with_group. intros H. destruct (Group cfg g); [|done]. go_inv. simpl.
  by rewrite delete_insert_eq.
Qed.

(** A new group: two rows of names, the second of which its servers use. *)
Lemma MakeGroupStart_Ok cfg g n mks :
  cfg_ok nm cfg -> Group cfg g = None -> drawn cfg + 2 * (n * n) <= N ->
  exists cfg', MakeGroupStart rnd cfg g n mks = Ok cfg' /\ cfg_ok nm cfg' /\
    drawn cfg' = drawn cfg + 2 * (n * n).
Proof using Hlen Hbytes Hdiff.
  intros K Hg HN. unfold MakeGroupStart, MakeGroup.
  rewrite draw_group_Ok by lia. cbn [go_bind].
  rewrite (makeSrvGrp_ext _ _ _ _ (srv_names nm (drawn cfg) n)) by (intros; by apply nth_srv_names).
  destruct (makeSrvGrp_Ok nm (cfg_net cfg) g (drawn cfg) n (cok_fresh _ _ K))
    as (rn1 & ss & -> & B & S0 & F1 & V1 & R1).
  cbn [go_bind fst snd]. unfold StartServers_of, with_group, Group, lookupGroup. simpl.
  rewrite lookup_insert_eq. unfold SrvN. simpl. pose proof (based_length _ _ _ _ B) as Hss.
  rewrite Hss, draw_group_Ok by lia. cbn [go_bind].
  rewrite (StartServers_ext _ _ _ (srv_names nm (drawn cfg + n * n) n))
    by (intros; apply nth_srv_names; unfold SrvN in *; simpl in *; lia).
  match goal with |- context [StartServers ?l ?sg _ _ _] => set (l1 := l); set (sg1 := sg) end.
  destruct (StartServers_Ok nm l1 g (drawn cfg + n * n) n sg1 mks (fun i => next_obj cfg + 0 + i))
    as (l2 & sg2 & -> & Run & F2 & Kp & R2 & V2); simpl; try done;
    [by rewrite length_replicate|eapply Forall_impl; [exact S0|]; intros; by left|].
  cbn [go_bind fst snd]. eexists. split; [done|]. split; [|simpl; lia].
  eapply (register_Ok cfg _ g (drawn cfg + n * n) n (2 * (n * n)) sg2); simpl; try done; try lia.
  - by rewrite insert_insert_eq.
  - etrans; [eapply frame_weaken; [|exact F1]|eapply frame_weaken; [|exact F2]];
      intros e (j & Hj & ->); exists j; (split; [lia|done]).
  - intros x Hx. unfold cfg_net. simpl. rewrite V2 by done. unfold server_of. simpl. by rewrite V1.
Qed.

Lemma ExitGroup_Ok cfg g :
  cfg_ok nm cfg -> is_Some (Group cfg g) ->
  exists cfg', ExitGroup cfg g = Ok cfg' /\ cfg_ok nm cfg' /\ drawn cfg' = drawn cfg.
Proof using Hlen Hbytes Hdiff.
  intros K [sg Hg]. unfold ExitGroup, with_group. rewrite Hg. unfold Group, lookupGroup in Hg.
  destruct (cok_groups _ _ K g sg Hg) as (k & n & Rn & Hk).
  destruct (Shutdown_Ok nm _ _ _ _ _ Rn) as (l' & sg' & -> & St). cbn [go_bind fst snd].
  eexists. split; [done|]. split; [|done].
  pose proof (run_based _ _ _ _ _ _ Rn) as B. pose proof (based_length _ _ _ _ B) as Hn.
  assert (forall g' a, g' ≠ g -> server_of (lab_net l') (ServerName g' a) =
    server_of (cfg_net cfg) (ServerName g' a)) as Hv'
    by (intros; apply (sto_servers _ _ _ _ _ _ _ _ St); by intros ? ? []%ServerName_inj).
  split; simpl; rewrite ?delete_insert_eq.
  - intros g' sg1 [Hne Hg']%lookup_delete_Some.
    destruct (cok_groups _ _ K g' sg1 Hg') as (k' & m' & Rn' & Hk'). exists k', m'. split; [|done].
    eapply (running_frame nm); [|by apply St|by apply St|by intros; apply Hv'|exact Rn'].
    intros e He%(range_based nm _ _ _ _ B) He'. apply Hne. by eapply (cok_disjoint _ _ K g g').
  - intros g1 g2 s1 s2 e [_ H1]%lookup_delete_Some [_ H2]%lookup_delete_Some.
    by apply (cok_disjoint _ _ K).
  - intros g' i. destruct (decide (g' = g)) as [->|Hne].
    + rewrite lookup_delete_eq. split; [|by intros (? & ? & _)]. intros Hs. exfalso.
      unfold cfg_net in Hs. simpl in Hs. destruct (decide (i < n)).
      * rewrite (sto_down _ _ _ _ _ _ _ _ St) in Hs by done. by destruct Hs.
      * rewrite (sto_servers _ _ _ _ _ _ _ _ St) in Hs by (by intros a ? [_ ->]%ServerName_inj).
        apply (cok_served _ _ K) in Hs as (? & ? & Hlt). unfold SrvN in Hlt. simplify_eq. lia.
    + rewrite lookup_delete_ne by done. unfold cfg_net. simpl. rewrite Hv' by done.
      apply (cok_served _ _ K).
  - intros e. unfold cfg_net. simpl. rewrite (sto_ends _ _ _ _ _ _ _ _ St). apply (cok_fresh _ _ K).
Qed.

(** A group that is shut down and started again: its servers are gone in between, and run again on new names. *)
Lemma restart_Ok cfg g sg mks :
  cfg_ok nm cfg -> Group cfg g = Some sg -> drawn cfg + SrvN sg * SrvN sg <= N ->
  exists l1 sg1, Shutdown (cfg_lab cfg) sg = Ok (l1, sg1) /\
    (forall a, a < SrvN sg -> server_of (lab_net l1) (ServerName g a) = None) /\
    exists cfg' sg', StartServers_of rnd (set_grps (set_lab cfg l1) (<[g := sg1]> (grps cfg))) g mks = Ok cfg' /\
      cfg_ok nm cfg' /\ grps cfg' = <[g := sg']> (grps cfg) /\ SrvN sg' = SrvN sg.
Proof using Hlen Hbytes Hdiff.
  intros K Hg HN. destruct (ExitGroup_Ok cfg g K ltac:(by eexists)) as (cfg0 & E0 & K0 & Ed).
  unfold ExitGroup, with_group in E0. rewrite Hg in E0. unfold Group, lookupGroup in Hg.
  destruct (cok_groups _ _ K g sg Hg) as (k & n & Rn & Hk).
  pose proof (based_length _ _ _ _ (run_based _ _ _ _ _ _ Rn)) as Hn. unfold SrvN in *. rewrite Hn in *.
  destruct (Shutdown_Ok nm _ _ _ _ _ Rn) as (l1 & sg1 & Es & St). rewrite Es in E0. cbn [go_bind fst snd] in E0.
  injection E0 as E0. exists l1, sg1. split; [done|]. split; [apply St|].
  pose proof (based_length _ _ _ _ (sto_based _ _ _ _ _ _ _ _ St)) as Hn1.
  unfold StartServers_of, with_group, Group, lookupGroup. simpl. rewrite lookup_insert_eq.
  unfold SrvN. rewrite Hn1, draw_group_Ok by lia. cbn [go_bind].
  rewrite (StartServers_ext _ _ _ (srv_names nm (drawn cfg) n)) by (intros; apply nth_srv_names; unfold SrvN in *; lia).
  assert (lab_net l1 = cfg_net cfg0) as Enet by by rewrite <- E0.
  destruct (StartServers_Ok nm l1 g (drawn cfg) n sg1 mks (fun i => next_obj cfg + i))
    as (l2 & sg2 & -> & Run & F & Kp & R & V); [done|by apply St|by apply St| | |].
  { apply Forall_lookup. intros a s Ha. right. by eapply (sto_pers _ _ _ _ _ _ _ _ St). }
  { rewrite Enet, <- Ed. apply K0. }
  cbn [go_bind fst snd]. eexists _, sg2. split; [done|].
  split; [|split; [simpl; by rewrite insert_insert_eq|apply (based_length _ _ _ _ (run_based _ _ _ _ _ _ Run))]].
  eapply (register_Ok cfg0 _ g (drawn cfg) n (n * n) sg2); simpl; try done; try lia.
  - rewrite <- E0. simpl. by rewrite delete_insert_eq, lookup_delete_eq.
  - rewrite <- E0. simpl. by rewrite delete_insert_eq, insert_insert_eq, insert_delete_eq.
  - rewrite Ed, <- Enet. exact F.
  - rewrite <- E0. exact Kp.
  - rewrite <- Enet. exact V.
Qed.

(** A new end for a client, enabled or not. *)
Lemma new_end_ok cfg sv b :
  cfg_ok nm cfg -> drawn cfg < N ->
  exists rn, MakeEnd (cfg_net cfg) (nm (drawn cfg)) = Ok rn /\
    let rn := Enable (Connect rn (nm (drawn cfg)) sv) (nm (drawn cfg)) b in
    conn_of rn (nm (drawn cfg)) = Some sv /\ is_enabled rn (nm (drawn cfg)) = b /\
    servers rn = servers (cfg_net cfg) /\
    forall cfg', cfg_lab cfg' = set_lab_net (cfg_lab cfg) rn -> grps cfg' = grps cfg ->
      drawn cfg' = drawn cfg + 1 -> cfg_ok nm cfg'.
Proof using Hlen Hbytes Hdiff.
  intros K HN. unfold MakeEnd. rewrite bool_decide_eq_false_2.
  2: { intros (j & Hj & E%(inj nm))%(cok_fresh _ _ K). lia. }
  eexists. split; [done|]. cbv zeta. split; [unfold conn_of; simpl; by rewrite lookup_insert_eq|].
  split; [unfold is_enabled; simpl; by rewrite lookup_insert_eq|]. split; [done|].
  intros cfg' Hl Hg Hd.
  assert (frame (eq (nm (drawn cfg))) (cfg_net cfg) (cfg_net cfg')) as F.
  { unfold cfg_net at 2. rewrite Hl. split; intros e He; simpl; [set_solver|..].
    - unfold is_enabled. simpl. by rewrite !lookup_insert_ne.
    - unfold conn_of. simpl. by rewrite !lookup_insert_ne. }
  split; rewrite ?Hg; [|apply (cok_disjoint _ _ K)|unfold cfg_net; rewrite Hl; apply (cok_served _ _ K)|].
  - intros g sg Hgs. destruct (cok_groups _ _ K g sg Hgs) as (k & n & Rn & Hk). exists k, n.
    split; [|lia]. eapply (running_frame nm); [|exact F|unfold keeps; by rewrite Hl|by rewrite Hl|exact Rn].
    intros e <- He. by eapply (old_names cfg g sg _ (drawn cfg)).
  - intros e. unfold cfg_net. rewrite Hl, Hd. simpl. intros [->%elem_of_singleton|He]%elem_of_union.
    + exists (drawn cfg). split; [lia|done].
    + destruct (cok_fresh _ _ K e He) as (j & ? & ?). exists j. split; [lia|done].
Qed.

Lemma Clnts_makeEnd_Ok cfg sv :
  cfg_ok nm cfg -> drawn cfg < N ->
  exists cfg', Clnts_makeEnd rnd cfg sv = Ok (cfg', nm (drawn cfg)) /\ cfg_ok nm cfg' /\
    drawn cfg' = drawn cfg + 1.
Proof using Hlen Hbytes Hdiff.
  intros K HN. unfold Clnts_makeEnd. rewrite Randstring_nm by done. cbn [go_bind].
  destruct (new_end_ok cfg sv true K HN) as (rn & -> & _ & _ & _ & Hok). cbn [go_bind].
  eexists. split; [done|]. split; [by apply Hok|done].
Qed.

(** The state of the network apart from the settings and the counters. *)
Lemma cfg_ok_settings cfg cfg' :
  grps cfg' = grps cfg -> drawn cfg' = drawn cfg -> pers (cfg_lab cfg') = pers (cfg_lab cfg) ->
  ends (cfg_net cfg') = ends (cfg_net cfg) -> enabled (cfg_net cfg') = enabled (cfg_net cfg) ->
  servers (cfg_net cfg') = servers (cfg_net cfg) ->
  connections (cfg_net cfg') = connections (cfg_net cfg) -> cfg_ok nm cfg -> cfg_ok nm cfg'.
Proof.
  unfold cfg_net. intros E1 E2 E3 E4 E5 E6 E7 [K1 K2 K3 K4]. split; rewrite ?E1, ?E2; [|done|..].
  - intros g sg Hg. destruct (K1 g sg Hg) as (k & n & Rn & Hk). exists k, n. split; [|done].
    eapply (running_frame nm (fun _ => False)); [done| | | |exact Rn].
    + split; intros e _; [by rewrite E4|unfold is_enabled; by rewrite E5|].
      unfold conn_of. by rewrite E7.
    + unfold keeps. by rewrite E3.
    + intros a _. unfold server_of. by rewrite E6.
  - intros g i. rewrite <- K3. unfold server_of, cfg_net. by rewrite E6.
  - intros e. unfold cfg_net. rewrite E4. apply K4.
Qed.

(** What the tester does between [MakeConfig] and [Cleanup], as long as the [N] names last. *)
Inductive cfg_step : Config -> Config -> Prop :=
| step_make cfg cfg' g n mks :
    Group cfg g = None -> drawn cfg + 2 * (n * n) <= N ->
    MakeGroupStart rnd cfg g n mks = Ok cfg' -> cfg_step cfg cfg'
| step_exit cfg cfg' g : ExitGroup cfg g = Ok cfg' -> cfg_step cfg cfg'
| step_end cfg cfg' sv e :
    drawn cfg < N -> Clnts_makeEnd rnd cfg sv = Ok (cfg', e) -> cfg_step cfg cfg'
| step_reliable cfg b : cfg_step cfg (SetReliable cfg b)
| step_reordering cfg b : cfg_step cfg (SetLongReordering cfg b)
| step_delays cfg b : cfg_step cfg (SetLongDelays cfg b)
| step_begin cfg descr now : cfg_step cfg (Begin cfg descr now).1
| step_op cfg : cfg_step cfg (Op cfg).

Lemma cfg_step_ok cfg cfg' : cfg_ok nm cfg -> cfg_step cfg cfg' -> cfg_ok nm cfg'.
Proof using Hlen Hbytes Hdiff.
  intros K Hstep. destruct Hstep as [cfg cfg' g n mks Hg HN E|cfg cfg' g E|cfg cfg' sv e HN E|
      cfg b|cfg b|cfg b|cfg descr now|cfg];
    try by apply (cfg_ok_settings cfg).
  - destruct (MakeGroupStart_Ok cfg g n mks K Hg HN) as (? & ? & ? & _). congruence.
  - destruct (Group cfg g) eqn:Hg; [|unfold ExitGroup, with_group in E; by rewrite Hg in E].
    destruct (ExitGroup_Ok cfg g K) as (? & ? & ? & _); [by rewrite Hg|]. congruence.
  - destruct (Clnts_makeEnd_Ok cfg sv K HN) as (? & ? & ? & _). congruence.
Qed.

Lemma MakeConfig_Ok n rel mks now :
  2 * (n * n) <= N ->
  exists cfg, MakeConfig rnd n rel mks now = Ok cfg /\ cfg_ok nm cfg /\ Config_IsReliable cfg = rel /\
    drawn cfg = 2 * (n * n) /\ forall g, is_Some (Group cfg g) <-> g = GRP0.
Proof using Hlen Hbytes Hdiff.
  intros HN. unfold MakeConfig.
  match goal with |- context [MakeGroupStart _ ?c _ _ _] => set (cfg0 := c) end.
  destruct (MakeGroupStart_Ok cfg0 GRP0 n mks) as (cfg1 & E & K & Hd); [|done|done|].
  { split; [done|done| |by intros e ?%elem_of_empty].
    intros g i. split; [by intros [? ?]|by intros (? & ? & _)]. }
  destruct (MakeGroupStart_grps _ _ _ _ _ E) as [sg Hsg].
  rewrite E. cbn [go_bind]. eexists. split; [done|]. split; [by apply (cfg_ok_settings cfg1)|].
  split_and!; [done|done|]. intros g. unfold Group, lookupGroup. simpl. rewrite Hsg. simpl.
  rewrite lookup_insert_is_Some'. unfold newGroups. rewrite lookup_empty. split; [by intros [<-|[]]|by left].
Qed.

(** The group of the test. *)
Lemma MakeConfig_group n rel mks now cfg :
  MakeConfig rnd n rel mks now = Ok cfg ->
  exists sg, Group cfg GRP0 = Some sg /\ SrvNames sg = ServerName GRP0 <$> seq 0 n /\ SrvN sg = n.
Proof using Type.
  unfold MakeConfig. intros H. go_inv. apply MakeGroupStart_group in E as (sg & Hg & Hn).
  exists sg. split; [|done]. unfold Group, lookupGroup. simpl. by rewrite Hg, lookup_insert_eq.
Qed.
End Runs.

(** An RPC of server [a] of group [g] to server [b] finds its end enabled, connected to [b], and a
    live server under that name. *)
Definition reaches (cfg : Config) (g : Z) (sg : ServerGrp) (a b : nat) : Prop :=
  exists e p, ename (srvs sg) a b = Some e /\
    readEndnameInfo (cfg_net cfg) e =
      mkendInfo true (Some (ServerName g b)) (Some p) (Config_IsReliable cfg)
        (longReordering (cfg_net cfg)).

Lemma running_reaches name cfg g k n sg a b :
  running name (cfg_lab cfg) g k n sg -> a < n -> b < n -> reaches cfg g sg a b.
Proof.
  intros Rn Ha Hb. destruct (run_link _ _ _ _ _ _ Rn a b Ha Hb) as (e & He & Hen).
  pose proof (based_length _ _ _ _ (run_based _ _ _ _ _ _ Rn)) as Hl.
  destruct (lookup_lt_is_Some_2 (srvs sg) a) as [s Hs]; [lia|].
  destruct (lookup_lt_is_Some_2 (srvs sg) b) as [s' Hs']; [lia|].
  destruct (run_up _ _ _ _ _ _ Rn a s Hs) as (_ & _ & C & _).
  destruct (run_up _ _ _ _ _ _ Rn b s' Hs') as (_ & _ & _ & p & Hp).
  exists e, p. split; [done|]. unfold readEndnameInfo, cfg_net. rewrite Hen.
  pose proof (proj1 (based_ename name _ _ _ _ _ _ (run_based _ _ _ _ _ _ Rn)) He) as (_ & _ & ->).
  by rewrite C, Hp.
Qed.

(** C15: Set-up and run of a test: if no two of the first [N] names drawn agree on the 15 random
    bytes they carry, [MakeConfig] succeeds, and after any sequence of [MakeGroupStart],
    [ExitGroup], client ends and settings that needs at most [N] names, every server of every
    registered group reaches every server of its group, exactly the servers of the registered
    groups are in the network, and a new group can be started and any registered group shut down
    without a failure. *)
Theorem groups_stay_connected rnd N n rel mks now :
  (forall k, length (rnd k) = 40) -> (forall k, Forall byte (rnd k)) ->
  (forall i j, i < N -> j < N -> take 15 (rnd i) = take 15 (rnd j) -> i = j) ->
  2 * (n * n) <= N ->
  exists cfg0, MakeConfig rnd n rel mks now = Ok cfg0 /\ Config_IsReliable cfg0 = rel /\
    forall cfg, rtc (cfg_step rnd N) cfg0 cfg ->
      (forall g sg a b, Group cfg g = Some sg -> a < SrvN sg -> b < SrvN sg -> reaches cfg g sg a b) /\
      (forall g i, is_Some (server_of (cfg_net cfg) (ServerName g i)) <->
         exists sg, Group cfg g = Some sg /\ i < SrvN sg) /\
      (forall g m mks, Group cfg g = None -> drawn cfg + 2 * (m * m) <= N ->
         exists cfg', MakeGroupStart rnd cfg g m mks = Ok cfg') /\
      (forall g, is_Some (Group cfg g) -> exists cfg', ExitGroup cfg g = Ok cfg').
Proof.
  intros Hlen Hbytes Hdiff HN.
  destruct (MakeConfig_Ok rnd N Hlen Hbytes Hdiff n rel mks now HN) as (cfg0 & E & K0 & Hr & _).
  exists cfg0. split_and!; [done|done|]. intros cfg Hrun.
  assert (cfg_ok (nm rnd N) cfg) as K.
  { eapply rtc_invariant; [|exact K0|exact Hrun]. intros; by eapply cfg_step_ok. }
  split_and!.
  - intros g sg a b Hg Ha Hb. destruct (cok_groups _ _ K g sg Hg) as (k & m & Rn & _).
    unfold SrvN in *. rewrite (based_length _ _ _ _ (run_based _ _ _ _ _ _ Rn)) in *.
    by eapply running_reaches.
  - apply (cok_served _ _ K).
  - intros g m mks' Hg Hm.
    destruct (MakeGroupStart_Ok rnd N Hlen Hbytes Hdiff cfg g m mks' K Hg Hm) as (? & ? & _). eauto.
  - intros g Hg. destruct (ExitGroup_Ok rnd N Hlen Hbytes Hdiff cfg g K Hg) as (? & ? & _). eauto.
Qed.

(** Bytes for 256 names. *)
Definition demo_rnd (k : nat) : list Z := Z.of_nat (k mod 256) :: replicate 39 0%Z.

Lemma demo_rnd_bytes k : Forall byte (demo_rnd k).
Proof.
  constructor; [|repeat constructor; unfold byte; lia]. unfold byte.
  pose proof (Nat.mod_upper_bound k 256). lia.
Qed.

Lemma demo_rnd_diff i j : i < 256 -> j < 256 -> take 15 (demo_rnd i) = take 15 (demo_rnd j) -> i = j.
Proof.
  intros Hi Hj E. apply (f_equal (hd 0%Z)) in E.
  change (Z.of_nat (i mod 256) = Z.of_nat (j mod 256)) in E. apply Nat2Z.inj in E.
  by rewrite !Nat.mod_small in E.
Qed.

Lemma groups_stay_connected_witness :
  exists cfg0, MakeConfig demo_rnd 3 true (fun _ _ => []) 0 = Ok cfg0 /\
    Config_IsReliable cfg0 = true.
Proof.
  destruct (groups_stay_connected demo_rnd 256 3 true (fun _ _ => []) 0) as (cfg0 & E & Hr & _).
  - reflexivity.
  - exact demo_rnd_bytes.
  - exact demo_rnd_diff.
  - simpl. lia.
  - exists cfg0. split; assumption.
Defined.

(** ** The report *)

(** A client counts an operation, or the network takes a request. *)
Definition count (cfg : Config) (ev : option reqMsg) : Config :=
  match ev with
  | None => Op cfg
  | Some req => set_net cfg (count_request (cfg_net cfg) req)
  end.

Definition is_op (ev : option reqMsg) : bool := negb (bool_decide (is_Some ev)).
Definition is_req (ev : option reqMsg) : bool := bool_decide (is_Some ev).

Lemma count_counts evs cfg :
  let cfg' := foldl count cfg evs in
  failed cfg' = failed cfg /\ start_at cfg' = start_at cfg /\ grps cfg' = grps cfg /\
  rpcs0 cfg' = rpcs0 cfg /\ i32 (ops cfg') = i32 (ops cfg + Z.of_nat (countb is_op evs)) /\
  i32 (net_count (cfg_net cfg')) = i32 (net_count (cfg_net cfg) + Z.of_nat (countb is_req evs)).
Proof.
  revert cfg. induction evs as [|[req|] evs IH]; intros cfg; cbv zeta; cbn [foldl].
  - change (countb is_op []) with 0. change (countb is_req []) with 0. by rewrite !Z.add_0_r.
  - destruct (IH (count cfg (Some req))) as (-> & -> & -> & -> & H1 & H2).
    rewrite !countb_cons. change (is_op (Some req)) with false. change (is_req (Some req)) with true.
    split_and!; try done. rewrite H2. unfold cfg_net. simpl. rewrite i32_add. f_equal. unfold cfg_net. lia.
  - destruct (IH (count cfg None)) as (-> & -> & -> & -> & H1 & H2).
    rewrite !countb_cons. change (is_op None) with true. change (is_req None) with false.
    split_and!; try done. rewrite H1. simpl. rewrite i32_add. f_equal. lia.
Qed.

(** The counters of a test: after [Begin], whatever operations the clients count and requests the
    network takes, in any order, [End] prints the numbers of both, as long as the [int32] counters
    do not overflow. *)
Lemma End_counts cfg descr now evs now' :
  failed cfg = false -> is_Some (Group cfg GRP0) -> (now' - start_at cfg <= 120 * 10 ^ 9)%Z ->
  (0 <= net_count (cfg_net cfg))%Z ->
  (net_count (cfg_net cfg) + Z.of_nat (length evs) < 2 ^ 31)%Z ->
  exists r, End_ (foldl count (Begin cfg descr now).1 evs) now' = Ok (Some r) /\
    i32 (nops r) = Z.of_nat (countb is_op evs) /\
    i32 (nrpc r + net_count (cfg_net cfg)) =
      (net_count (cfg_net cfg) + Z.of_nat (countb is_req evs))%Z.
Proof.
  intros Hf [sg Hg] Ht Hc Hb.
  destruct (count_counts evs (Begin cfg descr now).1) as (F & T & G & R & H1 & H2).
  set (cfg' := foldl count _ evs) in *. unfold End_, CheckTimeout.
  rewrite F, T. simpl. rewrite Hf, bool_decide_eq_false_2 by lia. cbn [andb negb go_bind].
  rewrite F. simpl. rewrite Hf. unfold with_group, Group, lookupGroup. rewrite G. simpl.
  unfold Group, lookupGroup in Hg. rewrite Hg. eexists. split; [done|]. simpl. rewrite R. simpl.
  pose proof (countb_le_length is_op evs). pose proof (countb_le_length is_req evs).
  assert (forall z, (0 <= z < 2 ^ 31)%Z -> i32 z = z) as Hsm
    by (intros z Hz; unfold i32; rewrite Z.mod_small; lia).
  split.
  - rewrite H1. simpl. apply Hsm. lia.
  - unfold RpcTotal, GetTotalCount. rewrite Z.sub_add, H2. apply Hsm. lia.
Qed.
