(* ===== verification/KvHistory.v ===== *)
(** * Recorded histories and their check

    The methods [Get], [Put] and [CheckPorcupine] of [Test] in [src/src/kvtest1/porcupine.go]: a call
    of the clerk between two readings of the clock, the count of operations, the log, and the
    check of the log against [KvModel].  The checker is the package [porcupine], a parameter.  Any
    number of goroutines make such calls at the same time over any clerk that implements
    [IKVClerk]; the readings of the clock, the counting and the appending are steps of their own,
    so that the order of the log is not the order of the calls. *)

From S2P Require Import Prelude KvRpc KvServer Models KvClerk KvTest Config.

(** ** Linearizable histories *)

(** No operation is placed before one that had returned when it was called. *)
Fixpoint in_order (l : list Operation) : bool :=
  match l with
  | [] => true
  | v :: l =>
      forallb (fun w => bool_decide (Operation_Call v <= Operation_Return w)%Z) l && in_order l
  end.

Definition legal (l : list Operation) : bool :=
  match accepts Init l with Ok b => b | _ => false end && in_order l.

(** The history of one key has a legal order. *)
Definition linearizable (history : list Operation) : Prop :=
  exists l, l ≡ₚ history /\ legal l = true.

(** What [porcupine] checks with [KvModel]: every group of [Partition]. *)
Definition history_linearizable (history : list Operation) : Prop :=
  forall k, linearizable (filter (fun v => op_key v = k) history).

(** A reference checker: every group, in every order. *)
Definition linearizable_b (history : list Operation) : bool :=
  existsb legal (permutations history).

Definition reference_check (order : list string) (history : list Operation) : bool :=
  forallb linearizable_b (Partition order history).

(** ** The check of a test *)

(** [porcupine.CheckResult]. *)
Inductive CheckResult := Unknown | CheckOk | Illegal.

(** [check] is [porcupine.CheckOperationsVerbose] with [KvModel], [tempfile] the name of the file
    [ioutil.TempFile] makes, if it makes one, and [visualized] whether [porcupine.Visualize]
    succeeds.  The lines printed, and the end of the test. *)
Definition checkPorcupine (check : list Operation -> Z -> CheckResult)
    (tempfile : option string) (visualized : bool) (opLog : OpLog) (nsec : Z) :
    list string * go unit :=
  match check (OpLog_Read opLog) nsec with
  | Illegal =>
      (match tempfile with
       | None => ["info: failed to create temp file for visualization"]
       | Some name =>
           if visualized then ["info: wrote history visualization to " +:+ name]
           else ["info: failed to write history visualization to " +:+ name]
       end, Fatal "history is not linearizable")
  | Unknown => (["info: linearizability check timed out, assuming history is ok"], Ok tt)
  | CheckOk => ([], Ok tt)
  end.

(** In nanoseconds. *)
Definition linearizabilityCheckTimeout : Z := 1000000000.

(** [Test], without the [testing.T] and the maker of clerks. *)
Record Test := mkTest {
  ts_cfg : Config;
  oplog : option OpLog;
  randomkeys : bool
}.

Definition MakeTest (cfg : Config) (random : bool) : Test := mkTest cfg (Some []) random.

(** Reading the log through a nil pointer panics. *)
Definition CheckPorcupineT check tempfile visualized (ts : Test) (nsec : Z) : list string * go unit :=
  match oplog ts with
  | Some log => checkPorcupine check tempfile visualized log nsec
  | None => ([], Panic "invalid memory address or nil pointer dereference")
  end.

Definition CheckPorcupine check tempfile visualized (ts : Test) : list string * go unit :=
  CheckPorcupineT check tempfile visualized ts linearizabilityCheckTimeout.

(** ** Calls *)

Definition Test_Op (ts : Test) : Test := mkTest (Op (ts_cfg ts)) (oplog ts) (randomkeys ts).

Definition Test_Append (ts : Test) (v : Operation) : Test :=
  mkTest (ts_cfg ts)
    (match oplog ts with Some log => Some (OpLog_Append log v) | None => None end)
    (randomkeys ts).

Definition request_input (r : request) : KvInput :=
  match r with
  | ReqGet k => mkKvInput 0 k "" 0
  | ReqPut k v ver => mkKvInput 1 k v ver
  end.

(** Where a goroutine is in [ts.Get] or [ts.Put]: the clerk is called, it has answered (at the
    time [at_]), the time of the return is read, the operation is counted, and it is logged. *)
Inductive call_phase :=
| Called (start : Z)
| Answered (start : Z) (out : KvOutput) (at_ : Z)
| Stopped (start : Z) (out : KvOutput) (stop : Z)
| Counted (start : Z) (out : KvOutput) (stop : Z)
| Logged.

Record thread := mkthread { th_cli : Z; th_req : request; th_phase : call_phase }.

Definition record_op (cli : Z) (r : request) (start : Z) (out : KvOutput) (stop : Z) : Operation :=
  mkOperation cli (request_input r) start out stop.

Section Calls.
Context {St : Type} `{!IKVClerk St}.

Inductive call_clerk (s : St) : request -> KvOutput -> St -> Prop :=
| call_get k val ver err s' :
    ck_get s k (val, ver, err) s' -> call_clerk s (ReqGet k) (mkKvOutput val ver err) s'
| call_put k v ver err s' :
    ck_put s k v ver err s' -> call_clerk s (ReqPut k v ver) (mkKvOutput "" 0 err) s'.

(** A step of [ts.Get] or [ts.Put] at the time [now]. *)
Inductive Test_call (now cli : Z) (r : request) : St * Test * call_phase -> St * Test * call_phase -> Prop :=
| tc_clerk s ts start out s' :
    call_clerk s r out s' ->
    Test_call now cli r (s, ts, Called start) (s', ts, Answered start out now)
| tc_stop s ts start out at_ :
    Test_call now cli r (s, ts, Answered start out at_) (s, ts, Stopped start out now)
| tc_count s ts start out stop :
    Test_call now cli r (s, ts, Stopped start out stop) (s, Test_Op ts, Counted start out stop)
| tc_append s ts start out stop :
    Test_call now cli r (s, ts, Counted start out stop)
      (s, Test_Append ts (record_op cli r start out stop), Logged).

Record hsys := mkhsys { now : Z; store : St; tst : Test; threads : list thread }.

(** Time passes, a goroutine makes a call, or a call goes on. *)
Inductive sys_step : hsys -> hsys -> Prop :=
| ss_tick s t : (now s <= t)%Z -> sys_step s (mkhsys t (store s) (tst s) (threads s))
| ss_call s cli r :
    sys_step s
      (mkhsys (now s) (store s) (tst s) (threads s ++ [mkthread cli r (Called (now s))]))
| ss_thread s l1 cli r p l2 st' ts' p' :
    threads s = l1 ++ mkthread cli r p :: l2 ->
    Test_call (now s) cli r (store s, tst s, p) (st', ts', p') ->
    sys_step s (mkhsys (now s) st' ts' (l1 ++ mkthread cli r p' :: l2)).

Definition sys_start (cfg : Config) (random : bool) (s : St) (t : Z) : hsys :=
  mkhsys t s (MakeTest cfg random) [].

Definition all_logged (s : hsys) : Prop := Forall (fun th => th_phase th = Logged) (threads s).
End Calls.
Arguments hsys St : clear implicits.

(** What the model relies on beyond the interface: a failed [Get] returns no value, and a [Put]
    fails with one of three errors. *)
Class ReportingClerk (St : Type) `{!IKVClerk St} := {
  ck_get_empty : forall s k v ver e s', ck_get s k (v, ver, e) s' -> e ≠ OK -> v = "";
  ck_put_errors : forall s k v ver e s', ck_put s k v ver e s' ->
    e = OK \/ e = ErrVersion \/ e = ErrMaybe \/ e = ErrNoKey
}.

#[export] Instance kvsrv_reporting : ReportingClerk KVServer.
Proof.
  split.
  - intros s k v ver e s' [_ H] He. rewrite kv_get_spec in H.
    destruct (kv_view s k) as [[? ?]|]; simplify_eq/=; done.
  - intros s k v ver e s' H. destruct H as [| |].
    + destruct (decide (ver = cur_version s k)).
      * rewrite Put_success by done. auto.
      * rewrite Put_failure by done. destruct (put_error_cases s k) as [E|E]; simpl; rewrite E; auto.
    + auto.
    + auto.
Qed.

(** ** Lemmas on histories *)

(** [l] leads the model from [st] to [st']. *)
Fixpoint leads (st : state_any) (l : list Operation) (st' : state_any) : Prop :=
  match l with
  | [] => st = st'
  | v :: l => exists st1, Step st (Operation_Input v) (Operation_Output v) = Ok (true, st1)
                /\ leads st1 l st'
  end.

Lemma leads_accepts st l st' : leads st l st' -> accepts st l = Ok true.
Proof.
  revert st. induction l as [|v l IH]; intros st; simpl; [done|].
  intros (st1 & -> & H). simpl. by apply IH.
Qed.

Lemma leads_snoc st l st1 v st' :
  leads st l st1 -> Step st1 (Operation_Input v) (Operation_Output v) = Ok (true, st') ->
  leads st (l ++ [v]) st'.
Proof.
  revert st. induction l as [|w l IH]; intros st; simpl; [intros -> ?; eauto|].
  intros (st2 & ? & ?) ?. eauto.
Qed.

(** Operations up to their times. *)
Definition io (v : Operation) : KvInput * KvOutput := (Operation_Input v, Operation_Output v).

Lemma leads_io k st l l' st' :
  io <$> l = io <$> l' -> leads st (filter (fun v => op_key v = k) l) st' ->
  leads st (filter (fun v => op_key v = k) l') st'.
Proof.
  revert st l'. induction l as [|v l IH]; intros st [|w l']; simpl; try done.
  intros [= Ei Eo El]. rewrite !filter_cons.
  assert (op_key w = op_key v) as -> by (unfold op_key; congruence).
  case_decide; simpl; [|by apply IH]. rewrite <- Ei, <- Eo.
  intros (st1 & ? & ?). eauto.
Qed.

(** A placement of operations at times between their call and their return. *)
Record placed (t : Z) (lin : list (Z * Operation)) : Prop := {
  pl_between : Forall (fun x => Operation_Call x.2 <= x.1 <= Operation_Return x.2 /\ x.1 <= t)%Z lin;
  pl_sorted : StronglySorted Z.le lin.*1
}.

Lemma placed_in_order t lin k :
  placed t lin -> in_order (filter (fun v => op_key v = k) lin.*2) = true.
Proof.
  intros [Hb Hs]. induction lin as [|[a v] lin IH]; simpl; [done|].
  apply Forall_cons in Hb as [Hv Hb]. apply StronglySorted_inv in Hs as [Hs Ha]. simpl in *.
  specialize (IH Hb Hs). rewrite filter_cons. case_decide; [|exact IH].
  simpl. apply andb_true_intro. split; [|exact IH]. apply forallb_forall. intros w Hw%list_elem_of_In.
  apply list_elem_of_filter in Hw as [_ Hw]. apply list_elem_of_fmap in Hw as ([b w'] & -> & Hw).
  rewrite Forall_forall in Hb. rewrite Forall_forall in Ha. specialize (Hb _ Hw). simpl in *.
  specialize (Ha b (list_elem_of_fmap_2 fst _ _ Hw)). apply bool_decide_eq_true. lia.
Qed.

Lemma placed_later t t' lin : (t <= t')%Z -> placed t lin -> placed t' lin.
Proof.
  intros Ht [Hb Hs]. split; [|done]. eapply Forall_impl; [exact Hb|]. simpl. lia.
Qed.

Lemma placed_snoc t lin v :
  placed t lin -> (Operation_Call v <= t <= Operation_Return v)%Z -> placed t (lin ++ [(t, v)]).
Proof.
  intros [Hb Hs] Hv. split.
  - apply Forall_app. split; [done|]. repeat constructor; simpl; lia.
  - rewrite fmap_app. apply StronglySorted_app_2; [|done|repeat constructor].
    intros x y (z & -> & Hz)%list_elem_of_fmap Hy%list_elem_of_singleton. simpl in Hy. subst y.
    rewrite Forall_forall in Hb. apply Hb in Hz. lia.
Qed.

(** An operation returns later. *)
Lemma placed_return t a v w l1 l2 :
  placed t (l1 ++ (a, v) :: l2) -> Operation_Call w = Operation_Call v ->
  (t <= Operation_Return w)%Z -> placed t (l1 ++ (a, w) :: l2).
Proof.
  intros [Hb Hs] Hc Hr. apply Forall_app in Hb as [H1 [H2 H3]%Forall_cons]. split.
  - apply Forall_app. split; [done|]. apply Forall_cons. split; [|done]. simpl in *. lia.
  - revert Hs. by rewrite !fmap_app, !fmap_cons.
Qed.

(** ** The invariant of calls *)

Section Invariant.
Context {St : Type} `{!IKVClerk St, !ReportingClerk St}.

(** The model's state for a key of the store. *)
Definition view_abs (s : St) (k : string) : state_any :=
  AnyState (mkKvState (default "" (fst <$> ck_view s k)) (default 0%Z (snd <$> ck_view s k))).

Lemma call_clerk_step s r out s' k :
  call_clerk s r out s' ->
  no_key_put (record_op 0 r 0 out 0) = false ->
  if decide (KvInput_Key (request_input r) = k)
  then Step (view_abs s k) (request_input r) out = Ok (true, view_abs s' k)
  else view_abs s' k = view_abs s k.
Proof.
  intros Hc. destruct Hc as [k' val ver err s' Hg|k' v ver err s' Hp]; simpl.
  - intros _. unfold view_abs at 2. rewrite (ck_get_view _ _ _ _ Hg). case_decide as Hk.
    + subst k'. unfold Step, view_abs. simpl. repeat f_equal. apply bool_decide_eq_true.
      destruct (decide (err = OK)) as [->|He].
      * by rewrite (ck_get_ok _ _ _ _ _ _ Hg eq_refl).
      * destruct (ck_get_err _ _ _ _ _ _ Hg He) as [_ ->]. by rewrite (ck_get_empty _ _ _ _ _ _ Hg He).
    + unfold view_abs. by rewrite (ck_get_view _ _ _ _ Hg).
  - intros Hn. pose proof (ck_put_errors _ _ _ _ _ _ Hp) as He.
    apply ck_put_spec in Hp as [Ho Hp]. case_decide as Hk.
    + subst k'. unfold Step, view_abs. simpl.
      destruct Hp as [(E & -> & He')|(E & -> & He')].
      * rewrite <- E, bool_decide_eq_true_2 by done. simpl. by destruct He' as [->| ->].
      * rewrite bool_decide_eq_false_2 by congruence. destruct He as [->|[->|[->| ->]]]; done.
    + unfold view_abs. by rewrite Ho.
Qed.

(** The operation of a goroutine whose call of the clerk has returned; until the time of the
    return is read, it is the time of the answer. *)
Definition open_op (th : thread) : list Operation :=
  match th_phase th with
  | Called _ | Logged => []
  | Answered start out at_ => [record_op (th_cli th) (th_req th) start out at_]
  | Stopped start out stop | Counted start out stop =>
      [record_op (th_cli th) (th_req th) start out stop]
  end.

(** Whether a goroutine is between counting and logging. *)
Definition is_counted (th : thread) : bool :=
  match th_phase th with Counted _ _ _ => true | _ => false end.

(** Every operation whose call has returned is placed at the moment the clerk answered. *)
Record sys_inv (cfg : Config) (s : hsys St) (log : OpLog) (lin : list (Z * Operation)) : Prop := {
  si_log : oplog (tst s) = Some log;
  si_perm : lin.*2 ≡ₚ log ++ (threads s ≫= open_op);
  si_placed : placed (now s) lin;
  si_called : forall th start, th ∈ threads s -> th_phase th = Called start -> (start <= now s)%Z;
  si_model : Forall (fun v => no_key_put v = false) lin.*2 ->
    forall k, leads Init (filter (fun v => op_key v = k) lin.*2) (view_abs (store s) k);
  si_ops : i32 (ops (ts_cfg (tst s))) =
    i32 (ops cfg + Z.of_nat (length log + countb is_counted (threads s)))
}.

Lemma sys_inv_start cfg random s t :
  (forall k, ck_view s k = None) -> sys_inv cfg (sys_start cfg random s t) [] [].
Proof.
  intros Hv. split; simpl.
  - done.
  - done.
  - by split; constructor.
  - intros th start Hth. by apply elem_of_nil in Hth.
  - intros _ k. unfold view_abs. by rewrite Hv.
  - unfold countb. simpl. by rewrite Z.add_0_r.
Qed.

Lemma sys_inv_tick cfg s log lin t :
  (now s <= t)%Z -> sys_inv cfg s log lin -> sys_inv cfg (mkhsys t (store s) (tst s) (threads s)) log lin.
Proof.
  intros Ht [H1 H2 H3 H4 H5 H6]. split; try done; simpl.
  - by eapply placed_later.
  - intros th start Hth Hp. specialize (H4 th start Hth Hp). lia.
Qed.

Lemma sys_inv_call cfg s log lin cli r :
  sys_inv cfg s log lin ->
  sys_inv cfg (mkhsys (now s) (store s) (tst s)
                 (threads s ++ [mkthread cli r (Called (now s))])) log lin.
Proof.
  intros [H1 H2 H3 H4 H5 H6]. split; try done; simpl.
  - rewrite bind_app. simpl. by rewrite !app_nil_r.
  - intros th start [Hth|Hth%list_elem_of_singleton]%elem_of_app Hp; [by eapply H4|].
    subst th. simpl in Hp. injection Hp as <-. lia.
  - rewrite countb_app, countb_cons. simpl. rewrite H6. unfold countb. simpl. do 3 f_equal. lia.
Qed.

Lemma i32_idemp z : i32 (i32 z) = i32 z.
Proof. pose proof (i32_add z 0) as H. by rewrite !Z.add_0_r in H. Qed.

Lemma perm_replace {A} (p1 p2 l q1 q2 : list A) v w :
  p1 ++ v :: p2 ≡ₚ l ++ q1 ++ v :: q2 -> p1 ++ w :: p2 ≡ₚ l ++ q1 ++ w :: q2.
Proof. rewrite !app_assoc. intros H%Permutation_app_inv. by apply Permutation_elt. Qed.

(** What the other goroutines know stays true. *)
Lemma called_replace (l1 l2 : list thread) th th' t :
  (forall x start, x ∈ l1 ++ th :: l2 -> th_phase x = Called start -> (start <= t)%Z) ->
  (forall start, th_phase th' ≠ Called start) ->
  forall x start, x ∈ l1 ++ th' :: l2 -> th_phase x = Called start -> (start <= t)%Z.
Proof.
  intros H Hn x start Hx Hp. apply (H x start); [|done]. set_solver.
Qed.

Lemma sys_inv_clerk cfg s log lin l1 cli r start l2 out st' :
  threads s = l1 ++ mkthread cli r (Called start) :: l2 ->
  call_clerk (store s) r out st' -> sys_inv cfg s log lin ->
  sys_inv cfg (mkhsys (now s) st' (tst s) (l1 ++ mkthread cli r (Answered start out (now s)) :: l2))
    log (lin ++ [(now s, record_op cli r start out (now s))]).
Proof.
  intros Ht Hc [H1 H2 H3 H4 H5 H6]. rewrite Ht in *. split; simpl.
  - done.
  - rewrite fmap_app, H2, !bind_app. simpl. solve_Permutation.
  - apply placed_snoc; [done|]. simpl. split; [|lia].
    apply (H4 (mkthread cli r (Called start))); [set_solver|done].
  - by eapply called_replace.
  - rewrite fmap_app. intros [Hl Hv]%Forall_app k. specialize (H5 Hl k).
    apply Forall_cons in Hv as [Hv _].
    rewrite filter_app, fmap_cons, fmap_nil, filter_cons, filter_nil.
    pose proof (call_clerk_step _ _ _ _ k Hc Hv) as Hs. unfold op_key at 2.
    destruct (decide (KvInput_Key (request_input r) = k)) as [Hk|Hk].
    + rewrite decide_True by done. by eapply leads_snoc.
    + by rewrite decide_False, app_nil_r, Hs by done.
  - rewrite H6, !countb_app, !countb_cons. done.
Qed.

Lemma sys_inv_stop cfg s log lin l1 cli r start out at_ l2 :
  threads s = l1 ++ mkthread cli r (Answered start out at_) :: l2 ->
  sys_inv cfg s log lin -> exists lin',
  sys_inv cfg (mkhsys (now s) (store s) (tst s)
                 (l1 ++ mkthread cli r (Stopped start out (now s)) :: l2)) log lin'.
Proof.
  intros Ht [H1 H2 H3 H4 H5 H6]. rewrite Ht in *.
  set (v := record_op cli r start out at_). set (w := record_op cli r start out (now s)).
  assert (v ∈ lin.*2) as Hin by (rewrite H2, bind_app; simpl; set_solver).
  apply list_elem_of_fmap in Hin as ([a v'] & Hv & (p1 & p2 & ->)%list_elem_of_split).
  simpl in Hv. subst v'. exists (p1 ++ (a, w) :: p2).
  assert (io <$> (p1 ++ (a, v) :: p2).*2 = io <$> (p1 ++ (a, w) :: p2).*2) as Hio
    by (by rewrite !fmap_app, !fmap_cons).
  split; simpl.
  - done.
  - revert H2. rewrite !fmap_app, !fmap_cons, !bind_app. simpl. fold v w. apply perm_replace.
  - eapply placed_return; [done|done|]. simpl. lia.
  - by eapply called_replace.
  - intros Hn k. eapply leads_io; [exact Hio|]. apply H5.
    revert Hn. rewrite !fmap_app, !fmap_cons, !Forall_app, !Forall_cons. done.
  - rewrite H6, !countb_app, !countb_cons. done.
Qed.

(** Counting and logging leave the operations where they are. *)
Lemma sys_inv_count cfg s log lin l1 cli r start out stop l2 :
  threads s = l1 ++ mkthread cli r (Stopped start out stop) :: l2 ->
  sys_inv cfg s log lin ->
  sys_inv cfg (mkhsys (now s) (store s) (Test_Op (tst s))
                 (l1 ++ mkthread cli r (Counted start out stop) :: l2)) log lin.
Proof.
  intros Ht [H1 H2 H3 H4 H5 H6]. rewrite Ht in *. split; simpl; try done.
  - by rewrite H2, !bind_app.
  - by eapply called_replace.
  - rewrite !countb_app, !countb_cons in *. simpl in *.
    rewrite i32_idemp, <- i32_add, H6, i32_add. f_equal. lia.
Qed.

Lemma sys_inv_append cfg s log lin l1 cli r start out stop l2 :
  threads s = l1 ++ mkthread cli r (Counted start out stop) :: l2 ->
  sys_inv cfg s log lin ->
  sys_inv cfg (mkhsys (now s) (store s) (Test_Append (tst s) (record_op cli r start out stop))
                 (l1 ++ mkthread cli r Logged :: l2))
    (OpLog_Append log (record_op cli r start out stop)) lin.
Proof.
  intros Ht [H1 H2 H3 H4 H5 H6]. rewrite Ht in *. split; simpl; try done.
  - by rewrite H1.
  - rewrite H2, !bind_app. unfold OpLog_Append. simpl. solve_Permutation.
  - by eapply called_replace.
  - rewrite H6, !countb_app, !countb_cons. unfold OpLog_Append. rewrite length_app. simpl.
    do 3 f_equal. lia.
Qed.

Lemma sys_inv_step cfg s s' log lin :
  sys_inv cfg s log lin -> sys_step s s' -> exists log' lin', sys_inv cfg s' log' lin'.
Proof.
  intros Hi Hs. destruct Hs as [s t Ht|s cli r|s l1 cli r p l2 st' ts' p' Ht Hc].
  - eauto using sys_inv_tick.
  - eauto using sys_inv_call.
  - inversion Hc; subst.
    + eauto using sys_inv_clerk.
    + destruct (sys_inv_stop _ _ _ _ _ _ _ _ _ _ _ Ht Hi). eauto.
    + eauto using sys_inv_count.
    + eauto using sys_inv_append.
Qed.
End Invariant.

(** ** The reference checker *)

Lemma linearizable_b_true h : linearizable_b h = true <-> linearizable h.
Proof.
  unfold linearizable_b, linearizable. rewrite existsb_exists. split.
  - intros (l & Hl%list_elem_of_In & ?). apply permutations_Permutation in Hl. by exists l.
  - intros (l & Hl & ?). exists l. split; [|done]. apply list_elem_of_In.
    by apply permutations_Permutation.
Qed.

#[export] Instance linearizable_dec h : Decision (linearizable h).
Proof. refine (cast_if (decide (linearizable_b h = true))); by rewrite <- linearizable_b_true. Defined.

Lemma linearizable_nil : linearizable [].
Proof. by exists []. Qed.

(** The groups of [Partition] are the histories of the keys. *)
Lemma Partition_linearizable order history :
  order ≡ₚ elements (dom (group_by op_key id history ∅)) ->
  Forall linearizable (Partition order history) <-> history_linearizable history.
Proof.
  intros Ho. destruct (Partition_keys order history Ho) as [_ Hin].
  rewrite Partition_filter, Forall_fmap, Forall_forall. split; [|intros H k _; exact (H k)].
  intros H k. destruct (decide (k ∈ op_key <$> history)) as [Hk|Hk]; [by apply H, Hin|].
  destruct (filter _ history) as [|v l] eqn:E; [apply linearizable_nil|]. destruct Hk.
  assert (v ∈ filter (fun v => op_key v = k) history) as Hv by (rewrite E; left).
  apply list_elem_of_filter in Hv as [<- Hv]. by apply list_elem_of_fmap_2.
Qed.

Lemma reference_check_true order history :
  order ≡ₚ elements (dom (group_by op_key id history ∅)) ->
  reference_check order history = true <-> history_linearizable history.
Proof.
  intros Ho. rewrite <- (Partition_linearizable order) by done. unfold reference_check.
  rewrite forallb_forall, Forall_forall. setoid_rewrite <- list_elem_of_In.
  by setoid_rewrite linearizable_b_true.
Qed.

(** ** Properties *)

Lemma history_linearizable_run {St} `{!IKVClerk St, !ReportingClerk St} cfg random (st : St) t s :
  (forall k, ck_view st k = None) -> rtc sys_step (sys_start cfg random st t) s -> all_logged s ->
  exists log, oplog (tst s) = Some log /\
    i32 (ops (ts_cfg (tst s))) = i32 (ops cfg + Z.of_nat (length log)) /\
    (Forall (fun v => no_key_put v = false) log -> history_linearizable log).
Proof.
  intros Hst Hrun Hall.
  assert (exists log lin, sys_inv cfg s log lin) as (log & lin & [H1 H2 H3 H4 H5 H6]).
  { revert Hrun. apply (rtc_invariant _ (fun s => exists log lin, sys_inv cfg s log lin)).
    - intros a b (log & lin & Hi) Hs. by eapply sys_inv_step.
    - exists [], []. by apply sys_inv_start. }
  exists log. unfold all_logged in Hall. rewrite Forall_forall in Hall.
  assert ((threads s ≫= open_op) = []) as Ho.
  { apply elem_of_nil_inv. intros v (th & Hv & Hth)%list_elem_of_bind. revert Hv. unfold open_op.
    rewrite (Hall _ Hth). apply elem_of_nil. }
  rewrite Ho, app_nil_r in H2. split_and!; [done| |].
  - rewrite H6. do 3 f_equal.
    enough (countb is_counted (threads s) = 0) by lia. apply countb_zero.
    intros th Hth. unfold is_counted. by rewrite (Hall _ Hth).
  - intros Hn k. rewrite <- H2 in Hn. exists (filter (fun v => op_key v = k) lin.*2).
    split; [by rewrite H2|]. unfold legal. rewrite (leads_accepts _ _ _ (H5 Hn k)).
    by eapply placed_in_order.
Qed.

(** A put and a get that overlap; the get is logged first. *)
Definition demo_cfg : Config :=
  mkConfig (Tester.mklab Labrpc.MakeNetwork ∅ 0 []) ∅ Tester.makeClnts false 0 0 0 0 0 0.

Definition demo_log : OpLog :=
  [ record_op 2 (ReqGet "x") 0 (mkKvOutput "a" 1 OK) 7;
    record_op 1 (ReqPut "x" "a" 0) 0 (mkKvOutput "" 0 OK) 9 ].

Definition demo_at (t : Z) (st : KVServer) (ts : Test) (p1 p2 : call_phase) : hsys KVServer :=
  mkhsys t st ts [mkthread 1 (ReqPut "x" "a" 0) p1; mkthread 2 (ReqGet "x") p2].

Definition demo_kv : KVServer := (KvServer.Put MakeKVServer (mkPutArgs "x" "a" 0)).1.

Definition demo_sys : hsys KVServer :=
  demo_at 9 demo_kv (mkTest (Op (Op demo_cfg)) (Some demo_log) false) Logged Logged.

Lemma demo_put_step t st ts p1 p2 st' ts' p1' z :
  Test_call t 1 (ReqPut "x" "a" 0) (st, ts, p1) (st', ts', p1') ->
  rtc sys_step (demo_at t st' ts' p1' p2) z -> rtc sys_step (demo_at t st ts p1 p2) z.
Proof. intros H. apply rtc_l, (ss_thread (demo_at t st ts p1 p2) []) with p1; done. Qed.

Lemma demo_get_step t st ts p1 p2 st' ts' p2' z :
  Test_call t 2 (ReqGet "x") (st, ts, p2) (st', ts', p2') ->
  rtc sys_step (demo_at t st' ts' p1 p2') z -> rtc sys_step (demo_at t st ts p1 p2) z.
Proof.
  intros H. apply rtc_l, (ss_thread (demo_at t st ts p1 p2)
    [mkthread 1 (ReqPut "x" "a" 0) p1] 2 (ReqGet "x") p2 []); done.
Qed.

Lemma demo_tick_step t t' st ts p1 p2 z :
  (t <= t')%Z -> rtc sys_step (demo_at t' st ts p1 p2) z -> rtc sys_step (demo_at t st ts p1 p2) z.
Proof. intros H. by apply rtc_l, (ss_tick (demo_at t st ts p1 p2)). Qed.

Lemma demo_history_run : rtc sys_step (sys_start demo_cfg false MakeKVServer 0) demo_sys.
Proof.
  eapply rtc_l; [apply (ss_call _ 1 (ReqPut "x" "a" 0))|].
  eapply rtc_l; [apply (ss_call _ 2 (ReqGet "x"))|].
  change (rtc sys_step
    (demo_at 0 MakeKVServer (MakeTest demo_cfg false) (Called 0) (Called 0)) demo_sys).
  apply (demo_tick_step 0 5); [lia|].
  eapply demo_put_step; [apply tc_clerk, call_put, put_direct|].
  eapply demo_get_step; [apply tc_clerk, call_get; by split|].
  apply (demo_tick_step 5 7); [lia|].
  eapply demo_get_step; [apply tc_stop|]. eapply demo_get_step; [apply tc_count|].
  eapply demo_get_step; [apply tc_append|]. apply (demo_tick_step 7 9); [lia|].
  eapply demo_put_step; [apply tc_stop|]. eapply demo_put_step; [apply tc_count|].
  eapply demo_put_step; [apply tc_append|]. apply rtc_refl.
Qed.

(** C6: whatever calls of [ts.Get] and [ts.Put] goroutines make at the same time over a clerk that
    implements the interface, when all have been logged the history is linearizable for every key
    in the model of the tests, provided that no [Put] was answered by [ErrNoKey]; and the
    configuration has counted every operation. *)
Theorem recorded_history_linearizable {St} `{!IKVClerk St, !ReportingClerk St}
    (cfg : Config) (random : bool) (st : St) (t : Z) (s : hsys St) (log : OpLog)
    (Hst : forall k, ck_view st k = None)
    (Hrun : rtc sys_step (sys_start cfg random st t) s) (Hall : all_logged s)
    (Hlog : oplog (tst s) = Some log)
    (Hn : Forall (fun v => no_key_put v = false) log) :
  (forall order, order ≡ₚ elements (dom (group_by op_key id log ∅)) ->
     Forall linearizable (Partition order log)) /\
  i32 (ops (ts_cfg (tst s))) = i32 (ops cfg + Z.of_nat (length log)).
Proof.
  destruct (history_linearizable_run cfg random st t s Hst Hrun Hall) as (log' & E & Ho & H).
  rewrite Hlog in E. injection E as <-. split; [|done].
  intros order Hord. by apply Partition_linearizable, H.
Qed.

Lemma recorded_history_linearizable_witness :
  (forall order, order ≡ₚ elements (dom (group_by op_key id demo_log ∅)) ->
     Forall linearizable (Partition order demo_log)) /\
  i32 (ops (ts_cfg (tst demo_sys))) = i32 (ops demo_cfg + Z.of_nat (length demo_log)).
Proof.
  apply (recorded_history_linearizable demo_cfg false MakeKVServer 0 demo_sys demo_log).
  - reflexivity.
  - apply demo_history_run.
  - by repeat constructor.
  - reflexivity.
  - by repeat constructor.
Defined.

(** such a test is accepted by [CheckPorcupine], whatever the checker answers as long as it
    calls a history illegal only when it is not linearizable. *)
Theorem CheckPorcupine_accepts_clerk {St} `{!IKVClerk St, !ReportingClerk St}
    (cfg : Config) (random : bool) (st : St) (t : Z) (s : hsys St)
    (check : list Operation -> Z -> CheckResult) (tempfile : option string) (visualized : bool)
    (Hcheck : forall h nsec, check h nsec = Illegal ->
       exists order, order ≡ₚ elements (dom (group_by op_key id h ∅)) /\
         ~ Forall linearizable (Partition order h))
    (Hst : forall k, ck_view st k = None)
    (Hrun : rtc sys_step (sys_start cfg random st t) s) (Hall : all_logged s)
    (Hn : Forall (fun v => no_key_put v = false) (default [] (oplog (tst s)))) :
  (CheckPorcupine check tempfile visualized (tst s)).2 = Ok tt.
Proof.
  destruct (history_linearizable_run cfg random st t s Hst Hrun Hall) as (log & E & _ & H).
  rewrite E in Hn. unfold CheckPorcupine, CheckPorcupineT, checkPorcupine, OpLog_Read. rewrite E.
  destruct (check log linearizabilityCheckTimeout) eqn:Ec; [done|done|]. exfalso.
  destruct (Hcheck _ _ Ec) as (order & Ho & Hbad). by apply Hbad, Partition_linearizable, H.
Qed.

(** The reference checker on the keys of a history. *)
Definition demo_check (h : list Operation) (nsec : Z) : CheckResult :=
  if reference_check (elements (dom (group_by op_key id h ∅))) h then CheckOk else Illegal.

Lemma demo_check_illegal h nsec :
  demo_check h nsec = Illegal ->
  exists order, order ≡ₚ elements (dom (group_by op_key id h ∅)) /\
    ~ Forall linearizable (Partition order h).
Proof.
  unfold demo_check. destruct (reference_check _ h) eqn:E; [done|]. intros _.
  exists (elements (dom (group_by op_key id h ∅))). split; [done|].
  intros Hl%Partition_linearizable; [|done].
  apply (reference_check_true (elements (dom (group_by op_key id h ∅)))) in Hl; [congruence|done].
Qed.

Lemma CheckPorcupine_accepts_clerk_witness :
  (CheckPorcupine demo_check None false (tst demo_sys)).2 = Ok tt.
Proof.
  apply (CheckPorcupine_accepts_clerk demo_cfg false MakeKVServer 0 demo_sys).
  - exact demo_check_illegal.
  - reflexivity.
  - apply demo_history_run.
  - by repeat constructor.
  - by repeat constructor.
Defined.

(** a checker that is exact makes [CheckPorcupine] fail exactly on the histories that are not
    linearizable; when it runs out of time the test passes with a note. *)
Theorem CheckPorcupine_verdict
    (check : list Operation -> Z -> CheckResult) (tempfile : option string) (visualized : bool)
    (ts : Test) (log : OpLog) (nsec : Z)
    (Hcheck : forall h, check h nsec ≠ Unknown ->
       check h nsec = CheckOk <-> history_linearizable h)
    (Hlog : oplog ts = Some log) :
  let '(out, r) := CheckPorcupineT check tempfile visualized ts nsec in
  (r = Ok tt \/ r = Fatal "history is not linearizable") /\
  (r = Ok tt -> out = [] -> history_linearizable log) /\
  (r ≠ Ok tt -> ~ history_linearizable log /\ length out = 1).
Proof.
  unfold CheckPorcupineT, checkPorcupine, OpLog_Read. rewrite Hlog.
  specialize (Hcheck log). destruct (check log nsec); (split_and!; [auto|..]).
  - done.
  - done.
  - intros _ _. by apply Hcheck.
  - done.
  - done.
  - intros _. split; [|by destruct tempfile, visualized].
    intros Hl%Hcheck; done.
Qed.
