(* ===== verification/KvSystem.v ===== *)
(** * Many clerks over a lossy network

    The composition of [src/src/kvtest1/porcupine.go] with [src/src/kvsrv1/client.go] and
    [src/src/kvsrv1/server.go]: any number of goroutines that call [ts.Get] and [ts.Put], each with
    its own retry loop.  A [Call] executes its request at the server at most once and returns true
    with the reply, or returns false with the request or the reply lost; then the clerk sends again.
    Operations that were answered are recorded as in [KvHistory], and the record is linearizable
    although the effect of a [Put] may lie in any of its attempts. *)

From S2P Require Import Prelude KvRpc KvServer Models KvClerk KvTest Config KvHistory.

(** ** Calls *)

Inductive reply :=
| GotGet (x : GetReply)
| GotPut (x : PutReply).

(** The handler that the server runs for a request. *)
Definition handle (kv : KVServer) (r : request) : KVServer * reply :=
  match r with
  | ReqGet k => (kv, GotGet (KvServer.Get kv (mkGetArgs k) GetReply_zero))
  | ReqPut k v ver => let '(kv', x) := KvServer.Put kv (mkPutArgs k v ver) in (kv', GotPut x)
  end.

(** What the clerk makes of the reply of the [Call] that succeeded. *)
Definition clerk_output (retried : bool) (x : reply) : KvOutput :=
  match x with
  | GotGet x => let '(val, ver, err) := Get_result x in mkKvOutput val ver err
  | GotPut x => mkKvOutput "" 0 (Put_result retried x)
  end.

(** A goroutine in the retry loop of the clerk, with the reply of the current [Call] once the
    server has executed it; afterwards the phases of [KvHistory]. *)
Inductive net_phase :=
| Trying (start : Z) (retried : bool) (got : option reply)
| Back (p : call_phase).

Record net_thread := mknet_thread { nt_cli : Z; nt_req : request; nt_phase : net_phase }.

Inductive clerk_call (now cli : Z) (r : request) :
    KVServer * Test * net_phase -> KVServer * Test * net_phase -> Prop :=
| cc_exec kv ts start retried :
    clerk_call now cli r (kv, ts, Trying start retried None)
      ((handle kv r).1, ts, Trying start retried (Some (handle kv r).2))
| cc_false kv ts start retried got :
    (** [Call] returns false *)
    clerk_call now cli r (kv, ts, Trying start retried got) (kv, ts, Trying start true None)
| cc_true kv ts start retried x :
    (** [Call] returns true *)
    clerk_call now cli r (kv, ts, Trying start retried (Some x))
      (kv, ts, Back (Answered start (clerk_output retried x) now))
| cc_back kv ts p kv' ts' p' :
    (forall start, p ≠ Called start) ->
    Test_call now cli r (kv, ts, p) (kv', ts', p') ->
    clerk_call now cli r (kv, ts, Back p) (kv', ts', Back p').

Record net_sys := mknet_sys {
  ns_now : Z; ns_kv : KVServer; ns_test : Test; ns_threads : list net_thread
}.

Inductive net_step : net_sys -> net_sys -> Prop :=
| ns_tick s t :
    (ns_now s <= t)%Z -> net_step s (mknet_sys t (ns_kv s) (ns_test s) (ns_threads s))
| ns_call s cli r :
    net_step s (mknet_sys (ns_now s) (ns_kv s) (ns_test s)
      (ns_threads s ++ [mknet_thread cli r (Trying (ns_now s) false None)]))
| ns_thread s l1 cli r p l2 kv' ts' p' :
    ns_threads s = l1 ++ mknet_thread cli r p :: l2 ->
    clerk_call (ns_now s) cli r (ns_kv s, ns_test s, p) (kv', ts', p') ->
    net_step s (mknet_sys (ns_now s) kv' ts' (l1 ++ mknet_thread cli r p' :: l2)).

Definition net_start (cfg : Config) (random : bool) (t : Z) : net_sys :=
  mknet_sys t MakeKVServer (MakeTest cfg random) [].

Definition all_back (s : net_sys) : Prop :=
  Forall (fun th => nt_phase th = Back Logged) (ns_threads s).

(** ** Placing operations *)

(** The operations of [lin] are placed between call and return and lead the model of every key to
    the server's state. *)
Definition lin_ok (kv : KVServer) (t : Z) (lin : list (Z * Operation)) : Prop :=
  placed t lin /\
  (Forall (fun v => no_key_put v = false) lin.*2 ->
     forall k, leads Init (filter (fun v => op_key v = k) lin.*2) (abs kv k)).

(** Every state that accepts [v] accepts [w], with the same result. *)
Definition step_le (v w : Operation) : Prop :=
  op_key w = op_key v /\
  forall st st', Step st (Operation_Input v) (Operation_Output v) = Ok (true, st') ->
    Step st (Operation_Input w) (Operation_Output w) = Ok (true, st').

(** A state that accepts [v] stays as it is. *)
Definition step_id (v : Operation) : Prop :=
  forall st st', Step st (Operation_Input v) (Operation_Output v) = Ok (true, st') -> st' = st.

Lemma leads_app st l1 l2 st' :
  leads st (l1 ++ l2) st' <-> exists st1, leads st l1 st1 /\ leads st1 l2 st'.
Proof.
  revert st. induction l1 as [|v l1 IH]; intros st; simpl; [naive_solver|].
  setoid_rewrite IH. naive_solver.
Qed.

Lemma leads_filter_replace k st p1 v w p2 st' :
  step_le v w -> leads st (filter (fun v => op_key v = k) (p1 ++ v :: p2)) st' ->
  leads st (filter (fun v => op_key v = k) (p1 ++ w :: p2)) st'.
Proof.
  intros [Hk Hs]. rewrite !filter_app, !leads_app. intros (st1 & H1 & H2). exists st1.
  split; [done|]. revert H2. rewrite !filter_cons, Hk. case_decide; [|done].
  simpl. intros (st2 & Hst & H2). eauto.
Qed.

Lemma leads_filter_delete k st p1 v p2 st' :
  step_id v -> leads st (filter (fun v => op_key v = k) (p1 ++ v :: p2)) st' ->
  leads st (filter (fun v => op_key v = k) (p1 ++ p2)) st'.
Proof.
  intros Hs. rewrite !filter_app, !leads_app. intros (st1 & H1 & H2). exists st1.
  split; [done|]. revert H2. rewrite filter_cons. case_decide; [|done].
  simpl. intros (st2 & Hst & H2). by rewrite (Hs _ _ Hst) in H2.
Qed.

Lemma lin_ok_later kv t t' lin : (t <= t')%Z -> lin_ok kv t lin -> lin_ok kv t' lin.
Proof. intros Ht [H1 H2]. split; [by eapply placed_later|done]. Qed.

Lemma lin_ok_add kv kv' t lin v :
  lin_ok kv t lin -> (Operation_Call v <= t <= Operation_Return v)%Z ->
  (no_key_put v = false -> forall k, if decide (op_key v = k)
     then Step (abs kv k) (Operation_Input v) (Operation_Output v) = Ok (true, abs kv' k)
     else abs kv' k = abs kv k) ->
  lin_ok kv' t (lin ++ [(t, v)]).
Proof.
  intros [H1 H2] Hv Hs. split; [by apply placed_snoc|].
  rewrite fmap_app. intros [Hl Hn]%Forall_app k. apply Forall_cons in Hn as [Hn _].
  specialize (H2 Hl k). specialize (Hs Hn k).
  rewrite filter_app, fmap_cons, fmap_nil, filter_cons, filter_nil. simpl.
  destruct (decide (op_key v = k)); [by eapply leads_snoc|]. by rewrite app_nil_r, Hs.
Qed.

Lemma lin_ok_replace kv t p1 a v w p2 :
  lin_ok kv t (p1 ++ (a, v) :: p2) -> step_le v w -> Operation_Call w = Operation_Call v ->
  (t <= Operation_Return w)%Z -> (no_key_put w = false -> no_key_put v = false) ->
  lin_ok kv t (p1 ++ (a, w) :: p2).
Proof.
  intros [H1 H2] Hs Hc Ht Hn. split; [by eapply placed_return|]. revert H2.
  rewrite !fmap_app, !fmap_cons. simpl. intros H2 [Hp1 [Hw Hp2]%Forall_cons]%Forall_app k.
  eapply leads_filter_replace; [done|]. apply H2. apply Forall_app. split; [done|].
  constructor; auto.
Qed.

Lemma lin_ok_delete kv t p1 a v p2 :
  lin_ok kv t (p1 ++ (a, v) :: p2) -> step_id v -> no_key_put v = false -> lin_ok kv t (p1 ++ p2).
Proof.
  intros [[Hb Hs] H2] Hv Hn. split; [split|].
  - apply Forall_app in Hb as [? [? ?]%Forall_cons]. by apply Forall_app.
  - revert Hs. rewrite !fmap_app, fmap_cons, !StronglySorted_app.
    intros (Hx & H1 & H2'%StronglySorted_inv). split_and!; [|done|by destruct H2'].
    intros x y Hx1 Hy. apply Hx; [done|by right].
  - revert H2. rewrite !fmap_app, fmap_cons. simpl. intros H2 [Hp1 Hp2]%Forall_app k.
    eapply leads_filter_delete; [exact Hv|]. apply H2. apply Forall_app. split; [done|].
    by constructor.
Qed.

(** The same on a list of which only the elements are known. *)
Lemma lin_split (lin : list (Z * Operation)) v rest :
  lin.*2 ≡ₚ v :: rest -> exists p1 a p2, lin = p1 ++ (a, v) :: p2 /\ p1.*2 ++ p2.*2 ≡ₚ rest.
Proof.
  intros Hp. assert (v ∈ lin.*2) as Hin by (rewrite Hp; left).
  apply list_elem_of_fmap in Hin as ([a v'] & Hv & (p1 & p2 & ->)%list_elem_of_split).
  simpl in Hv. subst v'. exists p1, a, p2. split; [done|]. revert Hp.
  rewrite fmap_app, fmap_cons. simpl. rewrite <- Permutation_middle. by intros Hp%(inj _).
Qed.

Lemma place_replace kv t lin v w rest :
  lin.*2 ≡ₚ v :: rest -> lin_ok kv t lin -> step_le v w -> Operation_Call w = Operation_Call v ->
  (t <= Operation_Return w)%Z -> (no_key_put w = false -> no_key_put v = false) ->
  exists lin', lin'.*2 ≡ₚ w :: rest /\ lin_ok kv t lin'.
Proof.
  intros (p1 & a & p2 & -> & Hr)%lin_split Hl Hs Hc Ht Hn. exists (p1 ++ (a, w) :: p2).
  split; [|by eapply lin_ok_replace]. rewrite fmap_app, fmap_cons. simpl.
  by rewrite <- Permutation_middle, Hr.
Qed.

Lemma place_delete kv t lin v rest :
  lin.*2 ≡ₚ v :: rest -> lin_ok kv t lin -> step_id v -> no_key_put v = false ->
  exists lin', lin'.*2 ≡ₚ rest /\ lin_ok kv t lin'.
Proof.
  intros (p1 & a & p2 & -> & Hr)%lin_split Hl Hs Hn. exists (p1 ++ p2).
  split; [|by eapply lin_ok_delete]. by rewrite fmap_app, Hr.
Qed.

Lemma place_add kv kv' t lin v rest :
  lin.*2 ≡ₚ rest -> lin_ok kv t lin -> (Operation_Call v <= t <= Operation_Return v)%Z ->
  (no_key_put v = false -> forall k, if decide (op_key v = k)
     then Step (abs kv k) (Operation_Input v) (Operation_Output v) = Ok (true, abs kv' k)
     else abs kv' k = abs kv k) ->
  exists lin', lin'.*2 ≡ₚ v :: rest /\ lin_ok kv' t lin'.
Proof.
  intros Hr Hl Hv Hs. exists (lin ++ [(t, v)]). split; [|by eapply lin_ok_add].
  rewrite fmap_app, Hr. simpl. by rewrite Permutation_app_comm.
Qed.

(** ** Steps of the model *)

Lemma step_le_times cli r out start start' stop stop' :
  step_le (record_op cli r start out stop) (record_op cli r start' out stop').
Proof. by split. Qed.

(** The outcome of a [Put] may be reported as [ErrMaybe]. *)
Lemma step_le_maybe cli k v ver start start' stop stop' e :
  step_le (record_op cli (ReqPut k v ver) start (mkKvOutput "" 0 e) stop)
    (record_op cli (ReqPut k v ver) start' (mkKvOutput "" 0 ErrMaybe) stop').
Proof.
  split; [done|]. intros [st|s] st'; unfold Step; simpl; [|done].
  case_bool_decide; by intros [= _ <-].
Qed.

Lemma step_id_get cli k start out stop : step_id (record_op cli (ReqGet k) start out stop).
Proof. intros [st|s] st'; unfold Step; simpl; [|done]. by intros [= _ <-]. Qed.

Lemma step_id_failed cli k v ver start stop :
  step_id (record_op cli (ReqPut k v ver) start (mkKvOutput "" 0 ErrVersion) stop).
Proof.
  intros [st|s] st'; unfold Step; simpl; [|done]. case_bool_decide; [done|].
  by intros [= <-].
Qed.

(** A request at the server is a step of the model at its key. *)
Lemma handle_step kv cli r start stop k :
  wf kv -> let v := record_op cli r start (clerk_output false (handle kv r).2) stop in
  no_key_put v = false ->
  if decide (op_key v = k)
  then Step (abs kv k) (Operation_Input v) (Operation_Output v) = Ok (true, abs (handle kv r).1 k)
  else abs (handle kv r).1 k = abs kv k.
Proof.
  intros Hwf. cbv zeta. pose proof (serve_step kv cli r k Hwf) as Hs. revert Hs.
  destruct r as [k'|k' w ver]; unfold serve, handle, record_op, request_input; simpl.
  - unfold clerk_output, Get_result, KvServer.Get. simpl.
    destruct (m kv !! k'); simpl; intros Hs Hn; by destruct (Hs eq_refl).
  - destruct (KvServer.Put kv (mkPutArgs k' w ver)) as [kv' [e]]. simpl.
    unfold Put_result. rewrite andb_false_r. intros Hs Hn. by destruct (Hs Hn).
Qed.

(** ** What a goroutine owns of the placement *)

(** The operation that a goroutine has placed so far.  A [Put] that took effect in some attempt is
    placed there as [OK]; one that was refused, and a [Get], at the current attempt. *)
Inductive own_ok (kv : KVServer) (cli : Z) (r : request) : net_phase -> list Operation -> Prop :=
| own_pending start retried : own_ok kv cli r (Trying start retried None) []
| own_nokey k v ver start retried :
    r = ReqPut k v ver ->
    own_ok kv cli r (Trying start retried (Some (GotPut (mkPutReply ErrNoKey)))) []
| own_get k start retried x a :
    r = ReqGet k ->
    own_ok kv cli r (Trying start retried (Some (GotGet x)))
      [record_op cli r start (clerk_output retried (GotGet x)) a]
| own_failed k v ver start retried a :
    r = ReqPut k v ver ->
    own_ok kv cli r (Trying start retried (Some (GotPut (mkPutReply ErrVersion))))
      [record_op cli r start (mkKvOutput "" 0 ErrVersion) a]
| own_applied k v ver start retried got a :
    r = ReqPut k v ver -> (ver < cur_version kv k)%Z -> has_key kv k = true ->
    (got = Some (GotPut (mkPutReply OK)) \/
       retried = true /\ (got = None \/ got = Some (GotPut (mkPutReply ErrVersion)))) ->
    own_ok kv cli r (Trying start retried got) [record_op cli r start (mkKvOutput "" 0 OK) a]
| own_back p : own_ok kv cli r (Back p) (open_op (mkthread cli r p)).

(** The server only moves forward. *)
Definition kv_grows (kv kv' : KVServer) : Prop :=
  forall k, (cur_version kv k <= cur_version kv' k)%Z /\ (has_key kv k = true -> has_key kv' k = true).

Lemma own_grows kv kv' cli r p own : kv_grows kv kv' -> own_ok kv cli r p own -> own_ok kv' cli r p own.
Proof.
  intros Hg Ho. destruct Ho; try by econstructor.
  destruct (Hg k) as [? ?]. eapply own_applied; eauto. lia.
Qed.

Lemma kv_grows_refl kv : kv_grows kv kv.
Proof. intros k. split; [lia|done]. Qed.

Lemma handle_grows kv r n :
  wf kv -> (forall k, cur_version kv k <= Z.of_nat n)%Z -> (Z.of_nat n < 2 ^ 64 - 1)%Z ->
  wf (handle kv r).1 /\ kv_grows kv (handle kv r).1 /\
  (forall k, cur_version (handle kv r).1 k <= Z.of_nat (S n))%Z.
Proof.
  intros Hwf Hb Hn. destruct r as [k|k v ver]; simpl.
  - split_and!; [done|apply kv_grows_refl|]. intros k'. specialize (Hb k'). lia.
  - pose proof (fun k' => Put_version_step kv (mkPutArgs k v ver) k' Hwf) as Hv.
    pose proof (Put_preserves_wf kv (mkPutArgs k v ver) Hwf).
    pose proof (fun k' => has_key_Put kv (mkPutArgs k v ver) k') as Hk.
    destruct (KvServer.Put kv (mkPutArgs k v ver)) as [kv' x]. simpl in *. split_and!; [done| |].
    + intros k'. specialize (Hb k'). specialize (Hv k' ltac:(lia)). split; [lia|apply Hk].
    + intros k'. specialize (Hb k'). specialize (Hv k' ltac:(lia)). lia.
Qed.

(** ** One step of a goroutine *)

(** Its effect on the placement: [new] is what it appends to the log. *)
Definition effect (kv : KVServer) (ts : Test) (cli : Z) (r : request) (kv' : KVServer) (ts' : Test)
    (p' : net_phase) (t : Z) (rest : list Operation) : Prop :=
  exists own' lin' new,
    own_ok kv' cli r p' own' /\ lin_ok kv' t lin' /\ lin'.*2 ≡ₚ own' ++ new ++ rest /\
    oplog ts' = (fun log => log ++ new) <$> oplog ts.

Lemma effect_quiet kv ts cli r kv' p' t rest own' lin' :
  own_ok kv' cli r p' own' -> lin_ok kv' t lin' -> lin'.*2 ≡ₚ own' ++ rest ->
  effect kv ts cli r kv' ts p' t rest.
Proof.
  intros. exists own', lin', []. split_and!; try done.
  destruct (oplog ts); simpl; [by rewrite app_nil_r|done].
Qed.

Section ThreadStep.
Context (kv : KVServer) (ts : Test) (cli t : Z) (lin : list (Z * Operation)) (rest : list Operation).
Context (Hwf : wf kv) (Hl : lin_ok kv t lin).

(** The server executes a request for the first time, or again after it has refused it. *)
Lemma exec_first r start retried :
  (start <= t)%Z -> lin.*2 ≡ₚ rest ->
  (forall k v ver, r = ReqPut k v ver -> ver = cur_version kv k ->
     (ver < cur_version (handle kv r).1 k)%Z /\ has_key (handle kv r).1 k = true) ->
  effect kv ts cli r (handle kv r).1 ts (Trying start retried (Some (handle kv r).2)) t rest.
Proof.
  intros Hst Hr Hput.
  pose proof (place_add kv (handle kv r).1 t lin
    (record_op cli r start (clerk_output false (handle kv r).2) t) rest Hr Hl) as Ha.
  simpl in Ha. specialize (Ha ltac:(lia)).
  specialize (Ha (fun Hn k => handle_step kv cli r start t k Hwf Hn)).
  destruct r as [k|k v ver].
  - destruct Ha as (lin' & Hp & Hl'). eapply effect_quiet; [by econstructor|done|done].
  - specialize (Hput k v ver eq_refl). unfold handle in *.
    destruct (decide (ver = cur_version kv k)) as [E|E].
    + specialize (Hput E). rewrite Put_success in * by done. simpl in *.
      destruct Ha as (lin' & Hp & Hl'). destruct Hput.
      eapply effect_quiet; [by eapply own_applied; auto|done|done].
    + rewrite Put_failure in * by done. simpl in *. unfold put_error in *.
      destruct (has_key kv k).
      * destruct Ha as (lin' & Hp & Hl'). eapply effect_quiet; [by eapply own_failed|done|done].
      * eapply effect_quiet; [by eapply own_nokey|done|done].
Qed.

(** A [Put] that has taken effect is refused when it is executed again. *)
Lemma exec_again k v ver start a :
  lin.*2 ≡ₚ record_op cli (ReqPut k v ver) start (mkKvOutput "" 0 OK) a :: rest ->
  (ver < cur_version kv k)%Z -> has_key kv k = true ->
  let r := ReqPut k v ver in
  effect kv ts cli r (handle kv r).1 ts (Trying start true (Some (handle kv r).2)) t rest.
Proof.
  intros Hp Hv Hk. cbv zeta. unfold handle. rewrite Put_failure by (simpl; lia). simpl.
  unfold put_error. rewrite Hk. eapply effect_quiet; [by eapply own_applied; auto|done|done].
Qed.

(** [Call] returns false. *)
Lemma call_false r start retried got own :
  own_ok kv cli r (Trying start retried got) own -> lin.*2 ≡ₚ own ++ rest ->
  effect kv ts cli r kv ts (Trying start true None) t rest.
Proof.
  intros Ho Hp. inversion Ho; subst.
  - eapply effect_quiet; [apply own_pending|done|done].
  - eapply effect_quiet; [apply own_pending|done|done].
  - destruct (place_delete _ _ _ _ _ Hp Hl (step_id_get _ _ _ _ _) eq_refl) as (lin' & ? & ?).
    eapply effect_quiet; [apply own_pending|done|done].
  - destruct (place_delete _ _ _ _ _ Hp Hl (step_id_failed _ _ _ _ _ _) eq_refl) as (lin' & ? & ?).
    eapply effect_quiet; [apply own_pending|done|done].
  - eapply effect_quiet; [by eapply own_applied; eauto|done|done].
Qed.

(** [Call] returns true. *)
Lemma call_true r start retried x own :
  (start <= t)%Z ->
  own_ok kv cli r (Trying start retried (Some x)) own -> lin.*2 ≡ₚ own ++ rest ->
  effect kv ts cli r kv ts (Back (Answered start (clerk_output retried x) t)) t rest.
Proof.
  intros Hst Ho Hp.
  enough (exists lin', lin'.*2 ≡ₚ record_op cli r start (clerk_output retried x) t :: rest
            /\ lin_ok kv t lin') as (lin' & ? & ?)
    by (eapply effect_quiet; [apply own_back|done|done]).
  inversion Ho; subst; simpl in Hp.
  - eapply place_add; [done|done|simpl; lia|].
    unfold Put_result, no_key_put. simpl. by destruct retried.
  - eapply place_replace; [done|done|apply step_le_times|done|simpl; lia|done].
  - eapply place_replace; [done|done| |done|simpl; lia|done].
    simpl. unfold Put_result. simpl. destruct retried; [apply step_le_maybe|apply step_le_times].
  - match goal with H : _ \/ _ |- _ => destruct H as [[= ->]|[-> [?|[= ->]]]] end; [| done |].
    + eapply place_replace; [done|done|apply step_le_times|done|simpl; lia|done].
    + eapply place_replace; [done|done|apply step_le_maybe|done|simpl; lia|done].
Qed.

(** The phases after the clerk has returned. *)
Lemma back_step r p kv' ts' p' :
  (forall start, p ≠ Called start) -> Test_call t cli r (kv, ts, p) (kv', ts', p') ->
  lin.*2 ≡ₚ open_op (mkthread cli r p) ++ rest ->
  kv' = kv /\ effect kv ts cli r kv' ts' (Back p') t rest.
Proof.
  intros Hc Hs Hp. inversion Hs; subst; [naive_solver| | |]; (split; [done|]); simpl in Hp.
  - destruct (place_replace kv' t lin _ (record_op cli r start out t) rest Hp Hl)
      as (lin' & ? & ?); [apply step_le_times|done|simpl; lia|done|].
    eapply effect_quiet; [apply own_back|done|done].
  - exists (open_op (mkthread cli r (Counted start out stop))), lin, []. split_and!; try done.
    + apply own_back.
    + simpl. destruct (oplog ts); simpl; [by rewrite app_nil_r|done].
  - exists [], lin, [record_op cli r start out stop]. split_and!; try done.
    apply (own_back kv' cli r Logged).
Qed.
End ThreadStep.

(** ** The invariant of the system *)

Record net_inv (n : nat) (s : net_sys) (log : OpLog) (owns : list (list Operation))
    (lin : list (Z * Operation)) : Prop := {
  ni_log : oplog (ns_test s) = Some log;
  ni_own : Forall2 (fun th own => own_ok (ns_kv s) (nt_cli th) (nt_req th) (nt_phase th) own)
             (ns_threads s) owns;
  ni_perm : lin.*2 ≡ₚ concat owns ++ log;
  ni_lin : lin_ok (ns_kv s) (ns_now s) lin;
  ni_start : forall th start retried got, th ∈ ns_threads s ->
    nt_phase th = Trying start retried got -> (start <= ns_now s)%Z;
  ni_wf : wf (ns_kv s);
  ni_bound : forall k, (cur_version (ns_kv s) k <= Z.of_nat n)%Z
}.

Lemma net_inv_start cfg random t : net_inv 0 (net_start cfg random t) [] [] [].
Proof.
  split; simpl; try done.
  - split; [by split; constructor|]. intros _ k. done.
  - intros th start retried got H. by apply elem_of_nil in H.
Qed.

(** What every step of a goroutine guarantees. *)
Lemma clerk_call_effect n kv ts cli r p own lin rest t kv' ts' p' :
  wf kv -> (forall k, cur_version kv k <= Z.of_nat n)%Z -> (Z.of_nat n < 2 ^ 64 - 1)%Z ->
  lin_ok kv t lin -> own_ok kv cli r p own -> lin.*2 ≡ₚ own ++ rest ->
  (forall start retried got, p = Trying start retried got -> (start <= t)%Z) ->
  clerk_call t cli r (kv, ts, p) (kv', ts', p') ->
  effect kv ts cli r kv' ts' p' t rest /\
  (forall start retried got, p' = Trying start retried got -> (start <= t)%Z) /\
  wf kv' /\ kv_grows kv kv' /\ (forall k, cur_version kv' k <= Z.of_nat (S n))%Z.
Proof.
  intros Hwf Hb Hn Hl Ho Hp Hst Hs.
  assert (forall k, cur_version kv k <= Z.of_nat (S n))%Z as Hb' by (intros k; specialize (Hb k); lia).
  destruct (handle_grows kv r n Hwf Hb Hn) as (Hw & Hg & Hbd).
  inversion Hs; subst.
  - split; [|split_and!; try done; intros ??? [= <- _ _]; by eapply Hst].
    inversion Ho; subst.
    + eapply exec_first; [done|done|by eapply Hst|done|].
      intros k v ver -> E. specialize (Hb k). simpl.
      pose proof (Put_version kv (mkPutArgs k v ver) k) as Hv.
      rewrite Put_success in * by done. simpl in *. rewrite Hv.
      rewrite (bool_decide_eq_true_2 (k = k)) by done. simpl.
      unfold has_key. simpl. rewrite lookup_insert_eq.
      pose proof (cur_version_range kv k Hwf). rewrite u64_small by lia. split; [lia|done].
    + match goal with H : _ \/ _ |- _ => destruct H as [?|[-> [_|?]]]; [done| |done] end.
      by eapply exec_again.
  - split; [by eapply call_false|]. split_and!; try done.
    intros ??? [= <- _ _]. by eapply Hst.
  - split; [|by split_and!]. eapply call_true; [done|by eapply Hst|done|done].
  - inversion Ho; subst.
    destruct (back_step kv ts cli t lin rest Hwf Hl r p0 kv' ts' p'0) as [-> He]; [done|done|done|].
    by split_and!.
Qed.

Lemma net_inv_thread n s log owns lin l1 cli r p l2 kv' ts' p' :
  (Z.of_nat n < 2 ^ 64 - 1)%Z -> net_inv n s log owns lin ->
  ns_threads s = l1 ++ mknet_thread cli r p :: l2 ->
  clerk_call (ns_now s) cli r (ns_kv s, ns_test s, p) (kv', ts', p') ->
  exists log' owns' lin',
    net_inv (S n) (mknet_sys (ns_now s) kv' ts' (l1 ++ mknet_thread cli r p' :: l2)) log' owns' lin'.
Proof.
  intros Hn [H1 H2 H3 H4 H5 H6 H7] Ht Hs. rewrite Ht in *.
  apply Forall2_app_inv_l in H2 as (o1 & o2' & Ho1 & Ho2 & ->).
  apply Forall2_cons_inv_l in Ho2 as (own & o2 & Ho & Ho2 & ->). simpl in Ho.
  assert (lin.*2 ≡ₚ own ++ (concat o1 ++ concat o2 ++ log)) as Hp.
  { rewrite H3, concat_app. simpl. solve_Permutation. }
  assert (forall start retried got, p = Trying start retried got -> (start <= ns_now s)%Z) as Hp0.
  { intros start retried got ->. apply (H5 (mknet_thread cli r (Trying start retried got)) start retried got); [|done].
    apply elem_of_app. right. left. }
  destruct (clerk_call_effect _ _ _ _ _ _ _ _ _ _ _ _ _ H6 H7 Hn H4 Ho Hp Hp0 Hs)
    as ((own' & lin' & new & Ho' & Hl' & Hp' & Hlog) & Hst & Hw & Hg & Hb).
  exists (log ++ new), (o1 ++ own' :: o2), lin'. split; simpl; try done.
  - by rewrite Hlog, H1.
  - apply Forall2_app; [|constructor; [done|]].
    + eapply Forall2_impl; [exact Ho1|]. intros th o. by apply own_grows.
    + eapply Forall2_impl; [exact Ho2|]. intros th o. by apply own_grows.
  - rewrite Hp', concat_app. simpl. solve_Permutation.
  - intros th start retried got [Hth|[->|Hth]%elem_of_cons]%elem_of_app Hph; [|by eapply Hst|].
    + eapply (H5 th); [set_solver|done].
    + eapply (H5 th); [set_solver|done].
Qed.

Lemma net_inv_step n s s' log owns lin :
  (Z.of_nat n < 2 ^ 64 - 1)%Z -> net_inv n s log owns lin -> net_step s s' ->
  exists log' owns' lin', net_inv (S n) s' log' owns' lin'.
Proof.
  intros Hn Hi Hs. destruct Hs as [s t Ht|s cli r|s l1 cli r p l2 kv' ts' p' Ht Hc].
  - destruct Hi as [H1 H2 H3 H4 H5 H6 H7]. exists log, owns, lin. split; simpl; try done.
    + by eapply lin_ok_later.
    + intros th start retried got Hth Hp. specialize (H5 _ _ _ _ Hth Hp). lia.
    + intros k. specialize (H7 k). lia.
  - destruct Hi as [H1 H2 H3 H4 H5 H6 H7]. exists log, (owns ++ [[]]), lin. split; simpl; try done.
    + apply Forall2_app; [done|]. repeat constructor.
    + rewrite concat_app. simpl. by rewrite app_nil_r.
    + intros th start retried got [Hth|Hth%list_elem_of_singleton]%elem_of_app Hp; [by eapply H5|].
      subst th. simpl in Hp. injection Hp as <- _ _. lia.
    + intros k. specialize (H7 k). lia.
  - by eapply net_inv_thread.
Qed.

Lemma net_inv_run cfg random t n s :
  (Z.of_nat n < 2 ^ 64)%Z -> nsteps net_step n (net_start cfg random t) s ->
  exists log owns lin, net_inv n s log owns lin.
Proof.
  intros Hn. apply (nsteps_invariant _ (fun n s => exists log owns lin, net_inv n s log owns lin)).
  - intros k a b Hk (log & owns & lin & Hi) Hs. eapply net_inv_step; [lia|done|done].
  - exists [], [], []. apply net_inv_start.
Qed.

(** ** Properties *)

(** C2: Any number of clerks that retry over a network that loses requests and replies record a
    linearizable history, as long as no request outlives its [Call], no [Put] is answered by
    [ErrNoKey] and the versions do not wrap around during the run. *)
Theorem clerks_linearizable (cfg : Config) (random : bool) (t : Z) (n : nat) (s : net_sys) (log : OpLog)
    (Hb : (Z.of_nat n < 2 ^ 64)%Z)
    (Hrun : nsteps net_step n (net_start cfg random t) s) (Hall : all_back s)
    (Hlog : oplog (ns_test s) = Some log)
    (Hn : Forall (fun v => no_key_put v = false) log) :
  history_linearizable log.
Proof.
  destruct (net_inv_run cfg random t n s Hb Hrun) as (log' & owns & lin & [H1 H2 H3 [H4 H4'] _ _ _]).
  rewrite Hlog in H1. injection H1 as <-.
  assert (concat owns = []) as Ho.
  { unfold all_back in Hall. clear -H2 Hall. induction H2 as [|th o ths os Ho _ IH]; [done|].
    apply Forall_cons in Hall as [Ht Hall]. rewrite Ht in Ho. inversion Ho; subst. simpl. auto. }
  rewrite Ho in H3. simpl in H3. intros k. exists (filter (fun v => op_key v = k) lin.*2).
  split; [by rewrite H3|]. rewrite <- H3 in Hn. unfold legal.
  rewrite (leads_accepts _ _ _ (H4' Hn k)). by eapply placed_in_order.
Qed.

(** A [Put] takes effect, its reply is lost, and the second attempt is refused. *)
Definition demo_net (t : Z) (kv : KVServer) (ts : Test) (p : net_phase) : net_sys :=
  mknet_sys t kv ts [mknet_thread 1 (ReqPut "x" "a" 0) p].

Lemma demo_net_step t kv ts p kv' ts' p' n z :
  clerk_call t 1 (ReqPut "x" "a" 0) (kv, ts, p) (kv', ts', p') ->
  nsteps net_step n (demo_net t kv' ts' p') z -> nsteps net_step (S n) (demo_net t kv ts p) z.
Proof. intros H. apply nsteps_l, (ns_thread (demo_net t kv ts p) []) with p; done. Qed.

Definition demo_maybe : Operation :=
  record_op 1 (ReqPut "x" "a" 0) 0 (mkKvOutput "" 0 ErrMaybe) 0.

Lemma demo_net_run :
  nsteps net_step 8 (net_start demo_cfg false 0)
    (demo_net 0 demo_kv (mkTest (Op demo_cfg) (Some [demo_maybe]) false) (Back Logged)).
Proof.
  eapply nsteps_l; [apply (ns_call _ 1 (ReqPut "x" "a" 0))|].
  eapply (demo_net_step 0); [apply cc_exec|].
  eapply demo_net_step; [apply cc_false|].
  eapply demo_net_step; [apply cc_exec|].
  eapply demo_net_step; [apply cc_true|].
  eapply demo_net_step; [apply cc_back; [done|apply tc_stop]|].
  eapply demo_net_step; [apply cc_back; [done|apply tc_count]|].
  eapply demo_net_step; [apply cc_back; [done|apply tc_append]|].
  apply nsteps_O.
Qed.

Lemma clerks_linearizable_witness : history_linearizable [demo_maybe].
Proof.
  apply (clerks_linearizable demo_cfg false 0 8
    (demo_net 0 demo_kv (mkTest (Op demo_cfg) (Some [demo_maybe]) false) (Back Logged))).
  - vm_compute. reflexivity.
  - apply demo_net_run.
  - by repeat constructor.
  - reflexivity.
  - by repeat constructor.
Defined.
