(* ===== verification/Rsm.v ===== *)
(** * The replicated state machine and its test server

    Model of [src/src/raft1/raft.go] and [src/src/kvraft1/rsm/rsm.go] as they are written (the
    skeletons of the labs: their operations do nothing yet), of the counter server of
    [src/src/kvraft1/rsm/server.go], and of the loops of [src/src/kvraft1/rsm/test.go], over any
    servers: what these do while the test sleeps is an argument.  The interface [StateMachine] is a
    class.  The gob encoding of integers is a pair of functions. *)

From S2P Require Import Prelude KvRpc Tester.

(** ** [raft.go] *)

Record Raft := mkRaft { peers : list string; rf_persister : nat; rf_me : Z; dead : Z }.

(** [var term int; var isleader bool]. *)
Definition GetState (rf : Raft) : Z * bool := (0%Z, false).

Definition persist (rf : Raft) : Raft := rf.

Definition readPersist (rf : Raft) (data : list Z) : Raft :=
  if bool_decide (length data < 1) then rf else rf.

Definition Raft_Snapshot (rf : Raft) (index : Z) (snapshot : list Z) : Raft := rf.

Definition RequestVote (rf : Raft) : Raft := rf.

(** The result of the call to the peer; an index out of range panics. *)
Definition sendRequestVote (rf : Raft) (server : Z) (call : string -> bool) : go bool :=
  let! e := slice_get (peers rf) server in Ok (call e).

Definition Start {V} (rf : Raft) (command : V) : Z * Z * bool := ((-1)%Z, (-1)%Z, true).

Definition Raft_Kill (rf : Raft) : Raft := mkRaft (peers rf) (rf_persister rf) (rf_me rf) 1.

Definition Raft_killed (rf : Raft) : bool := bool_decide (dead rf = 1%Z).

(** The pauses in milliseconds and whether the loop has ended; in each turn [dead] is read and,
    unless it is set, [rand.Int63()] is drawn. *)
Fixpoint ticker (turns : list (Raft * Z)) : list Z * bool :=
  match turns with
  | [] => ([], false)
  | (rf, r) :: turns =>
      if Raft_killed rf then ([], true)
      else let ms := (50 + Z.rem r 300)%Z in
           let '(pauses, ended) := ticker turns in (ms :: pauses, ended)
  end.

Definition Make (l : lab) (ends : list string) (me : Z) (persister : nat) : go Raft :=
  let rf := mkRaft ends persister me 0 in
  let! ps := get_persister l persister in
  Ok (readPersist rf (ReadRaftState ps)).

(** ** [rsm.go] *)

(** The interface: the request is consumed, the reply is produced; [Restore] may end the process. *)
Class StateMachine (S Req Rep Data : Type) := {
  DoOp : S -> Req -> S * Rep;
  Snapshot : S -> Data;
  Restore : S -> Data -> go S
}.

(** The state machine itself is the server that holds this structure. *)
Record RSM := mkRSM { rsm_me : Z; rsm_rf : Raft; maxraftstate : Z }.

Definition MakeRSM (l : lab) (ends : list string) (me : Z) (persister : nat) (maxraft : Z) : go RSM :=
  let! rf := Make l ends me persister in Ok (mkRSM me rf maxraft).

Definition RSM_Raft (r : RSM) : Raft := rsm_rf r.

(** No reply: [nil]. *)
Definition Submit {Req Rep} (r : RSM) (req : Req) : Err * option Rep := (ErrWrongLeader, None).

(** ** [server.go] of the test *)

Definition Inc : Type := unit.
Record Rep := mkRep { N_ : Z }.

Record rsmSrv := mkrsmSrv { me : Z; rsm : option RSM; counter : Z }.

Definition makeRsmSrv (l : lab) (srv : Z) (ends : list string) (persister : nat) (maxraft : Z) :
    go rsmSrv :=
  let! r := MakeRSM l ends srv persister maxraft in Ok (mkrsmSrv srv (Some r) 0).

Definition set_counter (rs : rsmSrv) (n : Z) : rsmSrv := mkrsmSrv (me rs) (rsm rs) n.

Definition rsm_DoOp (rs : rsmSrv) (req : Inc) : rsmSrv * Rep :=
  let n := i64 (counter rs + 1) in (set_counter rs n, mkRep n).

Definition rsm_Kill (rs : rsmSrv) : rsmSrv := mkrsmSrv (me rs) None (counter rs).

Definition rsm_Raft (rs : rsmSrv) : go Raft :=
  match rsm rs with Some r => Ok (RSM_Raft r) | None => Panic "nil pointer dereference" end.

Section Codec.
(** [labgob] on an [int]. *)
Context (encode : Z -> list Z) (decode : list Z -> option Z).

Definition rsm_Snapshot (rs : rsmSrv) : list Z := encode (counter rs).

Definition rsm_Restore (rs : rsmSrv) (data : list Z) : go rsmSrv :=
  match decode data with
  | Some n => Ok (set_counter rs n)
  | None => Fatal "couldn't decode counter"
  end.
End Codec.

(** ** [test.go] *)

Section Test.
(** The servers answer [Submit] and may change while they do; [alive s i] says that server [i] is
    connected and has an [rsm]. *)
Context {St : Type} (submit : St -> nat -> St * (Err * option Rep)) (alive : St -> nat -> bool).

(** The inner loop of [one]: at most [k] servers from [index] on. *)
Fixpoint one_try (n k index : nat) (s : St) : go (St * option (nat * Rep)) :=
  match k with
  | 0 => Ok (s, None)
  | S k =>
      let next := (index + 1) mod n in
      if alive s index then
        let '(s, (err, rep)) := submit s index in
        if bool_decide (err = OK) then
          match rep with
          | Some rep => Ok (s, Some (index, rep))
          | None => Panic "interface conversion: interface is nil"
          end
        else one_try n k next s
      else one_try n k next s
  end.

(** The rounds of the outer loop that fit into [NSEC] seconds, each with what the servers do during the pause
    of 50 milliseconds after it.  The new leader and its reply. *)
Fixpoint one (pauses : list (St -> St)) (n leader : nat) (s : St) : go (St * nat * Rep) :=
  match pauses with
  | [] => Fatal "one: took too long"
  | pause :: pauses =>
      let! r := one_try n n leader s in
      match r with
      | (s, Some (index, rep)) => Ok (s, index, rep)
      | (s, None) => one pauses n leader (pause s)
      end
  end.
End Test.

Definition countValue (v : Z) (srvs : list rsmSrv) : nat :=
  countb (fun s => bool_decide (counter s = v)) srvs.

(** The servers as they are at each time, in milliseconds; [iters] more looks, the next at [now], with a pause of
    [to] after it.  The result is the time of the look that found enough servers. *)
Fixpoint counter_loop (srvs : Z -> list rsmSrv) (v : Z) (nsrv iters : nat) (to now : Z) : go Z :=
  match iters with
  | 0 => Fatal "checkCounter: only n srvs have v"
  | S iters =>
      if nsrv <=? countValue v (srvs now) then Ok now
      else counter_loop srvs v nsrv iters (if bool_decide (to < 1000)%Z then (to * 2)%Z else to) (now + to)
  end.

Definition checkCounter (srvs : Z -> list rsmSrv) (v : Z) (nsrv : nat) (now : Z) : go Z :=
  counter_loop srvs v nsrv 30 10 now.

(** ** Finding the leader *)

Lemma mod_next n i : i < n -> (i + 1) mod n = if decide (i + 1 = n) then 0 else i + 1.
Proof.
  intros Hi. destruct (decide _) as [->|]; [apply Nat.Div0.mod_same|]. apply Nat.mod_small. lia.
Qed.

Section One.
Context {St : Type} (submit : St -> nat -> St * (Err * option Rep)) (alive : St -> nat -> bool).
(** In the states [P] server [l] is the leader: it answers, the others refuse and stay in [P]. *)
Context (P : St -> Prop) (n l : nat).
Context (Hl : l < n) (Hal : forall s, P s -> alive s l = true).
Context (Hlead : forall s, P s -> exists s' rep, submit s l = (s', (OK, Some rep))).
Context (Hrest : forall s i, P s -> i < n -> i ≠ l -> alive s i = true ->
  P (submit s i).1 /\ (submit s i).2.1 ≠ OK).
(** In the states [Q] nobody is: all refuse. *)
Context (Q : St -> Prop).
Context (Hnone : forall s i, Q s -> alive s i = true -> Q (submit s i).1 /\ (submit s i).2.1 ≠ OK).

(** How many turns it takes from server [i] to the leader. *)
Definition turns_to (i : nat) : nat := if decide (i <= l) then l - i else n - i + l.

Lemma one_try_finds k i s :
  P s -> i < n -> turns_to i < k ->
  exists s' rep, one_try submit alive n k i s = Ok (s', Some (l, rep)).
Proof using Hl Hal Hlead Hrest.
  revert i s. induction k as [|k IH]; intros i s HP Hi Hk; [lia|]. cbn [one_try].
  destruct (decide (i = l)) as [->|Hne].
  { rewrite Hal by done. destruct (Hlead s HP) as (s' & rep & ->).
    rewrite bool_decide_eq_true_2 by done. by exists s', rep. }
  assert ((i + 1) mod n < n /\ turns_to ((i + 1) mod n) < k) as [Hn Ht].
  { rewrite (mod_next n i Hi). unfold turns_to in *. repeat case_decide; lia. }
  destruct (alive s i) eqn:Ea; [|by apply IH].
  destruct (Hrest s i HP Hi Hne Ea) as [HP' Herr].
  destruct (submit s i) as [s' [err rep]]. simpl in HP', Herr.
  rewrite bool_decide_eq_false_2 by done. by apply IH.
Qed.

Lemma one_try_refused k i s : Q s -> exists s', one_try submit alive n k i s = Ok (s', None) /\ Q s'.
Proof using Hnone.
  revert i s. induction k as [|k IH]; intros i s HQ; [by exists s|]. cbn [one_try].
  destruct (alive s i) eqn:Ea; [|by apply IH]. destruct (Hnone s i HQ Ea) as [HQ' Herr].
  destruct (submit s i) as [s' [err rep]]. simpl in HQ', Herr. rewrite bool_decide_eq_false_2 by done. by apply IH.
Qed.

(** Rounds without a leader, and the first round with one. *)
Lemma one_waits pauses p p' rest leader s :
  Q s -> leader < n -> Forall (fun p => forall s, Q s -> Q (p s)) pauses -> (forall s, Q s -> P (p s)) ->
  exists s' rep, one submit alive (pauses ++ p :: p' :: rest) n leader s = Ok (s', l, rep).
Proof using Hl Hal Hlead Hrest Hnone.
  intros HQ Hi Hps Hp. revert s HQ. induction Hps as [|q pauses Hq _ IH]; intros s HQ; cbn [one app].
  - destruct (one_try_refused n leader s HQ) as (s1 & -> & HQ1). cbn [go_bind].
    destruct (one_try_finds n leader (p s1)) as (s' & rep & ->); [by apply Hp|done|unfold turns_to; case_decide; lia|].
    by exists s', rep.
  - destruct (one_try_refused n leader s HQ) as (s1 & -> & HQ1). cbn [go_bind]. apply IH. by apply Hq.
Qed.
End One.

(** ** The looks of [checkCounter] *)

Section Looks.
Context (srvs : Z -> list rsmSrv) (v : Z) (nsrv : nat).

Local Abbreviation enough := (fun t => nsrv <= countValue v (srvs t)).

(** The time of look [i] of a loop that starts at [now] with the pause [to]. *)
Definition look (iters : nat) (to now : Z) (i : nat) : Z := (now + foldr Z.add 0 (take i (backoff iters to)))%Z.

Lemma counter_loop_finds iters to now i :
  i < iters -> (forall j, j < i -> ~ enough (look iters to now j)) -> enough (look iters to now i) ->
  counter_loop srvs v nsrv iters to now = Ok (look iters to now i).
Proof.
  revert to now i. induction iters as [|iters IH]; intros to now i Hi Hno Hyes; [lia|]. simpl.
  destruct i as [|i].
  { unfold look in *. simpl in *. rewrite Z.add_0_r in *. by rewrite (proj2 (Nat.leb_le _ _)). }
  assert (forall k, look (S iters) to now (S k) =
    look iters (if bool_decide (to < 1000)%Z then (to * 2)%Z else to) (now + to) k) as Hk
    by (intros k; unfold look; simpl; lia).
  rewrite Hk in Hyes |- *. rewrite (proj2 (Nat.leb_gt _ _)).
  - apply IH; [lia| |done]. intros j Hj. rewrite <- Hk. apply Hno. lia.
  - specialize (Hno 0 ltac:(lia)). unfold look in Hno. simpl in Hno. rewrite Z.add_0_r in Hno. lia.
Qed.

Lemma counter_loop_fails iters to now :
  (forall i, i < iters -> ~ enough (look iters to now i)) ->
  counter_loop srvs v nsrv iters to now = Fatal "checkCounter: only n srvs have v".
Proof.
  revert to now. induction iters as [|iters IH]; intros to now Hno; [done|]. simpl.
  rewrite (proj2 (Nat.leb_gt _ _)).
  - apply IH. intros i Hi. specialize (Hno (S i) ltac:(lia)). unfold look in *. simpl in *.
    by rewrite Z.add_assoc in Hno.
  - specialize (Hno 0 ltac:(lia)). unfold look in Hno. simpl in Hno. rewrite Z.add_0_r in Hno. lia.
Qed.

(** The first of the looks that finds enough servers, if one does. *)
Lemma first_look (Q : nat -> Prop) `{!forall i, Decision (Q i)} n :
  Q n -> exists i, i <= n /\ Q i /\ forall j, j < i -> ~ Q j.
Proof.
  intros Hn.
  assert (forall m, (forall j, j < m -> ~ Q j) \/ exists i, i < m /\ Q i /\ forall j, j < i -> ~ Q j) as Hm.
  { induction m as [|m [IH|(i & Hi & Hf)]]; [left; lia| |right; exists i; split; [lia|done]].
    destruct (decide (Q m)); [right; exists m; split; [lia|done]|left]. intros j Hj. destruct (decide (j = m)) as [->|]; [done|apply IH; lia]. }
  destruct (Hm (S n)) as [Hf|(i & Hi & Hf)]; [by destruct (Hf n); [lia|]|]. exists i. split; [lia|done].
Qed.
End Looks.

(** The looks are at most 1280 milliseconds apart, the last of 30 comes after 29430. *)
Lemma look_near now D : (0 <= D <= 29430)%Z ->
  exists i, i < 30 /\ (now + D <= look 30 10 now i <= now + D + 1280)%Z.
Proof.
  intros HD. destruct (first_look (fun i => (D <= foldr Z.add 0 (take i (backoff 30 10)))%Z) 29) as (i & Hi & H1 & H2).
  { change (foldr Z.add 0%Z (take 29 (backoff 30 10))) with 29430%Z. lia. }
  exists i. split; [lia|]. unfold look. split; [lia|]. destruct i as [|i]; [rewrite take_0; simpl; lia|].
  specialize (H2 i ltac:(lia)).
  assert (exists x, backoff 30 10 !! i = Some x /\ (x <= 1280)%Z) as (x & Hx & Hle).
  { destruct (lookup_lt_is_Some_2 (backoff 30 10) i) as [x Hx]; [change (length (backoff 30 10)) with 30; lia|].
    exists x. split; [done|]. assert (Forall (fun x => x <= 1280)%Z (backoff 30 10)) as Hall
      by (apply (bool_decide_unpack _); vm_compute; exact I).
    rewrite Forall_lookup in Hall. by eapply Hall. }
  revert H1 H2 Hx. generalize (backoff 30 10). intros B H1 H2 Hx.
  rewrite (take_S_r _ _ _ Hx), foldr_app. cbn [foldr].
  assert (forall l z, foldr Z.add z l = (foldr Z.add 0 l + z)%Z) as Hf
    by (clear; induction l as [|y l IH]; intros z; simpl; [lia|rewrite IH; lia]).
  rewrite Hf. lia.
Qed.

(** ** Claims *)

(** C29: [checkCounter] waits for the servers.  It looks at most 30 times, with pauses of 10, 20, 40, ... up to
    1280 milliseconds ([backoff]), whatever the servers do meanwhile: it passes at the first look that finds the
    value on enough servers, and ends the test when none of the 30 looks does.  So when from some time on, at most
    29.43 seconds after the start, enough servers have the value, it passes, at most 1.28 seconds later. *)
Theorem checkCounter_waits srvs v nsrv now :
  let enough t := nsrv <= countValue v (srvs t) in
  let at_look i := (now + foldr Z.add 0 (take i (backoff 30 10)))%Z in
  (forall i, i < 30 -> (forall j, j < i -> ~ enough (at_look j)) -> enough (at_look i) ->
     checkCounter srvs v nsrv now = Ok (at_look i)) /\
  ((forall i, i < 30 -> ~ enough (at_look i)) ->
     checkCounter srvs v nsrv now = Fatal "checkCounter: only n srvs have v") /\
  (forall D, (0 <= D <= 29430)%Z -> (forall t, (now + D <= t)%Z -> enough t) ->
     exists t, checkCounter srvs v nsrv now = Ok t /\ enough t /\ (t <= now + D + 1280)%Z).
Proof.
  intros enough at_look. split_and!.
  - intros i Hi Hno Hyes. by apply counter_loop_finds.
  - apply counter_loop_fails.
  - intros D HD Hen. destruct (look_near now D HD) as (i & Hi & Hle).
    destruct (first_look (fun i => enough (at_look i)) i) as (k & Hk & Hyes & Hno).
    { apply Hen. unfold look in Hle. unfold at_look. lia. }
    exists (at_look k). split; [|split; [done|]].
    + apply counter_loop_finds; [lia|done|done].
    + assert (at_look k <= at_look i)%Z; [|unfold look in Hle; unfold at_look in *; lia].
      unfold at_look. assert (take k (backoff 30 10) `prefix_of` take i (backoff 30 10)) as Hp
        by (generalize (backoff 30 10); intros B; exists (drop k (take i B));
            rewrite <- (take_drop k (take i B)) at 1; by rewrite take_take, Nat.min_l).
      apply prefix_sum in Hp; [lia|]. apply Forall_take. apply backoff_pos. lia.
Qed.

(** Three servers, of which one counts at once and the others after 100 milliseconds. *)
Definition demo_srv : rsmSrv := mkrsmSrv 0 None 0.
Definition demo_srvs (t : Z) : list rsmSrv :=
  [mkrsmSrv 0 None 1; mkrsmSrv 1 None (if bool_decide (t < 100)%Z then 0 else 1);
   mkrsmSrv 2 None (if bool_decide (t < 100)%Z then 0 else 1)].

Lemma checkCounter_waits_witness :
  exists t, checkCounter demo_srvs 1 3 0 = Ok t /\ 3 <= countValue 1 (demo_srvs t) /\ (t <= 1380)%Z.
Proof.
  destruct (checkCounter_waits demo_srvs 1 3 0) as (_ & _ & H).
  destruct (H 100%Z) as (t & E & Hen & Ht).
  - lia.
  - intros t Ht. unfold demo_srvs. rewrite bool_decide_eq_false_2 by lia. reflexivity.
  - exists t. split; [exact E|split; [exact Hen|exact Ht]].
Defined.

(** [one] waits for a leader: as long as all servers refuse it goes round, and in the first round in which a
    connected leader answers, while every other server refuses, it returns the leader's reply and
    remembers the leader, from whatever server it starts to look. *)
Theorem one_waits_for_leader {St} (submit : St -> nat -> St * (Err * option Rep)) (alive : St -> nat -> bool)
    (P Q : St -> Prop) n l pauses p p' rest leader s :
  l < n -> leader < n -> (forall s, P s -> alive s l = true) ->
  (forall s, P s -> exists s' rep, submit s l = (s', (OK, Some rep))) ->
  (forall s i, P s -> i < n -> i ≠ l -> alive s i = true -> P (submit s i).1 /\ (submit s i).2.1 ≠ OK) ->
  (forall s i, Q s -> alive s i = true -> Q (submit s i).1 /\ (submit s i).2.1 ≠ OK) ->
  Q s -> Forall (fun p => forall s, Q s -> Q (p s)) pauses -> (forall s, Q s -> P (p s)) ->
  exists s' rep, one submit alive (pauses ++ p :: p' :: rest) n leader s = Ok (s', l, rep).
Proof.
  intros Hl Hi Hal Hlead Hrest Hnone HQ Hps Hp.
  destruct (one_waits submit alive P n l Hl Hal Hlead Hrest Q Hnone pauses p p' rest leader s HQ Hi Hps Hp)
    as (s' & rep & E). by exists s', rep.
Qed.

(** With [RSM.Submit] as it is written, which always answers [ErrWrongLeader], [one] gives up:
    whatever servers are connected and however often it tries, it ends the test. *)
Theorem one_times_out_on_skeleton (servers : list RSM) pauses alive leader :
  one (fun (s : unit) i => (s, match servers !! i with
                               | Some r => Submit r tt
                               | None => (ErrWrongLeader, None)
                               end)) alive pauses (length servers) leader tt
  = Fatal "one: took too long".
Proof.
  set (submit := fun (s : unit) i => _).
  assert (forall p s, one submit alive p (length servers) leader s = Fatal "one: took too long") as H; [|done].
  intros p. induction p as [|q p IH]; intros s; [done|]. cbn [one].
  destruct (one_try_refused submit alive (length servers) (fun _ => True)) with (k := length servers) (i := leader) (s := s)
    as (s' & -> & _); [|done|apply IH].
  intros s1 i _ _. split; [done|]. unfold submit. by destruct (servers !! i).
Qed.

(** The pauses of Raft's [ticker]: whatever non-negative numbers are drawn, every pause is
    between 50 and 349 milliseconds, there is one per turn before the peer is killed, and the
    loop ends at the first turn that finds it killed. *)
Theorem ticker_pauses live rf r rest :
  Forall (fun t => Raft_killed t.1 = false /\ (0 <= t.2)%Z) live ->
  let '(pauses, ended) := ticker (live ++ (Raft_Kill rf, r) :: rest) in
  ended = true /\ length pauses = length live /\ Forall (fun ms => 50 <= ms < 350)%Z pauses.
Proof.
  induction 1 as [|[rf' r'] live [Hk Hr] _ IH]; [done|]. simpl in *. rewrite Hk.
  destruct (ticker (live ++ (Raft_Kill rf, r) :: rest)) as [pauses ended].
  destruct IH as (-> & <- & Hf). split_and!; [done|done|].
  pose proof (Z.rem_bound_pos r' 300 Hr ltac:(lia)). constructor; [lia|done].
Qed.

Lemma ticker_pauses_witness :
  let rf := mkRaft [] 0 0 0 in
  let '(pauses, ended) := ticker ([(rf, 1234)] ++ (Raft_Kill rf, 0) :: [])%Z in
  ended = true /\ length pauses = 1 /\ Forall (fun ms => 50 <= ms < 350)%Z pauses.
Proof.
  apply (ticker_pauses [(mkRaft [] 0 0 0, 1234%Z)] (mkRaft [] 0 0 0) 0 []).
  constructor; [split; [reflexivity|simpl; lia]|constructor].
Defined.
