(* ===== verification/RaftTest.v ===== *)
(** * The checks of the Raft tests

    Model of [src/src/raft1/server.go] and of the checks of [src/src/raft1/test.go]: what the
    tests do with the messages a Raft peer sends on its apply channel.  Raft itself is not written
    yet ([raft.go] holds stubs), so the peers are not modelled: theorems are about all sequences of
    messages they may send.  Commands are values of a type with decidable equality and a nil
    value; the encoding of snapshots is a pair of functions. *)

From S2P Require Import Prelude Tester.

Section Raft.
Context {V : Type} `{!EqDecision V} (nilV : V).
Context {Bytes : Type} (encode : Z * list V -> Bytes) (decode : Bytes -> option (Z * list V)).

(** ** Data *)

Record ApplyMsg := mkApplyMsg {
  CommandValid : bool;
  Command : V;
  CommandIndex : Z;
  SnapshotValid : bool;
  Snapshot : option Bytes;
  SnapshotTerm : Z;
  SnapshotIndex : Z
}.

Record rfsrv := mkrfsrv { lastApplied : Z; logs : gmap Z V }.

Record Test := mkTest { ts_srvs : list rfsrv; maxIndex : Z }.

Definition SnapShotInterval : Z := 10.

(** ** Operations *)

Definition Logs (rs : rfsrv) (i : Z) : option V := logs rs !! i.

(** Some server has committed a different command at this index. *)
Definition conflict (m : ApplyMsg) (rs : rfsrv) : bool :=
  match Logs rs (CommandIndex m) with
  | Some old => negb (bool_decide (old = Command m))
  | None => false
  end.

(** The flags: an error message, and whether the previous index is in the log. *)
Definition checkLogs (ts : Test) (i : nat) (m : ApplyMsg) : go (Test * bool * bool) :=
  let! me := slice_get (ts_srvs ts) (Z.of_nat i) in
  let err := existsb (conflict m) (ts_srvs ts) in
  let prevok := bool_decide (is_Some (logs me !! (CommandIndex m - 1)%Z)) in
  let me' := mkrfsrv (lastApplied me) (<[CommandIndex m := Command m]> (logs me)) in
  Ok (mkTest (<[i := me']> (ts_srvs ts)) (Z.max (maxIndex ts) (CommandIndex m)), err, prevok).

(** One message read by [applier]; [log.Fatalf] ends the test. *)
Definition applier (ts : Test) (i : nat) (m : ApplyMsg) : go Test :=
  if CommandValid m then
    let! r := checkLogs ts i m in
    let '(ts', err, prevok) := r in
    let err := if bool_decide (1 < CommandIndex m)%Z && negb prevok then true else err in
    if err then Fatal "apply error" else Ok ts'
  else Ok ts.

(** The flag is a non-empty error string. *)
Definition ingestSnap (rs : rfsrv) (snapshot : option Bytes) (index : Z) : go (rfsrv * bool) :=
  match snapshot with
  | None => Fatal "nil snapshot"
  | Some b =>
      match decode b with
      | None => Fatal "snapshot decode error"
      | Some (lastIncludedIndex, xlog) =>
          if negb (bool_decide (index = (-1)%Z)) && negb (bool_decide (index = lastIncludedIndex))
          then Ok (rs, true)
          else Ok (mkrfsrv lastIncludedIndex (list_to_map (imap (fun j v => (Z.of_nat j, v)) xlog)),
                   false)
      end
  end.

(** The server as [newRfsrv] makes it from the persisted snapshot; [None] for no or empty bytes. *)
Definition newRfsrv (snap : bool) (snapshot : option Bytes) : go rfsrv :=
  let s := mkrfsrv 0 ∅ in
  match snap, snapshot with
  | true, Some b =>
      let! r := ingestSnap s (Some b) (-1) in
      if r.2 then Fatal "ingestSnap" else Ok r.1
  | _, _ => Ok s
  end.

(** [xlog]: the log at the indices 0 to [index], nil where there is no entry. *)
Definition snapshot_log (rs : rfsrv) (index : Z) : list V :=
  (fun j => default nilV (logs rs !! Z.of_nat j)) <$> seq 0 (Z.to_nat (index + 1)).

(** One message read by [applierSnap]; the second result is the call of [raft.Snapshot]. *)
Definition applierSnap (ts : Test) (i : nat) (m : ApplyMsg) : go (Test * option (Z * Bytes)) :=
  let! rs := slice_get (ts_srvs ts) (Z.of_nat i) in
  if SnapshotValid m then
    let! r := ingestSnap rs (Snapshot m) (SnapshotIndex m) in
    if r.2 then Fatal "apply error"
    else Ok (mkTest (<[i := r.1]> (ts_srvs ts)) (maxIndex ts), None)
  else if CommandValid m then
    let order_err := negb (bool_decide (CommandIndex m = lastApplied rs + 1)%Z) in
    let! r :=
      if order_err then Ok (ts, true)
      else
        let! r := checkLogs ts i m in
        let '(ts', err, prevok) := r in
        Ok (ts', if bool_decide (1 < CommandIndex m)%Z && negb prevok then true else err) in
    let '(ts, err) := r in
    let! rs := slice_get (ts_srvs ts) (Z.of_nat i) in
    let rs := mkrfsrv (CommandIndex m) (logs rs) in
    let ts := mkTest (<[i := rs]> (ts_srvs ts)) (maxIndex ts) in
    let snap :=
      if bool_decide (Z.rem (CommandIndex m + 1) SnapShotInterval = 0%Z)
      then Some (CommandIndex m, encode (CommandIndex m, snapshot_log rs (CommandIndex m)))
      else None in
    if err then Fatal "apply error" else Ok (ts, snap)
  else Ok (ts, None).

(** [Kill] writes the persisted state back as it is. *)
Definition rfsrv_Kill (ps : Persister) : Persister := Save ps (ReadRaftState ps) (ReadSnapshot ps).

(** The count of servers that have the index, and the last command seen.  [applyErr] is never
    set: the process ends before. *)
Definition nCommitted_step (index : Z) (acc : nat * V) (rs : rfsrv) : go (nat * V) :=
  match Logs rs index with
  | Some cmd1 =>
      if bool_decide (0 < acc.1) && negb (bool_decide (acc.2 = cmd1))
      then Fatal "committed values do not match"
      else Ok (S acc.1, cmd1)
  | None => Ok acc
  end.

Definition nCommitted (ts : Test) (index : Z) : go (nat * V) :=
  fold_go (nCommitted_step index) (ts_srvs ts) (0, nilV).
End Raft.

(** ** Checks of the peers' states *)

(** Connected, term, leader, of each peer as the checks read them. *)
Record peer := mkpeer { p_connected : bool; p_term : Z; p_leader : bool }.

(** The leaders of a term among the connected peers, in order. *)
Definition leaders_of (ps : list peer) (term : Z) : list nat :=
  fst <$> filter (fun x => p_connected x.2 = true /\ p_leader x.2 = true /\ p_term x.2 = term)
    (imap pair ps).

(** The terms with a leader. *)
Definition leader_terms (ps : list peer) : list Z :=
  p_term <$> filter (fun p => p_connected p = true /\ p_leader p = true) ps.

(** One iteration of [checkOneLeader]: [None] to try again. *)
Definition checkOneLeader_once (ps : list peer) : go (option nat) :=
  let terms := leader_terms ps in
  if existsb (fun t => 1 <? length (leaders_of ps t)) terms then Fatal "term has >1 leaders"
  else
    let last := foldr Z.max (-1)%Z terms in
    match terms with
    | [] => Ok None
    | _ => let! l := slice_get (leaders_of ps last) 0 in Ok (Some l)
    end.

(** The states seen at each of the (ten) iterations. *)
Fixpoint checkOneLeader (iters : list (list peer)) : go nat :=
  match iters with
  | [] => Fatal "expected one leader, got none"
  | ps :: iters =>
      let! r := checkOneLeader_once ps in
      match r with Some l => Ok l | None => checkOneLeader iters end
  end.

Definition checkTerms (ps : list peer) : go Z :=
  fold_go (fun term p =>
    if p_connected p then
      if bool_decide (term = (-1)%Z) then Ok (p_term p)
      else if negb (bool_decide (term = p_term p)) then Fatal "servers disagree on term"
      else Ok term
    else Ok term) ps (-1)%Z.

Definition checkNoLeader (ps : list peer) : go unit :=
  fold_go (fun _ p =>
    if p_connected p && p_leader p
    then Fatal "expected no leader among connected servers" else Ok tt) ps tt.

(** ** Agreement of the applied logs *)

Section Agreement.
Context {V : Type} `{!EqDecision V} {Bytes : Type}.
Implicit Types (ts : Test (V := V)) (m : ApplyMsg (V := V) (Bytes := Bytes)).

(** No two servers have different commands at an index, and a log with an index above 1 has the
    index before it. *)
Definition agree ts : Prop :=
  forall i j rs rs' k v w, ts_srvs ts !! i = Some rs -> ts_srvs ts !! j = Some rs' ->
    logs rs !! k = Some v -> logs rs' !! k = Some w -> v = w.

Definition contiguous ts : Prop :=
  forall i rs k, ts_srvs ts !! i = Some rs -> is_Some (logs rs !! k) -> (1 < k)%Z ->
    is_Some (logs rs !! (k - 1)%Z).

Lemma conflict_false m ts :
  existsb (conflict m) (ts_srvs ts) = false <->
  forall j rs old, ts_srvs ts !! j = Some rs -> logs rs !! CommandIndex m = Some old ->
    old = Command m.
Proof.
  split.
  - intros He j rs old Hj Hl. rewrite <- not_true_iff_false, existsb_exists in He.
    destruct (decide (old = Command m)) as [|Hne]; [done|]. destruct He. exists rs.
    split; [apply list_elem_of_In; by eapply list_elem_of_lookup_2|].
    unfold conflict, Logs. rewrite Hl. by rewrite bool_decide_eq_false_2.
  - intros H. apply not_true_iff_false. rewrite existsb_exists. intros (rs & Hin & Hc).
    apply list_elem_of_In, list_elem_of_lookup in Hin as [j Hj].
    unfold conflict, Logs in Hc. destruct (logs rs !! CommandIndex m) as [old|] eqn:El; [|done].
    rewrite (H j rs old Hj El), bool_decide_eq_true_2 in Hc by done. done.
Qed.

(** What an accepted message was, and what it does. *)
Lemma applier_Ok ts i m ts' :
  applier ts i m = Ok ts' ->
  (CommandValid m = false /\ ts' = ts) \/
  (CommandValid m = true /\ exists me, ts_srvs ts !! i = Some me /\
   ts_srvs ts' = <[i := mkrfsrv (lastApplied me) (<[CommandIndex m := Command m]> (logs me))]>
                   (ts_srvs ts) /\
   (forall j rs old, ts_srvs ts !! j = Some rs -> logs rs !! CommandIndex m = Some old ->
      old = Command m) /\
   ((1 < CommandIndex m)%Z -> is_Some (logs me !! (CommandIndex m - 1)%Z))).
Proof.
  unfold applier. intros H. destruct (CommandValid m); [right|left; by simplify_eq]. split; [done|].
  unfold checkLogs in H. destruct (slice_get (ts_srvs ts) (Z.of_nat i)) as [me| |] eqn:Eg;
    simpl in H; [|done..].
  apply slice_get_Ok in Eg as [_ Hi]. rewrite Nat2Z.id in Hi. exists me. split; [done|].
  destruct (existsb (conflict m) (ts_srvs ts)) eqn:Ee; [by destruct (_ && _)|].
  case_bool_decide as Hk; simpl in H.
  - case_bool_decide as Hp; simpl in H; [|done]. simplify_eq/=. split_and!; [done|by apply conflict_false|done].
  - simplify_eq/=. split_and!; [done|by apply conflict_false|done].
Qed.

Lemma applier_agree ts i m ts' :
  agree ts /\ contiguous ts -> applier ts i m = Ok ts' -> agree ts' /\ contiguous ts'.
Proof.
  intros [Ha Hc] [[_ ->]|(_ & me & Hi & Hs & Hv & Hp)]%applier_Ok; [done|]. split.
  - intros a b rs rs' k v w. rewrite !Hs.
    intros [(<- & <- & _)|[_ Hra]]%list_lookup_insert_Some
      [(<- & <- & _)|[_ Hrb]]%list_lookup_insert_Some; simpl.
    + intros H1 H2. congruence.
    + intros [[<- <-]|[? H1]]%lookup_insert_Some H2; [symmetry; by eapply Hv|by eapply (Ha i b)].
    + intros H1 [[<- <-]|[? H2]]%lookup_insert_Some; [by eapply Hv|by eapply (Ha a i)].
    + by eapply Ha.
  - intros a rs k. rewrite Hs. intros [(<- & <- & _)|[_ Hra]]%list_lookup_insert_Some; simpl.
    + rewrite !lookup_insert_is_Some'. intros [<-|Hk] H1; right; [by apply Hp|by eapply Hc].
    + by eapply Hc.
Qed.

(** The test of a fresh group. *)
Definition test_start (n : nat) : Test (V := V) := mkTest (replicate n (mkrfsrv 0 ∅)) 0.

Lemma test_start_ok n : agree (test_start n) /\ contiguous (test_start n).
Proof.
  assert (forall i rs, ts_srvs (test_start n) !! i = Some rs -> logs rs = ∅) as H.
  { simpl. intros i rs [-> _]%lookup_replicate. done. }
  split.
  - intros i j rs rs' k v w Hi Hj Hv. rewrite (H i rs Hi), lookup_empty in Hv. done.
  - intros i rs k Hi [v Hv]. rewrite (H i rs Hi), lookup_empty in Hv. done.
Qed.

(** Deliveries: the server and the message. *)
Definition deliver ts (d : nat * ApplyMsg (V := V) (Bytes := Bytes)) : go Test := applier ts d.1 d.2.

(** ** Peers that apply one common log in order *)

(** The message for entry [k] (from 0) of the log. *)
Definition entry_msg (k : nat) (v : V) : ApplyMsg (Bytes := Bytes) :=
  mkApplyMsg true v (Z.of_nat k + 1) false None 0 0.

Definition log_msgs (L : list V) : list (ApplyMsg (V := V) (Bytes := Bytes)) := imap entry_msg L.

(** Server [i] has applied the first [ns i] entries. *)
Definition applied (L : list V) (ns : nat -> nat) ts : Prop :=
  forall i rs k, ts_srvs ts !! i = Some rs ->
    logs rs !! k = if bool_decide (1 <= k <= Z.of_nat (ns i))%Z then L !! Z.to_nat (k - 1) else None.

Lemma applied_step L ns ts i v :
  applied L ns ts -> i < length (ts_srvs ts) -> L !! ns i = Some v ->
  exists ts', applier ts i (entry_msg (ns i) v) = Ok ts' /\
    length (ts_srvs ts') = length (ts_srvs ts) /\
    applied L (fun j => if decide (j = i) then S (ns i) else ns j) ts'.
Proof.
  intros Hap Hi Hv. apply lookup_lt_is_Some_2 in Hi as [me Hme].
  unfold applier, checkLogs. rewrite (slice_get_lookup _ _ _ Hme). cbn [CommandValid entry_msg go_bind].
  assert (existsb (conflict (entry_msg (ns i) v)) (ts_srvs ts) = false) as ->.
  { apply conflict_false. intros j rs old Hj Hl. simpl in *. rewrite (Hap j rs _ Hj) in Hl.
    case_bool_decide; [|done].
    replace (Z.to_nat (Z.of_nat (ns i) + 1 - 1)) with (ns i) in Hl by lia. congruence. }
  assert ((1 < Z.of_nat (ns i) + 1)%Z -> is_Some (logs me !! (Z.of_nat (ns i) + 1 - 1)%Z)) as Hprev.
  { intros Hlt. rewrite (Hap i me _ Hme), bool_decide_eq_true_2 by lia.
    apply lookup_lt_is_Some_2. apply lookup_lt_Some in Hv. lia. }
  cbn [CommandIndex Command entry_msg].
  destruct (bool_decide (1 < Z.of_nat (ns i) + 1)%Z) eqn:Eb.
  1: apply bool_decide_eq_true_1 in Eb; rewrite (bool_decide_eq_true_2 (is_Some _)) by auto.
  all: simpl; eexists; (split; [reflexivity|]); (split; [simpl; by rewrite length_insert|]).
  all: intros j rs k; simpl; intros [(<- & <- & _)|[Hne Hj]]%list_lookup_insert_Some; simpl;
    [rewrite decide_True by done|rewrite decide_False by done; by apply Hap].
  all: destruct (decide (k = Z.of_nat (ns i) + 1)%Z) as [->|Hk];
    [rewrite lookup_insert_eq, bool_decide_eq_true_2 by lia;
     by replace (Z.to_nat (Z.of_nat (ns i) + 1 - 1)) with (ns i) by lia|].
  all: rewrite lookup_insert_ne, (Hap i me k Hme) by done; repeat case_bool_decide; try done; lia.
Qed.

Lemma applied_run L ds ns ts :
  applied L ns ts ->
  (forall i m, (i, m) ∈ ds -> i < length (ts_srvs ts)) ->
  (forall i, exists n, snd <$> filter (fun d => d.1 = i) ds = take n (drop (ns i) (log_msgs L))) ->
  exists ts', fold_go deliver ds ts = Ok ts' /\
    applied L (fun i => ns i + length (filter (fun d => d.1 = i) ds)) ts'.
Proof.
  revert ns ts. induction ds as [|[i m] ds IH]; intros ns ts Hap Hlen Hds.
  { exists ts. split; [done|]. intros i rs k Hi. rewrite (Hap i rs k Hi). simpl.
    by rewrite Nat.add_0_r. }
  destruct (Hds i) as [n Hn]. rewrite filter_cons_True, fmap_cons in Hn by done. simpl in Hn.
  assert (exists v, L !! ns i = Some v /\ m = entry_msg (ns i) v /\ exists n',
    snd <$> filter (fun d => d.1 = i) ds = take n' (drop (S (ns i)) (log_msgs L)))
    as (v & Hv & -> & n' & Hn').
  { destruct n as [|n]; [done|].
    destruct (drop (ns i) (log_msgs L)) as [|m' l] eqn:Ed; [done|]. simpl in Hn. injection Hn as -> Hn.
    assert (log_msgs L !! ns i = Some m') as Hl.
    { rewrite <- (Nat.add_0_r (ns i)), <- lookup_drop, Ed. done. }
    unfold log_msgs in Hl. rewrite list_lookup_imap in Hl.
    destruct (L !! ns i) as [v|] eqn:Ev; [|done]. injection Hl as <-.
    exists v. split_and!; [done|done|]. exists n. rewrite Hn.
    by rewrite <- (Nat.add_1_r (ns i)), <- drop_drop, Ed. }
  destruct (applied_step L ns ts i v Hap) as (ts1 & Hd & Hl1 & Hap1); [|done|].
  { apply (Hlen i (entry_msg (ns i) v)). left. }
  cbn [fold_go]. unfold deliver at 1. simpl. rewrite Hd. cbn [go_bind].
  edestruct (IH _ ts1 Hap1) as (ts' & Hf & Hap').
  { intros j m Hj. rewrite Hl1. eapply Hlen. by right. }
  { intros j. destruct (decide (j = i)) as [->|Hne]; [by eauto|].
    destruct (Hds j) as [nj Hnj]. exists nj. rewrite filter_cons_False in Hnj by auto. done. }
  exists ts'. split; [done|]. intros j rs k Hj. rewrite (Hap' j rs k Hj). rewrite filter_cons. simpl.
  destruct (decide (j = i)) as [->|Hne].
  - rewrite decide_True by done. simpl. by rewrite Nat.add_succ_r.
  - by rewrite decide_False by auto.
Qed.
End Agreement.

(** ** Snapshots *)

Section Snapshots.
Context {V : Type} `{!EqDecision V} (nilV : V).
Context {Bytes : Type} (encode : Z * list V -> Bytes) (decode : Bytes -> option (Z * list V)).
Context (Hcodec : forall x, decode (encode x) = Some x).

Lemma list_to_map_imap (l : list V) k :
  (list_to_map (imap (fun j v => (Z.of_nat j, v)) l) : gmap Z V) !! k =
  if bool_decide (0 <= k)%Z then l !! Z.to_nat k else None.
Proof.
  assert (NoDup (imap (fun j v => (Z.of_nat j, v)) l).*1) as Hnd.
  { rewrite fmap_imap. apply NoDup_alt. intros i j x. rewrite !list_lookup_imap.
    destruct (l !! i), (l !! j); simpl; intros; simplify_eq; lia. }
  apply option_eq. intros v. rewrite <- elem_of_list_to_map by done. rewrite elem_of_lookup_imap.
  split.
  - intros (i & x & [= -> ->] & Hi). rewrite bool_decide_eq_true_2, Nat2Z.id by lia. done.
  - case_bool_decide as Hk; [|done]. intros Hl. exists (Z.to_nat k), v.
    by rewrite Z2Nat.id.
Qed.

(** The log of a server that ingests the snapshot taken at [index] by a server with log [rs]. *)
Lemma ingest_snapshot_log rs0 rs index idx :
  (0 <= index)%Z -> idx = index \/ idx = (-1)%Z ->
  exists rs', ingestSnap decode rs0 (Some (encode (index, snapshot_log nilV rs index))) idx
                = Ok (rs', false) /\
    lastApplied rs' = index /\
    forall k, logs rs' !! k =
      if bool_decide (0 <= k <= index)%Z then Some (default nilV (logs rs !! k)) else None.
Proof.
  intros Hi Hidx. unfold ingestSnap. rewrite Hcodec.
  replace (negb (bool_decide (idx = (-1)%Z)) && negb (bool_decide (idx = index))) with false
    by (destruct Hidx as [->| ->];
        [rewrite (bool_decide_eq_true_2 (index = index)) by done; by rewrite andb_false_r|done]).
  eexists. split; [done|]. split; [done|]. intros k. simpl. rewrite list_to_map_imap.
  unfold snapshot_log. destruct (decide (0 <= k)%Z) as [Hk|Hk].
  - rewrite bool_decide_eq_true_2, list_lookup_fmap by done. case_bool_decide as Hki.
    + rewrite lookup_seq_lt by lia. simpl. by rewrite Z2Nat.id.
    + rewrite lookup_seq_ge by lia. done.
  - rewrite !bool_decide_eq_false_2; [done|lia|lia].
Qed.

(** The snapshot [applierSnap] takes. *)
Lemma applierSnap_snapshot ts i m ts' index b :
  applierSnap nilV encode decode ts i m = Ok (ts', Some (index, b)) ->
  SnapshotValid m = false /\ index = CommandIndex m /\
  exists rs, ts_srvs ts' !! i = Some rs /\ lastApplied rs = index /\
    b = encode (index, snapshot_log nilV rs index).
Proof.
  unfold applierSnap. intros H. go_inv. destruct (SnapshotValid m).
  { go_inv. by destruct (_.2). }
  destruct (CommandValid m); [|done]. go_inv. destruct a0 as [ts1 err]. go_inv.
  destruct err; [done|]. case_bool_decide; [|done]. simplify_eq/=.
  apply slice_get_Ok in E1 as [_ E1]. rewrite Nat2Z.id in E1.
  split; [done|]. split; [done|]. eexists.
  split; [apply list_lookup_insert_eq; by eapply lookup_lt_Some|done].
Qed.
End Snapshots.

(** ** Claims *)

(** C22: The checks of [applier] enforce state-machine safety: as long as no message was
    rejected, no two servers have applied different commands at the same index, and every server
    has applied the entries before any entry above the first. *)
Theorem applied_logs_agree {V : Type} `{!EqDecision V} {Bytes : Type} n
    (ds : list (nat * ApplyMsg (V := V) (Bytes := Bytes))) ts :
  fold_go deliver ds (test_start n) = Ok ts ->
  (forall i j rs rs' k v w, ts_srvs ts !! i = Some rs -> ts_srvs ts !! j = Some rs' ->
     logs rs !! k = Some v -> logs rs' !! k = Some w -> v = w) /\
  (forall i rs k, ts_srvs ts !! i = Some rs -> is_Some (logs rs !! k) -> (1 < k)%Z ->
     is_Some (logs rs !! (k - 1)%Z)).
Proof.
  intros H. apply (fold_go_invariant deliver (fun ts => agree ts /\ contiguous ts) ds (test_start n));
    [|apply test_start_ok|done].
  intros ts0 d ts1 _ Hok Hd. by eapply applier_agree.
Qed.

Lemma applied_logs_agree_witness :
  exists ts, fold_go deliver
      [(0, entry_msg (Bytes := unit) 0 7); (1, entry_msg 0 7); (0, entry_msg 1 8)] (test_start 2) = Ok ts /\
    (forall i j rs rs' k v w, ts_srvs ts !! i = Some rs -> ts_srvs ts !! j = Some rs' ->
       logs rs !! k = Some v -> logs rs' !! k = Some w -> v = w).
Proof.
  eexists. split; [vm_compute; reflexivity|].
  eapply (applied_logs_agree 2
    [(0, entry_msg (Bytes := unit) 0 7); (1, entry_msg 0 7); (0, entry_msg 1 8)]).
  vm_compute. reflexivity.
Defined.

(** C23: The checks accept every correct Raft: if every server is sent a prefix of one common log,
    in order, then whatever the interleaving of the servers no message is rejected, and each
    server's log is the prefix it was sent. *)
Theorem correct_peers_pass {V : Type} `{!EqDecision V} {Bytes : Type} n (L : list V)
    (ds : list (nat * ApplyMsg (V := V) (Bytes := Bytes))) :
  (forall i m, (i, m) ∈ ds -> i < n) ->
  (forall i, exists k, snd <$> filter (fun d => d.1 = i) ds = take k (imap entry_msg L)) ->
  exists ts, fold_go deliver ds (test_start n) = Ok ts /\
    forall i rs k, ts_srvs ts !! i = Some rs ->
      logs rs !! k =
        if bool_decide (1 <= k <= Z.of_nat (length (filter (fun d => d.1 = i) ds)))%Z
        then L !! Z.to_nat (k - 1) else None.
Proof.
  intros Hn Hds. destruct (applied_run L ds (fun _ => 0) (test_start n)) as (ts & Hf & Hap).
  - intros i rs k Hi. simpl in Hi. apply lookup_replicate in Hi as [-> _]. simpl.
    rewrite lookup_empty, bool_decide_eq_false_2 by lia. done.
  - simpl. rewrite length_replicate. done.
  - exact Hds.
  - exists ts. split; [done|]. exact Hap.
Qed.

Lemma correct_peers_pass_witness :
  exists ts, fold_go deliver
    [(0, entry_msg (Bytes := unit) 0 7); (1, entry_msg 0 7); (0, entry_msg 1 8)] (test_start 2) = Ok ts.
Proof.
  destruct (correct_peers_pass 2 [7; 8]
    [(0, entry_msg (Bytes := unit) 0 7); (1, entry_msg 0 7); (0, entry_msg 1 8)]) as (ts & H & _).
  - intros i m H. rewrite !elem_of_cons in H.
    destruct H as [[= -> _]|[[= -> _]|[[= -> _]|[]%not_elem_of_nil]]]; lia.
  - intros [|[|i]]; [exists 2; reflexivity|exists 1; reflexivity|exists 0; reflexivity].
  - exists ts. exact H.
Defined.

(** A snapshot carries the log: a server that ingests the snapshot another server took at an
    index, from its apply channel or at a restart, has afterwards exactly that server's entries
    up to the index (nil where it had none) and goes on from the index. *)
Theorem snapshot_restores_log {V : Type} `{!EqDecision V} (nilV : V) {Bytes : Type}
    (encode : Z * list V -> Bytes) (decode : Bytes -> option (Z * list V))
    (Hcodec : forall x, decode (encode x) = Some x) ts i m ts' index b rs0 idx :
  applierSnap nilV encode decode ts i m = Ok (ts', Some (index, b)) -> (0 <= index)%Z ->
  idx = index \/ idx = (-1)%Z ->
  exists rs rs', ts_srvs ts' !! i = Some rs /\
    ingestSnap decode rs0 (Some b) idx = Ok (rs', false) /\ lastApplied rs' = index /\
    lastApplied rs = index /\
    forall k, logs rs' !! k =
      if bool_decide (0 <= k <= index)%Z then Some (default nilV (logs rs !! k)) else None.
Proof.
  intros Hs Hi Hidx. apply applierSnap_snapshot in Hs as (_ & _ & rs & Hrs & Hla & ->).
  destruct (ingest_snapshot_log nilV encode decode Hcodec rs0 rs index idx Hi Hidx)
    as (rs' & H1 & H2 & H3). exists rs, rs'. by split_and!.
Qed.

(** The codec that keeps the pair; the snapshot is taken at index 9. *)
Lemma snapshot_restores_log_witness :
  exists ts' b rs', applierSnap 0 (fun x => x) Some
      (mkTest [mkrfsrv 8 {[ 8%Z := 5 ]}] 8)
      0 (mkApplyMsg true 6 9 false None 0 0) = Ok (ts', Some (9%Z, b)) /\
    ingestSnap Some (mkrfsrv 0 ∅) (Some b) 9 = Ok (rs', false) /\ logs rs' !! 9%Z = Some 6 /\
    logs rs' !! 8%Z = Some 5 /\ logs rs' !! 0%Z = Some 0.
Proof.
  destruct (applierSnap 0 (fun x => x) Some (mkTest [mkrfsrv 8 {[ 8%Z := 5 ]}] 8)
    0 (mkApplyMsg true 6 9 false None 0 0)) as [[ts' [[index b]|]]| |] eqn:E;
    [|vm_compute in E; discriminate E..].
  pose proof E as E'. vm_compute in E'. injection E' as Ets Ei Eb.
  destruct (snapshot_restores_log 0 (fun x => x) Some (fun x => eq_refl)
    (mkTest [mkrfsrv 8 {[ 8%Z := 5 ]}] 8) 0 (mkApplyMsg true 6 9 false None 0 0)
    ts' index b (mkrfsrv 0 ∅) index E) as (rs & rs' & Hrs & H1 & _ & _ & H2).
  - rewrite <- Ei. lia.
  - left. reflexivity.
  - exists ts', b, rs'. rewrite <- Ei in *. split; [reflexivity|]. split; [exact H1|].
    rewrite <- Ets in Hrs. simpl in Hrs. injection Hrs as <-.
    split; [rewrite H2; reflexivity|]. split; [rewrite H2; reflexivity|rewrite H2; reflexivity].
Defined.
