(* ===== verification/RaftOne.v ===== *)
(** * The waiting loops of the Raft tests

    The polling loops [one] and [wait] of [src/src/raft1/test.go], and the set-up of its tests.  [one]
    runs as a thread beside the readers of the apply channels of [RaftTest], restarts, changes of the
    connections and the clock; Raft is arbitrary: whatever it answers to [Start] and sends to be applied,
    a call ends after a bounded number of steps, and an index that is returned has been agreed on.  On a
    Raft with a connected leader that applies what it accepts in time no call fails. *)

From S2P Require Import Prelude Labrpc Tester Rand Config RaftTest.

(** ** Set-up *)

Section Setup.
Context (rnd : nat -> list Z) (mks : nat -> nat -> list nat).

(** The configuration; the servers are those that [mksrv] made for the group. *)
Definition makeTest (n : nat) (rel : bool) (now : Z) : go Config :=
  let! cfg := MakeConfig rnd n rel mks now in Ok (SetLongDelays cfg true).

(** [names] are those that the new server draws for its ends, [obj] the address of its RPC server. *)
Definition restart (cfg : Config) (sg : ServerGrp) (i : nat) : go (Config * ServerGrp) :=
  let! names := draw_names rnd (drawn cfg) (SrvN sg) in
  let! r := StartServer (cfg_lab cfg) sg i names mks (next_obj cfg) in
  let! c := ConnectAll (lab_net r.1) r.2 in
  Ok (set_grps (spend (set_lab cfg (set_lab_net r.1 c.1)) (SrvN sg) 1) (<[GRP0 := c.2]> (grps cfg)), c.2).
End Setup.

(** The flag [finished], what [End] prints, and the configuration that is left; the times are those of
    the three checks of the time limit. *)
Definition cleanup (cfg : Config) (t1 t2 t3 : Z) : go (bool * option report * Config) :=
  let! rep := End_ cfg t1 in
  let! cfg := Config_Cleanup cfg t2 in
  let! cfg := CheckTimeout cfg t3 in Ok (true, rep, cfg).

Section One.
Context {V : Type} `{!EqDecision V} (nilV : V).

(** ** The test while it runs *)

(** Per server the flag of the group and whether [raft] is set; the flag [finished]; the time in
    milliseconds. *)
Record rts := mkrts {
  r_ts : Test (V := V);
  r_conn : list bool;
  r_raft : list bool;
  r_finished : bool;
  r_now : Z
}.

Definition checkFinished (s : rts) : bool := r_finished s.

Definition set_ts (s : rts) (ts : Test) : rts := mkrts ts (r_conn s) (r_raft s) (r_finished s) (r_now s).

(** [mksrv] without snapshots: the new server has an empty log. *)
Definition mksrv (ts : Test (V := V)) (srv : nat) : Test :=
  mkTest (<[srv := mkrfsrv 0 ∅]> (ts_srvs ts)) (maxIndex ts).

(** What happens around a call: a message is applied, a server is started again or killed, connections
    change, the test ends, time passes. *)
Inductive around {Bytes : Type} : rts -> rts -> Prop :=
| ar_apply s d ts' : deliver (Bytes := Bytes) (r_ts s) d = Ok ts' -> around s (set_ts s ts')
| ar_mksrv s i :
    around s (mkrts (mksrv (r_ts s) i) (r_conn s) (<[i := true]> (r_raft s)) (r_finished s) (r_now s))
| ar_Kill s i : around s (mkrts (r_ts s) (r_conn s) (<[i := false]> (r_raft s)) (r_finished s) (r_now s))
| ar_conn s i b : around s (mkrts (r_ts s) (<[i := b]> (r_conn s)) (r_raft s) (r_finished s) (r_now s))
| ar_finish s : around s (mkrts (r_ts s) (r_conn s) (r_raft s) true (r_now s))
| ar_time s t : (r_now s <= t)%Z -> around s (mkrts (r_ts s) (r_conn s) (r_raft s) (r_finished s) t).

(** ** [one] *)

(** At the head of the loop; trying [todo] more servers; with the index that [Start] gave; at the head
    of the loop that waits for agreement, begun at [t1]; asleep until a time in either loop; after the
    loop; with a result. *)
Inductive one_pc :=
| OTop (starts : nat)
| OScan (starts todo : nat)
| OGot (starts : nat) (index : Z)
| OPoll (starts : nat) (index : Z) (t1 : Z)
| OPollSleep (starts : nat) (index : Z) (t1 until : Z)
| OTopSleep (starts : nat) (until : Z)
| OAfter
| ORet (index : Z)
| OFatal (msg : string).

(** The server whose [Start] is called next. *)
Definition asks (s : rts) (pc : one_pc) : option nat :=
  match pc with
  | OScan starts (S _) =>
      let starts := (starts + 1) mod length (ts_srvs (r_ts s)) in
      match r_conn s !! starts, r_raft s !! starts with
      | Some true, Some true => Some starts
      | _, _ => None
      end
  | _ => None
  end.

(** The next step, with the answer of [Start] if it is called; [None] while asleep and at the end. *)
Definition one_next (cmd : V) (expectedServers : Z) (retry : bool) (t0 : Z) (s : rts) (ans : Z * bool)
    (pc : one_pc) : option one_pc :=
  match pc with
  | OTop starts =>
      Some (if bool_decide (r_now s < t0 + 10000)%Z && negb (checkFinished s)
            then OScan starts (length (ts_srvs (r_ts s))) else OAfter)
  | OScan starts 0 => Some (OGot starts (-1))
  | OScan starts (S todo) =>
      let starts := (starts + 1) mod length (ts_srvs (r_ts s)) in
      Some (match asks s pc with
            | Some _ => if ans.2 then OGot starts ans.1 else OScan starts todo
            | None => OScan starts todo
            end)
  | OGot starts index =>
      Some (if bool_decide (index = (-1)%Z) then OTopSleep starts (r_now s + 50)%Z
            else OPoll starts index (r_now s))
  | OPoll starts index t1 =>
      Some (if bool_decide (r_now s < t1 + 2000)%Z then
              match nCommitted nilV (r_ts s) index with
              | Ok (nd, cmd1) =>
                  if bool_decide (0 < nd) && bool_decide (expectedServers <= Z.of_nat nd)%Z
                     && bool_decide (cmd1 = cmd)
                  then ORet index else OPollSleep starts index t1 (r_now s + 20)%Z
              | Fatal msg => OFatal msg
              | Panic msg => OFatal msg
              end
            else if negb retry then OFatal "failed to reach agreement" else OTop starts)
  | OPollSleep starts index t1 until => if bool_decide (until <= r_now s)%Z then Some (OPoll starts index t1) else None
  | OTopSleep starts until => if bool_decide (until <= r_now s)%Z then Some (OTop starts) else None
  | OAfter => Some (if negb (checkFinished s) then OFatal "failed to reach agreement" else ORet (-1))
  | ORet _ | OFatal _ => None
  end.

(** A call beside a Raft with states [R]: [Start] is a relation, and so is what else happens. *)
Section Run.
Context {R : Type} (rf_Start : rts -> R -> nat -> V -> Z -> bool -> R -> Prop).
Context (env : one_pc -> rts * R -> rts * R -> Prop).
Context (cmd : V) (expectedServers : Z) (retry : bool) (t0 : Z).

Inductive one_step : rts * R * one_pc -> rts * R * one_pc -> Prop :=
| os_start s r pc i index ok r' pc' :
    asks s pc = Some i -> rf_Start s r i cmd index ok r' ->
    one_next cmd expectedServers retry t0 s (index, ok) pc = Some pc' -> one_step (s, r, pc) (s, r', pc')
| os_local s r pc pc' :
    asks s pc = None -> one_next cmd expectedServers retry t0 s (0%Z, false) pc = Some pc' ->
    one_step (s, r, pc) (s, r, pc').

Lemma one_step_inv s r pc s' r' pc' :
  one_step (s, r, pc) (s', r', pc') ->
  s' = s /\ ((exists i index ok, asks s pc = Some i /\ rf_Start s r i cmd index ok r' /\
                one_next cmd expectedServers retry t0 s (index, ok) pc = Some pc') \/
             (r' = r /\ asks s pc = None /\
                one_next cmd expectedServers retry t0 s (0%Z, false) pc = Some pc')).
Proof. inversion 1; subst; split; eauto 10. Qed.

(** Runs, with the number of steps of the call. *)
Inductive one_run : nat -> rts * R * one_pc -> rts * R * one_pc -> Prop :=
| or_refl x : one_run 0 x x
| or_step k x y z : one_run k x y -> one_step y z -> one_run (S k) x z
| or_env k x s r s' r' pc : one_run k x (s, r, pc) -> env pc (s, r) (s', r') -> one_run k x (s', r', pc).
End Run.

(** ** [wait] *)

Section Wait.
(** The servers and, after the pause, their terms, at each turn of the loop. *)
Context (seen : nat -> Test (V := V) * list Z).
Context (index n startTerm : Z).

(** The pauses in milliseconds, and whether someone has moved on. *)
Fixpoint wait_loop (todo iters : nat) (to : Z) : go (list Z * bool) :=
  match todo with
  | 0 => Ok ([], false)
  | S todo =>
      let! r := nCommitted nilV (seen iters).1 index in
      if bool_decide (n <= Z.of_nat r.1)%Z then Ok ([], false)
      else
        let to' := if bool_decide (to < 1000)%Z then (to * 2)%Z else to in
        if bool_decide (-1 < startTerm)%Z && existsb (fun t => bool_decide (startTerm < t)%Z) (seen iters).2
        then Ok ([to], true)
        else let! r := wait_loop todo (S iters) to' in Ok (to :: r.1, r.2)
  end.

(** [None] for the result [-1]; [last] is what the final count sees. *)
Definition wait (last : Test) : go (list Z * option V) :=
  let! r := wait_loop 30 0 10 in
  if r.2 then Ok (r.1, None)
  else
    let! c := nCommitted nilV last index in
    if bool_decide (Z.of_nat c.1 < n)%Z then Fatal "too few servers decided" else Ok (r.1, Some c.2).
End Wait.
End One.

(** ** Counting *)

Section Counting.
Context {V : Type} `{!EqDecision V} (nilV : V).
Implicit Types (ts : Test (V := V)) (rs : rfsrv (V := V)).

(** The servers with an entry at the index. *)
Definition has_entry (index : Z) rs : Prop := is_Some (logs rs !! index).
#[export] Instance has_entry_dec index rs : Decision (has_entry index rs).
Proof. unfold has_entry. apply _. Defined.

Definition committed ts (index : Z) : nat := length (filter (has_entry index) (ts_srvs ts)).

Lemma nCommitted_fold index l c u nd v :
  fold_go (nCommitted_step index) l (c, u) = Ok (nd, v) ->
  nd = c + length (filter (has_entry index) l) /\ (0 < c -> v = u) /\
  forall rs w, rs ∈ l -> logs rs !! index = Some w -> w = v.
Proof.
  revert c u. induction l as [|rs l IH]; intros c u H; simpl in H.
  { injection H as <- <-. split_and!; [simpl; lia|done|]. by intros rs w ?%not_elem_of_nil. }
  unfold nCommitted_step, Logs in H. destruct (logs rs !! index) as [x|] eqn:E; simpl in H.
  - destruct (bool_decide (0 < c) && negb (bool_decide (u = x))) eqn:Eb; [done|].
    apply IH in H as (-> & Hv & Hl). rewrite filter_cons_True by (unfold has_entry; by rewrite E).
    assert (v = x) as -> by (apply Hv; lia). simpl. split; [lia|]. split.
    + intros Hc. rewrite bool_decide_eq_true_2 in Eb by done. apply negb_false_iff in Eb.
      by apply bool_decide_eq_true_1 in Eb.
    + intros rs' w [->|Hin]%elem_of_cons Hw; [congruence|by eapply Hl].
  - apply IH in H as (-> & Hv & Hl). rewrite filter_cons_False by (unfold has_entry; rewrite E; by intros []).
    split; [done|]. split; [done|]. intros rs' w [->|Hin]%elem_of_cons Hw; [congruence|by eapply Hl].
Qed.

Lemma nCommitted_Ok ts index nd v :
  nCommitted nilV ts index = Ok (nd, v) ->
  nd = committed ts index /\ forall rs w, rs ∈ ts_srvs ts -> logs rs !! index = Some w -> w = v.
Proof. by intros (-> & _ & H)%nCommitted_fold. Qed.

(** Logs that agree are counted. *)
Lemma nCommitted_agreed ts index x :
  (forall rs w, rs ∈ ts_srvs ts -> logs rs !! index = Some w -> w = x) ->
  exists v, nCommitted nilV ts index = Ok (committed ts index, v) /\ (0 < committed ts index -> v = x).
Proof.
  intros Hx.
  assert (forall l c u, l ⊆ ts_srvs ts -> (0 < c -> u = x) ->
    exists nd v, fold_go (nCommitted_step index) l (c, u) = Ok (nd, v) /\ (0 < nd -> v = x)) as Hgen.
  { induction l as [|rs l IH]; intros c u Hl Hu; simpl; [by exists c, u|].
    assert (rs ∈ ts_srvs ts) as Hrs by set_solver. unfold nCommitted_step at 1, Logs.
    destruct (logs rs !! index) as [w|] eqn:E; simpl.
    - apply (Hx rs w Hrs) in E as ->.
      destruct (bool_decide (0 < c) && negb (bool_decide (u = x))) eqn:Eb.
      + apply andb_true_iff in Eb as [Hc%bool_decide_eq_true_1 Hne].
        by rewrite (Hu Hc), bool_decide_eq_true_2 in Hne.
      + apply IH; [set_solver|done].
    - apply IH; [set_solver|done]. }
  destruct (Hgen (ts_srvs ts) 0 nilV) as (nd & v & H & Hv); [done|lia|].
  destruct (nCommitted_Ok ts index nd v H) as [-> _]. eauto.
Qed.

Lemma committed_length ts index : committed ts index <= length (ts_srvs ts).
Proof. apply length_filter. Qed.
End Counting.

(** ** A call ends *)

Section Steps.
Context {V : Type} `{!EqDecision V} (nilV : V) {Bytes : Type}.
Context (cmd : V) (expectedServers : Z) (retry : bool) (t0 : Z) (n : nat).
Implicit Types (s : rts (V := V)) (pc : one_pc).

(** What [t] leaves of the interval that ends at [d]. *)
Definition rest (d t : Z) : Z := Z.max 0 (d - t).

(** Steps that are left: a turn of the outer loop takes at least 50 of its 10000 milliseconds, and a
    turn of the inner loop 20 of 2000. *)
Definition budget s pc : Z :=
  let a := (Z.of_nat n + 4020)%Z in
  let now := r_now s in
  match pc with
  | OTop _ => a * rest (t0 + 10000) now + 2
  | OScan _ todo => a * rest (t0 + 10000) (now + 50) + 4012 + Z.of_nat todo
  | OGot _ _ => a * rest (t0 + 10000) (now + 50) + 4010
  | OPoll _ _ t1 => a * rest (t0 + 10000) (Z.max now (t1 + 2000)) + 4 + 2 * rest (t1 + 2000) now
  | OPollSleep _ _ t1 until =>
      a * rest (t0 + 10000) (Z.max now (t1 + 2000)) + 5 + 2 * rest (t1 + 2000) (Z.max now until)
  | OTopSleep _ until => a * rest (t0 + 10000) (Z.max now until) + 3
  | OAfter => 1
  | ORet _ | OFatal _ => 0
  end%Z.

Lemma rest_mono d t t' : (t <= t')%Z -> (0 <= rest d t' <= rest d t)%Z.
Proof. unfold rest. lia. Qed.

Lemma budget_mono s s' pc : (r_now s <= r_now s')%Z -> (0 <= budget s' pc <= budget s pc)%Z.
Proof.
  intros H.
  assert (forall d t t', (t <= t')%Z -> (0 <= (Z.of_nat n + 4020) * rest d t' <=
    (Z.of_nat n + 4020) * rest d t)%Z) as Hm.
  { intros d t t' Ht. pose proof (rest_mono d t t' Ht). nia. }
  unfold budget. destruct pc; try lia.
  - specialize (Hm (t0 + 10000)%Z (r_now s) (r_now s') H). lia.
  - specialize (Hm (t0 + 10000)%Z (r_now s + 50)%Z (r_now s' + 50)%Z ltac:(lia)). lia.
  - specialize (Hm (t0 + 10000)%Z (r_now s + 50)%Z (r_now s' + 50)%Z ltac:(lia)). lia.
  - specialize (Hm (t0 + 10000)%Z (Z.max (r_now s) (t1 + 2000)) (Z.max (r_now s') (t1 + 2000))%Z ltac:(lia)).
    pose proof (rest_mono (t1 + 2000) (r_now s) (r_now s') H). lia.
  - specialize (Hm (t0 + 10000)%Z (Z.max (r_now s) (t1 + 2000)) (Z.max (r_now s') (t1 + 2000))%Z ltac:(lia)).
    pose proof (rest_mono (t1 + 2000) (Z.max (r_now s) until) (Z.max (r_now s') until) ltac:(lia)). lia.
  - specialize (Hm (t0 + 10000)%Z (Z.max (r_now s) until) (Z.max (r_now s') until)%Z ltac:(lia)). lia.
Qed.

Lemma budget_step s ans pc pc' :
  length (ts_srvs (r_ts s)) = n -> one_next nilV cmd expectedServers retry t0 s ans pc = Some pc' ->
  (budget s pc' < budget s pc)%Z.
Proof.
  intros Hn H.
  assert (forall x y, (0 <= y <= x)%Z -> (0 <= (Z.of_nat n + 4020) * y <= (Z.of_nat n + 4020) * x)%Z) as Hm
    by (intros; nia).
  destruct pc as [st|st todo|st index|st index t1|st index t1 u|st u| |index|msg]; cbn [one_next] in H.
  - injection H as <-. pose proof (Hm (rest (t0 + 10000) (r_now s)) 0%Z ltac:(unfold rest; lia)).
    destruct (bool_decide (r_now s < t0 + 10000)%Z) eqn:Eb; [|cbn [andb budget]; lia].
    apply bool_decide_eq_true_1 in Eb. destruct (negb (checkFinished s)); cbn [andb budget]; [|lia]. rewrite Hn.
    assert (rest (t0 + 10000) (r_now s + 50) <= rest (t0 + 10000) (r_now s) - 1)%Z by (unfold rest; lia).
    nia.
  - destruct todo as [|todo]; injection H as <-; [cbn [budget]; lia|].
    repeat case_match; cbn [budget]; lia.
  - injection H as <-. destruct (bool_decide (index = (-1)%Z)).
    + cbn [budget]. rewrite Z.max_r by lia. lia.
    + cbn [budget]. rewrite Z.max_r by lia.
      pose proof (Hm (rest (t0 + 10000) (r_now s + 50)) (rest (t0 + 10000) (r_now s + 2000))
        ltac:(unfold rest; lia)). unfold rest at 2. lia.
  - injection H as <-. pose proof (Hm (rest (t0 + 10000) (Z.max (r_now s) (t1 + 2000))) 0%Z
      ltac:(unfold rest; lia)).
    destruct (bool_decide (r_now s < t1 + 2000)%Z) eqn:Eb.
    + apply bool_decide_eq_true_1 in Eb. pose proof (rest_mono (t1 + 2000) (r_now s) (r_now s)).
      destruct (nCommitted nilV (r_ts s) index) as [[nd v]| |]; [|cbn [budget]; lia..].
      destruct (_ && _); [cbn [budget]; lia|]. cbn [budget]. rewrite (Z.max_r (r_now s) (r_now s + 20)) by lia.
      unfold rest at 2 4. lia.
    + apply bool_decide_eq_false_1 in Eb. pose proof (rest_mono (t1 + 2000) (r_now s) (r_now s)).
      destruct (negb retry); [cbn [budget]; lia|]. cbn [budget]. rewrite Z.max_l by lia. lia.
  - case_bool_decide; [|done]. injection H as <-. cbn [budget]. rewrite (Z.max_l _ u) by lia. lia.
  - case_bool_decide; [|done]. injection H as <-. cbn [budget]. rewrite (Z.max_l _ u) by lia. lia.
  - injection H as <-. by destruct (negb _).
  - done.
  - done.
Qed.

Lemma around_now s s' : around (Bytes := Bytes) s s' -> (r_now s <= r_now s')%Z.
Proof. destruct 1; simpl; lia. Qed.

(** The servers are the same, and their logs agree. *)
Definition sound_logs s : Prop :=
  length (ts_srvs (r_ts s)) = n /\ agree (r_ts s) /\ contiguous (r_ts s).

Lemma around_sound s s' : around (Bytes := Bytes) s s' -> sound_logs s -> sound_logs s'.
Proof.
  intros H (Hn & Ha & Hc). destruct H as [s d ts' H|s i|s i|s i b|s|s t Ht]; [| |by split_and!..].
  - split; simpl.
    + unfold deliver in H. apply applier_Ok in H as [[_ ->]|(_ & me & _ & -> & _)]; [done|].
      by rewrite length_insert.
    + by eapply (applier_agree (r_ts s)).
  - assert (forall j rs, <[i := mkrfsrv 0 ∅]> (ts_srvs (r_ts s)) !! j = Some rs ->
      logs rs = ∅ \/ ts_srvs (r_ts s) !! j = Some rs) as Hl.
    { intros j rs [(_ & <- & _)|[_ ?]]%list_lookup_insert_Some; [by left|by right]. }
    split; [simpl; by rewrite length_insert|]. split; simpl.
    + intros a b rs rs' k v w [E1|Ha1]%Hl [E2|Hb1]%Hl Hv Hw; try (rewrite ?E1, ?E2, lookup_empty in *; done).
      by eapply (Ha a b).
    + intros a rs k [E|Ha1]%Hl Hk; [rewrite E, lookup_empty in Hk; by destruct Hk|by eapply Hc].
Qed.

(** What a step that returns has seen. *)
Lemma one_next_ret s ans pc index :
  one_next nilV cmd expectedServers retry t0 s ans pc = Some (ORet index) ->
  (index = (-1)%Z /\ r_finished s = true) \/
  (exists starts t1, pc = OPoll starts index t1) /\ 0 < committed (r_ts s) index /\
  (expectedServers <= Z.of_nat (committed (r_ts s) index))%Z /\
  forall rs w, rs ∈ ts_srvs (r_ts s) -> logs rs !! index = Some w -> w = cmd.
Proof.
  destruct pc as [st|st todo|st i|st i t1|st i t1 u|st u| |i|msg]; cbn [one_next]; intros H;
    try (repeat case_match; simplify_eq; done).
  - right. case_bool_decide; [|by destruct retry]. destruct (nCommitted nilV (r_ts s) i) as [[nd v]| |] eqn:E; [|done..].
    destruct (bool_decide (0 < nd) && _ && _) eqn:Eb; [|done]. injection H as ->.
    apply andb_true_iff in Eb as [[Hpos%bool_decide_eq_true_1 He%bool_decide_eq_true_1]%andb_true_iff
      ->%bool_decide_eq_true_1].
    apply nCommitted_Ok in E as [-> Hl]. split; [eauto|]. by split_and!.
  - left. unfold checkFinished in H. destruct (r_finished s); [|done]. by injection H as <-.
Qed.

Section Run.
Context {R : Type} (rf_Start : rts (V := V) -> R -> nat -> V -> Z -> bool -> R -> Prop).
Context (env : one_pc -> rts (V := V) * R -> rts (V := V) * R -> Prop).
Hypothesis Henv : forall pc s r s' r', env pc (s, r) (s', r') -> around (Bytes := Bytes) s s'.

Lemma run_bound k s r pc s' r' pc' :
  one_run nilV rf_Start env cmd expectedServers retry t0 k (s, r, pc) (s', r', pc') -> sound_logs s ->
  sound_logs s' /\ (budget s' pc' + Z.of_nat k <= budget s pc)%Z.
Proof using Henv.
  intros H Hs. remember (s, r, pc) as x eqn:Ex. remember (s', r', pc') as y eqn:Ey.
  revert s' r' pc' Ey. induction H as [x|k x y z H IH Hst|k x s1 r1 s2 r2 pc1 H IH He]; intros s' r' pc' Ey.
  - simplify_eq. split; [done|lia].
  - destruct y as [[s1 r1] pc1]. destruct (IH Ex s1 r1 pc1 eq_refl) as [Hs1 Hb]. subst z.
    apply one_step_inv in Hst as [-> [(i & idx & ok & _ & _ & Hn)|(_ & _ & Hn)]];
      (split; [done|]); apply budget_step in Hn; try (by destruct Hs1); lia.
  - simplify_eq. destruct (IH eq_refl s1 r1 pc' eq_refl) as [Hs1 Hb]. pose proof (Henv _ _ _ _ _ He) as Ha.
    split; [by eapply around_sound|]. pose proof (budget_mono s1 s' pc' (around_now _ _ Ha)). lia.
Qed.
End Run.
End Steps.

(** ** A Raft with a leader that is in time *)

Section Ideal.
Context {V : Type} `{!EqDecision V} (nilV : V).
Context (n : nat) (D : Z).
Implicit Types (s : rts (V := V)) (pc : one_pc).

(** One log, the times at which its entries were accepted, the number of entries that each server has
    been sent, and the leader. *)
Record ideal := mkideal { il_log : list V; il_born : list Z; il_ns : list nat; il_leader : nat }.
Implicit Types r : ideal.

Definition il_append r (v : V) (now : Z) : ideal :=
  mkideal (il_log r ++ [v]) (il_born r ++ [now]) (il_ns r) (il_leader r).

(** The leader accepts, the others refuse. *)
Inductive ideal_Start s r (i : nat) (v : V) : Z -> bool -> ideal -> Prop :=
| is_leader :
    i = il_leader r -> ideal_Start s r i v (Z.of_nat (length (il_log r)) + 1) true (il_append r v (r_now s))
| is_other index : i ≠ il_leader r -> ideal_Start s r i v index false r.

(** No entry is left unapplied for more than [D] milliseconds at the time [t]. *)
Definition timely r (t : Z) : Prop :=
  forall k b i m, il_born r !! k = Some b -> il_ns r !! i = Some m -> m <= k -> (t <= b + D)%Z.

(** Only sleeping takes time. *)
Definition asleep pc (t : Z) : Prop :=
  match pc with OPollSleep _ _ _ until | OTopSleep _ until => (t <= until)%Z | _ => False end.

Inductive ideal_env pc : rts * ideal -> rts * ideal -> Prop :=
| ie_apply s r i m v ts' :
    il_ns r !! i = Some m -> il_log r !! m = Some v ->
    deliver (Bytes := unit) (r_ts s) (i, entry_msg m v) = Ok ts' ->
    ideal_env pc (s, r) (set_ts s ts', mkideal (il_log r) (il_born r) (<[i := S m]> (il_ns r)) (il_leader r))
| ie_append s r v : ideal_env pc (s, r) (s, il_append r v (r_now s))
| ie_tick s r t :
    (r_now s <= t)%Z -> asleep pc t -> timely r t ->
    ideal_env pc (s, r) (mkrts (r_ts s) (r_conn s) (r_raft s) (r_finished s) t, r).

Record ideal_ok s r : Prop := {
  io_n : length (ts_srvs (r_ts s)) = n;
  io_conn : r_conn s = replicate n true;
  io_raft : r_raft s = replicate n true;
  io_fin : r_finished s = false;
  io_ns : length (il_ns r) = n;
  io_le : forall i m, il_ns r !! i = Some m -> m <= length (il_log r);
  io_born : length (il_born r) = length (il_log r);
  io_applied : applied (il_log r) (fun i => default 0 (il_ns r !! i)) (r_ts s);
  io_timely : timely r (r_now s);
  io_leader : il_leader r < n
}.

Lemma ideal_around pc s r s' r' : ideal_env pc (s, r) (s', r') -> around (Bytes := unit) s s'.
Proof.
  inversion 1; subst; [by eapply ar_apply| |by constructor].
  destruct s'. by apply (ar_time (Bytes := unit)).
Qed.

Lemma ideal_le s r : ideal_ok s r -> forall i, default 0 (il_ns r !! i) <= length (il_log r).
Proof. intros H i. destruct (il_ns r !! i) eqn:E; simpl; [by eapply io_le|lia]. Qed.

Lemma ideal_sound s r : ideal_ok s r -> sound_logs n s.
Proof.
  intros H. pose proof (io_applied _ _ H) as Ha. split; [by eapply io_n|]. split.
  - intros i j rs rs' k v w Hi Hj. rewrite (Ha i rs k Hi), (Ha j rs' k Hj). repeat case_bool_decide; congruence.
  - intros i rs k Hi. rewrite !(Ha i rs _ Hi). case_bool_decide; [|by intros []]. intros _ Hk.
    rewrite bool_decide_eq_true_2 by lia. apply lookup_lt_is_Some_2. pose proof (ideal_le s r H i). lia.
Qed.

(** An entry that all servers have applied. *)
Lemma ideal_committed s r k v :
  ideal_ok s r -> il_log r !! k = Some v ->
  (forall i m, il_ns r !! i = Some m -> k < m) ->
  committed (r_ts s) (Z.of_nat k + 1) = n.
Proof.
  intros H Hk Hall. unfold committed. rewrite list_filter_all; [by eapply io_n|].
  intros rs [i Hi]%list_elem_of_lookup. unfold has_entry. rewrite (io_applied _ _ H i rs _ Hi).
  assert (is_Some (il_ns r !! i)) as [m Hm].
  { apply lookup_lt_is_Some_2. rewrite (io_ns _ _ H), <- (io_n _ _ H). by eapply lookup_lt_Some. }
  rewrite Hm. simpl. specialize (Hall i m Hm). rewrite bool_decide_eq_true_2 by lia.
  replace (Z.to_nat (Z.of_nat k + 1 - 1)) with k by lia. by rewrite Hk.
Qed.

Lemma ideal_entry s r k v :
  ideal_ok s r -> il_log r !! k = Some v ->
  forall rs w, rs ∈ ts_srvs (r_ts s) -> logs rs !! (Z.of_nat k + 1)%Z = Some w -> w = v.
Proof.
  intros H Hk rs w [i Hi]%list_elem_of_lookup. rewrite (io_applied _ _ H i rs _ Hi).
  case_bool_decide; [|done]. replace (Z.to_nat (Z.of_nat k + 1 - 1)) with k by lia. congruence.
Qed.

Lemma ideal_ok_append s r v : (0 <= D)%Z -> ideal_ok s r -> ideal_ok s (il_append r v (r_now s)).
Proof.
  intros HD H. pose proof (ideal_le s r H) as Hle. destruct H as [H1 H2 H3 H4 H5 H6 H7 H8 H9 H10].
  split; try done; simpl.
  - intros i m Hm%H6. rewrite length_app. lia.
  - rewrite !length_app. simpl. lia.
  - intros i rs k Hi. rewrite (H8 i rs k Hi). case_bool_decide as Hk; [|done]. specialize (Hle i).
    by rewrite lookup_app_l by lia.
  - intros k b i m [Hb|[_ Hb]]%lookup_app_Some Hm Hmk; [by eapply H9|].
    apply list_lookup_singleton_Some in Hb as [_ <-]. lia.
Qed.

Lemma ideal_ok_env pc s r s' r' : (0 <= D)%Z -> ideal_ok s r -> ideal_env pc (s, r) (s', r') -> ideal_ok s' r'.
Proof.
  intros HD H He. inversion He as [? ? i m v ts' Hm Hv Hd|? ? v|? ? t Ht Hs Hl]; subst.
  - pose proof (ideal_le s r H) as Hle. destruct H as [H1 H2 H3 H4 H5 H6 H7 H8 H9 H10].
    assert (i < n) as Hi by (rewrite <- H5; by eapply lookup_lt_Some).
    destruct (applied_step (Bytes := unit) (il_log r) _ (r_ts s) i v H8) as (ts1 & E & Hl & Ha);
      [by rewrite H1|by rewrite Hm|].
    rewrite Hm in E, Ha. simpl in E, Ha. unfold deliver in Hd. simpl in Hd. rewrite E in Hd. injection Hd as <-.
    split; simpl; try done.
    + by rewrite Hl.
    + by rewrite length_insert.
    + intros j m' [(<- & <- & _)|[_ Hj]]%list_lookup_insert_Some; [|by eapply H6].
      by apply lookup_lt_Some in Hv.
    + intros j rs k Hj. rewrite (Ha j rs k Hj). destruct (decide (j = i)) as [->|Hne].
      * by rewrite list_lookup_insert_eq by (by rewrite H5).
      * by rewrite list_lookup_insert_ne.
    + intros k b j m' Hb [(<- & <- & _)|[_ Hj]]%list_lookup_insert_Some Hk; [eapply (H9 k b i m); [done|done|lia]|].
      by eapply H9.
  - by apply ideal_ok_append.
  - destruct H. by split.
Qed.
(** *** The call on this Raft *)

Section Call.
Context (cmd : V) (expectedServers : Z) (retry : bool) (t0 : Z).
Hypothesis HD : (0 <= D < 1980)%Z.
Hypothesis Hexp : (expectedServers <= Z.of_nat n)%Z.

(** The command is in the log at the index, since before [t]. *)
Definition entry_at r (index t : Z) : Prop :=
  exists k b, index = (Z.of_nat k + 1)%Z /\ il_log r !! k = Some cmd /\ il_born r !! k = Some b /\ (b <= t)%Z.

Definition pc_ok s r pc : Prop :=
  match pc with
  | OTop starts => starts = 0 /\ r_now s = t0
  | OScan starts todo => exists j, 1 <= j <= todo /\ (starts + j) mod n = il_leader r
  | OGot _ index => entry_at r index (r_now s)
  | OPoll _ index t1 => entry_at r index t1 /\ exists j, (0 <= j <= 99 /\ r_now s = t1 + 20 * j)%Z
  | OPollSleep _ index t1 until =>
      entry_at r index t1 /\ exists j, (0 <= j <= 99 /\ until = t1 + 20 * j /\ r_now s <= until)%Z
  | ORet index => entry_at r index (r_now s)
  | OTopSleep _ _ | OAfter | OFatal _ => False
  end.

Lemma entry_at_append r v now index t : entry_at r index t -> entry_at (il_append r v now) index t.
Proof.
  intros (k & b & -> & Hk & Hb & Ht). exists k, b. split_and!; [done| | |done]; by apply lookup_app_l_Some.
Qed.

Lemma entry_at_later r index t t' : (t <= t')%Z -> entry_at r index t -> entry_at r index t'.
Proof. intros H (k & b & -> & Hk & Hb & Ht). exists k, b. split_and!; [done..|lia]. Qed.

Lemma pc_ok_env pc s r s' r' : ideal_env pc (s, r) (s', r') -> pc_ok s r pc -> pc_ok s' r' pc.
Proof.
  intros He H. inversion He as [? ? i m v ts' Hm Hv Hd|? ? v|? ? t Ht Hs Hl]; subst.
  - by destruct pc.
  - destruct pc; simpl in *; try done; try (by apply entry_at_append);
      destruct H as [H ?]; split; auto; by apply entry_at_append.
  - destruct pc; simpl in *; try done. destruct H as [He' (j & Hj & -> & Hn)]. split; [done|]. by exists j.
Qed.

(** A server that can be asked. *)
Lemma ideal_asks s r starts todo :
  ideal_ok s r -> asks s (OScan starts (S todo)) = Some ((starts + 1) mod n).
Proof.
  intros H. simpl. rewrite (io_n _ _ H), (io_conn _ _ H), (io_raft _ _ H).
  assert ((starts + 1) mod n < n) as Hlt by (apply Nat.mod_upper_bound; pose proof (io_leader _ _ H); lia).
  by rewrite lookup_replicate_2.
Qed.

(** An unapplied entry is not older than [D], so the last poll before the time limit finds it. *)
Lemma ideal_poll s r starts index t1 :
  ideal_ok s r -> pc_ok s r (OPoll starts index t1) -> forall ans,
  exists pc', one_next nilV cmd expectedServers retry t0 s ans (OPoll starts index t1) = Some pc' /\ pc_ok s r pc'.
Proof.
  intros H [(k & b & -> & Hk & Hb & Ht) (j & Hj & Hnow)] ans. cbn [one_next]. eexists. split; [done|].
  rewrite bool_decide_eq_true_2 by lia.
  destruct (nCommitted_agreed nilV (r_ts s) (Z.of_nat k + 1) cmd (ideal_entry s r k cmd H Hk)) as (v & -> & Hv).
  destruct (bool_decide (0 < committed _ _) && _ && _) eqn:Eb.
  { exists k, b. split_and!; [done..|lia]. }
  split; [by exists k, b|]. exists (j + 1)%Z. split_and!; [lia| |lia|lia].
  destruct (decide (Forall (fun m => k < m) (il_ns r))) as [Hall|Hnot].
  - exfalso. rewrite Forall_lookup in Hall. pose proof (ideal_committed s r k cmd H Hk Hall) as Hc.
    pose proof (io_leader _ _ H) as Hn. rewrite Hc in Eb, Hv. rewrite (Hv ltac:(lia)) in Eb.
    by rewrite !bool_decide_eq_true_2 in Eb by (done || lia).
  - apply not_Forall_Exists, Exists_exists in Hnot as (m & [i Hi]%list_elem_of_lookup & Hm); [|apply _].
    pose proof (io_timely _ _ H k b i m Hb Hi ltac:(simpl in Hm; lia)). lia.
Qed.

Lemma pc_ok_step s r pc s' r' pc' :
  ideal_ok s r -> pc_ok s r pc ->
  one_step nilV ideal_Start cmd expectedServers retry t0 (s, r, pc) (s', r', pc') ->
  s' = s /\ ideal_ok s r' /\ pc_ok s r' pc'.
Proof.
  intros H Hpc Hst. pose proof (io_leader _ _ H) as Hl.
  apply one_step_inv in Hst as [-> [(i & idx & ok & Hi & Hr & Hn)|(-> & Hi & Hn)]]; (split; [done|]).
  - destruct pc as [st|st [|todo]|st index|st index t1|st index t1 u|st u| |index|msg]; try done.
    cbn [one_next] in Hn. rewrite Hi in Hn. rewrite (ideal_asks s r) in Hi by done. injection Hi as <-.
    injection Hn as <-. rewrite (io_n _ _ H). destruct Hpc as (j & Hj & Hlead).
    inversion Hr as [Hi'|index Hne]; subst; simpl.
    + split; [apply ideal_ok_append; [lia|done]|]. exists (length (il_log r)), (r_now s).
      split_and!; [done| | |lia]; simpl; [by apply list_lookup_middle|]. rewrite <- (io_born _ _ H). by apply list_lookup_middle.
    + split; [done|]. assert (j ≠ 1) by (intros ->; done). exists (j - 1). split; [lia|].
      rewrite Nat.Div0.add_mod_idemp_l, <- Hlead. f_equal. lia.
  - split; [done|]. destruct pc as [st|st [|todo]|st index|st index t1|st index t1 u|st u| |index|msg]; try done.
    + destruct Hpc as [-> Hnow]. cbn [one_next] in Hn. unfold checkFinished in Hn.
      rewrite (io_fin _ _ H), bool_decide_eq_true_2, (io_n _ _ H) in Hn by lia. injection Hn as <-. simpl.
      destruct (il_leader r) as [|l] eqn:El.
      * exists n. split; [lia|]. apply Nat.Div0.mod_same.
      * exists (S l). split; [lia|]. by apply Nat.mod_small.
    + destruct Hpc as (j & Hj & _). lia.
    + by rewrite (ideal_asks s r) in Hi.
    + cbn [one_next] in Hn. injection Hn as <-. destruct Hpc as (k & b & -> & Hk).
      rewrite bool_decide_eq_false_2 by lia. split; [by exists k, b|]. exists 0%Z. lia.
    + destruct (ideal_poll s r st index t1 H Hpc (0%Z, false)) as (pc1 & E & Hok). congruence.
    + cbn [one_next] in Hn. case_bool_decide; [|done]. injection Hn as <-.
      destruct Hpc as [He (j & Hj & -> & Hu)]. split; [done|]. exists j. lia.
Qed.

Lemma call_ok k s0 r0 s r pc :
  ideal_ok s0 r0 -> r_now s0 = t0 ->
  one_run nilV ideal_Start ideal_env cmd expectedServers retry t0 k (s0, r0, OTop 0) (s, r, pc) ->
  ideal_ok s r /\ pc_ok s r pc.
Proof.
  intros H Hnow Hrun. remember (s0, r0, OTop 0) as x eqn:Ex. remember (s, r, pc) as y eqn:Ey.
  revert s r pc Ey. induction Hrun as [x|k x y z Hr IH Hst|k x s1 r1 s2 r2 pc1 Hr IH He]; intros s r pc Ey.
  - by simplify_eq.
  - destruct y as [[s1 r1] pc1]. destruct (IH Ex s1 r1 pc1 eq_refl) as [H1 H2]. subst z.
    destruct (pc_ok_step _ _ _ _ _ _ H1 H2 Hst) as (-> & ? & ?). done.
  - simplify_eq. destruct (IH eq_refl s1 r1 pc eq_refl) as [H1 H2].
    split; [eapply ideal_ok_env; [lia|done|done]|by eapply pc_ok_env].
Qed.

(** Some step is possible until the call returns: time can pass unless an entry waits to be applied. *)
Lemma call_progress s r pc :
  ideal_ok s r -> pc_ok s r pc -> (forall index, pc ≠ ORet index) ->
  (exists y, one_step nilV ideal_Start cmd expectedServers retry t0 (s, r, pc) y) \/
  (exists s' r', ideal_env pc (s, r) (s', r')).
Proof.
  intros H Hpc Hret. destruct (asks s pc) as [i|] eqn:Ei.
  { left. destruct pc as [st|st [|todo]|st index|st index t1|st index t1 u|st u| |index|msg]; try done.
    destruct (decide (i = il_leader r)) as [Hi|Hi]; eexists; (eapply os_start; [exact Ei| |reflexivity]).
    - by apply is_leader.
    - by apply (is_other _ _ _ _ 0). }
  destruct pc as [st|st todo|st index|st index t1|st index t1 u|st u| |index|msg]; try done;
    try (left; eexists; apply os_local; [done|reflexivity]).
  - destruct todo as [|todo]; [|by rewrite (ideal_asks s r) in Ei].
    left. eexists. by apply os_local.
  - destruct (decide (u <= r_now s)%Z) as [Hu|Hu].
    { left. eexists. apply os_local; [done|]. cbn [one_next]. by rewrite bool_decide_eq_true_2. }
    right. destruct (decide (Forall (fun m => length (il_log r) <= m) (il_ns r))) as [Hall|Hnot].
    + do 2 eexists. apply (ie_tick _ s r u); [lia|simpl; lia|]. intros k b i m Hb Hm Hk.
      rewrite Forall_lookup in Hall. specialize (Hall i m Hm). apply lookup_lt_Some in Hb.
      rewrite (io_born _ _ H) in Hb. simpl in Hall. lia.
    + apply not_Forall_Exists, Exists_exists in Hnot as (m & [i Hi]%list_elem_of_lookup & Hm); [|apply _].
      simpl in Hm. destruct (lookup_lt_is_Some_2 (il_log r) m) as [v Hv]; [lia|].
      destruct (applied_step (Bytes := unit) (il_log r) _ (r_ts s) i v (io_applied _ _ H)) as (ts1 & E & _).
      * rewrite (io_n _ _ H), <- (io_ns _ _ H). by eapply lookup_lt_Some.
      * by rewrite Hi.
      * rewrite Hi in E. do 2 eexists. by eapply ie_apply.
  - by destruct (Hret index).
Qed.
End Call.
End Ideal.

(** ** The pauses of [wait] *)

Lemma wait_loop_spec {V : Type} `{!EqDecision V} (nilV : V) seen index n startTerm todo iters to ps moved :
  wait_loop nilV seen index n startTerm todo iters to = Ok (ps, moved) ->
  ps `prefix_of` backoff todo to /\
  (moved = true -> (-1 < startTerm)%Z /\
     exists j t, iters <= j < iters + todo /\ t ∈ (seen j).2 /\ (startTerm < t)%Z).
Proof.
  revert iters to ps. induction todo as [|todo IH]; intros iters to ps H; simpl in H.
  { injection H as <- <-. by split. }
  destruct (nCommitted nilV (seen iters).1 index) as [r| |]; simpl in H; [|done..].
  case_bool_decide as Hn.
  { injection H as <- <-. split; [apply prefix_nil|done]. }
  destruct (bool_decide (-1 < startTerm)%Z && _) eqn:Eb.
  - injection H as <- <-. split; [apply prefix_cons, prefix_nil|]. intros _.
    apply andb_true_iff in Eb as [Ht%bool_decide_eq_true_1 (t & Hin & Hlt)%existsb_exists].
    split; [done|]. exists iters, t. split_and!; [lia|lia|by apply list_elem_of_In|by apply bool_decide_eq_true_1 in Hlt].
  - destruct (wait_loop _ _ _ _ _ todo _ _) as [[ps' moved']| |] eqn:E; simpl in H; [|done..].
    injection H as <- <-. apply IH in E as [Hp Hm]. split; [by apply prefix_cons|].
    intros (Ht & j & t & Hj & Hin)%Hm. split; [done|]. exists j, t. split; [lia|done].
Qed.

(** ** Claims *)

(** C21: [one] on an arbitrary Raft.  Whatever Raft answers to [Start] and sends to be applied, and
    whatever happens around the call (restarts, kills, partitions, the passing of time), a call on [n]
    servers makes at most [10000 * (n + 4020) + 2] steps.  It returns [-1] only when the test has
    finished; an index that it returns is one at which at that moment at least the expected number of
    servers have the command, and no server has another. *)
Theorem one_returns_agreement {V : Type} `{!EqDecision V} (nilV : V) {Bytes R : Type}
    (rf_Start : rts (V := V) -> R -> nat -> V -> Z -> bool -> R -> Prop) env cmd expectedServers retry n s0 r0 k s r pc :
  (forall pc s r s' r', env pc (s, r) (s', r') -> around (Bytes := Bytes) s s') -> sound_logs n s0 ->
  one_run nilV rf_Start env cmd expectedServers retry (r_now s0) k (s0, r0, OTop 0) (s, r, pc) ->
  (Z.of_nat k <= 10000 * (Z.of_nat n + 4020) + 2)%Z /\
  forall r' index,
    one_step nilV rf_Start cmd expectedServers retry (r_now s0) (s, r, pc) (s, r', ORet index) ->
    (index = (-1)%Z /\ r_finished s = true) \/
    (0 < committed (r_ts s) index /\ (expectedServers <= Z.of_nat (committed (r_ts s) index))%Z /\
     forall rs w, rs ∈ ts_srvs (r_ts s) -> logs rs !! index = Some w -> w = cmd).
Proof.
  intros Henv Hs Hrun. split.
  - destruct (run_bound nilV cmd expectedServers retry (r_now s0) n rf_Start env Henv _ _ _ _ _ _ _ Hrun Hs)
      as [_ Hb].
    pose proof (budget_mono (r_now s0) n s s pc). set (b := budget _ _ s pc) in *. cbn [budget] in Hb.
    assert (rest (r_now s0 + 10000) (r_now s0) = 10000%Z) as E by (unfold rest; lia). rewrite E in Hb. lia.
  - intros r' index Hst. apply one_step_inv in Hst as [_ [(i & idx & ok & _ & _ & Hn)|(_ & _ & Hn)]];
      apply one_next_ret in Hn as [?|(_ & ?)]; auto.
Qed.

(** A group of one server, and a call that finds its leader, waits and returns. *)
Definition demo_s (now : Z) : rts (V := nat) := mkrts (test_start 1) [true] [true] false now.
Definition demo_r : ideal (V := nat) := mkideal [] [] [0] 0.

Definition demo_s1 : rts (V := nat) := set_ts (demo_s 0) (mkTest [mkrfsrv 0 {[ 1%Z := 7 ]}] 1).
Definition demo_r1 : ideal (V := nat) := mkideal [7] [0%Z] [1] 0.

Lemma demo_ok : ideal_ok 1 100 (demo_s 0) demo_r.
Proof.
  split; try done; simpl.
  - intros [|i] m Hm; [injection Hm as <-; lia|done].
  - intros [|i] rs k Hi; [injection Hi as <-|done]. rewrite bool_decide_eq_false_2 by (simpl; lia). apply lookup_empty.
  - lia.
Qed.

Lemma demo_one :
  one_run 0 ideal_Start (ideal_env 100) 7 1 false 0 3 (demo_s 0, demo_r, OTop 0) (demo_s1, demo_r1, OPoll 0 1 0).
Proof.
  eapply or_env.
  - eapply or_step; [eapply or_step; [eapply or_step; [apply or_refl|]|]|].
    + by apply os_local.
    + eapply os_start; [done|by apply is_leader|reflexivity].
    + by apply os_local.
  - by apply (ie_apply 100 _ (demo_s 0) (mkideal [7] [0%Z] [0] 0) 0 0 7).
Qed.

Lemma one_returns_agreement_witness :
  0 < committed (r_ts demo_s1) 1 /\ (1 <= Z.of_nat (committed (r_ts demo_s1) 1))%Z.
Proof.
  destruct (one_returns_agreement 0 ideal_Start (ideal_env 100) 7 1 false 1 (demo_s 0) demo_r 3 demo_s1 demo_r1
    (OPoll 0 1 0) (ideal_around 100) (ideal_sound 1 100 _ _ demo_ok) demo_one) as [_ H].
  destruct (H demo_r1 1%Z) as [[E _]|(H1 & H2 & _)]; [apply os_local; reflexivity|discriminate E|].
  split; assumption.
Defined.



(** C32: [wait] never waits for more than 31 seconds: it pauses for at most 30 times, for 10 milliseconds
    first and twice as long each time up to 1280, 30710 milliseconds in all.  A command that it returns is
    in the logs of at least [n] servers, and no server has another at the index; the result [-1] means
    that a server was seen in a later term. *)
Theorem wait_agrees {V : Type} `{!EqDecision V} (nilV : V) seen index n startTerm last ps res :
  wait nilV seen index n startTerm last = Ok (ps, res) ->
  ps `prefix_of` backoff 30 10 /\ (foldr Z.add 0 ps <= 30710)%Z /\
  match res with
  | Some cmd => (n <= Z.of_nat (committed last index))%Z /\
      forall rs w, rs ∈ ts_srvs last -> logs rs !! index = Some w -> w = cmd
  | None => (-1 < startTerm)%Z /\ exists j t, j < 30 /\ t ∈ (seen j).2 /\ (startTerm < t)%Z
  end.
Proof.
  unfold wait. intros H. destruct (wait_loop _ _ _ _ _ 30 0 10) as [[ps' moved]| |] eqn:E; simpl in H; [|done..].
  apply wait_loop_spec in E as [Hp Hm]. pose proof (prefix_sum _ _ Hp (backoff_pos 30 10 ltac:(lia))) as Hs.
  change (foldr Z.add 0%Z (backoff 30 10)) with 30710%Z in Hs. destruct moved.
  - injection H as <- <-. split; [done|]. split; [done|]. destruct Hm as (Ht & j & t & Hj & Hin); [done|].
    split; [done|]. exists j, t. split; [lia|done].
  - destruct (nCommitted nilV last index) as [[nd v]| |] eqn:Ec; simpl in H; [|done..].
    case_bool_decide; [done|]. injection H as <- <-. apply nCommitted_Ok in Ec as [-> Hl].
    split; [done|]. split; [done|]. split; [lia|done].
Qed.

(** The entry is seen in the third turn. *)
Lemma wait_agrees_witness :
  exists ps, wait 0 (fun j => (if j <? 2 then r_ts (demo_s 0) else r_ts demo_s1, [0%Z])) 1 1 0 (r_ts demo_s1)
    = Ok (ps, Some 7) /\ (foldr Z.add 0 ps <= 30710)%Z.
Proof.
  exists [10%Z; 20%Z]. assert (wait 0 (fun j => (if j <? 2 then r_ts (demo_s 0) else r_ts demo_s1, [0%Z])) 1 1 0
    (r_ts demo_s1) = Ok ([10%Z; 20%Z], Some 7)) as H by reflexivity.
  split; [exact H|]. exact (proj1 (proj2 (wait_agrees _ _ _ _ _ _ _ _ H))).
Defined.
