(* ===== verification/ShardKv.v ===== *)
(** * The replicated and the sharded key/value service, and the tester of the latter

    [src/src/kvraft1/server.go] and [client.go], [src/src/shardkv1/shardgrp] and [shardctrler], and
    [src/src/shardkv1/client.go] are skeletons in this repository: handlers without a body, clerks that
    return zero values.  They are modelled as they stand.  The set-up functions of
    [src/src/shardkv1/test.go] are modelled over any shard controller: new group ids, the first group,
    and the loops that add and remove groups over the groups of [Config]. *)

From S2P Require Import Prelude KvRpc Models ShardCfg Labgob Labrpc Rand.
From S2P Require Import Tester Config KvTest KvHistory Rsm KvClerk LeaderLock.

(** ** Types registered with [labgob] *)

Section Register.
Context (table : Z -> bool).

(** [labgob.Register] of zero values of the types; [None]: out of fuel. *)
Definition registers (lg : labgob) (ts : list tid) : option labgob :=
  foldl (fun r t => lg ← r; checkType table rpc_types 26 lg t) (Some lg) ts.
End Register.

(** ** [kvraft1/server.go] *)

Module KvRaft.
Record KVServer := mkKVServer { kv_me : Z; kv_dead : Z; kv_rsm : RSM }.

(** [nil]. *)
Definition DoOp {Req Rep} (kv : KVServer) (req : Req) : option Rep := None.
Definition Snapshot (kv : KVServer) : list Z := [].
Definition Restore (kv : KVServer) (data : list Z) : KVServer := kv.

(** The replies are left as they were. *)
Definition Get (kv : KVServer) (args : GetArgs) (reply : GetReply) : KVServer * GetReply := (kv, reply).
Definition Put (kv : KVServer) (args : PutArgs) (reply : PutReply) : KVServer * PutReply := (kv, reply).

Definition Kill (kv : KVServer) : KVServer := mkKVServer (kv_me kv) 1 (kv_rsm kv).
Definition killed (kv : KVServer) : bool := bool_decide (kv_dead kv = 1%Z).

(** The server and its Raft instance are the services. *)
Definition StartKVServer (table : Z -> bool) (lg : labgob) (l : lab) (ends : list string) (me : Z)
    (persister : nat) (maxraft : Z) : option (go (labgob * (KVServer * Raft))) :=
  (fun lg =>
     let! r := MakeRSM l ends me persister maxraft in
     Ok (lg, (mkKVServer me 0 r, RSM_Raft r))) <$> registers table lg [18; 6; 8].

(** [client.go]: [MakeClerk] only stores its arguments. *)
Record Clerk := mkClerk { clnt : nat; ck_servers : list string }.
Definition MakeClerk (clnt : nat) (servers : list string) : Clerk := mkClerk clnt servers.
Definition ck_Get (ck : Clerk) (key : string) : string * Tversion * Err := ("", 0%Z, "").
Definition ck_Put (ck : Clerk) (key value : string) (version : Tversion) : Err := "".
End KvRaft.

(** ** [shardkv1/shardgrp] *)

Module ShardGrp.
(** [shardrpc.go]. *)
Record PutArgs := mkPutArgs { pa_Key : string; pa_Value : string; pa_Version : Tversion; pa_Num : Tnum }.
Record GetArgs := mkGetArgs { ga_Key : string; ga_Num : Tnum }.
Record FreezeArgs := mkFreezeArgs { fa_Shard : Z; fa_Num : Tnum }.
Record FreezeReply := mkFreezeReply { fr_State : list Z; fr_Num : Tnum; fr_Err : Err }.
Record InstallShardArgs := mkInstallShardArgs { ia_Shard : Z; ia_State : list Z; ia_Num : Tnum }.
Record InstallShardReply := mkInstallShardReply { ir_Err : Err }.
Record DeleteShardArgs := mkDeleteShardArgs { da_Shard : Z; da_Num : Tnum }.
Record DeleteShardReply := mkDeleteShardReply { dr_Err : Err }.

(** [server.go]. *)
Record KVServer := mkKVServer { kv_gid : Tgid; kv_me : Z; kv_dead : Z; kv_rsm : RSM }.

Definition DoOp {Req Rep} (kv : KVServer) (req : Req) : option Rep := None.
Definition Snapshot (kv : KVServer) : list Z := [].
Definition Restore (kv : KVServer) (data : list Z) : KVServer := kv.
Definition Get (kv : KVServer) (args : GetArgs) (reply : GetReply) : KVServer * GetReply := (kv, reply).
Definition Put (kv : KVServer) (args : PutArgs) (reply : PutReply) : KVServer * PutReply := (kv, reply).
Definition Freeze (kv : KVServer) (args : FreezeArgs) (reply : FreezeReply) : KVServer * FreezeReply :=
  (kv, reply).
Definition InstallShard (kv : KVServer) (args : InstallShardArgs) (reply : InstallShardReply) :
    KVServer * InstallShardReply := (kv, reply).
Definition Kill (kv : KVServer) : KVServer := mkKVServer (kv_gid kv) (kv_me kv) 1 (kv_rsm kv).
Definition killed (kv : KVServer) : bool := bool_decide (kv_dead kv = 1%Z).

Definition StartKVServer (table : Z -> bool) (lg : labgob) (l : lab) (ends : list string) (gid : Tgid)
    (me : Z) (persister : nat) (maxraft : Z) : option (go (labgob * (KVServer * Raft))) :=
  (fun lg =>
     let! r := MakeRSM l ends me persister maxraft in
     Ok (lg, (mkKVServer gid me 0 r, RSM_Raft r))) <$> registers table lg [10; 11; 12; 14; 16; 18].

(** [client.go]; the leader starts as 0. *)
Record Clerk := mkClerk { clnt : nat; ck_servers : list string; leader : Z }.
Definition MakeClerk (clnt : nat) (servers : list string) : Clerk := mkClerk clnt servers 0.
Definition ck_Get (ck : Clerk) (cid : Tnum) (key : string) (n : Tnum) : string * Tversion * Err :=
  ("", 0%Z, "").
Definition ck_Put (ck : Clerk) (key value : string) (version : Tversion) (n : Tnum) : bool * Err :=
  (false, "").
Definition ck_Freeze (ck : Clerk) (s : Z) (num : Tnum) : list Z * Err := ([], "").
Definition ck_InstallShard (ck : Clerk) (s : Z) (state : list Z) (num : Tnum) : Err := "".
End ShardGrp.

(** ** [shardkv1/shardctrler] *)

Module ShardCtrler.
Definition ErrDeposed : Err := "ErrDeposed".

Record QueryClerk := mkQueryClerk { qck_clerk : KvRaft.Clerk }.
Definition MakeQueryClerk (clnt : nat) (servers : list string) : QueryClerk :=
  mkQueryClerk (KvRaft.MakeClerk clnt servers).
(** The configuration is [nil]. *)
Definition qck_Query (qck : QueryClerk) : option ShardConfig * Tversion := (None, 0%Z).

Record ShardCtrlerClerk := mkShardCtrlerClerk { sck_clnt : nat; sck_deposed : Z }.
Definition MakeShardCtrlerClerk (clnt : nat) (servers : list string) : ShardCtrlerClerk :=
  mkShardCtrlerClerk clnt 0.
Definition Init (sck : ShardCtrlerClerk) (cfg : ShardConfig) : ShardCtrlerClerk * Err := (sck, OK).
Definition Join (sck : ShardCtrlerClerk) (gid : Tgid) (srvs : list string) : ShardCtrlerClerk * Err :=
  (sck, ErrNoKey).
Definition Leave (sck : ShardCtrlerClerk) (gid : Tgid) : ShardCtrlerClerk * Err := (sck, ErrNoKey).
Definition Stepdown (sck : ShardCtrlerClerk) : ShardCtrlerClerk := mkShardCtrlerClerk (sck_clnt sck) 1.
Definition isDeposed (sck : ShardCtrlerClerk) : bool := bool_decide (sck_deposed sck = 1%Z).
Definition Query (sck : ShardCtrlerClerk) : option ShardConfig * Tversion * Err := (None, 0%Z, "").

(** [client.go]; [deposed] is the address of the word of a controller in the memory [mem]. *)
Record Clerk := mkClerk { ck_clnt : nat; ck_srvs : list string; ck_deposed : nat }.
Definition MakeClerk (clnt : nat) (servers : list string) (deposed : nat) : Clerk :=
  mkClerk clnt servers deposed.
Definition ck_isDeposed (mem : nat -> Z) (ck : Clerk) : bool := bool_decide (mem (ck_deposed ck) = 1%Z).
Definition ck_Get (ck : Clerk) (key : string) : string * Tversion * Err := ("", 0%Z, "").
Definition ck_Put (ck : Clerk) (key value : string) (version : Tversion) : Err := "".
End ShardCtrler.

(** ** [shardkv1/client.go] *)

Module ShardClerk.
Record Clerk := mkClerk { clnt : nat; qck : ShardCtrler.QueryClerk }.
Definition MakeClerk (clnt : nat) (qck : ShardCtrler.QueryClerk) : Clerk := mkClerk clnt qck.
Definition Get (ck : Clerk) (key : string) : string * Tversion * Err := ("", 0%Z, "").
Definition Put (ck : Clerk) (key value : string) (version : Tversion) : Err := "".
End ShardClerk.

(** ** The shard controller, as the tester uses it *)

Class Controller (C : Type) := {
  sc_Make : nat -> list string -> C;
  sc_Init : C -> ShardConfig -> C * Err;
  sc_Join : C -> Tgid -> list string -> C * Err;
  sc_Leave : C -> Tgid -> C * Err
}.

#[export] Instance skeleton_Controller : Controller ShardCtrler.ShardCtrlerClerk := {
  sc_Make := ShardCtrler.MakeShardCtrlerClerk;
  sc_Init := ShardCtrler.Init;
  sc_Join := ShardCtrler.Join;
  sc_Leave := ShardCtrler.Leave
}.

(** ** [shardkv1/test.go] *)

Module ShardTest.
Definition Controler : Tgid := 0.
Definition NSRV : nat := 3.

(** [Test] without the [testing.T]; the clerk of the controller is passed beside it, since the tester
    also works with others.  [part] is never set. *)
Record Test := mkTest { ts_test : KvHistory.Test; part : string; maxraftstate : Z; ngid : Tgid }.

Definition ts_cfg (ts : Test) : Config := KvHistory.ts_cfg (ts_test ts).

Definition set_cfg (ts : Test) (cfg : Config) : Test :=
  mkTest (KvHistory.mkTest cfg (oplog (ts_test ts)) (randomkeys (ts_test ts))) (part ts)
    (maxraftstate ts) (ngid ts).

(** [ts.Config.MakeClient] and [ts.DeleteClient]. *)
Definition Test_MakeClient (ts : Test) : Test * nat :=
  let '(cs, clnt) := MakeClient (cfg_clnts (ts_cfg ts)) in (set_cfg ts (set_clnts (ts_cfg ts) cs), clnt).

Definition Test_DeleteClient (ts : Test) (clnt : nat) : Test :=
  set_cfg ts (set_clnts (ts_cfg ts) (DeleteClient (cfg_clnts (ts_cfg ts)) clnt)).

Definition makeQueryClerk (ts : Test) : go (Test * ShardCtrler.QueryClerk) :=
  with_group (ts_cfg ts) Controler (fun sg =>
    let '(ts, clnt) := Test_MakeClient ts in Ok (ts, ShardCtrler.MakeQueryClerk clnt (SrvNames sg))).

(** The [TestClerk] is the clerk with its client. *)
Definition MakeClerk (ts : Test) : go (Test * (ShardClerk.Clerk * nat)) :=
  let '(ts, clnt) := Test_MakeClient ts in
  let! r := makeQueryClerk ts in
  let '(ts, qck) := r in Ok (ts, (ShardClerk.MakeClerk clnt qck, clnt)).

Definition DeleteClerk (ts : Test) (tck : ShardClerk.Clerk * nat) : Test := Test_DeleteClient ts tck.2.

Definition newGid (ts : Test) : Test * Tgid :=
  (mkTest (ts_test ts) (part ts) (maxraftstate ts) (ngid ts + 1), ngid ts).

Fixpoint groups (ts : Test) (n : nat) : Test * list Tgid :=
  match n with
  | 0 => (ts, [])
  | S n =>
      let '(ts, gid) := newGid ts in
      let '(ts, gids) := groups ts n in (ts, gid :: gids)
  end.

Section Setup.
(** The random bytes of names, and the services that a server starts. *)
Context (rnd : nat -> list Z) (mks : nat -> nat -> list nat).
Context {C : Type} `{!Controller C}.

Definition makeShardCtrlerClerkClnt (ts : Test) : go (Test * C * nat) :=
  with_group (ts_cfg ts) Controler (fun sg =>
    let '(ts, clnt) := Test_MakeClient ts in Ok (ts, sc_Make clnt (SrvNames sg), clnt)).

Definition makeShardCtrlerClerk (ts : Test) : go (Test * C) :=
  let! r := makeShardCtrlerClerkClnt ts in Ok r.1.

(** [now] is the time of [MakeConfig], [now'] that of [Begin]. *)
Definition MakeTest (title : string) (rel random : bool) (now now' : Z) : go (Test * C) :=
  let! cfg := MakeConfig rnd NSRV rel mks now in
  let! r := makeShardCtrlerClerk (mkTest (KvHistory.MakeTest cfg random) "" (-1) (Gid1 + 1)) in
  let '(ts, sck) := r in Ok (set_cfg ts (Begin (ts_cfg ts) title now').1, sck).

Definition setupKVService (ts : Test) (sck : C) : go (Test * C * Tgid) :=
  let! cfg := MakeGroupStart rnd (ts_cfg ts) Gid1 NSRV mks in
  let ts := set_cfg ts cfg in
  with_group cfg Gid1 (fun sg =>
    let! scfg := JoinBalance [(Gid1, SrvNames sg)] MakeShardConfig in
    match scfg with
    | None => Fatal "Rebalance does not end"
    | Some scfg =>
        let '(sck, err) := sc_Init sck scfg in
        if bool_decide (err ≠ OK) then Fatal "Init err" else Ok (ts, sck, Gid1)
    end).

(** Pauses between groups have no effect. *)
Fixpoint joinGroups (ts : Test) (sck : C) (gids : list Tgid) : go (Test * C * Err) :=
  match gids with
  | [] => Ok (ts, sck, OK)
  | gid :: gids =>
      let! cfg := MakeGroupStart rnd (ts_cfg ts) gid NSRV mks in
      let ts := set_cfg ts cfg in
      with_group cfg gid (fun sg =>
        let '(sck, err) := sc_Join sck gid (SrvNames sg) in
        if bool_decide (err ≠ OK) then Ok (ts, sck, err) else joinGroups ts sck gids)
  end.

Fixpoint leaveGroups (ts : Test) (sck : C) (gids : list Tgid) : go (Test * C * Err) :=
  match gids with
  | [] => Ok (ts, sck, OK)
  | gid :: gids =>
      let '(sck, err) := sc_Leave sck gid in
      if bool_decide (err ≠ OK) then Ok (ts, sck, err)
      else
        let! cfg := ExitGroup (ts_cfg ts) gid in leaveGroups (set_cfg ts cfg) sck gids
  end.

Definition checkLogs (ts : Test) (gids : list Tgid) : go unit :=
  fold_go (fun _ gid =>
    let l := cfg_lab (ts_cfg ts) in
    with_group (ts_cfg ts) gid (fun sg =>
      let! n := LogSize l sg in
      let! s := SnapshotSize l sg in
      if bool_decide (0 <= maxraftstate ts /\ 8 * maxraftstate ts < Z.of_nat n)%Z
      then Fatal "persister.RaftStateSize() too large"
      else if bool_decide (maxraftstate ts < 0)%Z && bool_decide (0 < s)
      then Fatal "maxraftstate is -1, but snapshot is non-empty!" else Ok tt)) gids tt.
End Setup.
End ShardTest.
Import ShardTest.

(** ** Adding and removing groups *)

Section Groups.
(** As in [Config]: the first [N] names that are drawn are different. *)
Context (rnd : nat -> list Z) (N : nat) (mks : nat -> nat -> list nat).
Hypothesis Hlen : forall k, length (rnd k) = 40.
Hypothesis Hbytes : forall k, Forall byte (rnd k).
Hypothesis Hdiff : forall i j, i < N -> j < N -> take 15 (rnd i) = take 15 (rnd j) -> i = j.
Context {C : Type} `{!Controller C}.

Local Abbreviation ok := (cfg_ok (nm rnd N)).

Lemma ts_cfg_set ts cfg : ts_cfg (set_cfg ts cfg) = cfg.
Proof using Type. done. Qed.

(** A test between calls: the groups run, and the next id is above all that were used. *)
Definition ts_ok (ts : Test) : Prop :=
  ok (ts_cfg ts) /\ forall g, is_Some (Group (ts_cfg ts) g) -> (g < ngid ts)%Z.

Lemma groups_spec ts n ts' gids :
  groups ts n = (ts', gids) ->
  ts_cfg ts' = ts_cfg ts /\ maxraftstate ts' = maxraftstate ts /\ ngid ts' = (ngid ts + Z.of_nat n)%Z /\
  gids = (fun i => ngid ts + Z.of_nat i)%Z <$> seq 0 n.
Proof.
  revert ts ts' gids. induction n as [|n IH]; intros ts ts' gids H; simpl in H.
  - injection H as <- <-. split_and!; [done|done|lia|done].
  - destruct (groups _ n) as [ts1 gids1] eqn:E. injection H as <- <-.
    apply IH in E as (H1 & H2 & H3 & H4). simpl in *. split_and!; [done|done|lia|].
    f_equal; [lia|]. rewrite H4, <- fmap_S_seq, <- list_fmap_compose. apply list_fmap_ext.
    intros i j _. simpl. lia.
Qed.

(** Every prefix of the groups may be started, up to the first error. *)
Lemma joinGroups_Ok ts (sck : C) gids :
  ok (ts_cfg ts) -> NoDup gids -> (forall g, g ∈ gids -> Group (ts_cfg ts) g = None) ->
  drawn (ts_cfg ts) + 2 * (NSRV * NSRV) * length gids <= N ->
  exists ts' sck' err started rest,
    joinGroups rnd mks ts sck gids = Ok (ts', sck', err) /\ ok (ts_cfg ts') /\
    maxraftstate ts' = maxraftstate ts /\ ngid ts' = ngid ts /\ gids = started ++ rest /\
    (forall g, g ∉ started -> Group (ts_cfg ts') g = Group (ts_cfg ts) g) /\
    (forall g, g ∈ started -> is_Some (Group (ts_cfg ts') g)) /\
    (err = OK -> rest = []) /\ (err ≠ OK -> started ≠ []).
Proof using Hlen Hbytes Hdiff.
  revert ts sck. induction gids as [|g gids IH]; intros ts sck Hok Hnd Hnew HN.
  { exists ts, sck, OK, [], []. split_and!; try done; set_solver. }
  apply NoDup_cons in Hnd as [Hg Hnd]. simpl in HN.
  destruct (MakeGroupStart_Ok rnd N Hlen Hbytes Hdiff (ts_cfg ts) g NSRV mks) as (cfg & E & Hok' & Hd);
    [done|apply Hnew; left|unfold NSRV in *; lia|].
  destruct (MakeGroupStart_grps _ _ _ _ _ _ E) as [sg Hsg].
  assert (Group cfg g = Some sg) as Hgs by (unfold Group, lookupGroup; by rewrite Hsg, lookup_insert_eq).
  assert (forall h, h ≠ g -> Group cfg h = Group (ts_cfg ts) h) as Hh.
  { intros h Hne. unfold Group, lookupGroup. by rewrite Hsg, lookup_insert_ne. }
  simpl. rewrite E. simpl. unfold with_group. rewrite Hgs.
  destruct (sc_Join sck g (SrvNames sg)) as [sck1 err]. case_bool_decide as Herr.
  - exists (set_cfg ts cfg), sck1, err, [g], gids. split_and!; try done.
    + intros h Hn. apply Hh. set_solver.
    + intros h ->%list_elem_of_singleton. rewrite ts_cfg_set. by rewrite Hgs.
  - destruct (IH (set_cfg ts cfg) sck1) as (ts' & sck' & err' & st & rest & R0 & R1 & R2 & R3 & R4 & R5 & R6 & R7 & R8);
      [done|done| |rewrite ts_cfg_set; unfold NSRV in *; lia|].
    { intros h Hin. rewrite ts_cfg_set, Hh; [apply Hnew; by right|]. by intros ->. }
    exists ts', sck', err', (g :: st), rest. split_and!; try done.
    + by rewrite R4.
    + intros h [Hne Hn]%not_elem_of_cons. rewrite R5 by done. by apply Hh.
    + intros h [->|Hin]%elem_of_cons; [|by apply R6].
      destruct (decide (g ∈ st)) as [|Hn]; [by apply R6|]. rewrite R5 by done. by rewrite ts_cfg_set, Hgs.
Qed.

Lemma leaveGroups_Ok ts (sck : C) gids :
  ok (ts_cfg ts) -> NoDup gids -> (forall g, g ∈ gids -> is_Some (Group (ts_cfg ts) g)) ->
  exists ts' sck' err left rest,
    leaveGroups ts sck gids = Ok (ts', sck', err) /\ ok (ts_cfg ts') /\
    maxraftstate ts' = maxraftstate ts /\ ngid ts' = ngid ts /\ gids = left ++ rest /\
    (forall g, g ∉ left -> Group (ts_cfg ts') g = Group (ts_cfg ts) g) /\
    (forall g, g ∈ left -> Group (ts_cfg ts') g = None) /\
    (err = OK -> rest = []) /\ (err ≠ OK -> rest ≠ []).
Proof using Hlen Hbytes Hdiff.
  revert ts sck. induction gids as [|g gids IH]; intros ts sck Hok Hnd Hreg.
  { exists ts, sck, OK, [], []. split_and!; try done; set_solver. }
  apply NoDup_cons in Hnd as [Hg Hnd]. simpl. destruct (sc_Leave sck g) as [sck1 err].
  case_bool_decide as Herr.
  { exists ts, sck1, err, [], (g :: gids). split_and!; try done; set_solver. }
  destruct (ExitGroup_Ok rnd N Hlen Hbytes Hdiff (ts_cfg ts) g) as (cfg & E & Hok' & _);
    [done|apply Hreg; left|].
  pose proof (ExitGroup_grps _ _ _ E) as Hgr. rewrite E. simpl.
  assert (forall h, h ≠ g -> Group cfg h = Group (ts_cfg ts) h) as Hh.
  { intros h Hne. unfold Group, lookupGroup. by rewrite Hgr, lookup_delete_ne. }
  destruct (IH (set_cfg ts cfg) sck1) as (ts' & sck' & err' & l & rest & R0 & R1 & R2 & R3 & R4 & R5 & R6 & R7 & R8);
    [done|done| |].
  { intros h Hin. rewrite ts_cfg_set, Hh; [apply Hreg; by right|]. by intros ->. }
  exists ts', sck', err', (g :: l), rest. split_and!; try done.
  - by rewrite R4.
  - intros h [Hne Hn]%not_elem_of_cons. rewrite R5 by done. by apply Hh.
  - intros h [->|Hin]%elem_of_cons; [|by apply R6].
    destruct (decide (g ∈ l)) as [|Hn]; [by apply R6|]. rewrite R5 by done.
    unfold Group, lookupGroup. by rewrite ts_cfg_set, Hgr, lookup_delete_eq.
Qed.

(** The test that [MakeTest] sets up: the group of the controller, whose clerk knows its servers. *)
Lemma MakeTest_Ok title rel random now now' :
  2 * (NSRV * NSRV) <= N ->
  exists ts clnt names, MakeTest rnd mks title rel random now now' = Ok (ts, sc_Make clnt names) /\ ts_ok ts /\
    drawn (ts_cfg ts) = 2 * (NSRV * NSRV) /\ ngid ts = 2%Z /\
    (exists sg, Group (ts_cfg ts) Controler = Some sg /\ names = SrvNames sg) /\
    forall g, is_Some (Group (ts_cfg ts) g) -> g = Controler.
Proof using Hlen Hbytes Hdiff.
  intros HN. unfold MakeTest.
  destruct (MakeConfig_Ok rnd N Hlen Hbytes Hdiff NSRV rel mks now HN) as (cfg & -> & K & _ & Hd & Hg).
  assert (is_Some (Group cfg Controler)) as [sg Hsg] by (by apply Hg).
  cbn [go_bind]. unfold makeShardCtrlerClerk, makeShardCtrlerClerkClnt, with_group.
  change (ts_cfg (mkTest (KvHistory.MakeTest cfg random) "" (-1) (Gid1 + 1))) with cfg.
  rewrite Hsg. simpl. eexists _, _, _. split; [done|].
  split; [|split; [done|split; [done|split; [by exists sg|exact (fun g => proj1 (Hg g))]]]].
  split; [by apply (cfg_ok_settings rnd N cfg)|]. by intros g ->%Hg.
Qed.

(** The first configuration: one group with all shards. *)
Lemma first_config names :
  exists scfg, JoinBalance [(Gid1, names)] MakeShardConfig = Ok (Some scfg) /\
    length (Shards scfg) = 12 /\ Forall (fun g => g = Gid1) (Shards scfg) /\
    Groups scfg = {[ Gid1 := names ]} /\ Num scfg = NumFirst.
Proof using Type.
  unfold JoinBalance, Join. simpl. unfold join_step. simpl. rewrite lookup_empty.
  replace (server_clash ∅ names) with false by (symmetry; by apply server_clash_spec). simpl.
  match goal with |- context [Rebalance ?c] =>
    destruct (Rebalance_spec c eq_refl) as (scfg & -> & HN & HG & HL & _ & Ha) end.
  simpl in *. exists scfg. split_and!; [done|done| |done|done].
  destruct Ha as [Ha _]; [by apply insert_non_empty|]. apply Forall_lookup_2. intros i g Hi.
  destruct (Ha i g Hi) as [x Hx]. rewrite HG in Hx. by apply lookup_singleton_Some in Hx as [<- _].
Qed.

Lemma setupKVService_Ok ts (sck : C) :
  ts_ok ts -> Group (ts_cfg ts) Gid1 = None -> (Gid1 < ngid ts)%Z ->
  drawn (ts_cfg ts) + 2 * (NSRV * NSRV) <= N ->
  exists scfg, Forall (fun g => g = Gid1) (Shards scfg) /\ (exists names, Groups scfg = {[ Gid1 := names ]}) /\
    if bool_decide ((sc_Init sck scfg).2 = OK)
    then exists ts', setupKVService rnd mks ts sck = Ok (ts', (sc_Init sck scfg).1, Gid1) /\ ts_ok ts' /\
      forall g, is_Some (Group (ts_cfg ts') g) <-> is_Some (Group (ts_cfg ts) g) \/ g = Gid1
    else setupKVService rnd mks ts sck = Fatal "Init err".
Proof using Hlen Hbytes Hdiff.
  intros [Hok Hlt] Hg Hn HN.
  destruct (MakeGroupStart_Ok rnd N Hlen Hbytes Hdiff (ts_cfg ts) Gid1 NSRV mks) as (cfg & E & Hok' & _);
    [done|done|lia|].
  destruct (MakeGroupStart_grps _ _ _ _ _ _ E) as [sg Hsg].
  destruct (first_config (SrvNames sg)) as (scfg & Ej & _ & Hs & HG & _).
  exists scfg. split; [done|]. split; [by eexists|].
  assert (Group cfg Gid1 = Some sg) as Hgs by (unfold Group, lookupGroup; by rewrite Hsg, lookup_insert_eq).
  unfold setupKVService. rewrite E. cbn [go_bind]. unfold with_group. rewrite Hgs, Ej. cbn [go_bind].
  destruct (sc_Init sck scfg) as [sck' err]. simpl.
  assert (forall g, is_Some (Group cfg g) <-> is_Some (Group (ts_cfg ts) g) \/ g = Gid1) as Hgr.
  { intros g. unfold Group, lookupGroup. rewrite Hsg, lookup_insert_is_Some'.
    split; (intros [?|?]; [by right|by left]) || (intros [?|?]; [by left|by right]). }
  case_bool_decide as He; [|by rewrite bool_decide_eq_true_2].
  rewrite bool_decide_eq_false_2 by (intros []; done). eexists. split; [done|]. split; [|done].
  split; [done|]. simpl. by intros g [?%Hlt| ->]%Hgr.
Qed.
End Groups.

(** ** The skeleton clerk and the model *)

Lemma accepts_elem l st v :
  accepts st l = Ok true -> v ∈ l ->
  exists st1 st2, Step st1 (Operation_Input v) (Operation_Output v) = Ok (true, st2).
Proof.
  revert st. induction l as [|w l IH]; intros st H Hv; [by apply not_elem_of_nil in Hv|].
  simpl in H. destruct (Step st (Operation_Input w) (Operation_Output w)) as [[ok st']| |] eqn:E; try done.
  simpl in H. destruct ok; [|done]. apply elem_of_cons in Hv as [->|Hv]; [eauto|by eapply IH].
Qed.

Lemma skeleton_put_Step st k v ver ver' st' :
  Step st (mkKvInput 1 k v ver) (mkKvOutput "" ver' "") ≠ Ok (true, st').
Proof. destruct st as [st|]; [|done]. simpl. by case_bool_decide. Qed.

(** ** Claims *)

(** C16: The tester of the sharded service can add and remove groups with any controller.  The ids
    that [groups] hands out are new; [joinGroups] with them never fails itself: it starts a group per id
    until the controller returns an error, and all groups of the test run.  When all joins succeed
    exactly the new groups have been added, and [leaveGroups] with the same ids returns and, when all
    leaves succeed too, the groups of the test are those it started from. *)
Theorem tester_groups rnd N mks {C : Type} `{!Controller C} ts n ts1 gids (sck : C) :
  (forall k, length (rnd k) = 40) -> (forall k, Forall byte (rnd k)) ->
  (forall i j, i < N -> j < N -> take 15 (rnd i) = take 15 (rnd j) -> i = j) ->
  ts_ok rnd N ts -> groups ts n = (ts1, gids) -> drawn (ts_cfg ts) + 2 * (NSRV * NSRV) * n <= N ->
  NoDup gids /\ (forall g, g ∈ gids -> Group (ts_cfg ts) g = None) /\
  exists ts2 sck2 err,
    joinGroups rnd mks ts1 sck gids = Ok (ts2, sck2, err) /\ ts_ok rnd N ts2 /\
    (err = OK ->
       (forall g, is_Some (Group (ts_cfg ts2) g) <-> is_Some (Group (ts_cfg ts) g) \/ g ∈ gids) /\
       exists ts3 sck3 err', leaveGroups ts2 sck2 gids = Ok (ts3, sck3, err') /\ ts_ok rnd N ts3 /\
         (err' = OK -> forall g, Group (ts_cfg ts3) g = Group (ts_cfg ts) g)).
Proof.
  intros Hlen Hbytes Hdiff [Hok Hlt] Hg HN. apply groups_spec in Hg as (E1 & E2 & E3 & E4).
  assert (forall g, g ∈ gids <-> ngid ts <= g < ngid ts + Z.of_nat n)%Z as Hin.
  { intros g. rewrite E4, list_elem_of_fmap. setoid_rewrite elem_of_seq. split.
    - intros (i & -> & ?). lia.
    - intros Hr. exists (Z.to_nat (g - ngid ts)). lia. }
  assert (NoDup gids) as Hnd by (rewrite E4; apply NoDup_fmap_2, NoDup_seq; intros ? ? ?; lia).
  assert (forall g, g ∈ gids -> Group (ts_cfg ts) g = None) as Hnew.
  { intros g Hr%Hin. destruct (Group (ts_cfg ts) g) as [sg|] eqn:E; [|done].
    assert (g < ngid ts)%Z by (apply Hlt; by rewrite E). lia. }
  split; [done|]. split; [done|].
  destruct (joinGroups_Ok rnd N mks Hlen Hbytes Hdiff ts1 sck gids)
    as (ts2 & sck2 & err & st & rest & R0 & R1 & R2 & R3 & R4 & R5 & R6 & R7 & _);
    [by rewrite E1|done|by rewrite E1|rewrite E1, E4, length_fmap, length_seq; lia|].
  rewrite E1 in *. exists ts2, sck2, err. split; [done|]. split.
  { split; [done|]. intros g Hs. rewrite R3, E3. destruct (decide (g ∈ st)) as [Hst|Hst].
    - assert (g ∈ gids) as Hr%Hin by (rewrite R4; set_solver). lia.
    - rewrite R5 in Hs by done. specialize (Hlt g Hs). lia. }
  intros Herr. rewrite (R7 Herr), app_nil_r in R4. subst st. split.
  { intros g. destruct (decide (g ∈ gids)) as [Hg|Hg]; [pose proof (R6 g Hg); tauto|].
    rewrite R5 by done. tauto. }
  destruct (leaveGroups_Ok rnd N Hlen Hbytes Hdiff ts2 sck2 gids)
    as (ts3 & sck3 & err' & l & rest' & L0 & L1 & L2 & L3 & L4 & L5 & L6 & L7 & _); [done|done|done|].
  exists ts3, sck3, err'. split; [done|]. split.
  { split; [done|]. intros g Hs. rewrite L3, R3, E3. destruct (decide (g ∈ l)) as [Hgl|Hgl].
    - rewrite L6 in Hs by done. by destruct Hs.
    - rewrite L5 in Hs by done. destruct (decide (g ∈ gids)) as [Hr%Hin|Hg]; [lia|].
      rewrite R5 in Hs by done. specialize (Hlt g Hs). lia. }
  intros Herr'. rewrite (L7 Herr'), app_nil_r in L4. subst l. intros g.
  destruct (decide (g ∈ gids)) as [Hg|Hg]; [by rewrite L6, Hnew|]. by rewrite L5, R5.
Qed.

(** A controller that agrees to everything, in the test that [MakeTest] sets up. *)
#[local] Instance agreeing_Controller : Controller unit := {
  sc_Make := fun _ _ => tt;
  sc_Init := fun c _ => (c, OK);
  sc_Join := fun c _ _ => (c, OK);
  sc_Leave := fun c _ => (c, OK)
}.

Lemma tester_groups_witness :
  exists ts ts2 err, MakeTest demo_rnd (fun _ _ => []) "groups" true false 0 1 = Ok (ts, tt) /\
    joinGroups demo_rnd (fun _ _ => []) (groups ts 2).1 tt [2%Z; 3%Z] = Ok (ts2, tt, err).
Proof.
  destruct (MakeTest_Ok demo_rnd 256 (fun _ _ => []) (fun _ => eq_refl) demo_rnd_bytes demo_rnd_diff "groups" true false 0 1)
    as (ts & clnt & names & E & Hok & Hd & Hn & _); [compute; lia|].
  destruct (tester_groups demo_rnd 256 (fun _ _ => []) ts 2 (groups ts 2).1
    [ngid ts; (ngid ts + 1)%Z] tt) as (_ & _ & ts2 & [] & err & HJ & _);
    [reflexivity|exact demo_rnd_bytes|exact demo_rnd_diff|exact Hok|reflexivity|rewrite Hd; compute; lia|].
  rewrite Hn in HJ. exists ts, ts2, err. split; assumption.
Defined.

(** The skeleton of the sharded service does not pass the linearizability check: a log with a
    [Put] through its clerk is not linearizable, since the empty error is none that the model accepts. *)
Theorem skeleton_put_rejected (ck : ShardClerk.Clerk) cli k v ver start stop (log : OpLog) :
  record_op cli (ReqPut k v ver) start (mkKvOutput "" 0 (ShardClerk.Put ck k v ver)) stop ∈ log ->
  ~ history_linearizable log.
Proof.
  set (op := record_op _ _ _ _ _). intros Hin Hl. destruct (Hl k) as (l & Hp & Hlegal).
  assert (op ∈ l) as Hop by (rewrite Hp; by apply list_elem_of_filter).
  unfold legal in Hlegal. apply andb_true_iff in Hlegal as [Hacc _].
  destruct (accepts Init l) as [b| |] eqn:Ea; try done. subst b.
  destruct (accepts_elem l Init op Ea Hop) as (st & st' & Hst). unfold op in Hst.
  by apply skeleton_put_Step in Hst.
Qed.

Lemma skeleton_put_rejected_witness :
  ~ history_linearizable
      [record_op 1 (ReqPut "k" "v" 0) 2 (mkKvOutput "" 0 "") 3].
Proof.
  apply (skeleton_put_rejected (ShardClerk.MakeClerk 0 (ShardCtrler.MakeQueryClerk 0 [])) 1 "k" "v" 0 2 3).
  left.
Defined.
