(* ===== verification/KvSetup.v ===== *)
(** * The set-up of the key/value tests

    The tests of [src/src/kvsrv1/test.go], [src/src/kvraft1/test.go] and [src/src/kvraft1/rsm/test.go]:
    how they make a configuration, clerks with clients that may reach all or some of the servers, titles
    and results; [Clnt.Call] of [src/src/tester1/clnts.go] with the end that it makes on first use; and the
    parts of [Test] in [src/src/kvtest1/kvtest.go] that all of them share. *)

From S2P Require Import Prelude KvRpc KvServer Labrpc Rand Tester Config.
From S2P Require Import KvTest KvHistory Rsm ShardKv.

(** ** Clients of a configuration *)

Definition Config_MakeClientTo (cfg : Config) (ss : option (list string)) : Config * nat :=
  let '(cs, a) := MakeClientTo (cfg_clnts cfg) ss in (set_clnts cfg cs, a).

Definition Config_DeleteClient (cfg : Config) (a : nat) : Config :=
  set_clnts cfg (DeleteClient (cfg_clnts cfg) a).

Section Call.
Context (rnd : nat -> list Z).

(** The end that [Clnt.Call] of the client at [a] sends its request on. *)
Definition Clnt_Call_end (cfg : Config) (a : nat) (server : string) : go (Config * string) :=
  match clerks (cfg_clnts cfg) !! a with
  | None => Panic "nil pointer dereference"
  | Some c =>
      match clnt_ends c !! server with
      | Some e => Ok (cfg, e)
      | None =>
          let! name := Randstring 20 (rnd (drawn cfg)) in
          let! r := makeEnd (cfg_net cfg) c server name in
          let '(rn, c, e) := r in
          let cs := mkClnts (<[a := c]> (clerks (cfg_clnts cfg))) (next_clerk (cfg_clnts cfg)) in
          Ok (set_clnts (spend (set_net cfg rn) 1 0) cs, e)
      end
  end.
End Call.

(** ** [kvtest.go] *)

Module KvtestTest.
(** The report, and the configuration that is left. *)
Definition Cleanup (cfg : Config) (t1 t2 : Z) : go (option report * Config) :=
  let! rep := End_ cfg t1 in let! cfg := Config_Cleanup cfg t2 in Ok (rep, cfg).

(** [ConnectAll] of each client. *)
Definition ConnectClnts (cfg : Config) (clnts : list nat) : go Config :=
  fold_go (fun cfg a =>
    match clerks (cfg_clnts cfg) !! a with
    | None => Panic "nil pointer dereference"
    | Some c =>
        let '(rn, c) := Clnt_ConnectAll (cfg_net cfg) c in
        Ok (set_clnts (set_net cfg rn)
              (mkClnts (<[a := c]> (clerks (cfg_clnts cfg))) (next_clerk (cfg_clnts cfg))))
    end) clnts cfg.
End KvtestTest.

(** ** [kvsrv1] *)

Module Kvsrv.
Definition StartKVServer : list KVServer := [MakeKVServer].

(** Nothing. *)
Definition Kill (kv : KVServer) : KVServer := kv.

Record Clerk := mkClerk { clnt : nat; server : string }.
Definition MakeClerk (clnt : nat) (server : string) : Clerk := mkClerk clnt server.

Record TestKV := mkTestKV { tk_test : KvHistory.Test; reliable : bool }.

Definition MakeTestKV (rnd : nat -> list Z) (mks : nat -> nat -> list nat) (rel : bool) (now : Z) : go TestKV :=
  let! cfg := MakeConfig rnd 1 rel mks now in Ok (mkTestKV (KvHistory.MakeTest cfg false) rel).

(** The [TestClerk] is the clerk with its client. *)
Definition Test_MakeClerk (cfg : Config) : Config * (Clerk * nat) :=
  let '(cfg, clnt) := Config_MakeClientTo cfg None in (cfg, (MakeClerk clnt (ServerName GRP0 0), clnt)).

Definition Test_DeleteClerk (cfg : Config) (tck : Clerk * nat) : Config := Config_DeleteClient cfg tck.2.
End Kvsrv.

(** ** [kvraft1/test.go] *)

Module KvraftTest.
Record Test := mkTest {
  ts_test : KvHistory.Test;
  part : string;
  nclients : Z;
  nservers : nat;
  crash : bool;
  partitions : bool;
  maxraftstate : Z;
  randomkeys : bool
}.

Definition Gid : Z := GRP0.

Definition makeTitle (part : string) (nclients : Z) (crash partitions : bool) (maxraftstate : Z)
    (randomkeys : bool) : string :=
  let title := "Test: " in
  let title := if crash then title +:+ "restarts, " else title in
  let title := if partitions then title +:+ "partitions, " else title in
  let title := if bool_decide (maxraftstate ≠ (-1)%Z) then title +:+ "snapshots, " else title in
  let title := if randomkeys then title +:+ "random keys, " else title in
  let title := if bool_decide (1 < nclients)%Z then title +:+ "many clients" else title +:+ "one client" in
  title +:+ " (" +:+ part +:+ ")".

Definition MakeTest (rnd : nat -> list Z) (mks : nat -> nat -> list nat) (part : string) (nclients : Z)
    (nservers : nat) (rel crash partitions : bool) (maxraftstate : Z) (randomkeys : bool) (now now' : Z) :
    go (Test * string) :=
  let! cfg := MakeConfig rnd nservers rel mks now in
  let '(cfg, title) := Begin cfg (makeTitle part nclients crash partitions maxraftstate randomkeys) now' in
  Ok (mkTest (KvHistory.MakeTest cfg randomkeys) part nclients nservers crash partitions maxraftstate
        randomkeys, title).

Definition MakeClerk (cfg : Config) : go (Config * (KvRaft.Clerk * nat)) :=
  let '(cfg, clnt) := Config_MakeClientTo cfg None in
  with_group cfg Gid (fun sg => Ok (cfg, (KvRaft.MakeClerk clnt (SrvNames sg), clnt))).

(** A clerk whose client may reach the servers in [to]. *)
Definition MakeClerkTo (cfg : Config) (to : list nat) : go (Config * (KvRaft.Clerk * nat)) :=
  with_group cfg Gid (fun sg =>
    let! ns := SrvNamesTo sg to in
    let '(cfg, clnt) := Config_MakeClientTo cfg (Some ns) in
    with_group cfg Gid (fun sg => Ok (cfg, (KvRaft.MakeClerk clnt (SrvNames sg), clnt)))).

Definition DeleteClerk (cfg : Config) (tck : KvRaft.Clerk * nat) : Config := Config_DeleteClient cfg tck.2.

(** Per server its services: the flag of [GetState] of a Raft instance, [None] for another. *)
Fixpoint leader_from (i : nat) (ss : list (list (option bool))) : bool * nat :=
  match ss with
  | [] => (false, 0)
  | s :: ss => if existsb (fun x => bool_decide (x = Some true)) s then (true, i) else leader_from (S i) ss
  end.

Definition Leader (ss : list (list (option bool))) : bool * nat := leader_from 0 ss.

Definition cleanup (cfg : Config) (t1 t2 : Z) : go (option report * Config) := KvtestTest.Cleanup cfg t1 t2.
End KvraftTest.

(** ** [kvraft1/rsm/test.go] *)

Module RsmTest.
Definition NSRV : nat := 3.
Definition NSEC : Z := 10.

(** The configuration, the servers that [mksrv] has set, and the leader seen last. *)
Record Test := mkTest { ts_cfg : Config; ts_maxraftstate : Z; ts_srvs : list (option rsmSrv); leader : nat }.

Definition makeTest (rnd : nat -> list Z) (mks : nat -> nat -> list nat) (maxraft : Z) (now : Z) : go Test :=
  let! cfg := MakeConfig rnd NSRV true mks now in Ok (mkTest cfg maxraft (replicate NSRV None) 0).

(** The server and its Raft instance. *)
Definition mksrv (ts : Test) (ends : list string) (srv : nat) (persister : nat) : go (Test * Raft) :=
  let! s := makeRsmSrv (cfg_lab (ts_cfg ts)) (Z.of_nat srv) ends persister (ts_maxraftstate ts) in
  let! ss := slice_set (ts_srvs ts) (Z.of_nat srv) (Some s) in
  let! rf := rsm_Raft s in Ok (mkTest (ts_cfg ts) (ts_maxraftstate ts) ss (leader ts), rf).

Definition cleanup (cfg : Config) (t1 t2 t3 : Z) : go (option report * Config) :=
  let! rep := End_ cfg t1 in
  let! cfg := Config_Cleanup cfg t2 in
  let! cfg := CheckTimeout cfg t3 in Ok (rep, cfg).

Definition disconnectLeader (ts : Test) (sg : ServerGrp) : go (Network * ServerGrp * nat) :=
  let! r := DisconnectAll (cfg_net (ts_cfg ts)) sg (leader ts) in Ok (r, leader ts).

Definition connect (rn : Network) (sg : ServerGrp) (i : nat) : go (Network * ServerGrp) := ConnectOne rn sg i.
End RsmTest.

(** ** Clerks reach their servers *)

Section Reach.
Context (rnd : nat -> list Z) (N : nat).
Hypothesis Hlen : forall k, length (rnd k) = 40.
Hypothesis Hbytes : forall k, Forall byte (rnd k).
Hypothesis Hdiff : forall i j, i < N -> j < N -> take 15 (rnd i) = take 15 (rnd j) -> i = j.

Local Abbreviation ok := (cfg_ok (nm rnd N)).

Lemma cfg_ok_clnts cfg cs : ok cfg -> ok (set_clnts cfg cs).
Proof. by apply cfg_ok_settings. Qed.

(** The first call of a client to a server makes an end, which later calls use. *)
Lemma Clnt_Call_new cfg a c server :
  ok cfg -> drawn cfg < N -> clerks (cfg_clnts cfg) !! a = Some c -> clnt_ends c !! server = None ->
  exists cfg' e, Clnt_Call_end rnd cfg a server = Ok (cfg', e) /\ ok cfg' /\
    conn_of (cfg_net cfg') e = Some server /\ is_enabled (cfg_net cfg') e = allowedL c server /\
    servers (cfg_net cfg') = servers (cfg_net cfg) /\ Clnt_Call_end rnd cfg' a server = Ok (cfg', e).
Proof.
  intros K HN Hc He. unfold Clnt_Call_end at 1. rewrite Hc, He.
  rewrite (Randstring_nm rnd N Hlen) by done. cbn [go_bind]. unfold makeEnd. rewrite He.
  destruct (new_end_ok rnd N Hlen Hbytes Hdiff cfg server (allowedL c server) K HN)
    as (rn & -> & H1 & H2 & H3 & Hok). cbn [go_bind].
  eexists _, _. split; [done|]. split; [by apply Hok|]. split; [exact H1|]. split; [exact H2|].
  split; [exact H3|]. unfold Clnt_Call_end. simpl. rewrite lookup_insert_eq. simpl. by rewrite lookup_insert_eq.
Qed.

(** A clerk with a client to [ss], just made, calls a server of the group. *)
Lemma fresh_client_reaches cfg ss i sg :
  ok cfg -> drawn cfg < N -> Group cfg GRP0 = Some sg -> i < SrvN sg ->
  let '(cfg1, a) := Config_MakeClientTo cfg ss in
  exists cfg2 e p, Clnt_Call_end rnd cfg1 a (ServerName GRP0 i) = Ok (cfg2, e) /\
    readEndnameInfo (cfg_net cfg2) e =
      mkendInfo (allowedL (makeClntTo ss) (ServerName GRP0 i)) (Some (ServerName GRP0 i)) (Some p)
        (Config_IsReliable cfg2) (longReordering (cfg_net cfg2)) /\
    Clnt_Call_end rnd cfg2 a (ServerName GRP0 i) = Ok (cfg2, e).
Proof.
  intros K HN Hg Hi. unfold Config_MakeClientTo, MakeClientTo.
  set (cfg1 := set_clnts cfg _).
  destruct (Clnt_Call_new cfg1 (next_clerk (cfg_clnts cfg)) (makeClntTo ss) (ServerName GRP0 i))
    as (cfg2 & e & H1 & K2 & H2 & H3 & H4 & H5); [by apply cfg_ok_clnts|done|simpl; apply lookup_insert_eq|done|].
  assert (is_Some (server_of (cfg_net cfg2) (ServerName GRP0 i))) as [p Hp].
  { unfold server_of. rewrite H4. apply (cok_served _ _ K). by exists sg. }
  exists cfg2, e, p. split; [done|]. split; [|done]. unfold readEndnameInfo. by rewrite H3, H2, Hp.
Qed.

Lemma SrvNamesTo_Ok sg n to :
  SrvNames sg = ServerName GRP0 <$> seq 0 n -> Forall (fun i => i < n) to ->
  SrvNamesTo sg to = Ok (ServerName GRP0 <$> to).
Proof using Type.
  intros Hn Hto. unfold SrvNamesTo.
  rewrite (fold_go_collect (fun i => slice_get (servernames sg) (Z.of_nat i)) (ServerName GRP0)); [done|].
  intros i Hi. apply slice_get_lookup. fold (SrvNames sg). rewrite Hn, list_lookup_fmap, lookup_seq_lt; [done|].
  rewrite Forall_forall in Hto. by apply Hto.
Qed.

Lemma allowed_to to i : allowedL (makeClntTo (Some (ServerName GRP0 <$> to))) (ServerName GRP0 i) = bool_decide (i ∈ to).
Proof using Type.
  unfold allowedL, makeClntTo. cbn [clnt_srvs]. apply eq_true_iff_eq. rewrite existsb_exists, bool_decide_eq_true. split.
  - intros (s & Hin%list_elem_of_In & E%bool_decide_eq_true_1). apply list_elem_of_fmap in Hin as (j & -> & Hj).
    by apply ServerName_inj in E as [_ ->].
  - intros Hi. exists (ServerName GRP0 i). split; [by apply list_elem_of_In, list_elem_of_fmap_2|].
    by apply bool_decide_eq_true_2.
Qed.
End Reach.

(** ** Claims *)

(** C35: The clerks of the [kvraft] tests reach their servers.  If the random names differ, [MakeTest] and
    [MakeClerkTo] succeed, the clerk is given the names of all servers, and its first request to server [i]
    goes out on an end that is connected to that server, which is in the network; the end is enabled exactly
    when [i] is among the servers asked for, and later requests use the same end. *)
Theorem kvraft_clerks_reach rnd N mks part nclients n rel crash partitions maxraft random now now' to i :
  (forall k, length (rnd k) = 40) -> (forall k, Forall byte (rnd k)) ->
  (forall i j, i < N -> j < N -> take 15 (rnd i) = take 15 (rnd j) -> i = j) ->
  2 * (n * n) < N -> Forall (fun j => j < n) to -> i < n ->
  exists ts title cfg ck a,
    KvraftTest.MakeTest rnd mks part nclients n rel crash partitions maxraft random now now' = Ok (ts, title) /\
    KvraftTest.MakeClerkTo (KvHistory.ts_cfg (KvraftTest.ts_test ts)) to = Ok (cfg, (ck, a)) /\
    KvRaft.ck_servers ck = ServerName GRP0 <$> seq 0 n /\
    exists cfg' e p, Clnt_Call_end rnd cfg a (ServerName GRP0 i) = Ok (cfg', e) /\
      readEndnameInfo (cfg_net cfg') e =
        mkendInfo (bool_decide (i ∈ to)) (Some (ServerName GRP0 i)) (Some p) (Config_IsReliable cfg')
          (longReordering (cfg_net cfg')) /\
      Clnt_Call_end rnd cfg' a (ServerName GRP0 i) = Ok (cfg', e).
Proof.
  intros Hlen Hbytes Hdiff HN Hto Hi. unfold KvraftTest.MakeTest.
  destruct (MakeConfig_Ok rnd N Hlen Hbytes Hdiff n rel mks now) as (cfg0 & E & K & _ & Hd & _); [lia|].
  destruct (MakeConfig_group rnd n rel mks now cfg0 E) as (sg & Hg & Hn & Hl). rewrite E. cbn [go_bind].
  set (cfg1 := (Begin cfg0 (KvraftTest.makeTitle part nclients crash partitions maxraft random) now').1).
  assert (cfg_ok (nm rnd N) cfg1) as K1 by by apply (cfg_ok_settings rnd N cfg0).
  eexists _, _. cbn [KvraftTest.ts_test KvHistory.MakeTest KvHistory.ts_cfg].
  pose proof (fresh_client_reaches rnd N Hlen Hbytes Hdiff cfg1 (Some (ServerName GRP0 <$> to)) i sg K1
    ltac:(simpl; lia) Hg ltac:(by rewrite Hl)) as Hr.
  destruct (Config_MakeClientTo cfg1 _) as [cfg2 a] eqn:Ec. rewrite allowed_to in Hr.
  exists cfg2, (KvRaft.MakeClerk a (SrvNames sg)), a. split; [reflexivity|]. split; [|by rewrite <- Hn].
  match goal with |- KvraftTest.MakeClerkTo ?c _ = _ => change c with cfg1 end.
  unfold KvraftTest.MakeClerkTo, with_group. change (Group cfg1 KvraftTest.Gid) with (Group cfg0 GRP0). rewrite Hg.
  rewrite (SrvNamesTo_Ok sg n) by done. cbn [go_bind]. rewrite Ec.
  assert (Group cfg2 KvraftTest.Gid = Some sg) as ->; [|done].
  unfold Config_MakeClientTo, MakeClientTo in Ec. by injection Ec as <- _.
Qed.

Lemma kvraft_clerks_reach_witness :
  exists ts title cfg ck a cfg' e p,
    KvraftTest.MakeTest demo_rnd (fun _ _ => []) "4B" 1 3 true false false (-1) false 0 1 = Ok (ts, title) /\
    KvraftTest.MakeClerkTo (KvHistory.ts_cfg (KvraftTest.ts_test ts)) [0; 1] = Ok (cfg, (ck, a)) /\
    Clnt_Call_end demo_rnd cfg a (ServerName GRP0 2) = Ok (cfg', e) /\
    readEndnameInfo (cfg_net cfg') e = mkendInfo false (Some (ServerName GRP0 2)) (Some p) (Config_IsReliable cfg')
          (longReordering (cfg_net cfg')).
Proof.
  destruct (kvraft_clerks_reach demo_rnd 256 (fun _ _ => []) "4B" 1 3 true false false (-1) false 0 1 [0; 1] 2)
    as (ts & title & cfg & ck & a & H1 & H2 & _ & cfg' & e & p & H3 & H4 & _);
    [reflexivity|exact demo_rnd_bytes|exact demo_rnd_diff|simpl; lia|repeat constructor|lia|].
  exists ts, title, cfg, ck, a, cfg', e, p. split; [exact H1|]. split; [exact H2|]. split; [exact H3|exact H4].
Defined.

Example makeTitle_ex :
  KvraftTest.makeTitle "4C" 5 true false 1000 true = "Test: restarts, snapshots, random keys, many clients (4C)".
Proof. reflexivity. Qed.
