(* ===== verification/KvSpawn.v ===== *)
(** * The clients of a key/value test

    [SpawnClientsAndWait] and [runClient] of [src/src/kvtest1/kvtest.go]: the parent starts a goroutine per
    client, sleeps, sends on the channel [done] once per client and then collects a result from the channel
    of each client.  A client makes a clerk, runs the function of the test, which looks at [done] between
    its operations, sends its result and deletes the clerk.  Channels are not buffered: a send and the
    receive of it are one step.  The function of the test is arbitrary. *)

From S2P Require Import Prelude Labrpc Tester.

(** ** Processes *)

Section Spawn.
(** The local state of the function, how an operation of client [c] changes it, and its result. *)
Context {W Res : Type} (init : nat -> W) (work : nat -> W -> W -> Prop) (result : W -> Res).
Context (nclnt : nat).

(** Not begun; at the [select]; in an operation; sending the result; deleting the clerk; ended.  The
    number is the address of the client of the clerk. *)
Inductive client :=
| CStart
| CPoll (a : nat) (w : W)
| CBusy (a : nat) (w : W)
| CSend (a : nat) (v : Res)
| CDelete (a : nat)
| CEnd.

(** Starting clients, asleep, sending on [done], receiving the results, returned. *)
Inductive parent :=
| PSpawn
| PSleep
| PDone (i : nat)
| PRecv (rs : list Res)
| PRet (rs : list Res).

Record spawn := mkspawn { sp_clnts : Clnts; sp_cl : list client; sp_par : parent }.

(** The parent waits to send on [done]. *)
Definition sending (p : parent) : bool :=
  match p with PDone i => i <? nclnt | _ => false end.

Definition set_client (s : spawn) (c : nat) (st : client) : spawn :=
  mkspawn (sp_clnts s) (<[c := st]> (sp_cl s)) (sp_par s).

Definition set_par (s : spawn) (p : parent) : spawn := mkspawn (sp_clnts s) (sp_cl s) p.

(** Steps of the parent alone, of [runClient] of client [c], and of both. *)
Inductive SpawnClientsAndWait : spawn -> spawn -> Prop :=
| sp_go s :
    sp_par s = PSpawn -> length (sp_cl s) < nclnt ->
    SpawnClientsAndWait s (mkspawn (sp_clnts s) (sp_cl s ++ [CStart]) PSpawn)
| sp_spawned s : sp_par s = PSpawn -> length (sp_cl s) = nclnt -> SpawnClientsAndWait s (set_par s PSleep)
| sp_slept s : sp_par s = PSleep -> SpawnClientsAndWait s (set_par s (PDone 0))
| sp_done s i c a w :
    sp_par s = PDone i -> i < nclnt -> sp_cl s !! c = Some (CPoll a w) ->
    SpawnClientsAndWait s (set_par (set_client s c (CSend a (result w))) (PDone (S i)))
| sp_all_done s : sp_par s = PDone nclnt -> SpawnClientsAndWait s (set_par s (PRecv []))
| sp_recv s rs a v :
    sp_par s = PRecv rs -> length rs < nclnt -> sp_cl s !! length rs = Some (CSend a v) ->
    SpawnClientsAndWait s (set_par (set_client s (length rs) (CDelete a)) (PRecv (rs ++ [v])))
| sp_return s rs : sp_par s = PRecv rs -> length rs = nclnt -> SpawnClientsAndWait s (set_par s (PRet rs))
| sp_client s s' : runClient s s' -> SpawnClientsAndWait s s'
with runClient : spawn -> spawn -> Prop :=
| rc_make s c cs a :
    sp_cl s !! c = Some CStart -> MakeClient (sp_clnts s) = (cs, a) ->
    runClient s (mkspawn cs (<[c := CPoll a (init c)]> (sp_cl s)) (sp_par s))
| rc_default s c a w :
    sp_cl s !! c = Some (CPoll a w) -> sending (sp_par s) = false -> runClient s (set_client s c (CBusy a w))
| rc_work s c a w w' :
    sp_cl s !! c = Some (CBusy a w) -> work c w w' -> runClient s (set_client s c (CPoll a w'))
| rc_delete s c a :
    sp_cl s !! c = Some (CDelete a) ->
    runClient s (mkspawn (DeleteClient (sp_clnts s) a) (<[c := CEnd]> (sp_cl s)) (sp_par s)).

Definition spawn_start (cs : Clnts) : spawn := mkspawn cs [] PSpawn.

(** ** Invariant *)

(** A client that has received from [done]. *)
Definition told (st : client) : bool :=
  match st with CSend _ _ | CDelete _ | CEnd => true | _ => false end.

Definition addr (st : client) : option nat :=
  match st with CPoll a _ | CBusy a _ | CSend a _ | CDelete a => Some a | _ => None end.

(** What client [c] may hold. *)
Definition client_ok (c : nat) (st : client) : Prop :=
  match st with
  | CPoll _ w | CBusy _ w => rtc (work c) (init c) w
  | CSend _ v => exists w, rtc (work c) (init c) w /\ v = result w
  | _ => True
  end.

Definition ntold (s : spawn) : nat := countb told (sp_cl s).

(** The result of client [c] has been received, and no result after it. *)
Definition received (rs : list Res) (c : nat) (st : client) : Prop :=
  match st with CDelete _ | CEnd => c < length rs | CSend _ _ => length rs <= c | _ => True end.

Definition par_ok (s : spawn) : Prop :=
  match sp_par s with
  | PSpawn => length (sp_cl s) <= nclnt /\ ntold s = 0
  | PSleep => length (sp_cl s) = nclnt /\ ntold s = 0
  | PDone i => length (sp_cl s) = nclnt /\ ntold s = i
  | PRecv rs => length (sp_cl s) = nclnt /\ ntold s = nclnt /\ length rs <= nclnt
  | PRet rs => length (sp_cl s) = nclnt /\ ntold s = nclnt /\ length rs = nclnt
  end.

Definition results (p : parent) : list Res := match p with PRecv rs | PRet rs => rs | _ => [] end.

Record sp_inv (base : gset nat) (s : spawn) : Prop := {
  si_clients : forall c st, sp_cl s !! c = Some st -> client_ok c st;
  si_par : par_ok s;
  si_received : forall c st, sp_cl s !! c = Some st -> received (results (sp_par s)) c st;
  si_results : forall c v, results (sp_par s) !! c = Some v ->
    exists w, rtc (work c) (init c) w /\ v = result w;
  si_dom : forall a, a ∈ dom (clerks (sp_clnts s)) <->
    a ∈ base \/ exists c st, sp_cl s !! c = Some st /\ addr st = Some a;
  si_fresh : forall a, a ∈ dom (clerks (sp_clnts s)) -> a < next_clerk (sp_clnts s);
  si_new : forall c st a, sp_cl s !! c = Some st -> addr st = Some a -> a ∉ base;
  si_inj : forall c c' st st' a, sp_cl s !! c = Some st -> sp_cl s !! c' = Some st' ->
    addr st = Some a -> addr st' = Some a -> c = c'
}.
Lemma countb_not_all {A} (f : A -> bool) (l : list A) :
  countb f l < length l -> exists i x, l !! i = Some x /\ f x = false.
Proof.
  induction l as [|x l IH]; intros H; [simpl in H; lia|]. rewrite countb_cons in H. simpl in H.
  destruct (f x) eqn:E; [|by exists 0, x]. destruct IH as (i & y & Hi & Hy); [lia|]. by exists (S i), y.
Qed.

Lemma countb_full {A} (f : A -> bool) (l : list A) i x : countb f l = length l -> l !! i = Some x -> f x = true.
Proof.
  revert i. induction l as [|y l IH]; intros i H Hi; [done|]. rewrite countb_cons in H. simpl in H.
  pose proof (countb_le_length f l). destruct i as [|i]; simplify_eq/=.
  - destruct (f x); [done|lia].
  - apply (IH i); [destruct (f y); lia|done].
Qed.

(** A client moves on with the same clerk. *)
Lemma inv_move base s c st st' p' :
  sp_inv base s -> sp_cl s !! c = Some st -> addr st' = addr st -> client_ok c st' ->
  par_ok (mkspawn (sp_clnts s) (<[c := st']> (sp_cl s)) p') ->
  received (results p') c st' ->
  (forall d x, d ≠ c -> sp_cl s !! d = Some x -> received (results p') d x) ->
  (forall d v, results p' !! d = Some v -> exists w, rtc (work d) (init d) w /\ v = result w) ->
  sp_inv base (mkspawn (sp_clnts s) (<[c := st']> (sp_cl s)) p').
Proof.
  intros [I1 I2 I3 I4 I5 I6 I7 I8] Hc Ha Hok Hp Hr Hr' Hres.
  assert (forall d x, <[c := st']> (sp_cl s) !! d = Some x ->
    exists y, sp_cl s !! d = Some y /\ addr y = addr x) as Hback.
  { intros d x [(<- & <- & _)|[_ Hd]]%list_lookup_insert_Some; eauto. }
  split; simpl; try done.
  - intros d x [(<- & <- & _)|[_ Hd]]%list_lookup_insert_Some; [done|by eapply I1].
  - intros d x [(<- & <- & _)|[Hne Hd]]%list_lookup_insert_Some; [done|by apply Hr'].
  - intros a. rewrite I5. f_equiv. split.
    + intros (d & x & Hd & Hx). destruct (decide (d = c)) as [->|Hne].
      * exists c, st'. split; [apply list_lookup_insert_eq; by eapply lookup_lt_Some|congruence].
      * exists d, x. by rewrite list_lookup_insert_ne.
    + intros (d & x & (y & Hd & Hy)%Hback & Hx). exists d, y. split; [done|congruence].
  - intros d x a (y & Hd & Hy)%Hback Hx. rewrite <- Hy in Hx. by eapply I7.
  - intros d d' x x' a (y & Hd & Hy)%Hback (y' & Hd' & Hy')%Hback Hx Hx'. rewrite <- Hy in Hx.
    rewrite <- Hy' in Hx'. by eapply (I8 d d').
Qed.

Lemma ntold_insert s c st st' p :
  sp_cl s !! c = Some st ->
  ntold (mkspawn (sp_clnts s) (<[c := st']> (sp_cl s)) p) + (if told st then 1 else 0) =
  ntold s + (if told st' then 1 else 0).
Proof. apply countb_insert. Qed.

(** The parent does not mind. *)
Lemma par_ok_same s c st st' cs :
  sp_cl s !! c = Some st -> told st' = told st -> par_ok s ->
  par_ok (mkspawn cs (<[c := st']> (sp_cl s)) (sp_par s)).
Proof.
  intros Hc Ht Hp. pose proof (countb_insert told _ _ _ st' Hc) as Hn. rewrite Ht in Hn.
  unfold par_ok, ntold in *. simpl. rewrite length_insert. destruct (sp_par s); destruct (told st); intuition lia.
Qed.

Lemma inv_runClient base s s' : sp_inv base s -> runClient s s' -> sp_inv base s'.
Proof.
  intros Hi Hs. destruct Hs as [s c cs a Hc Hm|s c a w Hc Hn|s c a w w' Hc Hw|s c a Hc].
  - injection Hm as <- <-. destruct Hi as [I1 I2 I3 I4 I5 I6 I7 I8]. split; simpl.
    + intros d x [(<- & <- & _)|[_ Hd]]%list_lookup_insert_Some; [apply rtc_refl|by eapply I1].
    + by eapply par_ok_same.
    + intros d x [(<- & <- & _)|[_ Hd]]%list_lookup_insert_Some; [done|by eapply I3].
    + done.
    + intros b. rewrite dom_insert, elem_of_union, elem_of_singleton, I5. split.
      * intros [->|[?|(d & x & Hd & Hx)]]; [right|by left|right].
        -- eexists c, _. split; [apply list_lookup_insert_eq; by eapply lookup_lt_Some|done].
        -- exists d, x. split; [|done]. rewrite list_lookup_insert_ne; [done|]. intros ->. naive_solver.
      * intros [?|(d & x & [(<- & <- & _)|[_ Hd]]%list_lookup_insert_Some & Hx)]; [auto| |by eauto 6].
        simpl in Hx. left. congruence.
    + intros b. rewrite dom_insert, elem_of_union, elem_of_singleton. intros [->|Hb%I6]; lia.
    + intros d x b [(<- & <- & _)|[_ Hd]]%list_lookup_insert_Some Hx; [|by eapply I7].
      simpl in Hx. injection Hx as <-. intros Hb. assert (next_clerk (sp_clnts s) < next_clerk (sp_clnts s)); [|lia].
      apply I6, I5. by left.
    + assert (forall d x, sp_cl s !! d = Some x -> addr x ≠ Some (next_clerk (sp_clnts s))) as Hf.
      { intros d x Hd Hx. assert (next_clerk (sp_clnts s) < next_clerk (sp_clnts s)); [|lia]. apply I6, I5. eauto. }
      intros d d' x x' b [(<- & <- & _)|[_ Hd]]%list_lookup_insert_Some
        [(<- & <- & _)|[_ Hd']]%list_lookup_insert_Some Hx Hx'; [done| | |by eapply (I8 d d')]; simpl in *;
        exfalso; [apply (Hf d' x' Hd')|apply (Hf d x Hd)]; congruence.
  - eapply inv_move; [done|done|done|by apply (si_clients _ _ Hi c _ Hc)|by eapply par_ok_same; [..|apply Hi]|done| |apply Hi].
    intros d x _ Hd. by apply (si_received _ _ Hi).
  - eapply inv_move; [done|done|done| |by eapply par_ok_same; [..|apply Hi]|done| |apply Hi].
    + simpl. eapply rtc_r; [by apply (si_clients _ _ Hi c _ Hc)|done].
    + intros d x _ Hd. by apply (si_received _ _ Hi).
  - pose proof (si_received _ _ Hi c _ Hc) as Hr. destruct Hi as [I1 I2 I3 I4 I5 I6 I7 I8].
    assert (forall d x, <[c := CEnd]> (sp_cl s) !! d = Some x -> x = CEnd \/ d ≠ c /\ sp_cl s !! d = Some x) as Hback.
    { intros d x [(<- & <- & _)|[? Hd]]%list_lookup_insert_Some; [by left|by right]. }
    split; simpl; try done.
    + by intros d x [->|[_ Hd%I1]]%Hback.
    + by eapply par_ok_same.
    + intros d x [(<- & <- & _)|[_ Hd]]%list_lookup_insert_Some; [done|by eapply I3].
    + intros b. rewrite dom_delete, elem_of_difference, elem_of_singleton, I5. split.
      * intros [[?|(d & x & Hd & Hx)] Hne]; [by left|right]. exists d, x.
        rewrite list_lookup_insert_ne; [done|]. intros ->. naive_solver.
      * intros [Hb|(d & x & [->|[Hne Hd]]%Hback & Hx)]; [|done|].
        -- split; [by left|]. intros ->. by eapply I7.
        -- split; [eauto|]. intros ->. by eapply Hne, (I8 d c).
    + intros b. rewrite dom_delete. intros [Hb _]%elem_of_difference. by apply I6.
    + intros d x b [->|[_ Hd]]%Hback Hx; [done|by eapply I7].
    + intros d d' x x' b [->|[_ Hd]]%Hback [->|[_ Hd']]%Hback Hx Hx'; try done. by eapply (I8 d d').
Qed.
Lemma inv_par base s p' :
  sp_inv base s -> par_ok (set_par s p') -> results p' = results (sp_par s) -> sp_inv base (set_par s p').
Proof. intros [I1 I2 I3 I4 I5 I6 I7 I8] Hp Hr. split; try done; simpl; by rewrite Hr. Qed.

Lemma inv_spawn base s s' : sp_inv base s -> SpawnClientsAndWait s s' -> sp_inv base s'.
Proof.
  intros Hi Hs. pose proof (si_par _ _ Hi) as Hp. unfold par_ok in Hp.
  destruct Hs as [s E Hl|s E Hl|s E|s i c a w E Hi' Hc|s E|s rs a v E Hl Hc|s rs E Hl|s s' Hs];
    [..|by eapply inv_runClient]; rewrite E in Hp.
  - destruct Hi as [I1 I2 I3 I4 I5 I6 I7 I8]. rewrite E in *.
    assert (forall d x, (sp_cl s ++ [CStart]) !! d = Some x -> x = CStart \/ sp_cl s !! d = Some x) as Hback.
    { intros d x [?|[_ [_ <-]%list_lookup_singleton_Some]]%lookup_app_Some; [by right|by left]. }
    split; simpl; try done.
    + intros d x [->|Hd]%Hback; [done|by eapply I1].
    + unfold par_ok, ntold in *. simpl. rewrite length_app, countb_app. change (countb told [CStart]) with 0. simpl. lia.
    + intros d x [->|Hd]%Hback; [done|by eapply I3].
    + intros b. rewrite I5. f_equiv. split.
      * intros (d & x & Hd & Hx). exists d, x. split; [by apply lookup_app_l_Some|done].
      * intros (d & x & [->|Hd]%Hback & Hx); [done|eauto].
    + intros d x b [->|Hd]%Hback Hx; [done|by eapply I7].
    + intros d d' x x' b [->|Hd]%Hback [->|Hd']%Hback Hx Hx'; try done. by eapply (I8 d d').
  - apply inv_par; [done| |by rewrite E]. unfold par_ok. simpl. by destruct Hp.
  - apply inv_par; [done| |by rewrite E]. done.
  - pose proof (ntold_insert s c _ (CSend a (result w)) (PDone (S i)) Hc) as Hn. simpl in Hn.
    pose proof (si_received _ _ Hi) as Hr. rewrite E in Hr.
    eapply (inv_move base s c (CPoll a w)); [done|done|done| | |simpl; lia| |done].
    + simpl. exists w. split; [|done]. by apply (si_clients _ _ Hi c _ Hc).
    + unfold par_ok. simpl. rewrite length_insert. lia.
    + intros d x _ Hd. by apply (Hr d).
  - apply inv_par; [done| |by rewrite E]. unfold par_ok. simpl. split; [by destruct Hp|]. split; [by destruct Hp|lia].
  - pose proof (ntold_insert s (length rs) _ (CDelete a) (PRecv (rs ++ [v])) Hc) as Hn. simpl in Hn.
    pose proof (si_received _ _ Hi) as Hr. pose proof (si_results _ _ Hi) as Hres. rewrite E in Hr, Hres.
    eapply (inv_move base s (length rs) (CSend a v)); [done|done|done|done| | | |]; simpl.
    + unfold par_ok. simpl. rewrite length_insert, length_app. simpl. lia.
    + rewrite length_app. simpl. lia.
    + intros d x Hne Hd. specialize (Hr d x Hd). unfold received in *. simpl in Hr. rewrite length_app. simpl.
      destruct x; lia.
    + intros d u [Hu|[Hle Hu]]%lookup_app_Some; [by apply Hres|].
      apply list_lookup_singleton_Some in Hu as [Hd <-]. replace d with (length rs) by lia.
      by apply (si_clients _ _ Hi _ _ Hc).
  - apply inv_par; [done| |by rewrite E]. unfold par_ok. simpl. by destruct Hp as (? & ? & _).
Qed.

Lemma inv_spawn_start cs :
  (forall a, a ∈ dom (clerks cs) -> a < next_clerk cs) -> sp_inv (dom (clerks cs)) (spawn_start cs).
Proof.
  intros H. split; simpl; try done.
  - unfold par_ok, ntold. simpl. split; [lia|done].
  - intros a. split; [by left|]. intros [?|(c & st & Hc & _)]; [done|by rewrite lookup_nil in Hc].
Qed.

Lemma inv_spawn_run base s s' : sp_inv base s -> rtc SpawnClientsAndWait s s' -> sp_inv base s'.
Proof. intros Hi. by apply (rtc_invariant SpawnClientsAndWait); [apply inv_spawn|]. Qed.

(** ** Progress *)

(** Steps that the parent has left. *)
Definition par_left (s : spawn) : nat :=
  match sp_par s with
  | PSpawn => 3 * nclnt + 6 - length (sp_cl s)
  | PSleep => 2 * nclnt + 5
  | PDone i => 2 * nclnt + 4 - i
  | PRecv rs => nclnt + 2 - length rs
  | PRet _ => 0
  end.

Context (Hwork : forall c w, exists w', work c w w').

(** A client that has not been told can be brought to its [select]. *)
Lemma reach_select base s c st :
  sp_inv base s -> sp_cl s !! c = Some st -> told st = false ->
  exists s' a w, rtc SpawnClientsAndWait s s' /\ sp_par s' = sp_par s /\ sp_cl s' !! c = Some (CPoll a w).
Proof.
  intros Hi Hc Ht. pose proof (lookup_lt_Some _ _ _ Hc) as Hlt. destruct st as [|a w|a w|a v|a|]; try done.
  - do 3 eexists. split; [apply rtc_once, sp_client, (rc_make s c); [done|reflexivity]|]. split; [done|].
    simpl. by apply list_lookup_insert_eq.
  - by exists s, a, w.
  - destruct (Hwork c w) as [w' Hw]. exists (set_client s c (CPoll a w')), a, w'.
    split; [by eapply rtc_once, sp_client, rc_work|]. split; [done|]. by apply list_lookup_insert_eq.
Qed.

Lemma parent_moves base s :
  sp_inv base s -> (forall rs, sp_par s ≠ PRet rs) ->
  exists s', rtc SpawnClientsAndWait s s' /\ par_left s' < par_left s.
Proof.
  intros Hi Hret. pose proof (si_par _ _ Hi) as Hp. unfold par_ok, ntold in Hp. unfold par_left.
  destruct (sp_par s) as [| |i|rs|rs] eqn:E.
  - destruct (decide (length (sp_cl s) < nclnt)) as [Hl|Hl].
    + eexists. split; [by eapply rtc_once, sp_go|]. simpl. rewrite length_app. simpl. lia.
    + eexists. split; [eapply rtc_once, sp_spawned; [done|lia]|]. simpl. lia.
  - eexists. split; [by eapply rtc_once, sp_slept|]. simpl. lia.
  - pose proof (countb_le_length told (sp_cl s)). destruct (decide (i < nclnt)) as [Hl|Hl].
    + destruct (countb_not_all told (sp_cl s)) as (c & st & Hc & Ht); [lia|].
      destruct (reach_select base s c st Hi Hc Ht) as (s' & a & w & Hr & Hp' & Hc'). rewrite E in Hp'.
      eexists. split; [eapply rtc_r; [exact Hr|]; by eapply sp_done|]. simpl. lia.
    + assert (i = nclnt) as -> by lia. eexists. split; [by eapply rtc_once, sp_all_done|]. simpl. lia.
  - destruct Hp as (Hl & Ht & Hle). destruct (decide (length rs < nclnt)) as [Hlt|Hlt].
    + destruct (lookup_lt_is_Some_2 (sp_cl s) (length rs)) as [st Hc]; [lia|].
      pose proof (countb_full told (sp_cl s) _ _ ltac:(lia) Hc) as Hst.
      pose proof (si_received _ _ Hi _ _ Hc) as Hr. rewrite E in Hr.
      destruct st as [|a w|a w|a v|a|]; simpl in *; try done; try lia.
      eexists. split; [by eapply rtc_once, sp_recv|]. simpl. rewrite length_app. simpl. lia.
    + eexists. split; [eapply rtc_once, sp_return; [done|lia]|]. simpl. lia.
  - by destruct (Hret rs).
Qed.

Lemma parent_returns base s :
  sp_inv base s -> exists s' rs, rtc SpawnClientsAndWait s s' /\ sp_par s' = PRet rs.
Proof.
  remember (par_left s) as m eqn:Em. revert s Em. induction (lt_wf m) as [m _ IH]. intros s -> Hi.
  assert ((exists rs, sp_par s = PRet rs) \/ forall rs, sp_par s ≠ PRet rs) as [[rs E]|Hret]
    by (destruct (sp_par s); eauto).
  - by exists s, rs.
  - destruct (parent_moves base s Hi Hret) as (s1 & H1 & Hlt).
    destruct (IH _ Hlt s1 eq_refl (inv_spawn_run _ _ _ Hi H1)) as (s' & rs & H2 & E).
    exists s', rs. split; [by etrans|done].
Qed.
End Spawn.

(** ** Claims *)


(** One client that counts its operations. *)
Definition demo_spawned : spawn :=
  mkspawn (mkClnts ∅ 1) [CEnd] (PRet [1]) (W := nat).

Lemma demo_spawn_run :
  rtc (SpawnClientsAndWait (fun _ => 0) (fun _ w w' => w' = S w) id 1) (spawn_start makeClnts) demo_spawned.
Proof.
  eapply rtc_l; [apply sp_go; simpl; [done|lia]|].
  eapply rtc_l; [by apply sp_spawned|]. eapply rtc_l; [apply sp_client; by eapply rc_make with (c := 0)|].
  eapply rtc_l; [apply sp_client; by eapply rc_default with (c := 0)|].
  eapply rtc_l; [apply sp_client; by eapply rc_work with (c := 0)|].
  eapply rtc_l; [by apply sp_slept|].
  eapply rtc_l; [eapply sp_done with (c := 0); simpl; [done|lia|done]|].
  eapply rtc_l; [by apply sp_all_done|].
  eapply rtc_l; [eapply sp_recv; simpl; [done|simpl; lia|done]|].
  eapply rtc_l; [by eapply sp_return|].
  eapply rtc_l; [apply sp_client; by eapply rc_delete with (c := 0)|]. apply rtc_refl.
Qed.

