(* ===== verification/ShardPartition.v ===== *)
(** * Shutting down a group and cutting off a controller

    [checkShutdownSharding] and [partitionCtrler] of [src/src/shardkv1/test.go].  The first shuts a group
    down, counts the [Get]s that still complete and fails when all do.  The second runs a controller that
    adds and removes a group in a goroutine of its own, cuts it off after some time, and checks that a new
    controller has finished what the first had begun.  The controller and the groups are still skeletons, so
    that both are modelled over whatever the controllers and the service may answer; nothing is assumed of
    them. *)

From S2P Require Import Prelude KvRpc Fnv ShardCfg Labrpc Rand Tester Config.
From S2P Require Import KvTest KvHistory Rsm ShardKv.
Import ShardTest.

(** ** [checkShutdownSharding] *)

Section Shutdown.
Context (rnd : nat -> list Z) (mks : nat -> nat -> list nat).

(** One value received from the channel: the [Get] of key [i] has returned [v]. *)
Definition get_result (va : list string) (ndone : nat) (iv : nat * string) : go nat :=
  let! expected := slice_get va (Z.of_nat iv.1) in
  if bool_decide (iv.2 ≠ expected) then Fatal "Get: wrong value" else Ok (S ndone).

(** [arrived]: what was received until nothing came for two seconds; there are as many clerks as keys. *)
Definition count_gets (ka va : list string) (arrived : list (nat * string)) : go unit :=
  let! ndone := fold_go (get_result va) arrived 0 in
  if bool_decide (length ka <= ndone) then Fatal "expected less completions with one shard dead" else Ok tt.

(** A clerk for every key. *)
Definition make_clerks (ts : Test) (ka : list string) : go Test :=
  fold_go (fun ts _ => let! r := MakeClerk ts in Ok r.1) ka ts.

Definition checkShutdownSharding (ts : Test) (down up : Tgid) (ka va : list string)
    (arrived : list (nat * string)) : go Test :=
  with_group (ts_cfg ts) down (fun sg =>
    let! r := Shutdown (cfg_lab (ts_cfg ts)) sg in
    let ts := set_cfg ts (set_grps (set_lab (ts_cfg ts) r.1) (<[down := r.2]> (grps (ts_cfg ts)))) in
    let! _ := checkLogs ts [down; up] in
    let! ts := make_clerks ts ka in
    let! _ := count_gets ka va arrived in
    let! cfg := StartServers_of rnd (ts_cfg ts) down mks in Ok (set_cfg ts cfg)).
End Shutdown.

(** ** [partitionCtrler] *)

(** The verdict from the number of the first configuration, the answers to the two queries after the cut,
    and the group; the result is whether the group is to be removed. *)
Definition recovery_check (num : Tnum) (q1 q2 : option ShardConfig * Err) (lastgid : Tgid) : go bool :=
  if bool_decide (q1.2 ≠ OK) then Fatal "Query err"
  else
    match q1.1 with
    | None => Panic "nil pointer dereference"
    | Some cfg =>
        let present := IsMember cfg lastgid in
        let join := bool_decide (num = Num cfg) in
        let leave := bool_decide (num + 1 = Num cfg)%Z in
        let recovery := (negb present && join) || (present && leave) in
        if recovery then
          match q2.1 with
          | None => Panic "nil pointer dereference"
          | Some cfg =>
              let present := IsMember cfg lastgid in
              if (join && negb present) || (leave && present) then Fatal "didn't recover correctly" else Ok present
          end
        else Ok present
    end.

(** The goroutine: not started; before [newGid]; sending the id; before [Join]; in [Join]; in [Leave];
    returned, and after a fatal error. *)
Inductive joiner :=
| JNone
| JTop
| JSend (g : Tgid)
| JJoin (g : Tgid)
| JJoining (g : Tgid)
| JLeaving (g : Tgid)
| JReturned
| JFailed.

(** The caller: at the first query; receiving the id; asleep; after the cut; with the answer to the query; with
    the verdict; removing the group; at the [Get]s; at its end; and after a failure. *)
Inductive caller :=
| MStart
| MRecv (num : Tnum)
| MSleep (num : Tnum) (g : Tgid)
| MQuery (num : Tnum) (g : Tgid)
| MQuery0 (num : Tnum) (g : Tgid) (q1 : option ShardConfig * Err)
| MVerdict (g : Tgid) (r : go bool)
| MCleanup (g : Tgid)
| MGets
| MDone
| MFailed.

(** What the goroutine asks of its controller. *)
Inductive ctrler_call :=
| CJoin (g : Tgid) (srvs : list string)
| CLeave (g : Tgid).

(** The test, what the goroutine has asked for and what the queries have answered so far, the clients that
    were made, and the two goroutines. *)
Record pstate := mkpstate {
  p_ts : Test;
  p_calls : list ctrler_call;
  p_answers : list (option ShardConfig * Err);
  p_clnts : list nat;
  p_joiner : joiner;
  p_caller : caller
}.

(** [err] of a turn of the goroutine's loop. *)
Definition after (err : Err) : joiner :=
  if bool_decide (err = ShardCtrler.ErrDeposed) then JReturned
  else if bool_decide (err ≠ OK) then JFailed else JTop.

(** [clnt.DisconnectAll] of the controller's client. *)
Definition cut_off (ts : Test) (clnt : nat) : Test :=
  let cfg := ts_cfg ts in
  match clerks (cfg_clnts cfg) !! clnt with
  | Some c =>
      let '(rn, c) := Clnt_DisconnectAll (cfg_net cfg) c in
      set_cfg ts (set_clnts (set_net cfg rn)
        (mkClnts (<[clnt := c]> (clerks (cfg_clnts cfg))) (next_clerk (cfg_clnts cfg))))
  | None => ts
  end.

Section Partition.
Context (rnd : nat -> list Z) (mks : nat -> nat -> list nat).

(** The controllers are code that is still to be written: [Join], [Leave] and [Query] may answer anything. *)
Inductive partitionCtrler : pstate -> pstate -> Prop :=
| pc_newGid ts cl an cs m :
    partitionCtrler (mkpstate ts cl an cs JTop m) (mkpstate (newGid ts).1 cl an cs (JSend (newGid ts).2) m)
| pc_send ts cl an cs g num :
    partitionCtrler (mkpstate ts cl an cs (JSend g) (MRecv num)) (mkpstate ts cl an cs (JJoin g) (MSleep num g))
| pc_join ts cl an cs g m cfg sg :
    (** [joinGroups] starts the group and calls [Join] *)
    MakeGroupStart rnd (ts_cfg ts) g NSRV mks = Ok cfg -> Group cfg g = Some sg ->
    partitionCtrler (mkpstate ts cl an cs (JJoin g) m)
      (mkpstate (set_cfg ts cfg) (cl ++ [CJoin g (SrvNames sg)]) an cs (JJoining g) m)
| pc_joined ts cl an cs g m :
    (** [Join] returns [OK]; [leaveGroups] calls [Leave] *)
    partitionCtrler (mkpstate ts cl an cs (JJoining g) m) (mkpstate ts (cl ++ [CLeave g]) an cs (JLeaving g) m)
| pc_join_err ts cl an cs g m err :
    err ≠ OK -> partitionCtrler (mkpstate ts cl an cs (JJoining g) m) (mkpstate ts cl an cs (after err) m)
| pc_left ts cl an cs g m cfg :
    ExitGroup (ts_cfg ts) g = Ok cfg ->
    partitionCtrler (mkpstate ts cl an cs (JLeaving g) m) (mkpstate (set_cfg ts cfg) cl an cs (after OK) m)
| pc_leave_err ts cl an cs g m err :
    err ≠ OK -> partitionCtrler (mkpstate ts cl an cs (JLeaving g) m) (mkpstate ts cl an cs (after err) m)
| pc_first ts cl an cs c err :
    (** a client for the controller, the first query, the goroutine starts *)
    is_Some (Group (ts_cfg ts) Controler) ->
    partitionCtrler (mkpstate ts cl an cs JNone MStart)
      (mkpstate (Test_MakeClient ts).1 cl (an ++ [(Some c, err)]) (cs ++ [(Test_MakeClient ts).2]) JTop (MRecv (Num c)))
| pc_first_nil ts cl an cs err :
    (** the configuration is nil: the number of a nil pointer is a panic *)
    is_Some (Group (ts_cfg ts) Controler) ->
    partitionCtrler (mkpstate ts cl an cs JNone MStart)
      (mkpstate (Test_MakeClient ts).1 cl (an ++ [(None, err)]) (cs ++ [(Test_MakeClient ts).2]) JNone MFailed)
| pc_cut ts cl an clnt cs j num g :
    partitionCtrler (mkpstate ts cl an (clnt :: cs) j (MSleep num g))
      (mkpstate (cut_off ts clnt) cl an (clnt :: cs) j (MQuery num g))
| pc_query ts cl an cs j num g c :
    partitionCtrler (mkpstate ts cl an cs j (MQuery num g))
      (mkpstate ts cl (an ++ [(Some c, OK)]) cs j (MQuery0 num g (Some c, OK)))
| pc_query_fails ts cl an cs j num g q1 :
    q1.2 ≠ OK \/ q1.1 = None ->
    partitionCtrler (mkpstate ts cl an cs j (MQuery num g))
      (mkpstate ts cl (an ++ [q1]) cs j (MVerdict g (recovery_check num q1 q1 g)))
| pc_query0 ts cl an cs j num g q1 q2 :
    (** a second controller with a client of its own *)
    is_Some (Group (ts_cfg ts) Controler) ->
    partitionCtrler (mkpstate ts cl an cs j (MQuery0 num g q1))
      (mkpstate (Test_MakeClient ts).1 cl (an ++ [q2]) (cs ++ [(Test_MakeClient ts).2]) j
         (MVerdict g (recovery_check num q1 q2 g)))
| pc_cleanup ts cl an cs j g :
    partitionCtrler (mkpstate ts cl an cs j (MVerdict g (Ok true))) (mkpstate ts cl an cs j (MCleanup g))
| pc_cleaned ts cl an cs j g cfg :
    ExitGroup (ts_cfg ts) g = Ok cfg ->
    partitionCtrler (mkpstate ts cl an cs j (MCleanup g)) (mkpstate (set_cfg ts cfg) cl an cs j MGets)
| pc_cleanup_err ts cl an cs j g :
    (** the error of [leaveGroups] is ignored *)
    partitionCtrler (mkpstate ts cl an cs j (MCleanup g)) (mkpstate ts cl an cs j MGets)
| pc_no_cleanup ts cl an cs j g :
    partitionCtrler (mkpstate ts cl an cs j (MVerdict g (Ok false))) (mkpstate ts cl an cs j MGets)
| pc_gets_fail ts cl an cs j :
    partitionCtrler (mkpstate ts cl an cs j MGets) (mkpstate ts cl an cs j MFailed)
| pc_gets ts cl an cs j :
    (** [CheckGet] of every key passes; the clients are deleted *)
    partitionCtrler (mkpstate ts cl an cs j MGets) (mkpstate (foldl Test_DeleteClient ts cs) cl an cs j MDone).
End Partition.

Definition partition_start (ts : Test) : pstate := mkpstate ts [] [] [] JNone MStart.

(** ** Members *)

Lemma IsMember_true c g : IsMember c g = true <-> g ∈ Shards c.
Proof.
  unfold IsMember. rewrite existsb_exists. split.
  - intros (x & Hx & ->%bool_decide_eq_true_1). by apply list_elem_of_In.
  - intros Hg. exists g. split; [by apply list_elem_of_In|]. by apply bool_decide_eq_true_2.
Qed.

(** A group that is not in the configuration has no shard. *)
Lemma IsMember_new c g : ShardCfg.cfg_ok c -> Groups c ≠ ∅ -> Groups c !! g = None -> IsMember c g = false.
Proof.
  intros Hc Hne Hg. apply not_true_iff_false. rewrite IsMember_true. intros [i Hi]%list_elem_of_lookup.
  destruct (cfg_some _ Hc Hne) as [Ha _]. destruct (Ha i g Hi) as [x Hx]. congruence.
Qed.

Lemma loads_NoDup (l : list Tgid) : (forall g, load l g <= 1) -> NoDup l.
Proof.
  induction l as [|x l IH]; intros H; [constructor|]. constructor.
  - intros Hx. specialize (H x). unfold load in H. rewrite countb_cons, bool_decide_eq_true_2 in H by done.
    assert (countb (fun y => bool_decide (y = x)) l = 0) as E by lia.
    rewrite countb_zero in E. specialize (E x Hx). by rewrite bool_decide_eq_true_2 in E.
  - apply IH. intros g. specialize (H g). unfold load in *. rewrite countb_cons in H. lia.
Qed.

(** Up to as many groups as shards, every group has a shard. *)
Lemma IsMember_group c g : ShardCfg.cfg_ok c -> size (Groups c) <= 12 -> is_Some (Groups c !! g) -> IsMember c g = true.
Proof.
  intros Hc Hsz Hg. assert (Groups c ≠ ∅) as Hne by (intros E; rewrite E, lookup_empty in Hg; by destruct Hg).
  destruct (cfg_some _ Hc Hne) as [Ha Hb]. apply IsMember_true.
  destruct (decide (g ∈ Shards c)) as [|Hn]; [done|exfalso].
  assert (load (Shards c) g = 0) as H0.
  { apply countb_zero. intros x Hx. apply bool_decide_eq_false_2. by intros ->. }
  assert (NoDup (Shards c)) as Hnd.
  { apply loads_NoDup. intros x. destruct (decide (x ∈ Shards c)) as [[i Hi]%list_elem_of_lookup|Hx].
    - specialize (Hb x g (Ha i x Hi) Hg). lia.
    - unfold load. rewrite (proj2 (countb_zero _ _)); [lia|]. intros y Hy. apply bool_decide_eq_false_2. by intros ->. }
  assert (list_to_set (Shards c) ⊆ dom (Groups c) ∖ {[ g ]}) as Hsub.
  { intros x [i Hi]%elem_of_list_to_set%list_elem_of_lookup. apply elem_of_difference.
    split; [by apply elem_of_dom, (Ha i)|]. intros ->%elem_of_singleton. apply Hn. by eapply list_elem_of_lookup_2. }
  apply subseteq_size in Hsub. rewrite size_list_to_set, (cfg_len _ Hc) in Hsub by done.
  rewrite size_difference, size_singleton, size_dom in Hsub; [lia|].
  intros x ->%elem_of_singleton. by apply elem_of_dom.
Qed.

Lemma join_facts c g srvs c' :
  ShardCfg.cfg_ok c -> Groups c ≠ ∅ -> size (Groups c) < 12 -> JoinBalance [(g, srvs)] c = Ok (Some c') ->
  ShardCfg.cfg_ok c' /\ Num c' = (Num c + 1)%Z /\ Groups c' = <[g := srvs]> (Groups c) /\ IsMember c' g = true.
Proof.
  intros Hc Hne Hsz H. assert (ShardCfg.cfg_ok c') as Hc' by (eapply cfg_ok_step; [done|by eapply cfg_join]).
  split; [done|]. unfold JoinBalance in H. destruct (Join _ c) as [c1| |] eqn:E; simplify_eq/=.
  apply Join_Ok in E as (_ & Hj & ->).
  match type of H with Rebalance ?x = _ =>
    destruct (Rebalance_spec x (cfg_len _ Hc)) as (c2 & E2 & HN & HG & _) end.
  assert (c2 = c') as -> by congruence. simpl in *. rewrite insert_empty, <- insert_union_singleton_l in HG.
  split; [done|]. split; [done|]. apply IsMember_group; [done| |rewrite HG, lookup_insert_eq; eauto].
  rewrite HG, map_size_insert_None; [lia|]. eapply (join_new _ _ Hj). left.
Qed.

Lemma leave_facts c g c' :
  ShardCfg.cfg_ok c -> LeaveBalance [g] c = Ok (Some c') ->
  ShardCfg.cfg_ok c' /\ Num c' = (Num c + 1)%Z /\ (Groups c' ≠ ∅ -> IsMember c' g = false) /\
  forall x, x ≠ g -> Groups c' !! x = Groups c !! x.
Proof.
  intros Hc H. assert (ShardCfg.cfg_ok c') as Hc' by (eapply cfg_ok_step; [done|by eapply cfg_leave]).
  split; [done|]. unfold LeaveBalance in H. destruct (ShardCfg.Leave _ c) as [c1| |] eqn:E; simplify_eq/=.
  apply Leave_Ok in E as (_ & _ & _ & ->).
  match type of H with Rebalance ?x = _ =>
    destruct (Rebalance_spec x (cfg_len _ Hc)) as (c2 & E2 & HN & HG & _) end.
  assert (c2 = c') as -> by congruence. simpl in *. split; [done|]. split.
  - intros Hne. apply IsMember_new; [done|done|]. rewrite HG. apply map_lookup_filter_None_2. right.
    intros x _ Hx. apply Hx. left.
  - intros x Hx. rewrite HG. unfold without. apply option_eq. intros y. rewrite map_lookup_filter_Some. simpl.
    split; [by intros [? _]|]. intros Hy. split; [done|]. by intros ->%list_elem_of_singleton.
Qed.

(** ** What the check finds *)

(** What the check is to find of the group [g] when the configuration was [c0] at first, [Join] makes it [c] and
    [Leave] then [c']: a [Join] or a [Leave] that the first query finds unfinished and the second one finished
    passes, and so does a finished [Leave].  A cut before [Join] or between [Join] and [Leave], which leaves
    nothing to recover, fails the test. *)
Definition verdicts (c0 : ShardConfig) (g : Tgid) (q1 q2 : option ShardConfig * Err) (r : go bool) : Prop :=
  forall srvs c c', ShardCfg.cfg_ok c0 -> Groups c0 ≠ ∅ -> size (Groups c0) < 12 -> Groups c0 !! g = None ->
    JoinBalance [(g, srvs)] c0 = Ok (Some c) -> LeaveBalance [g] c = Ok (Some c') ->
    (q1 = (Some c0, OK) -> q2.1 = Some c -> r = Ok true) /\
    (q1 = (Some c, OK) -> q2.1 = Some c' -> r = Ok false) /\
    (q1 = (Some c', OK) -> r = Ok false) /\
    (q1 = (Some c0, OK) -> q2.1 = Some c0 -> r = Fatal "didn't recover correctly") /\
    (q1 = (Some c, OK) -> q2.1 = Some c -> r = Fatal "didn't recover correctly").

Lemma joined_left c0 g srvs c c' :
  ShardCfg.cfg_ok c0 -> Groups c0 ≠ ∅ -> size (Groups c0) < 12 -> Groups c0 !! g = None ->
  JoinBalance [(g, srvs)] c0 = Ok (Some c) -> LeaveBalance [g] c = Ok (Some c') ->
  IsMember c0 g = false /\ Num c = (Num c0 + 1)%Z /\ IsMember c g = true /\
  Num c' = (Num c0 + 2)%Z /\ IsMember c' g = false.
Proof.
  intros Hc0 Hne Hsz Hnew Hj Hl. destruct (join_facts c0 g srvs c Hc0 Hne Hsz Hj) as (Hok & HN & HG & HM).
  destruct (leave_facts c g c' Hok Hl) as (_ & HN' & Hm & Hgr).
  split_and!; [by apply IsMember_new|done|done|lia|]. apply Hm. intros E. apply map_choose in Hne as (x & y & Hx).
  assert (x ≠ g) as Hxn by congruence. specialize (Hgr x Hxn). rewrite E, HG, lookup_insert_ne in Hgr by done.
  by rewrite lookup_empty, Hx in Hgr.
Qed.

Lemma recovery_check_verdicts c0 g q1 q2 : verdicts c0 g q1 q2 (recovery_check (Num c0) q1 q2 g).
Proof.
  intros srvs c c' Hc0 Hne Hsz Hnew Hj Hl.
  destruct (joined_left c0 g srvs c c' Hc0 Hne Hsz Hnew Hj Hl) as (M0 & HN & M & HN' & M').
  unfold recovery_check. split_and!; intros ->; simpl; try intros ->.
  - rewrite M0, M, bool_decide_eq_true_2 by done. by rewrite bool_decide_eq_false_2 by lia.
  - rewrite M, M', (bool_decide_eq_false_2 (Num c0 = Num c)) by lia. by rewrite bool_decide_eq_true_2 by lia.
  - rewrite M'. by rewrite !bool_decide_eq_false_2 by lia.
  - by rewrite M0, bool_decide_eq_true_2 by done.
  - rewrite M, (bool_decide_eq_false_2 (Num c0 = Num c)) by lia. by rewrite bool_decide_eq_true_2 by lia.
Qed.

(** ** Only one group is ever joined *)

Section OneGroup.
Context (rnd : nat -> list Z) (mks : nat -> nat -> list nat) (ts0 : Test).

Local Abbreviation n := (ngid ts0).
Local Abbreviation step := (partitionCtrler rnd mks).

Definition join_call : ctrler_call := CJoin n (ServerName n <$> seq 0 NSRV).

(** The goroutine after the id has been received: in its first turn, or past it. *)
Definition turned (j : joiner) (next : Tgid) (cl : list ctrler_call) : Prop :=
  match j with
  | JJoin g => g = n /\ next = (n + 1)%Z /\ cl = []
  | JJoining g => g = n /\ next = (n + 1)%Z /\ cl = [join_call]
  | JLeaving g => g = n /\ next = (n + 1)%Z /\ cl = [join_call; CLeave n]
  | JTop => next = (n + 1)%Z /\ cl = [join_call; CLeave n]
  | JSend g => g = (n + 1)%Z /\ cl = [join_call; CLeave n]
  | JReturned | JFailed => cl = [join_call] \/ cl = [join_call; CLeave n]
  | JNone => False
  end.

Definition caller_ok (s : pstate) : Prop :=
  match p_caller s with
  | MStart => p_joiner s = JNone /\ p_calls s = [] /\ p_answers s = [] /\ ngid (p_ts s) = n
  | MRecv num => p_calls s = [] /\ (exists c e, p_answers s = [(Some c, e)] /\ num = Num c) /\
      (p_joiner s = JTop /\ ngid (p_ts s) = n \/ p_joiner s = JSend n /\ ngid (p_ts s) = (n + 1)%Z)
  | MSleep num g | MQuery num g =>
      g = n /\ turned (p_joiner s) (ngid (p_ts s)) (p_calls s) /\
      exists c e, p_answers s = [(Some c, e)] /\ num = Num c
  | MQuery0 num g q1 =>
      g = n /\ turned (p_joiner s) (ngid (p_ts s)) (p_calls s) /\
      exists c e, p_answers s = [(Some c, e); q1] /\ num = Num c
  | MVerdict g r =>
      g = n /\ turned (p_joiner s) (ngid (p_ts s)) (p_calls s) /\
      exists c e q1 q2, (p_answers s = [(Some c, e); q1] \/ p_answers s = [(Some c, e); q1; q2]) /\
        r = recovery_check (Num c) q1 q2 g
  | MCleanup g => g = n /\ turned (p_joiner s) (ngid (p_ts s)) (p_calls s)
  | MGets | MDone => turned (p_joiner s) (ngid (p_ts s)) (p_calls s)
  | MFailed => p_joiner s = JNone /\ p_calls s = [] \/ turned (p_joiner s) (ngid (p_ts s)) (p_calls s)
  end.

(** The groups but the new one are as they were. *)
Definition groups_kept (s : pstate) : Prop :=
  forall g, g ≠ n -> Group (ts_cfg (p_ts s)) g = Group (ts_cfg ts0) g.

Lemma started_group ts g cfg sg :
  MakeGroupStart rnd (ts_cfg ts) g NSRV mks = Ok cfg -> Group cfg g = Some sg ->
  SrvNames sg = ServerName g <$> seq 0 NSRV.
Proof using Type.
  intros (sg' & HG & HS & _)%MakeGroupStart_group Hg. unfold Group, lookupGroup in Hg.
  rewrite HG, lookup_insert_eq in Hg. by injection Hg as ->.
Qed.

Lemma cut_off_groups ts clnt : grps (ts_cfg (cut_off ts clnt)) = grps (ts_cfg ts) /\ ngid (cut_off ts clnt) = ngid ts.
Proof using Type. unfold cut_off. by destruct (clerks _ !! clnt). Qed.

Lemma deleted_groups cs ts :
  grps (ts_cfg (foldl Test_DeleteClient ts cs)) = grps (ts_cfg ts) /\ ngid (foldl Test_DeleteClient ts cs) = ngid ts.
Proof using Type. revert ts. induction cs as [|c cs IH]; intros ts; [done|]. simpl. by destruct (IH (Test_DeleteClient ts c)) as [-> ->]. Qed.

Lemma turned_after err next cl :
  err ≠ OK -> cl = [join_call] \/ cl = [join_call; CLeave n] -> turned (after err) next cl.
Proof using Type. intros He Hc. unfold after. case_bool_decide; [done|]. by rewrite bool_decide_eq_true_2. Qed.

(** A step of the goroutine alone, with the caller at [m]. *)
Lemma joiner_ok ts cl an cs j m ts' cl' j' :
  caller_ok (mkpstate ts cl an cs j m) -> j ≠ JNone ->
  (turned j (ngid ts) cl -> turned j' (ngid ts') cl') ->
  (forall num, m = MRecv num -> cl' = cl /\ j = JTop /\ j' = JSend (ngid ts) /\ ngid ts' = (ngid ts + 1)%Z) ->
  caller_ok (mkpstate ts' cl' an cs j' m).
Proof using Type.
  intros Hi Hj Ht Hm. unfold caller_ok in *.
  destruct m as [|num|num g|num g|num g q1|g r|g| | |]; simpl in *; [by destruct Hi| |..].
  { destruct (Hm num eq_refl) as (-> & -> & -> & ->). destruct Hi as (-> & Ha & [[_ E]|[? _]]); [|done].
    rewrite E. split_and!; [done|done|by right]. }
  8: destruct Hi as [[? _]|Hi]; [done|right; auto].
  all: destruct_and?; split_and?; auto.
Qed.

Lemma caller_ok_step s s' : caller_ok s -> step s s' -> caller_ok s'.
Proof using Type.
  intros Hi Hs. destruct Hs as [ts cl an cs m|ts cl an cs g num|ts cl an cs g m cfg sg Hg Hsg|ts cl an cs g m|
    ts cl an cs g m err He|ts cl an cs g m cfg Hx|ts cl an cs g m err He|ts cl an cs c err Hc|ts cl an cs err Hc|
    ts cl an clnt cs j num g|ts cl an cs j num g c|ts cl an cs j num g q1 Hq|ts cl an cs j num g q1 q2 Hc|
    ts cl an cs j g|ts cl an cs j g cfg Hx|ts cl an cs j g|ts cl an cs j g|ts cl an cs j|ts cl an cs j].
  - eapply joiner_ok; [exact Hi|done| |done]. intros [E ->]. split; [exact E|done].
  - unfold caller_ok in *. simpl in *. naive_solver.
  - assert (forall num, m ≠ MRecv num) as Hm by (intros num ->; unfold caller_ok in Hi; simpl in Hi; naive_solver).
    eapply joiner_ok; [exact Hi|done| |naive_solver]. simpl. rewrite (started_group ts g cfg sg Hg Hsg).
    intros (-> & -> & ->). done.
  - assert (forall num, m ≠ MRecv num) as Hm by (intros num ->; unfold caller_ok in Hi; simpl in Hi; naive_solver).
    eapply joiner_ok; [exact Hi|done| |naive_solver]. simpl. intros (-> & -> & ->). done.
  - assert (forall num, m ≠ MRecv num) as Hm by (intros num ->; unfold caller_ok in Hi; simpl in Hi; naive_solver).
    eapply joiner_ok; [exact Hi|done| |naive_solver]. simpl. intros (-> & -> & ->). apply turned_after; auto.
  - assert (forall num, m ≠ MRecv num) as Hm by (intros num ->; unfold caller_ok in Hi; simpl in Hi; naive_solver).
    eapply joiner_ok; [exact Hi|done| |naive_solver]. simpl. intros (-> & -> & ->). done.
  - assert (forall num, m ≠ MRecv num) as Hm by (intros num ->; unfold caller_ok in Hi; simpl in Hi; naive_solver).
    eapply joiner_ok; [exact Hi|done| |naive_solver]. simpl. intros (-> & -> & ->). apply turned_after; auto.
  - unfold caller_ok in *. simpl in *. destruct Hi as (_ & -> & -> & ->). naive_solver.
  - unfold caller_ok in *. simpl in *. naive_solver.
  - unfold caller_ok in *. simpl in *. by rewrite (proj2 (cut_off_groups ts clnt)).
  - unfold caller_ok in *. simpl in *. destruct Hi as (-> & Ht & c0 & e & -> & ->). naive_solver.
  - unfold caller_ok in *. simpl in *. destruct Hi as (-> & Ht & c0 & e & -> & ->). split_and!; [done|done|].
    exists c0, e, q1, q1. auto.
  - unfold caller_ok in *. simpl in *. destruct Hi as (-> & Ht & c0 & e & -> & ->). split_and!; [done|done|].
    exists c0, e, q1, q2. auto.
  - unfold caller_ok in *. simpl in *. naive_solver.
  - unfold caller_ok in *. simpl in *. naive_solver.
  - unfold caller_ok in *. simpl in *. naive_solver.
  - unfold caller_ok in *. simpl in *. naive_solver.
  - unfold caller_ok in *. simpl in *. auto.
  - unfold caller_ok in *. simpl in *. by rewrite (proj2 (deleted_groups cs ts)).
Qed.

Lemma caller_ok_run s : rtc step (partition_start ts0) s -> caller_ok s.
Proof using Type.
  intros Hr. eapply (rtc_invariant step caller_ok); [apply caller_ok_step| |exact Hr]. done.
Qed.

(** The calls so far, in every state. *)
Lemma caller_ok_calls s : caller_ok s -> p_calls s `prefix_of` [join_call; CLeave n].
Proof using Type.
  assert (forall j x cl, turned j x cl -> cl `prefix_of` [join_call; CLeave n]) as Ht.
  { intros j x cl H. assert (cl = [] \/ cl = [join_call] \/ cl = [join_call; CLeave n]) as [-> |[-> | ->]].
    { destruct j; simpl in H; naive_solver. }
    - apply prefix_nil.
    - by exists [CLeave n].
    - done. }
  unfold caller_ok. intros H. destruct (p_caller s); destruct_and?; try (by eapply Ht);
    try (match goal with E : p_calls s = [] |- _ => rewrite E end; apply prefix_nil).
  destruct H as [[_ ->]|H]; [apply prefix_nil|by eapply Ht].
Qed.

Lemma groups_kept_step s s' : caller_ok s -> groups_kept s -> step s s' -> groups_kept s'.
Proof using Type.
  intros Hi Hk Hs g Hg. rewrite <- (Hk g Hg). clear Hk.
  assert (forall j x cl g', turned j x cl -> j = JJoin g' \/ j = JLeaving g' -> g' = n) as Ht.
  { intros j x cl g' Hj [-> | ->]; simpl in Hj; naive_solver. }
  assert (forall g', p_joiner s = JJoin g' \/ p_joiner s = JLeaving g' -> g' = n) as Hj.
  { unfold caller_ok in Hi. intros g' Hg'. destruct (p_caller s); destruct_and?; try (by eapply Ht).
    - destruct Hg'; congruence.
    - destruct_or?; destruct_and?; congruence.
    - destruct Hi as [[? _]|Hi]; [destruct Hg'; congruence|by eapply Ht]. }
  assert (forall g', p_caller s = MCleanup g' -> g' = n) as Hm.
  { intros g' E. unfold caller_ok in Hi. rewrite E in Hi. by destruct Hi. }
  unfold Group, lookupGroup. destruct Hs; simpl in *; try done.
  - match goal with H : MakeGroupStart _ _ _ _ _ = _ |- _ => apply MakeGroupStart_group in H as (sg' & HG & _) end.
    rewrite ts_cfg_set, HG, lookup_insert_ne; [done|]. intros ->. apply Hg, Hj. by left.
  - match goal with H : ExitGroup _ _ = _ |- _ => apply ExitGroup_grps in H as HG end.
    rewrite ts_cfg_set, HG, lookup_delete_ne; [done|]. intros ->. apply Hg, Hj. by right.
  - by rewrite (proj1 (cut_off_groups _ _)).
  - match goal with H : ExitGroup _ _ = _ |- _ => apply ExitGroup_grps in H as HG end.
    rewrite ts_cfg_set, HG, lookup_delete_ne; [done|]. intros ->. by apply Hg, Hm.
  - by rewrite (proj1 (deleted_groups _ _)).
Qed.

Lemma groups_kept_run s : rtc step (partition_start ts0) s -> groups_kept s.
Proof using Type.
  intros Hr. assert (caller_ok s /\ groups_kept s) as [_ ?]; [|done].
  eapply (rtc_invariant step (fun s => caller_ok s /\ groups_kept s)); [| |exact Hr]; [|by split].
  intros x y [H1 H2] Hs. split; [by eapply caller_ok_step|by eapply groups_kept_step].
Qed.

(** The goroutine cannot send a second id. *)
Lemma blocked_step s s' :
  caller_ok s -> p_joiner s = JSend (n + 1) -> step s s' -> p_joiner s' = JSend (n + 1).
Proof using Type.
  intros Hi Hj Hs. destruct Hs; simpl in *; try done; try congruence. unfold caller_ok in Hi. simpl in Hi.
  destruct Hi as (_ & _ & [[E _]|[E _]]); [congruence|]. rewrite Hj in E. injection E as E. lia.
Qed.

Lemma blocked_run s s' :
  caller_ok s -> p_joiner s = JSend (n + 1) -> rtc step s s' -> p_joiner s' = JSend (n + 1).
Proof using Type.
  intros Hi Hj Hr. induction Hr as [|x y z Hs _ IH]; [done|].
  apply IH; [by eapply caller_ok_step|by eapply blocked_step].
Qed.
End OneGroup.

(** C26: [partitionCtrler] tries one group only, and what its check finds.  The controllers may answer anything,
    and the two goroutines run in any order.  The goroutine asks its controller for nothing but the [Join] of the
    first new group, with its three servers, and then its [Leave]; the groups of the test are otherwise as they
    were.  Its loop does not go round: the second id is sent on a channel that nobody receives from, so that it
    waits there for ever.  The verdict is about the first new group and is [recovery_check] of the three answers
    to the queries.  When these are answers about a configuration that the group joins and leaves ([verdicts]), a
    change that has been finished in the meantime passes; but a cut before [Join] or between [Join] and [Leave],
    which leaves nothing to recover, fails the test. *)
Theorem partition_one_group rnd mks ts0 s :
  rtc (partitionCtrler rnd mks) (partition_start ts0) s ->
  p_calls s `prefix_of` [CJoin (ngid ts0) (ServerName (ngid ts0) <$> seq 0 3); CLeave (ngid ts0)] /\
  (forall g, g ≠ ngid ts0 -> Group (ts_cfg (p_ts s)) g = Group (ts_cfg ts0) g) /\
  (forall s', p_joiner s = JSend (ngid ts0 + 1) -> rtc (partitionCtrler rnd mks) s s' ->
     p_joiner s' = JSend (ngid ts0 + 1)) /\
  (forall g r, p_caller s = MVerdict g r -> g = ngid ts0 /\
     exists c0 e0 q1 q2, (p_answers s = [(Some c0, e0); q1] \/ p_answers s = [(Some c0, e0); q1; q2]) /\
       r = recovery_check (Num c0) q1 q2 g /\ verdicts c0 g q1 q2 r).
Proof.
  intros Hr. pose proof (caller_ok_run rnd mks ts0 s Hr) as Hi. split_and!.
  - by apply caller_ok_calls.
  - by eapply groups_kept_run.
  - intros s' Hj Hr'. by eapply blocked_run.
  - intros g r E. unfold caller_ok in Hi. rewrite E in Hi. destruct Hi as (-> & _ & c0 & e0 & q1 & q2 & Ha & ->).
    split; [done|]. exists c0, e0, q1, q2. split_and!; [done|done|]. apply recovery_check_verdicts.
Qed.

(** A test with a group of controllers and the next group 3. *)
Definition demo_part_test : Test :=
  mkTest (KvHistory.MakeTest (mkConfig (mklab MakeNetwork ∅ 0 []) {[ Controler := demo_grp ]} makeClnts false 0 0 0 0 0 0)
    false) "" (-1) 3.

(** The controller is cut off before it is asked to join group 3; both queries answer [demo_joined]. *)
Lemma partition_one_group_witness :
  exists s, rtc (partitionCtrler demo_rnd (fun _ _ => [])) (partition_start demo_part_test) s /\
    p_caller s = MVerdict 3 (Fatal "didn't recover correctly") /\
    p_calls s `prefix_of` [CJoin 3 ["server-3-0"; "server-3-1"; "server-3-2"]; CLeave 3].
Proof.
  set (q := (Some demo_joined, OK)).
  assert (exists s, rtc (partitionCtrler demo_rnd (fun _ _ => [])) (partition_start demo_part_test) s /\
    p_caller s = MVerdict 3 (recovery_check (Num demo_joined) q q 3)) as (s & Hs & Hv).
  { eexists. split.
    - eapply rtc_l; [apply (pc_first _ _ _ _ _ _ demo_joined OK); by eexists|].
      eapply rtc_l; [apply pc_newGid|]. eapply rtc_l; [apply pc_send|]. eapply rtc_l; [apply pc_cut|].
      eapply rtc_l; [apply (pc_query _ _ _ _ _ _ _ _ _ demo_joined)|].
      eapply rtc_l; [apply (pc_query0 _ _ _ _ _ _ _ _ _ _ q); by eexists|]. apply rtc_refl.
    - reflexivity. }
  exists s. split; [exact Hs|].
  destruct (partition_one_group demo_rnd (fun _ _ => []) demo_part_test s Hs) as (H1 & _ & _ & H4).
  split; [|exact H1]. rewrite Hv. vm_compute. reflexivity.
Defined.


(** ** The keys of the tests hit both groups *)

(** The [Get] of the [i]th key can complete while group [down] is shut down. *)
Definition served (c : ShardConfig) (down : Tgid) (ka : list string) (i : nat) : Prop :=
  exists k g, ka !! i = Some k /\ Shards c !! Z.to_nat (Key2Shard k) = Some g /\ g ≠ down.

Lemma load_two (l : list Tgid) g g' : g ≠ g' -> (forall x, x ∈ l -> x = g \/ x = g') -> load l g + load l g' = length l.
Proof.
  intros Hne. induction l as [|x l IH]; intros H; [done|]. unfold load in *. rewrite !countb_cons. simpl.
  assert (countb (fun y => bool_decide (y = g)) l + countb (fun y => bool_decide (y = g')) l = length l) as IH'.
  { apply IH. intros y Hy. apply H. by right. }
  destruct (H x (list_elem_of_here _ _)) as [->| ->].
  - rewrite bool_decide_eq_true_2, bool_decide_eq_false_2 by done. lia.
  - rewrite (bool_decide_eq_false_2 (g' = g)), bool_decide_eq_true_2 by done. lia.
Qed.

Lemma two_groups_load c g g' :
  ShardCfg.cfg_ok c -> g ≠ g' -> dom (Groups c) = {[ g; g' ]} -> 6 <= load (Shards c) g.
Proof.
  intros Hc Hne Hd. assert (is_Some (Groups c !! g) /\ is_Some (Groups c !! g')) as [Hg Hg'].
  { rewrite <- !elem_of_dom, Hd. set_solver. }
  assert (Groups c ≠ ∅) as He by (intros E; rewrite E, lookup_empty in Hg; by destruct Hg).
  destruct (cfg_some _ Hc He) as [Ha Hb]. specialize (Hb g' g Hg' Hg).
  assert (load (Shards c) g + load (Shards c) g' = 12) as Hl; [|lia].
  rewrite <- (cfg_len _ Hc). apply load_two; [done|]. intros x [i Hi]%list_elem_of_lookup.
  apply Ha in Hi. rewrite <- elem_of_dom, Hd in Hi. set_solver.
Qed.

(** The shards of the twelve keys: all but 1, 2, 3 and 4. *)
Definition key_shards : list nat := [10; 9; 0; 11; 6; 5; 8; 7; 6; 5; 7; 8].

Lemma not_served c down i s :
  key_shards !! i = Some s -> Shards c !! s = Some down -> ~ served c down (MakeKeys 12) i.
Proof.
  intros Hs Hd (k & g & Hk & Hg & Hne). assert (((fun k => Z.to_nat (Key2Shard k)) <$> MakeKeys 12) = key_shards) as E
    by (vm_compute; reflexivity).
  rewrite <- E, list_lookup_fmap, Hk in Hs. simpl in Hs. injection Hs as <-. congruence.
Qed.

(** Some key hashes to a shard of every group that has five shards. *)
Lemma five_shards_hit c down :
  length (Shards c) = 12 -> 5 <= load (Shards c) down -> exists i, i < 12 /\ ~ served c down (MakeKeys 12) i.
Proof.
  intros Hlen Hl.
  assert (exists i s, i < 12 /\ key_shards !! i = Some s /\ Shards c !! s = Some down) as (i & s & Hi & Hk & Hd);
    [|eauto using not_served].
  destruct (Shards c) as [|s0 [|s1 [|s2 [|s3 [|s4 [|s5 [|s6 [|s7 [|s8 [|s9 [|s10 [|s11 [|]]]]]]]]]]]]]; try done.
  unfold load in Hl. rewrite !countb_cons in Hl. change (countb _ []) with 0 in Hl.
  destruct (decide (s0 = down)) as [->|N0]; [exists 2, 0; split_and!; [lia|done..]|].
  destruct (decide (s5 = down)) as [->|N5]; [exists 5, 5; split_and!; [lia|done..]|].
  destruct (decide (s6 = down)) as [->|N6]; [exists 4, 6; split_and!; [lia|done..]|].
  destruct (decide (s7 = down)) as [->|N7]; [exists 7, 7; split_and!; [lia|done..]|].
  destruct (decide (s8 = down)) as [->|N8]; [exists 6, 8; split_and!; [lia|done..]|].
  destruct (decide (s9 = down)) as [->|N9]; [exists 1, 9; split_and!; [lia|done..]|].
  destruct (decide (s10 = down)) as [->|N10]; [exists 0, 10; split_and!; [lia|done..]|].
  destruct (decide (s11 = down)) as [->|N11]; [exists 3, 11; split_and!; [lia|done..]|].
  rewrite (bool_decide_eq_false_2 _ N0), (bool_decide_eq_false_2 _ N5), (bool_decide_eq_false_2 _ N6) in Hl.
  rewrite (bool_decide_eq_false_2 _ N7), (bool_decide_eq_false_2 _ N8), (bool_decide_eq_false_2 _ N9) in Hl.
  rewrite (bool_decide_eq_false_2 _ N10), (bool_decide_eq_false_2 _ N11) in Hl.
  repeat case_bool_decide; lia.
Qed.

Lemma get_result_eq va k iv x :
  va !! iv.1 = Some x -> get_result va k iv = if bool_decide (iv.2 = x) then Ok (S k) else Fatal "Get: wrong value".
Proof.
  intros Hx. unfold get_result. rewrite (proj2 (slice_get_Ok va _ x)) by (split; [lia|by rewrite Nat2Z.id]).
  simpl. repeat case_bool_decide; done.
Qed.

(** The [Get]s that complete with the values of the keys. *)
Lemma get_results va arrived k :
  (forall iv, iv ∈ arrived -> va !! iv.1 = Some iv.2) -> fold_go (get_result va) arrived k = Ok (k + length arrived).
Proof.
  revert k. induction arrived as [|iv arrived IH]; intros k H; cbn [fold_go length]; [by rewrite Nat.add_0_r|].
  rewrite (get_result_eq va k iv iv.2), bool_decide_eq_true_2 by (done || (apply H; left)). simpl.
  rewrite IH by (intros; apply H; by right). f_equal. lia.
Qed.

(** One that returns another value. *)
Lemma get_results_wrong va arrived k iv :
  (forall i, i ∈ arrived.*1 -> i < length va) -> iv ∈ arrived -> va !! iv.1 ≠ Some iv.2 ->
  fold_go (get_result va) arrived k = Fatal "Get: wrong value".
Proof.
  revert k. induction arrived as [|x arrived IH]; intros k Hlt Hiv Hw; [by apply elem_of_nil in Hiv|]. cbn [fold_go].
  destruct (lookup_lt_is_Some_2 va x.1) as [y Hy]; [apply Hlt; left|].
  rewrite (get_result_eq va k x y Hy). case_bool_decide as E; [|done]. simpl. subst y.
  apply elem_of_cons in Hiv as [->|Hiv]; [done|]. apply IH; [|done..]. intros i Hi. apply Hlt. by right.
Qed.

Lemma count_gets_right ka va arrived :
  (forall iv, iv ∈ arrived -> va !! iv.1 = Some iv.2) ->
  count_gets ka va arrived =
    if bool_decide (length ka <= length arrived) then Fatal "expected less completions with one shard dead" else Ok tt.
Proof. intros H. unfold count_gets. by rewrite get_results. Qed.

(** The twelve keys of the tests, two groups, one of which is down: at most eleven [Get]s are served. *)
Lemma served_few c down up arrived :
  ShardCfg.cfg_ok c -> down ≠ up -> dom (Groups c) = {[ down; up ]} -> NoDup arrived -> (forall i, i ∈ arrived -> i < 12) ->
  (forall i, i ∈ arrived -> served c down (MakeKeys 12) i) -> length arrived < 12.
Proof.
  intros Hc Hne Hd Hnd Hlt Hok.
  destruct (five_shards_hit c down (cfg_len _ Hc)) as (i & Hi & Hn);
    [pose proof (two_groups_load c down up Hc Hne Hd); lia|].
  assert (i ∉ arrived) as Hni by (intros Hx; by apply Hn, Hok).
  assert (length (i :: arrived) <= length (seq 0 12)) as Hle.
  { apply submseteq_length, NoDup_submseteq; [by constructor|]. intros x Hx. apply elem_of_seq.
    apply elem_of_cons in Hx as [->|Hx%Hlt]; lia. }
  rewrite length_cons, length_seq in Hle. lia.
Qed.

Lemma MakeClerk_Ok ts :
  is_Some (Group (ts_cfg ts) Controler) ->
  exists cs r, MakeClerk ts = Ok (set_cfg ts (set_clnts (ts_cfg ts) cs), r).
Proof.
  assert (forall t, exists cs c, Test_MakeClient t = (set_cfg t (set_clnts (ts_cfg t) cs), c)) as Hm
    by (intros t; by eexists _, _).
  intros [sg Hs]. unfold MakeClerk. destruct (Hm ts) as (cs & c & ->). set (t1 := set_cfg _ _).
  assert (Group (ts_cfg t1) Controler = Some sg) as H1 by done.
  unfold makeQueryClerk, with_group. rewrite H1. destruct (Hm t1) as (cs' & c' & ->). by eexists cs', _.
Qed.

Lemma make_clerks_Ok ka ts :
  is_Some (Group (ts_cfg ts) Controler) ->
  exists cs, make_clerks ts ka = Ok (set_cfg ts (set_clnts (ts_cfg ts) cs)).
Proof.
  unfold make_clerks. revert ts. induction ka as [|k ka IH]; intros ts Hs.
  { exists (cfg_clnts (ts_cfg ts)). by destruct ts as [[[] ?] ? ? ?]. }
  destruct (MakeClerk_Ok ts Hs) as (cs & r & E). cbn [fold_go]. rewrite E. cbn [go_bind fst].
  destruct (IH (set_cfg ts (set_clnts (ts_cfg ts) cs)) Hs) as [cs' ->]. by exists cs'.
Qed.

(** The test with group [g] shut down. *)
Definition shut_down (ts : Test) (g : Tgid) (l1 : lab) (sg1 : ServerGrp) : Test :=
  set_cfg ts (set_grps (set_lab (ts_cfg ts) l1) (<[g := sg1]> (grps (ts_cfg ts)))).

(** C33: [checkShutdownSharding] tells whether the data is sharded.  In a test whose groups run, the controllers' among
    them, with two groups in a configuration [c] that [JoinBalance] and [LeaveBalance] reach, and with the twelve keys [MakeKeys 12] of the
    tests, it shuts the group [down] down, so that none of its servers can be reached.  When the logs
    pass [checkLogs]:
    - if the [Get]s that complete are those of keys whose shard the other group has, and return the values put, it
      passes, whichever of them complete, and then the same groups run again;
    - if the [Get]s of all twelve keys complete, it fails; and it fails if a [Get] returns another value.
    When the logs do not pass, it fails in any case. *)
Theorem shutdown_check_tells rnd N mks ts down up sg c va arrived :
  (forall k, length (rnd k) = 40) -> (forall k, Forall byte (rnd k)) ->
  (forall i j, i < N -> j < N -> take 15 (rnd i) = take 15 (rnd j) -> i = j) ->
  Config.cfg_ok (nm rnd N) (ts_cfg ts) -> is_Some (Group (ts_cfg ts) Controler) -> Group (ts_cfg ts) down = Some sg ->
  drawn (ts_cfg ts) + SrvN sg * SrvN sg <= N ->
  rtc ShardCfg.cfg_step MakeShardConfig c -> down ≠ up -> dom (Groups c) = {[ down; up ]} -> length va = 12 ->
  NoDup arrived.*1 -> (forall i, i ∈ arrived.*1 -> i < 12) ->
  exists l1 sg1, Shutdown (cfg_lab (ts_cfg ts)) sg = Ok (l1, sg1) /\
    (forall a, a < SrvN sg -> server_of (lab_net l1) (ServerName down a) = None) /\
    (checkLogs (shut_down ts down l1 sg1) [down; up] = Ok tt ->
      ((forall iv, iv ∈ arrived -> va !! iv.1 = Some iv.2 /\ served c down (MakeKeys 12) iv.1) ->
        exists ts', checkShutdownSharding rnd mks ts down up (MakeKeys 12) va arrived = Ok ts' /\
          Config.cfg_ok (nm rnd N) (ts_cfg ts') /\ dom (grps (ts_cfg ts')) = dom (grps (ts_cfg ts))) /\
      ((forall iv, iv ∈ arrived -> va !! iv.1 = Some iv.2) -> length arrived = 12 ->
        checkShutdownSharding rnd mks ts down up (MakeKeys 12) va arrived =
          Fatal "expected less completions with one shard dead") /\
      (forall iv, iv ∈ arrived -> va !! iv.1 ≠ Some iv.2 ->
        checkShutdownSharding rnd mks ts down up (MakeKeys 12) va arrived = Fatal "Get: wrong value")) /\
    (forall m, checkLogs (shut_down ts down l1 sg1) [down; up] = Fatal m ->
      checkShutdownSharding rnd mks ts down up (MakeKeys 12) va arrived = Fatal m).
Proof.
  intros Hlen Hbytes Hdiff K Hctl Hg HN Hr Hne Hd Hva Hnd Hlt.
  assert (ShardCfg.cfg_ok c) as Hc by (eapply rtc_invariant; [apply ShardCfg.cfg_ok_step|apply ShardCfg.cfg_ok_start|done]).
  destruct (restart_Ok rnd N Hlen Hbytes Hdiff (ts_cfg ts) down sg mks K Hg HN) as (l1 & sg1 & Es & Hdown & _).
  assert (exists cs, make_clerks (shut_down ts down l1 sg1) (MakeKeys 12) =
    Ok (shut_down (set_cfg ts (set_clnts (ts_cfg ts) cs)) down l1 sg1)) as [cs Ecs].
  { apply make_clerks_Ok. destruct Hctl as [sgc Hctl]. unfold shut_down, Group, lookupGroup in *. rewrite ts_cfg_set. simpl.
    destruct (decide (down = Controler)) as [->|Hn]; [rewrite lookup_insert_eq; by eexists|].
    rewrite lookup_insert_ne by done. by eexists. }
  destruct (restart_Ok rnd N Hlen Hbytes Hdiff (set_clnts (ts_cfg ts) cs) down sg mks)
    as (l2 & sg2 & Es2 & _ & cfg' & sg' & Est & K' & Eg & _); [by apply (cfg_ok_settings rnd N (ts_cfg ts))|done|done|].
  change (cfg_lab (set_clnts (ts_cfg ts) cs)) with (cfg_lab (ts_cfg ts)) in Es2. rewrite Es in Es2. injection Es2 as <- <-.
  exists l1, sg1. split; [done|]. split; [done|].
  unfold checkShutdownSharding, with_group. rewrite Hg, Es. cbn [go_bind fst snd]. fold (shut_down ts down l1 sg1).
  split; [|by intros m ->]. intros ->. cbn [go_bind]. rewrite Ecs. cbn [go_bind]. split_and!.
  - intros Hok. rewrite count_gets_right by naive_solver. rewrite bool_decide_eq_false_2.
    + cbn [go_bind]. unfold shut_down at 1. rewrite !ts_cfg_set, Est. cbn [go_bind]. eexists. split; [done|].
      rewrite ts_cfg_set. split; [done|]. rewrite Eg, dom_insert_L.
      assert (down ∈ dom (grps (ts_cfg ts))) by (apply elem_of_dom; by eexists). set_solver.
    + unfold MakeKeys. rewrite length_fmap, length_seq. rewrite <- (length_fmap fst). apply Nat.lt_nge.
      apply (served_few c down up); try done. intros i (iv & -> & Hiv)%list_elem_of_fmap. by apply Hok.
  - intros Hok Hl. rewrite count_gets_right by done. by rewrite Hl.
  - intros iv Hiv Hw. unfold count_gets. by rewrite (get_results_wrong va arrived 0 iv) by (done || by rewrite Hva).
Qed.

(** Two groups of one server each. *)
Definition demo_two_groups : Config :=
  match (let! cfg := MakeConfig demo_rnd 1 true (fun _ _ => []) 0 in
         let! cfg := MakeGroupStart demo_rnd cfg 1 1 (fun _ _ => []) in
         MakeGroupStart demo_rnd cfg 2 1 (fun _ _ => [])) with
  | Ok cfg => cfg
  | _ => mkConfig (mklab MakeNetwork ∅ 0 []) ∅ makeClnts false 0 0 0 0 0 0
  end.

Definition demo_two_test : Test := mkTest (KvHistory.MakeTest demo_two_groups false) "" (-1) 3.

Lemma demo_two_ok :
  Config.cfg_ok (nm demo_rnd 256) demo_two_groups /\
  is_Some (Group demo_two_groups 0) /\
  exists sg, Group demo_two_groups 1 = Some sg /\ SrvN sg = 1 /\ drawn demo_two_groups = 6.
Proof.
  destruct (MakeConfig_Ok demo_rnd 256 (fun _ => eq_refl) demo_rnd_bytes demo_rnd_diff 1 true (fun _ _ => []) 0)
    as (cfg & E0 & K0 & _ & D0 & G0); [lia|].
  destruct (MakeGroupStart_Ok demo_rnd 256 (fun _ => eq_refl) demo_rnd_bytes demo_rnd_diff cfg 1 1 (fun _ _ => []))
    as (cfg1 & E1 & K1 & D1); [done| |lia|].
  { apply eq_None_not_Some. by rewrite G0. }
  destruct (MakeGroupStart_group demo_rnd cfg 1 1 (fun _ _ => []) cfg1 E1) as (sg1 & H1 & _ & N1).
  destruct (MakeGroupStart_Ok demo_rnd 256 (fun _ => eq_refl) demo_rnd_bytes demo_rnd_diff cfg1 2 1 (fun _ _ => []))
    as (cfg2 & E2 & K2 & D2); [done| |lia|].
  { unfold Group, lookupGroup. rewrite H1, lookup_insert_ne by done. apply eq_None_not_Some.
    change (~ is_Some (Group cfg 2)). by rewrite G0. }
  destruct (MakeGroupStart_group demo_rnd cfg1 2 1 (fun _ _ => []) cfg2 E2) as (sg2 & H2 & _ & _).
  assert (demo_two_groups = cfg2) as ->.
  { unfold demo_two_groups. rewrite E0. cbn [go_bind]. rewrite E1. cbn [go_bind]. by rewrite E2. }
  split; [done|]. split.
  { unfold Group, lookupGroup. rewrite H2, lookup_insert_ne, H1, lookup_insert_ne by done. by apply (G0 0%Z). }
  exists sg1. unfold Group, lookupGroup. rewrite H2, lookup_insert_ne, H1, lookup_insert_eq by done.
  split_and!; [done|done|lia].
Qed.

Lemma demo_two_logs :
  match Group (ts_cfg demo_two_test) 1 with
  | Some sg =>
      match Shutdown (cfg_lab (ts_cfg demo_two_test)) sg with
      | Ok (l1, sg1) => checkLogs (shut_down demo_two_test 1 l1 sg1) [1; 2]%Z = Ok tt
      | _ => False
      end
  | None => False
  end.
Proof. vm_compute. reflexivity. Qed.

(** Group 1 of [demo_joined] is down: the key [k0] is in its shard 10, the key [k2] in shard 0 of group 2. *)
Lemma shutdown_check_tells_witness :
  exists ts', checkShutdownSharding demo_rnd (fun _ _ => []) demo_two_test 1 2 (MakeKeys 12) (replicate 12 "v") [(2, "v")]
    = Ok ts' /\ Config.cfg_ok (nm demo_rnd 256) (ts_cfg ts').
Proof.
  destruct demo_two_ok as (K & Hc & sg & Hg & Hn & Hd).
  destruct (shutdown_check_tells demo_rnd 256 (fun _ _ => []) demo_two_test 1 2 sg demo_joined (replicate 12 "v") [(2, "v")])
    as (l1 & sg1 & Es & _ & H & _).
  - reflexivity.
  - exact demo_rnd_bytes.
  - exact demo_rnd_diff.
  - exact K.
  - exact Hc.
  - exact Hg.
  - change (drawn (ts_cfg demo_two_test)) with (drawn demo_two_groups). rewrite Hn, Hd. simpl. lia.
  - exact demo_joined_reachable.
  - done.
  - apply (bool_decide_unpack _). vm_compute. exact I.
  - done.
  - apply (bool_decide_unpack _). vm_compute. exact I.
  - intros i Hi. apply list_elem_of_singleton in Hi as ->. simpl. lia.
  - destruct H as (H & _).
    + pose proof demo_two_logs as HL. change (Group (ts_cfg demo_two_test) 1) with (Group demo_two_groups 1) in HL.
      rewrite Hg, Es in HL. exact HL.
    + destruct H as (ts' & E & K' & _); [|exists ts'; split; [exact E|exact K']].
      intros iv ->%list_elem_of_singleton. split; [done|]. exists "k2", 2%Z. split_and!; [done|by vm_compute|done].
Defined.
